(* ===== verification/_CoqProject ===== *)
-Q . S2P
Prelude.v
CString.v
Calendar.v
Clock.v
Date.v
TimeInterval.v
Time.v
TimeStamp.v
Codec.v
ArgCodec.v
NullBits.v
LinkedList.v
Oid.v
Attribute.v
ClassLayout.v
AttrValue.v
AttrConvert.v
ClassConversion.v
ObjCache.v
Value.v
ValueCache.v
Collection.v
Inverse.v
InvContext.v
OneToOne.v
OneToMany.v
AutoGarb.v
Gbx.v
OqlContext.v
OqlEnv.v
OqlScope.v
OqlExpr.v
OqlFlow.v
OqlRefine.v
OqlProgram.v
OqlList.v
OqlSet.v
OqlSort.v
