(* ===== verification/Prelude.v ===== *)
(** * EyeDB: a verification of the client kernel

    EyeDB is an object-oriented database: a client library that gives programs
    classes, objects and collections and that speaks to servers over remote
    procedure calls; a server that keeps objects in the files of a storage
    manager (eyedbsm, not part of this repository); a query language, OQL; and
    the classes of dates and times. This library models parts of the client
    library, in src/eyedb/ and include/eyedb/ of the source tree, as executable
    definitions, and proves what they are meant to do. The names of the
    definitions are those of the functions they translate.

    ** The files and what they model

    - [Prelude]: machine integers at their width ([wrap_s], [wrap_u], [s32],
      [u32], ...), the option monad, and the lemmas shared by all files.
    - [CString]: C strings as lists of characters, and the part of the C library
      the date code calls: strtok, atoi, atol, strtol, the %d conversions.
    - [Calendar]: class CalendarConverter (CalendarConverter.h) as a typeclass;
      Module [GregorianSpec], the proleptic Gregorian calendar as a succession of
      days; Module [Gregorian], the converter of GregorianCalendarConverter.cc.
    - [Clock]: ClockConverter.cc, microseconds, clock readings and zones.
    - [Date], [TimeInterval], [Time], [TimeStamp]: the classes of Date.cc,
      TimeInterval.cc, Time.cc, TimeStamp.cc, over any calendar converter. A
      TimeStamp keeps a Date and a Time, and [TimeStamp] is proved from the
      lemmas of these.
    - [Codec]: code.cc, the coders of the exchange format over a growing buffer,
      and the object header.
    - [ArgCodec]: Argument_code.cc, the arguments and signatures of methods run
      on the other side of a connection.
    - [NullBits]: the bits of Attribute.cc (setInit, isNull) that tell which
      elements of an attribute have a value.
    - [LinkedList]: linklist.cc, doubly linked lists as cells of a heap, with
      their cursor.
    - [Oid]: Oid.h. [ObjCache]: ObjCache.cc, the hash table from oids to counted
      objects, its rescaling included.
    - [Attribute]: type modifiers and the coded description of the attributes of
      a class (Attribute.cc, AgregatClass.cc), over [Codec].
    - [ClassLayout]: AgregatClass::compile and the compile_perst and
      compile_volat of the four kinds of attributes, which give each attribute
      its place in the objects of the class; Class::setAttributes, by which a
      class inherits the attributes of its parent.
    - [AttrValue]: the values of the direct attributes of basic and enum classes
      in an object (setValue and getValue of Attribute.cc, the coders of
      Basic.cc, setRawData of EnumClass.cc), over [NullBits]; an object is the
      bytes that [ClassLayout] has laid out.
    - [Value]: the type and the comparisons of Value.cc. [ValueCache]:
      ValueCache.cc, the items of a collection with their reference counts, in
      two maps that share them; the order of [Value] is the order of the first. An
      item that is deleted leaves the memory; suppress reads it then, and is
      undefined.
    - [Collection]: the operations on oids of Collection.cc, CollSet.cc,
      CollBag.cc, CollArray.cc, over a [ValueCache] and a back end that is a
      parameter.
    - [OqlContext]: the symbol table of OQL (oqlbase.cc) and the nodes that use
      it (oqlident.cc, oqlop.cc, oqlfunc.cc, oqlflwctl.cc). [OqlEnv]: its
      abstract specification, a list of symbols, and the refinement. [OqlScope]:
      the scopes of variables, proved on the specification and carried to the
      code.
    - [OqlExpr]: the scalar atoms of OQL, the comparisons and operators on them,
      the typing of expressions and the folding of constants (oqlatom.cc,
      oqlbase.cc, oqlop.cc).
    - [OqlFlow]: the statements of oqlflwctl.cc and the calls of functions, over
      any atoms, expressions and symbols, with break and return carried by error
      messages and global levels; its specification, structured jumps.
    - [OqlRefine]: [OqlFlow] over two symbol tables in simulation.
    - [OqlProgram]: the evaluator put together, [OqlFlow] over the expressions of
      [OqlExpr], with lists and assignments, on the table of [OqlContext]; its
      specification is structured jumps over the lists of symbols of [OqlEnv].
    - [AutoGarb]: class gbxAutoGarb of gbx.cc, the scopes in which the objects
      created are registered, and the tables of their registrations. [Gbx]: class
      gbxObject of gbx.cc, the counts of references, release and the search of
      cycles (Agregat.cc, Attribute.cc), the setting of indirect attributes and the
      end of a scope, over [AutoGarb].
    - [AttrConvert]: the changes of an attribute of a stored object when its class
      evolves (the macros and instance methods of ClassConversion.cc), on the bytes
      of the object. [ClassConversion]: the search of the conversions of a class and
      of its next versions, their order, the sizes of the blocks and the conversion
      of whole objects, those embedded in them included.
    - [OqlList]: the lists of atoms of OQL (oqlbase.cc, oqlinline.h), chains in a
      store of atoms and lists that collections share. [OqlSet]: the operations and
      comparisons of sets and bags (oqlset.cc). [OqlSort]: the sorts (oqlsort.cc).
    - [Inverse]: relationships (Attribute_inv.cc), the changes that a request on an
      object or a set makes to the inverse attributes of others, with their callers
      in AgregatClass.cc and kernel.cc. [InvContext]: the list of these changes, its
      coding and what the client does with it (InvOidContext.cc, object_epilogue).
      [OneToOne], [OneToMany]: what is kept by the requests on two kinds of
      relationships.

    ** How state and failure are modelled

    Objects are records and an operation returns the new record. Where the code
    shares objects (links of a list, items of a cache, entries of the symbol
    table) they are in a heap, a finite map from locations, and a deleted object
    is not in it any more, so that using it is an error of the model. [None] is
    undefined behaviour, a failed assertion or an exhausted fuel; an error that
    the code reports is a value of a Status type. An operation that cannot fail
    is a total function, and a theorem on an operation that could return [None]
    says that it does not. Integers are [Z], with the wrap-around of their C type
    written where the code stores them.

    ** What the theorems show

    - Refinement of an abstract specification, for any sequence of operations:
      [linked_list_refines] (a list), [obj_cache_refines] (a finite map with
      counts), [value_cache_refines] (a finite map), [coll_set_refines] (a set)
      and [coll_array_refines] (a map from indexes), the last three as far as no
      item of a cache is suppressed, which is undefined;
      [symbol_table_refines] (a list of symbols with levels).
    - The meaning of OQL programs whose jumps are nested: [structured_jumps] and [program_on_table], and
      their composition [structured_programs]; [constant_folding];
      [eval_type_sound] and [numeric_progress]; [while_terminates], and
      [sum_program_computes], a program that ends with the result it computes.
    - Objects in memory: [attributes_roundtrip] (a class is read back as it was
      stored), [struct_layout], [union_layout] and [inherited_places] (the places
      of attributes), [null_bits], [set_then_get] and [attributes_apart] (their
      values).
    - Round trips: [codec_roundtrip], [header_roundtrip], [arguments_roundtrip],
      [code_argument_appends], and the print and parse theorems of dates, times,
      clocks and time stamps.
    - The calendar is the Gregorian one and its two conversions are inverse
      ([jday2calendar_gregorian], [calendar_bijection]); times form the group of
      integers modulo one day ([time_interval_group]); the moves of dates and
      time stamps are exact or refused ([date_arithmetic], [time_stamp_shift]).
    - Invariants of every object a program can build ([date_invariant],
      [time_invariant], [time_stamp_invariant]), of the symbol table under calls
      ([call_gives_locals_back], [system_symbols_kept]), and the absence of
      dangling accesses ([safe_programs], [scan_while_deleting],
      [arguments_fill_buffer]).
    - Where the code departs from its intent the theorem says so exactly:
      [suppress_undefined], [not_map_keys], [leaving_a_frame],
      [function_assigns_global], [break_hidden_by_for],
      [one_byte_together], [class_oid_misplaced], [item_size_short],
      [enum_written_before_refused], [ascii_roundtrip], [day_of_year_correct].
    - Memory: the tables of a scope implement maps and sets ([auto_garb_refines]);
      counts of references stay exact in any graph ([release_keeps_counts]); in
      graphs without cycles exactly the unreachable objects are freed
      ([release_collects], [close_scope_collects], [set_indirect_attribute]); a
      program that keeps to the discipline never uses a freed object
      ([session_safe]), and one that sets a borrowed object does
      ([borrowed_object_freed]).
    - Schema evolution: the conversions of a class are found and sorted
      ([class_found]), an object is converted through the versions of its class in a
      block of the computed size ([object_converted]), the values and the null bits
      of a converted attribute are kept ([array_converted]) unless it shrinks too
      much ([shrunk_array_overwrites]). The conversions take numbers in the byte
      order of the machine: they convert the numbers of stored objects on machines
      of the order of the exchange format only ([same_order]).
    - OQL collections: a list of atoms behaves as a sequence
      ([atom_list_refines]), sets as sets of texts ([comparisons_of_sets],
      [set_algebra]) when the operands share no atom, but the atoms of operands are
      moved ([left_operand_cut]); a sort sorts what it accepts ([sort_sorts]).
    - Relationships: the two sides of a relationship stay consistent
      ([one_to_one_kept], [one_to_many_kept]), with sets that lose more than they
      should ([insertion_empties]); the client is told of every change of an
      attribute, and of no change of a collection ([client_up_to_date]), in a list
      it reads back ([contexts_roundtrip]).

    ** Bounds and fuel

    [Calendar]: the julian days of the class Date, and the range of years that
    fits the 16-bit field of the code, as each statement says. [ObjCache]: the
    fuel bounds the nesting of rescale in insertObject, and 2 is enough because
    a cache being rescaled does not rescale ([obj_cache_refines] uses it for any
    sequence). Counts of items are 32-bit; the theorems of [ObjCache],
    [ValueCache] and [Collection] bound the number of operations by it.
    [ArgCodec], [Codec] and [Attribute]: the total size of what is coded is less
    than 2^31 or 2^32, as each statement says. [ClassLayout]: the objects of the
    class are smaller than 2^31. [OqlScope]: programs are finite trees of
    commands and need no fuel. [OqlFlow]: the fuel of [eval] bounds the turns of
    loops and the nesting of calls; a result does not change with more fuel, the
    refinements hold in both directions for the results that some fuel gives, and
    [while_terminates] and [sum_program_computes] give fuel that is enough.
    [ClassConversion]: the fuel of convert is the nesting of embedded objects, that
    of getClass_ the number of versions, as the theorems state.
    [OqlList]: the fuel of a walk is one more than the number of atoms, which is
      enough for a chain without a cycle; the nesting bounds that of collections; a
      count is an unsigned int.
    [Gbx]: the fuel of release bounds the nesting of calls; more than one more
    than the number of objects is enough, as the theorems state.

    ** Parameters

    The conversions of bytes of eyedblib and eyedbsm ([Codec.Xdr],
    [ArgCodec.Host]), the numbers of oids ([Oid.Oids]), the operating system's
    clock, the back end of a collection ([Collection.Backend], whose laws are
    [Collection.Serves]); the atoms, the expressions and the symbols of
    [OqlFlow], which [OqlProgram] gives; the classes that the schema finds for an
    attribute ([Attribute]), their sizes ([ClassLayout]) and kinds ([AttrValue]);
    the texts of error messages. Each class has an instance in the examples of
    its file, at which the witnesses apply the theorems.
    [OqlSort]: qsort, whose contract (a permutation, in order when the comparison is
    an order) is a hypothesis, and the int of a double out of range.

    ** Not modelled

    The storage manager and the remote procedure call layer are outside the
    source tree or are network I/O; databases, transactions, schemas, the
    storage of objects, indexes, iterators and the collections of the back end
    are calls to them. The OQL and ODL parsers are generated; queries, paths and
    methods of OQL need the database. The code generators, the administration
    commands, logs and Java bindings produce text. The generated files
    (syscls.cc and the like) are modelled only where the date classes use them.

    Also left for later:

    The hash table and the oid lists built on [LinkedList], the strings of
    OString.cc, attributes of variable dimension, items of collections given as
    objects or as data, the subscripts, the quantifiers and the membership of OQL
    collections, structures and objects as atoms.
*)

From stdpp Require Export base list list_numbers gmap strings.
From Stdlib Require Export ZArith Lia.

#[global] Open Scope Z_scope.

(** ** Machine integers

    [wrap_s w z] is the value a [w]-bit two's complement register holds when
    [z] is stored in it; [wrap_u w z] is the unsigned one. *)

Definition wrap_s (w z : Z) : Z := (z + 2 ^ (w - 1)) mod 2 ^ w - 2 ^ (w - 1).
Definition wrap_u (w z : Z) : Z := z mod 2 ^ w.

(** eyedblib::int16, int32, int64 (and [int], which is 32 bits wide). *)
Abbreviation s16 := (wrap_s 16).
Abbreviation s32 := (wrap_s 32).
Abbreviation s64 := (wrap_s 64).
(** [unsigned int] *)
Definition u32 : Z -> Z := wrap_u 32.

Definition in_s (w z : Z) : Prop := - 2 ^ (w - 1) <= z < 2 ^ (w - 1).

#[global] Instance in_s_dec w z : Decision (in_s w z).
Proof. unfold in_s; apply _. Defined.

Lemma wrap_s_id w z : 0 < w -> in_s w z -> wrap_s w z = z.
Proof.
  intros Hw [Hl Hu]. unfold wrap_s.
  assert (2 ^ w = 2 * 2 ^ (w - 1)) as E.
  { rewrite <- Z.pow_succ_r by lia. f_equal; lia. }
  rewrite Z.mod_small; lia.
Qed.

Lemma wrap_s_range w z : 0 < w -> in_s w (wrap_s w z).
Proof.
  intros Hw. unfold wrap_s, in_s.
  assert (2 ^ w = 2 * 2 ^ (w - 1)) as E.
  { rewrite <- Z.pow_succ_r by lia. f_equal; lia. }
  assert (0 < 2 ^ (w - 1)) by (apply Z.pow_pos_nonneg; lia).
  pose proof (Z.mod_pos_bound (z + 2 ^ (w - 1)) (2 ^ w)). lia.
Qed.

(** The bits of a [w]-bit integer from [w - 1] on are its sign. *)
Lemma in_s_shiftr w z : 0 < w -> in_s w z <-> Z.shiftr z (w - 1) = 0 \/ Z.shiftr z (w - 1) = -1.
Proof.
  intros Hw. rewrite Z.shiftr_div_pow2 by lia. unfold in_s. pose proof (Z.pow_pos_nonneg 2 (w - 1)).
  set (p := 2 ^ (w - 1)) in *. pose proof (Z.div_mod z p). pose proof (Z.mod_pos_bound z p). split.
  - intros ?. destruct (Z.lt_ge_cases z 0); [right|left]; nia.
  - intros [E|E]; rewrite E in *; lia.
Qed.

Lemma in_s_land w a b : 0 < w -> in_s w a -> in_s w b -> in_s w (Z.land a b).
Proof. intros Hw. rewrite !in_s_shiftr, Z.shiftr_land by done. by intros [-> | ->] [-> | ->]; auto. Qed.
Lemma in_s_lor w a b : 0 < w -> in_s w a -> in_s w b -> in_s w (Z.lor a b).
Proof. intros Hw. rewrite !in_s_shiftr, Z.shiftr_lor by done. by intros [-> | ->] [-> | ->]; auto. Qed.
Lemma in_s_lxor w a b : 0 < w -> in_s w a -> in_s w b -> in_s w (Z.lxor a b).
Proof. intros Hw. rewrite !in_s_shiftr, Z.shiftr_lxor by done. by intros [-> | ->] [-> | ->]; auto. Qed.

Lemma wrap_u_range w z : 0 <= w -> 0 <= wrap_u w z < 2 ^ w.
Proof. intros. apply Z.mod_pos_bound, Z.pow_pos_nonneg; lia. Qed.

(** Storing a wrapped value in a register that is congruent changes nothing. *)
Lemma wrap_s_congr w a b : 0 < w -> a mod 2 ^ w = b mod 2 ^ w -> wrap_s w a = wrap_s w b.
Proof.
  intros Hw H. unfold wrap_s.
  rewrite (Z.add_mod a), (Z.add_mod b), H; [done|..]; apply Z.pow_nonzero; lia.
Qed.

Lemma wrap_s_mod w z : 0 < w -> wrap_s w z mod 2 ^ w = z mod 2 ^ w.
Proof.
  intros Hw. unfold wrap_s. rewrite Zminus_mod_idemp_l. f_equal; lia.
Qed.

Lemma s16_id z : -32768 <= z < 32768 -> s16 z = z.
Proof. intros; apply wrap_s_id; [lia|]. exact H. Qed.
Lemma s32_id z : -2147483648 <= z < 2147483648 -> s32 z = z.
Proof. intros; apply wrap_s_id; [lia|]. exact H. Qed.
Lemma s64_id z : -9223372036854775808 <= z < 9223372036854775808 -> s64 z = z.
Proof. intros; apply wrap_s_id; [lia|]. exact H. Qed.

Lemma u32_id z : 0 <= z < 2 ^ 32 -> u32 z = z.
Proof. intros. unfold u32, wrap_u. by apply Z.mod_small. Qed.

Lemma u32_range z : 0 <= u32 z < 2 ^ 32.
Proof. by apply Z.mod_pos_bound. Qed.

(** ** Automation *)

Create HintDb eyedb discriminated.
#[export] Hint Resolve s16_id s32_id s64_id u32_id : eyedb.

(** Linear arithmetic over C's [/] and [%] ([Z.quot], [Z.rem]) and over
    [Z.div] and [Z.modulo]. *)
Ltac dlia := Z.to_euclidean_division_equations; lia.

(** Erase the wrap-arounds whose argument is in the range of the register. *)
Ltac unwrap :=
  repeat first
    [ rewrite s16_id by dlia | rewrite s32_id by dlia | rewrite s64_id by dlia ].

(** Split the boolean comparisons of the goal and of the hypotheses. *)
Ltac bdestruct_all :=
  repeat match goal with
  | |- context [ (?a <? ?b) ] => destruct (Z.ltb_spec a b)
  | |- context [ (?a <=? ?b) ] => destruct (Z.leb_spec a b)
  | |- context [ (?a =? ?b) ] => destruct (Z.eqb_spec a b)
  end.

Lemma triple_eq {A B C} (a a' : A) (b b' : B) (c c' : C) :
  a = a' -> b = b' -> c = c' -> (a, b, c) = (a', b', c').
Proof. by intros -> -> ->. Qed.

(** ** Lists *)

Lemma filter_ext_in {A} (P Q : A -> Prop) `{!forall x, Decision (P x)} `{!forall x, Decision (Q x)} (l : list A) :
  (forall x, x ∈ l -> P x <-> Q x) -> filter P l = filter Q l.
Proof.
  induction l as [|x l IH]; intros Hl; [done|]. rewrite !filter_cons.
  rewrite IH by (intros; apply Hl; by right).
  pose proof (Hl x (list_elem_of_here _ _)). by repeat case_decide; try tauto.
Qed.

Lemma filter_comm {A} (P Q : A -> Prop) `{!forall x, Decision (P x)} `{!forall x, Decision (Q x)} (l : list A) :
  filter P (filter Q l) = filter Q (filter P l).
Proof.
  induction l as [|x l IH]; [done|]. rewrite !filter_cons.
  destruct (decide (Q x)), (decide (P x)); rewrite ?filter_cons; repeat case_decide; try done;
    by rewrite IH.
Qed.

Lemma filter_all {A} (P : A -> Prop) `{!forall x, Decision (P x)} (l : list A) :
  (forall x, x ∈ l -> P x) -> filter P l = l.
Proof.
  induction l as [|x l IH]; intros Hl; [done|]. rewrite filter_cons_True.
  - f_equal. apply IH. intros; apply Hl; by right.
  - apply Hl; by left.
Qed.

Lemma filter_none {A} (P : A -> Prop) `{!forall x, Decision (P x)} (l : list A) :
  (forall x, x ∈ l -> ~ P x) -> filter P l = [].
Proof.
  induction l as [|x l IH]; intros Hl; [done|]. rewrite filter_cons_False.
  - apply IH. intros; apply Hl; by right.
  - apply Hl; by left.
Qed.

Lemma filter_reverse {A} (P : A -> Prop) `{!forall x, Decision (P x)} (l : list A) :
  filter P (reverse l) = reverse (filter P l).
Proof.
  induction l as [|x l IH]; [done|]. rewrite reverse_cons, filter_app, IH, !filter_cons.
  cbn. case_decide; rewrite ?reverse_cons, ?app_nil_r; done.
Qed.

(** ** The option monad *)

Lemma bind_eq {A B} (x : option A) (f g : A -> option B) :
  (forall a, f a = g a) -> (x ≫= f) = (x ≫= g).
Proof. intros H. by destruct x; cbn. Qed.

Lemma bind_ret {A} (x : option A) : (x ≫= Some) = x.
Proof. by destruct x. Qed.
