(* ===== verification/CString.v ===== *)
(** * C strings and the parts of the C library the date code uses

    A C string is the list of its characters before the terminating NUL.
    The section models [strtok], [atoi]/[atol] (through [strtol]) and the
    [%.Nd] conversions of [sprintf] as the C standard defines them. *)

From Stdlib Require Import Ascii String.
From S2P Require Import Prelude.

Abbreviation cstr := (list ascii).

(** A string literal as a C string. *)
Definition cs (s : string) : cstr := list_ascii_of_string s.

Definition strlen (s : cstr) : Z := Z.of_nat (length s).

(** ** Characters *)

Definition chr (z : Z) : ascii := ascii_of_nat (Z.to_nat z).
Definition ord (c : ascii) : Z := Z.of_nat (nat_of_ascii c).

Definition isdigit (c : ascii) : bool := (48 <=? ord c) && (ord c <=? 57).
Definition isspace (c : ascii) : bool :=
  (ord c =? 32) || ((9 <=? ord c) && (ord c <=? 13)).
Definition digit_val (c : ascii) : Z := ord c - 48.
Definition digit_chr (d : Z) : ascii := chr (48 + d).

Definition ceqb (a b : ascii) : bool := bool_decide (a = b).

(** ** Scanning *)

Fixpoint take_while (p : ascii -> bool) (s : cstr) : cstr :=
  match s with
  | [] => []
  | c :: s' => if p c then c :: take_while p s' else []
  end.

Fixpoint drop_while (p : ascii -> bool) (s : cstr) : cstr :=
  match s with
  | [] => []
  | c :: s' => if p c then drop_while p s' else s
  end.

(** One call of [strtok] with the one delimiter [delim], scanning from [s]:
    the delimiters skipped, the token (NULL when only delimiters are left), and
    where the next call [strtok(0, _)] resumes. *)
Definition strtok (delim : ascii) (s : cstr) : cstr * option cstr * cstr :=
  let lead := take_while (ceqb delim) s in
  match drop_while (ceqb delim) s with
  | [] => (lead, None, [])
  | s1 =>
    let isnot c := negb (ceqb delim c) in
    (lead, Some (take_while isnot s1), tl (drop_while isnot s1))
  end.

(** ** Numbers *)

(** The value of a run of decimal digits, most significant first. *)
Definition digits_val (acc : Z) (ds : cstr) : Z :=
  fold_left (fun a c => 10 * a + digit_val c) ds acc.

(** [strtol(s, 0, 10)]: white space, an optional sign, digits; out of range
    values saturate. *)
Definition strtol (s : cstr) : Z :=
  let s1 := drop_while isspace s in
  let '(neg, s2) :=
    match s1 with
    | c :: s' => if ceqb c "-"%char then (true, s')
                 else if ceqb c "+"%char then (false, s') else (false, s1)
    | [] => (false, [])
    end in
  let v := digits_val 0 (take_while isdigit s2) in
  let v := if neg then - v else v in
  Z.max (- 2 ^ 63) (Z.min (2 ^ 63 - 1) v).

Definition atol (s : cstr) : Z := strtol s.
Definition atoi (s : cstr) : Z := s32 (strtol s).

(** The decimal digits of [n >= 0], most significant first; [fuel] digits at
    most. A 64-bit value has at most 19 digits. *)
Fixpoint dec_digits (fuel : nat) (n : Z) : cstr :=
  match fuel with
  | O => []
  | S f => if n <? 10 then [digit_chr n]
           else dec_digits f (n / 10) ++ [digit_chr (n mod 10)]
  end.

(** [sprintf("%.<prec>d", n)]: at least [prec] digits, a sign if negative. *)
Definition fmt_d (prec : nat) (n : Z) : cstr :=
  let ds := dec_digits 20 (Z.abs n) in
  (if n <? 0 then ["-"%char] else [])
  ++ replicate (prec - length ds) "0"%char ++ ds.

#[global] Arguments digits_val : simpl never.
#[global] Arguments digit_chr : simpl never.
#[global] Arguments digit_val : simpl never.

(** ** Lemmas *)

Lemma ord_chr z : 0 <= z < 256 -> ord (chr z) = z.
Proof. intros H. unfold ord, chr. rewrite nat_ascii_embedding; lia. Qed.

Lemma digit_val_chr d : 0 <= d <= 9 -> digit_val (digit_chr d) = d.
Proof. intros. unfold digit_val, digit_chr. rewrite ord_chr; lia. Qed.

Lemma isdigit_chr d : 0 <= d <= 9 -> isdigit (digit_chr d) = true.
Proof. intros. unfold isdigit, digit_chr. rewrite ord_chr by lia. lia. Qed.

Lemma ceqb_spec a b : ceqb a b = true <-> a = b.
Proof. apply bool_decide_eq_true. Qed.

Lemma ceqb_refl a : ceqb a a = true.
Proof. by apply ceqb_spec. Qed.

Lemma take_while_app p l c r :
  Forall (fun x => p x = true) l -> p c = false -> take_while p (l ++ c :: r) = l.
Proof. induction 1 as [|x l Hx _ IH]; cbn; intros Hc; [by rewrite Hc|]. by rewrite Hx, IH. Qed.

Lemma take_while_all p l : Forall (fun x => p x = true) l -> take_while p l = l.
Proof. induction 1 as [|x l Hx _ IH]; cbn; [done|]. by rewrite Hx, IH. Qed.

Lemma drop_while_app p l c r :
  Forall (fun x => p x = true) l -> p c = false -> drop_while p (l ++ c :: r) = c :: r.
Proof. induction 1 as [|x l Hx _ IH]; cbn; intros Hc; [by rewrite Hc|]. by rewrite Hx, IH. Qed.

Lemma drop_while_all p l : Forall (fun x => p x = true) l -> drop_while p l = [].
Proof. induction 1 as [|x l Hx _ IH]; cbn; [done|]. by rewrite Hx. Qed.

Lemma digits_val_app acc l c :
  digits_val acc (l ++ [c]) = 10 * digits_val acc l + digit_val c.
Proof. unfold digits_val. by rewrite fold_left_app. Qed.

Lemma dec_digits_isdigit fuel n :
  0 <= n -> Forall (fun c => isdigit c = true) (dec_digits fuel n).
Proof.
  revert n. induction fuel as [|f IH]; intros n Hn; cbn; [constructor|].
  destruct (Z.ltb_spec n 10).
  - constructor; [apply isdigit_chr; lia|constructor].
  - apply Forall_app; split; [apply IH; dlia|].
    constructor; [apply isdigit_chr; dlia|constructor].
Qed.

Lemma dec_digits_val fuel n :
  0 <= n < 10 ^ Z.of_nat fuel -> digits_val 0 (dec_digits fuel n) = n.
Proof.
  revert n. induction fuel as [|f IH]; intros n Hn; cbn -[Z.of_nat Z.pow] in *.
  { change (10 ^ Z.of_nat 0) with 1 in Hn. unfold digits_val; cbn [dec_digits fold_left]; lia. }
  rewrite Nat2Z.inj_succ, Z.pow_succ_r in Hn by lia.
  destruct (Z.ltb_spec n 10).
  - unfold digits_val; cbn [fold_left]. rewrite digit_val_chr; lia.
  - rewrite digits_val_app, digit_val_chr by dlia. rewrite IH by dlia. dlia.
Qed.

Lemma dec_digits_length fuel n :
  (0 < fuel)%nat -> (1 <= length (dec_digits fuel n) <= fuel)%nat.
Proof.
  revert n. induction fuel as [|f IH]; intros n Hf; [lia|]. cbn.
  destruct (n <? 10); cbn; [lia|]. rewrite length_app; cbn.
  destruct f as [|f]; [cbn; lia|]. specialize (IH (n / 10)). lia.
Qed.

(** The number of digits printed is bounded by the magnitude. *)
Lemma dec_digits_length_le fuel n k :
  (0 < k <= fuel)%nat -> 0 <= n < 10 ^ Z.of_nat k -> (length (dec_digits fuel n) <= k)%nat.
Proof.
  revert n k. induction fuel as [|f IH]; intros n k Hk Hn; [cbn; lia|].
  cbn -[Z.of_nat Z.pow]. destruct (Z.ltb_spec n 10); [cbn; lia|].
  rewrite length_app; cbn [length]. destruct k as [|[|k]]; [lia| |].
  { change (10 ^ Z.of_nat 1) with 10 in Hn; lia. }
  specialize (IH (n / 10) (S k)).
  rewrite Nat2Z.inj_succ, Z.pow_succ_r in Hn by lia.
  assert (0 <= n / 10 < 10 ^ Z.of_nat (S k)) by dlia. lia.
Qed.

Lemma dec_digits_length_ge fuel n k :
  (k < fuel)%nat -> 10 ^ Z.of_nat k <= n -> (k < length (dec_digits fuel n))%nat.
Proof.
  revert n k. induction fuel as [|f IH]; intros n k Hk Hn; [lia|].
  cbn -[Z.of_nat Z.pow]. destruct k as [|k].
  - destruct (n <? 10); [cbn; lia|]. rewrite length_app; cbn; lia.
  - rewrite Nat2Z.inj_succ, Z.pow_succ_r in Hn by lia.
    assert (0 < 10 ^ Z.of_nat k) by (apply Z.pow_pos_nonneg; lia).
    destruct (Z.ltb_spec n 10); [lia|]. rewrite length_app; cbn [length].
    assert (10 ^ Z.of_nat k <= n / 10) by dlia.
    specialize (IH (n / 10) k). lia.
Qed.

Lemma digits_val_zeros k ds : digits_val 0 (replicate k "0"%char ++ ds) = digits_val 0 ds.
Proof. induction k as [|k IH]; [done|]. exact IH. Qed.

Lemma fmt_d_nonneg prec n :
  0 <= n -> exists ds, fmt_d prec n = ds
    /\ Forall (fun c => isdigit c = true) ds /\ ds <> []
    /\ (n < 10 ^ 20 -> digits_val 0 ds = n).
Proof.
  intros Hn. unfold fmt_d. destruct (Z.ltb_spec n 0); [lia|].
  rewrite Z.abs_eq, app_nil_l by lia. eexists; split; [reflexivity|]. repeat split.
  - apply Forall_app; split; [|by apply dec_digits_isdigit].
    apply Forall_replicate. vm_compute. done.
  - intros E. apply (f_equal length) in E. rewrite length_app in E.
    pose proof (dec_digits_length 20 n). cbn [length] in E. lia.
  - intros Hb. rewrite digits_val_zeros. apply dec_digits_val.
    split; [lia|]. exact Hb.
Qed.

Lemma fmt_d_neg prec n :
  n < 0 -> fmt_d prec n = "-"%char :: fmt_d prec (- n).
Proof.
  intros Hn. unfold fmt_d. destruct (Z.ltb_spec n 0); [|lia].
  destruct (Z.ltb_spec (- n) 0); [lia|]. by rewrite Z.abs_opp.
Qed.

Lemma isdigit_not_space c : isdigit c = true -> isspace c = false.
Proof. unfold isdigit, isspace. lia. Qed.

Lemma isdigit_not_eq c d : isdigit c = true -> isdigit d = false -> ceqb c d = false.
Proof. intros Hc Hd. apply bool_decide_eq_false. intros ->. congruence. Qed.

(** [strtol] reads back a run of digits, whatever follows it. *)
Lemma strtol_digits ds r :
  ds <> [] -> Forall (fun c => isdigit c = true) ds ->
  match r with [] => True | c :: _ => isdigit c = false end ->
  digits_val 0 ds < 2 ^ 63 -> 0 <= digits_val 0 ds ->
  strtol (ds ++ r) = digits_val 0 ds.
Proof.
  intros Hne Hds Hr Hub Hlb. unfold strtol.
  destruct ds as [|c ds]; [done|]. inversion Hds as [|?? Hc Hds']; subst.
  cbn [app drop_while]. rewrite (isdigit_not_space c Hc).
  rewrite !(isdigit_not_eq c) by done. cbn [take_while]. rewrite Hc.
  assert (take_while isdigit (ds ++ r) = ds) as ->.
  { destruct r as [|d r]; [rewrite app_nil_r; by apply take_while_all|].
    by apply take_while_app. }
  lia.
Qed.

Lemma strtol_neg_digits ds r :
  ds <> [] -> Forall (fun c => isdigit c = true) ds ->
  match r with [] => True | c :: _ => isdigit c = false end ->
  digits_val 0 ds < 2 ^ 63 -> 0 <= digits_val 0 ds ->
  strtol ("-"%char :: ds ++ r) = - digits_val 0 ds.
Proof.
  intros Hne Hds Hr Hub Hlb. unfold strtol; cbv zeta.
  change (drop_while isspace ("-"%char :: ds ++ r)) with ("-"%char :: ds ++ r).
  cbv beta iota. rewrite ceqb_refl. cbv beta iota.
  assert (take_while isdigit (ds ++ r) = ds) as ->.
  { destruct r as [|d r]; [rewrite app_nil_r; by apply take_while_all|].
    by apply take_while_app. }
  lia.
Qed.

(** The [%d] conversions and [strtol] are inverse on 32-bit values. *)
Lemma strtol_fmt_d prec n r :
  - 2 ^ 31 <= n < 2 ^ 31 ->
  match r with [] => True | c :: _ => isdigit c = false end ->
  strtol (fmt_d prec n ++ r) = n.
Proof.
  intros Hn Hr. destruct (Z.lt_ge_cases n 0) as [Hneg|Hpos].
  - rewrite fmt_d_neg by done.
    destruct (fmt_d_nonneg prec (- n)) as (ds & -> & Hds & Hne & Hv); [lia|].
    rewrite <- app_comm_cons, strtol_neg_digits; rewrite ?Hv; lia || done.
  - destruct (fmt_d_nonneg prec n) as (ds & -> & Hds & Hne & Hv); [lia|].
    rewrite strtol_digits; rewrite ?Hv; lia || done.
Qed.

Lemma atoi_fmt_d prec n r :
  - 2 ^ 31 <= n < 2 ^ 31 ->
  match r with [] => True | c :: _ => isdigit c = false end ->
  atoi (fmt_d prec n ++ r) = n.
Proof. intros. unfold atoi. rewrite strtol_fmt_d by done. apply s32_id. lia. Qed.

Lemma atoi_fmt_d_end prec n : - 2 ^ 31 <= n < 2 ^ 31 -> atoi (fmt_d prec n) = n.
Proof. intros. rewrite <- (app_nil_r (fmt_d prec n)). by apply atoi_fmt_d. Qed.

(** [strtok] on a run without delimiters, then a delimiter. *)
Lemma strtok_token delim c t r :
  Forall (fun x => ceqb delim x = false) (c :: t) ->
  strtok delim (c :: t ++ delim :: r) = ([], Some (c :: t), r).
Proof.
  intros Hall. inversion Hall as [|?? Hc Ht]; subst.
  assert (Forall (fun x => negb (ceqb delim x) = true) t) as Ht'.
  { eapply Forall_impl; [exact Ht|]. cbn. intros ? ->. done. }
  unfold strtok. cbn [take_while drop_while]. rewrite Hc.
  cbn [take_while drop_while negb]. rewrite Hc; cbn [negb].
  rewrite take_while_app, drop_while_app; rewrite ?ceqb_refl; done.
Qed.

Lemma strtok_last delim c t :
  Forall (fun x => ceqb delim x = false) (c :: t) ->
  strtok delim (c :: t) = ([], Some (c :: t), []).
Proof.
  intros Hall. inversion Hall as [|?? Hc Ht]; subst.
  assert (Forall (fun x => negb (ceqb delim x) = true) t) as Ht'.
  { eapply Forall_impl; [exact Ht|]. cbn. intros ? ->. done. }
  unfold strtok. cbn [take_while drop_while]. rewrite Hc.
  cbn [take_while drop_while negb]. rewrite Hc; cbn [negb].
  rewrite take_while_all, drop_while_all; done.
Qed.

(** Leading delimiters are skipped. *)
Lemma strtok_skip delim s :
  strtok delim (delim :: s) = let '(l, t, r) := strtok delim s in (delim :: l, t, r).
Proof.
  unfold strtok. cbn [take_while drop_while]. rewrite ceqb_refl.
  by destruct (drop_while (ceqb delim) s).
Qed.

(** Two-digit fields. *)
Lemma fmt_d_2 m : 0 <= m <= 99 -> fmt_d 2 m = [digit_chr (m / 10); digit_chr (m mod 10)].
Proof.
  intros Hm. unfold fmt_d. destruct (Z.ltb_spec m 0); [lia|]. rewrite Z.abs_eq by lia.
  cbn [dec_digits]. destruct (Z.ltb_spec m 10).
  - cbn. by rewrite Z.div_small, Z.mod_small by lia.
  - destruct (Z.ltb_spec (m / 10) 10); [|dlia]. reflexivity.
Qed.

(** No number holds a space. *)
Lemma fmt_d_not_space prec n : Forall (fun c => ceqb " "%char c = false) (fmt_d prec n).
Proof.
  unfold fmt_d. repeat (apply Forall_app; split).
  - destruct (n <? 0); repeat constructor.
  - by apply Forall_replicate.
  - eapply Forall_impl; [apply dec_digits_isdigit; lia|]. intros c Hc; cbn.
    apply bool_decide_eq_false. intros <-. by vm_compute in Hc.
Qed.
