(* ===== verification/Calendar.v ===== *)
(** * The calendar converter

    [CalendarConverter] is the abstract class of src/eyedb/CalendarConverter.h;
    [Gregorian] is src/eyedb/GregorianCalendarConverter.cc, the converter the
    date classes use; [GregorianSpec] is the proleptic Gregorian calendar it
    has to implement, given by its succession of days. *)

From Stdlib Require Import Ascii String.
From S2P Require Import Prelude CString.

(** ** The proleptic Gregorian calendar *)

Module GregorianSpec.

Definition leap (y : Z) : bool :=
  (y mod 4 =? 0) && (negb (y mod 100 =? 0) || (y mod 400 =? 0)).

Definition month_len (y m : Z) : Z :=
  if m =? 2 then (if leap y then 29 else 28)
  else if (m =? 4) || (m =? 6) || (m =? 9) || (m =? 11) then 30 else 31.

(** A calendar date: year, month, day. *)
Definition valid (c : Z * Z * Z) : Prop :=
  let '(y, m, d) := c in 1 <= m <= 12 /\ 1 <= d <= month_len y m.

Definition next_day (c : Z * Z * Z) : Z * Z * Z :=
  let '(y, m, d) := c in
  if d <? month_len y m then (y, m, d + 1)
  else if m <? 12 then (y, m + 1, 1) else (y + 1, 1, 1).

(** The days of the year that precede the first of the month. *)
Definition days_before (y m : Z) : Z :=
  foldr Z.add 0 (month_len y <$> seqZ 1 (m - 1)).

Definition day_of_year (c : Z * Z * Z) : Z :=
  let '(y, m, d) := c in days_before y m + d.

End GregorianSpec.

(** ** The abstract class *)

Class CalendarConverter := {
  jday2calendar : Z -> Z * Z * Z;
  calendar2jday : Z -> Z -> Z -> Z;
  jday2day_of_year : Z -> Z;
  jday2leap_year : Z -> bool;
  jday2weekday : Z -> Z;
  ascii2jday : cstr -> Z;
  jday2ascii : Z -> cstr;
  current_date : Z -> Z;
}.

(** Date.cc: the julian days a Date may hold. *)
Definition MIN_JULIAN : Z := 0.
Definition MAX_JULIAN : Z := 211202371.

Definition julian_ok (j : Z) : Prop := MIN_JULIAN <= j <= MAX_JULIAN.

(** What the date classes rely on, on the julian days a Date may hold. *)
Class CalendarLaws (C : CalendarConverter) := {
  calendar_epoch : jday2calendar 0 = (-4713, 11, 24);
  calendar_next j : 0 <= j < MAX_JULIAN ->
    jday2calendar (j + 1) = GregorianSpec.next_day (jday2calendar j);
  calendar_roundtrip j : julian_ok j ->
    let '(y, m, d) := jday2calendar j in calendar2jday y m d = j;
  calendar_weekday j : julian_ok j ->
    0 <= jday2weekday j < 7 /\ jday2weekday j = (j + 1) mod 7;
  calendar_ascii j : julian_ok j ->
    let '(y, _, _) := jday2calendar j in 0 <= y <= 9 \/ ascii2jday (jday2ascii j) = j;
  calendar_ascii_shape j : j <= MAX_JULIAN ->
    0 < strlen (jday2ascii j) <= 12
    /\ Forall (fun c => ceqb " "%char c = false) (jday2ascii j);
}.

(** ** The Gregorian converter *)

Module Gregorian.

Definition JULIAN_19700101 : Z := 2440588.

Definition jday2calendar (julian : Z) : Z * Z * Z :=
  if julian <? 0 then (-4713, 11, 24)
  else
    let l := s32 (julian + 68569) in
    let n := s32 (s32 (4 * l) `quot` 146097) in
    let l := s32 (l - s32 (146097 * n + 3) `quot` 4) in
    let i := s32 (s32 (4000 * (l + 1)) `quot` 1461001) in
    let l := s32 (l - s32 (1461 * i) `quot` 4 + 31) in
    let j := s32 (s32 (80 * l) `quot` 2447) in
    let day := s16 (l - s32 (2447 * j) `quot` 80) in
    let l := s32 (j `quot` 11) in
    let month := s16 (j + 2 - 12 * l) in
    let year := s32 (100 * (n - 49) + i + l) in
    (year, month, day).

Definition calendar2jday (year month day : Z) : Z :=
  if year <? -4713 then -1
  else
    let julian := s32
      (s32 (1461 * (year + 4800 + (month - 14) `quot` 12)) `quot` 4
       + s32 (367 * (month - 2 - 12 * ((month - 14) `quot` 12))) `quot` 12
       - s32 (3 * ((year + 4900 + (month - 14) `quot` 12) `quot` 100)) `quot` 4
       + day - 32075) in
    if julian <? 0 then -1 else julian.

Definition jday2day_of_year (julian : Z) : Z :=
  let '(tmp_year, _, _) := jday2calendar julian in
  let first_day_julian := calendar2jday tmp_year 1 0 in
  s16 (julian - first_day_julian).

Definition jday2leap_year (julian : Z) : bool :=
  let '(tmp_year, _, _) := jday2calendar julian in
  (tmp_year `rem` 4 =? 0)
  && (negb (tmp_year `rem` 100 =? 0) || (tmp_year `rem` 400 =? 0)).

Definition jday2weekday (julian : Z) : Z := s32 (julian + 1) `rem` 7.

(** The first character of a token satisfies [isdigit]. *)
Definition starts_digit (s : cstr) : bool :=
  match s with c :: _ => isdigit c | [] => false end.

Definition ascii2jday (date : cstr) : Z :=
  let len := strlen date in
  if (13 <? len) || (len <? 5) then -1
  else match date with
  | [] => -1
  | c0 :: rest =>
    (* strtok(string_date + 1, "-") *)
    let '(lead, tok, rest1) := strtok "-"%char rest in
    let string_date := c0 :: lead ++ default [] tok in
    let '(_, s_month, rest2) := strtok "-"%char rest1 in
    let '(_, s_day, _) := strtok "-"%char rest2 in
    match s_month, s_day with
    | Some s_month, Some s_day =>
      if (negb (isdigit c0) && negb (ceqb c0 "-"%char))
         || negb (starts_digit s_month) || negb (starts_digit s_day)
      then -1
      else calendar2jday (s32 (atol string_date)) (s16 (atoi s_month)) (s16 (atoi s_day))
    | _, _ => -1
    end
  end.

Definition jday2ascii (julian : Z) : cstr :=
  let '(tmp_year, tmp_month, tmp_day) := jday2calendar julian in
  fmt_d 1 tmp_year ++ "-"%char :: fmt_d 2 tmp_month ++ "-"%char :: fmt_d 2 tmp_day.

(** [tv_sec] is the clock reading of gettimeofday. *)
Definition current_date (tv_sec : Z) : Z :=
  s32 (JULIAN_19700101 + tv_sec `quot` (3600 * 24)).

#[export] Instance converter : CalendarConverter := {|
  Calendar.jday2calendar := jday2calendar;
  Calendar.calendar2jday := calendar2jday;
  Calendar.jday2day_of_year := jday2day_of_year;
  Calendar.jday2leap_year := jday2leap_year;
  Calendar.jday2weekday := jday2weekday;
  Calendar.ascii2jday := ascii2jday;
  Calendar.jday2ascii := jday2ascii;
  Calendar.current_date := current_date;
|}.

Example epoch_1970 : jday2calendar JULIAN_19700101 = (1970, 1, 1).
Proof. reflexivity. Qed.
Example parse_1970 : ascii2jday (cs "1970-01-01") = JULIAN_19700101.
Proof. reflexivity. Qed.
Example print_epoch : jday2ascii 0 = cs "-4713-11-24".
Proof. reflexivity. Qed.
Example print_5 : ascii2jday (cs "5-03-04") = -1.
Proof. reflexivity. Qed.

(** ** Proofs

    The algorithm counts years from March: a century [n] of years, a year [i] of
    the century, a month [k] (March is 1) and a day. *)

Section Proofs.
Import GregorianSpec.


Definition century_start (n : Z) : Z := 36524 * n + (n + 3) / 4.
Definition year_start (i : Z) : Z := 1461 * i / 4.
Definition month_start (k : Z) : Z := 2447 * k / 80.

Lemma century_split l : 0 <= l ->
  let n := 4 * l / 146097 in
  century_start n <= l < century_start (n + 1).
Proof. intros Hl n. unfold century_start. subst n. dlia. Qed.

Lemma year_split r : 0 <= r <= 36524 ->
  let i := 4000 * (r + 1) / 1461001 in
  0 <= i <= 99 /\ year_start i <= r < year_start (i + 1) .
Proof. intros Hl i. unfold year_start. subst i. dlia. Qed.

Lemma month_split r : 31 <= r <= 396 ->
  let k := 80 * r / 2447 in
  1 <= k <= 12 /\ month_start k < r <= month_start (k + 1).
Proof. intros Hl i. unfold month_start. subst i. dlia. Qed.

(** The day number of day [d] of the [k]-th month, counted from March, of the
    year [i] of the century [n], both starting in March. *)
Definition day_number (n i k d : Z) : Z :=
  century_start n + year_start i + month_start k + d - 31.

(** No intermediate product overflows up to this day. *)
Definition NO_OVERFLOW : Z := 536000000.

Lemma jday2calendar_parts j :
  0 <= j <= NO_OVERFLOW ->
  exists n i k d,
    jday2calendar j = (100 * (n - 49) + i + k / 11, k + 2 - 12 * (k / 11), d)
    /\ 0 <= i <= 99 /\ 1 <= k <= 12 /\ 1 <= d /\ 1 <= n <= 14690
    /\ j + 68569 = day_number n i k d
    /\ d <= month_start (k + 1) - month_start k
    /\ century_start n + year_start i <= j + 68569
       < Z.min (century_start n + year_start (i + 1)) (century_start (n + 1)).
Proof.
  unfold NO_OVERFLOW. intros Hj. unfold jday2calendar.
  destruct (Z.ltb_spec j 0); [lia|].
  cbv zeta. remember (j + 68569) as l eqn:El. rewrite (s32_id l), (s32_id (4 * l)) by lia.
  set (n := (4 * l) `quot` 146097).
  assert (n = 4 * l / 146097) as En by (subst n; dlia).
  pose proof (century_split l ltac:(lia)) as Hc. cbv zeta in Hc. rewrite <- En in Hc.
  assert (1 <= n <= 14690) as Hn by dlia. clearbody n.
  rewrite (s32_id n), (s32_id (146097 * n + 3)) by lia.
  assert ((146097 * n + 3) `quot` 4 = century_start n) as ->
    by (unfold century_start; dlia).
  remember (l - century_start n) as r eqn:Er.
  assert (0 <= r <= 36524) as Hr by (unfold century_start in *; dlia).
  rewrite (s32_id r), (s32_id (4000 * (r + 1))) by lia.
  set (i := (4000 * (r + 1)) `quot` 1461001).
  assert (i = 4000 * (r + 1) / 1461001) as Ei by (subst i; dlia).
  pose proof (year_split r Hr) as [Hi Hy]. rewrite <- Ei in Hi, Hy. clearbody i.
  rewrite (s32_id i), (s32_id (1461 * i)) by lia.
  assert ((1461 * i) `quot` 4 = year_start i) as -> by (unfold year_start; dlia).
  remember (r - year_start i + 31) as q eqn:Eq.
  assert (31 <= q <= 396) as Hq by (unfold year_start in *; dlia).
  rewrite (s32_id q), (s32_id (80 * q)) by lia.
  set (k := (80 * q) `quot` 2447).
  assert (k = 80 * q / 2447) as Ek by (subst k; dlia).
  pose proof (month_split q Hq) as [Hk Hm]. rewrite <- Ek in Hk, Hm. clearbody k.
  rewrite (s32_id k), (s32_id (2447 * k)) by lia.
  assert ((2447 * k) `quot` 80 = month_start k) as -> by (unfold month_start; dlia).
  assert (k `quot` 11 = k / 11) as -> by dlia.
  rewrite !(s32_id (k / 11)) by dlia.
  exists n, i, k, (q - month_start k).
  rewrite !s16_id, s32_id by (unfold month_start in *; dlia).
  unfold day_number. repeat split; lia || (unfold month_start in *; dlia).
Qed.

Lemma leap_year_start n i :
  0 <= i <= 99 ->
  leap (100 * (n - 49) + i + 1) =
  (Z.min (century_start n + year_start (i + 1)) (century_start (n + 1))
   - (century_start n + year_start i) =? 366).
Proof.
  intros Hi. unfold leap, century_start, year_start. 
  apply eq_true_iff_eq. rewrite andb_true_iff, orb_true_iff, negb_true_iff.
  rewrite Z.eqb_neq, !Z.eqb_eq. dlia.
Qed.

Ltac month_cases k := 
  let H := fresh in
  assert (k = 1 \/ k = 2 \/ k = 3 \/ k = 4 \/ k = 5 \/ k = 6 \/ k = 7 \/ k = 8
    \/ k = 9 \/ k = 10 \/ k = 11 \/ k = 12) as H by lia;
  repeat destruct H as [H|H]; rewrite H in *; clear H.

Lemma calendar2jday_parts n i k d :
  0 <= i <= 99 -> 1 <= k <= 12 -> 0 <= d <= 31 -> 1 <= n <= 14690 ->
  calendar2jday (100 * (n - 49) + i + k / 11) (k + 2 - 12 * (k / 11)) d
  = if (100 * (n - 49) + i + k / 11 <? -4713) || (day_number n i k d <? 68569) then -1
    else day_number n i k d - 68569.
Proof.
  intros Hi Hk Hd Hn. unfold calendar2jday.
  remember (k / 11) as L eqn:EL.
  assert (0 <= L <= 1) by dlia.
  assert ((k + 2 - 12 * L - 14) `quot` 12 = - L) as -> by dlia.
  assert ((100 * (n - 49) + i + L + 4900 + - L) `quot` 100 = n) as -> by dlia.
  replace (1461 * (100 * (n - 49) + i + L + 4800 + - L)) with (146100 * (n - 1) + 1461 * i) by lia.
  replace (367 * (k + 2 - 12 * L - 2 - 12 * - L)) with (367 * k) by lia.
  rewrite (s32_id (146100 * _ + _)), (s32_id (367 * k)), (s32_id (3 * n)) by lia.
  assert ((367 * k) `quot` 12 = month_start k) as -> by (unfold month_start; clear -Hk; month_cases k; reflexivity).
  assert ((146100 * (n - 1) + 1461 * i) `quot` 4 = 36525 * (n - 1) + year_start i) as ->
    by (unfold year_start; dlia).
  assert ((3 * n) `quot` 4 = 36525 * n - 1 - century_start n + 1) as -> by (unfold century_start; dlia).
  replace (36525 * (n - 1) + year_start i + month_start k - (36525 * n - 1 - century_start n + 1) + d - 32075)
    with (day_number n i k d - 68569) by (unfold day_number; lia).
  rewrite s32_id by (unfold day_number, century_start, year_start, month_start in *; dlia).
  destruct (Z.ltb_spec (100 * (n - 49) + i + L) (-4713)); [done|].
  destruct (Z.ltb_spec (day_number n i k d - 68569) 0),
    (Z.ltb_spec (day_number n i k d) 68569); cbn; lia.
Qed.

Lemma month_len_parts y k :
  1 <= k <= 12 ->
  month_len y (k + 2 - 12 * (k / 11)) =
  if k =? 12 then if leap y then 29 else 28 else month_start (k + 1) - month_start k.
Proof.
  intros Hk. month_cases k;
  match goal with |- context [month_len y ?m] => 
    let v := eval vm_compute in m in change m with v end; reflexivity.
Qed.

(** The printed date is one the Gregorian calendar has. *)
Lemma jday2calendar_valid j : 0 <= j <= NO_OVERFLOW -> valid (jday2calendar j).
Proof.
  intros Hj. destruct (jday2calendar_parts j Hj)
    as (n & i & k & d & -> & Hi & Hk & Hd & Hn & Ej & Hlen & Hr).
  unfold valid. rewrite month_len_parts by lia. split; [dlia|split; [lia|]].
  destruct (Z.eqb_spec k 12) as [->|]; [|lia].
  change (12 / 11) with 1. rewrite leap_year_start by lia.
  rewrite Ej in Hr. unfold day_number in Hr.
  change (month_start 12) with 367 in Hr.
  destruct (Z.eqb_spec (Z.min (century_start n + year_start (i + 1)) (century_start (n + 1))
     - (century_start n + year_start i)) 366); [lia|].
  unfold century_start, year_start in *; dlia.
Qed.

Lemma calendar2jday_in n i k d :
  0 <= i <= 99 -> 1 <= k <= 12 -> 1 <= d <= 31 -> 1 <= n <= 14690 ->
  68569 <= day_number n i k d ->
  calendar2jday (100 * (n - 49) + i + k / 11) (k + 2 - 12 * (k / 11)) d
  = day_number n i k d - 68569.
Proof.
  intros Hi Hk Hd Hn Hj. rewrite calendar2jday_parts by lia.
  assert (-4713 <= 100 * (n - 49) + i + k / 11)
    by (unfold day_number, century_start, year_start, month_start in *; dlia).
  destruct (Z.ltb_spec (100 * (n - 49) + i + k / 11) (-4713)); [lia|].
  destruct (Z.ltb_spec (day_number n i k d) 68569); [lia|done].
Qed.

Lemma calendar_roundtrip_noov j :
  0 <= j <= NO_OVERFLOW -> let '(y, m, d) := jday2calendar j in calendar2jday y m d = j.
Proof.
  intros Hj. destruct (jday2calendar_parts j Hj) as (n & i & k & d & -> & Hi & Hk & Hd & Hn & Ej & Hlen & Hr).
  rewrite calendar2jday_in; try lia.
  unfold month_start in Hlen. dlia.
Qed.

(** A valid date is given by its century, year, month and day counted from
    March, and lies in the year they start. *)
Lemma valid_parts y m d :
  valid (y, m, d) ->
  exists n i k, y = 100 * (n - 49) + i + k / 11 /\ m = k + 2 - 12 * (k / 11)
    /\ 0 <= i <= 99 /\ 1 <= k <= 12 /\ 1 <= d <= month_start (k + 1) - month_start k
    /\ century_start n + year_start i <= day_number n i k d
       < Z.min (century_start n + year_start (i + 1)) (century_start (n + 1)).
Proof.
  intros [Hm Hd].
  set (L := if m <=? 2 then 1 else 0).
  exists ((y - L) / 100 + 49), ((y - L) mod 100), (m - 2 + 12 * L).
  assert ((m - 2 + 12 * L) / 11 = L) as -> by (subst L; destruct (Z.leb_spec m 2); dlia).
  assert (1 <= m - 2 + 12 * L <= 12) as Hk by (subst L; destruct (Z.leb_spec m 2); lia).
  assert (m = (m - 2 + 12 * L) + 2 - 12 * ((m - 2 + 12 * L) / 11)) as Em
    by (subst L; destruct (Z.leb_spec m 2); dlia).
  rewrite Em, month_len_parts in Hd by lia.
  remember ((y - L) / 100 + 49) as n eqn:En. remember ((y - L) mod 100) as i eqn:Ei.
  assert (y = 100 * (n - 49) + i + L) as Ey by dlia.
  assert (0 <= i <= 99) as Hi by dlia.
  clear En Ei. repeat split; try dlia.
  - revert Hd. unfold month_start. destruct (Z.eqb_spec (m - 2 + 12 * L) 12) as [Ek|]; [rewrite Ek|lia].
    destruct (leap y); dlia.
  - unfold day_number, month_start. dlia.
  - unfold day_number. destruct (Z.eqb_spec (m - 2 + 12 * L) 12) as [Ek|].
    + rewrite Ek. change (month_start 12) with 367.
      assert (L = 1) as -> by (subst L; destruct (Z.leb_spec m 2); lia).
      rewrite Ey, leap_year_start in Hd by lia.
      destruct (Z.eqb_spec (Z.min (century_start n + year_start (i + 1)) (century_start (n + 1))
        - (century_start n + year_start i)) 366); [lia|].
      unfold century_start, year_start in *; dlia.
    + unfold month_start, century_start, year_start in *; dlia.
Qed.

Lemma day_number_inj n i k d n' i' k' d' :
  0 <= i <= 99 -> 0 <= i' <= 99 -> 1 <= k <= 12 -> 1 <= k' <= 12 ->
  1 <= d <= month_start (k + 1) - month_start k ->
  1 <= d' <= month_start (k' + 1) - month_start k' ->
  century_start n + year_start i <= day_number n i k d
    < Z.min (century_start n + year_start (i + 1)) (century_start (n + 1)) ->
  century_start n' + year_start i' <= day_number n' i' k' d'
    < Z.min (century_start n' + year_start (i' + 1)) (century_start (n' + 1)) ->
  day_number n i k d = day_number n' i' k' d' ->
  n = n' /\ i = i' /\ k = k' /\ d = d'.
Proof.
  intros Hi Hi' Hk Hk' Hd Hd' Hr Hr' E. rewrite <- E in Hr'.
  assert (n = n') as <- by (unfold century_start, year_start in *; dlia).
  assert (i = i') as <- by (unfold year_start in *; dlia).
  assert (k = k') as <- by (unfold day_number, month_start in *; dlia).
  unfold day_number in E. lia.
Qed.

Lemma jday2calendar_unique j n i k d :
  0 <= j <= NO_OVERFLOW -> 0 <= i <= 99 -> 1 <= k <= 12 ->
  1 <= d <= month_start (k + 1) - month_start k ->
  century_start n + year_start i <= day_number n i k d
    < Z.min (century_start n + year_start (i + 1)) (century_start (n + 1)) ->
  j + 68569 = day_number n i k d ->
  jday2calendar j = (100 * (n - 49) + i + k / 11, k + 2 - 12 * (k / 11), d).
Proof.
  intros Hj Hi Hk Hd Hr E.
  destruct (jday2calendar_parts j Hj)
    as (n' & i' & k' & d' & -> & Hi' & Hk' & Hd' & Hn' & Ej & Hlen & Hr').
  rewrite E in *.
  destruct (day_number_inj n i k d n' i' k' d') as (-> & -> & -> & ->); try done; lia.
Qed.

(** [calendar2jday] and [jday2calendar] are inverse on the dates of the
    Gregorian calendar. *)
Lemma jday2calendar_calendar2jday y m d :
  valid (y, m, d) -> y < 1000000 -> 0 <= calendar2jday y m d ->
  jday2calendar (calendar2jday y m d) = (y, m, d).
Proof.
  intros Hv Hy H0.
  destruct (valid_parts y m d Hv) as (n & i & k & -> & -> & Hi & Hk & Hd & Hr).
  assert (1 <= n <= 14690 /\ 68569 <= day_number n i k d) as [Hn Hj].
  { assert (-4713 <= 100 * (n - 49) + i + k / 11) as Hy'.
    { unfold calendar2jday in H0.
      destruct (Z.ltb_spec (100 * (n - 49) + i + k / 11) (-4713)); lia. }
    assert (1 <= n <= 14690) as Hn by dlia. split; [done|].
    rewrite calendar2jday_parts in H0 by (unfold month_start in *; dlia).
    destruct (Z.ltb_spec (100 * (n - 49) + i + k / 11) (-4713)); [cbn in H0; lia|].
    destruct (Z.ltb_spec (day_number n i k d) 68569); [cbn in H0; lia|lia]. }
  assert (0 <= day_number n i k d - 68569 <= NO_OVERFLOW) as Hj'.
  { unfold NO_OVERFLOW, day_number, century_start, year_start, month_start in *; dlia. }
  rewrite calendar2jday_in in * by (unfold month_start in *; dlia).
  by apply jday2calendar_unique; lia || done.
Qed.

Lemma next_day_parts n i k d :
  0 <= i <= 99 -> 1 <= k <= 12 -> 1 <= d <= month_start (k + 1) - month_start k ->
  century_start n + year_start i <= day_number n i k d
    < Z.min (century_start n + year_start (i + 1)) (century_start (n + 1)) ->
  exists n' i' k' d',
    next_day (100 * (n - 49) + i + k / 11, k + 2 - 12 * (k / 11), d)
      = (100 * (n' - 49) + i' + k' / 11, k' + 2 - 12 * (k' / 11), d')
    /\ 0 <= i' <= 99 /\ 1 <= k' <= 12 /\ 1 <= d' <= month_start (k' + 1) - month_start k'
    /\ day_number n' i' k' d' = day_number n i k d + 1
    /\ century_start n' + year_start i' <= day_number n' i' k' d'
       < Z.min (century_start n' + year_start (i' + 1)) (century_start (n' + 1)).
Proof.
  intros Hi Hk Hd Hr. unfold next_day. rewrite month_len_parts by lia.
  remember (if k =? 12 then if leap (100 * (n - 49) + i + k / 11) then 29 else 28
            else month_start (k + 1) - month_start k) as len eqn:Elen.
  assert (k < 12 /\ len = month_start (k + 1) - month_start k
    \/ k = 12 /\ century_start n + year_start i + month_start k + len - 30
       = Z.min (century_start n + year_start (i + 1)) (century_start (n + 1))) as Hlen.
  { destruct (Z.eqb_spec k 12) as [->|]; [right|left; lia]. split; [done|].
    change (12 / 11) with 1 in Elen. rewrite leap_year_start in Elen by lia.
    change (month_start 12) with 367. rewrite Elen.
    destruct (Z.eqb_spec (Z.min (century_start n + year_start (i + 1)) (century_start (n + 1))
       - (century_start n + year_start i)) 366); [lia|].
    unfold century_start, year_start in *; dlia. }
  clear Elen. destruct Hlen as [[Hk' ->]|[-> Hlen]].
  - destruct (Z.ltb_spec d (month_start (k + 1) - month_start k)).
    { exists n, i, k, (d + 1). unfold day_number, month_start, century_start, year_start in *.
      repeat split; dlia. }
    assert (d = month_start (k + 1) - month_start k) as -> by lia.
    exists n, i, (k + 1), 1.
    assert (day_number n i (k + 1) 1 = day_number n i k (month_start (k + 1) - month_start k) + 1)
      as E by (unfold day_number; lia).
    split; [|rewrite E; unfold day_number, month_start, century_start, year_start in *;
             repeat split; dlia].
    destruct (Z.ltb_spec (k + 2 - 12 * (k / 11)) 12); apply triple_eq; dlia.
  - change (12 / 11) with 1. change (12 + 2 - 12 * 1) with 2. change (2 <? 12) with true. 
    change (month_start 12) with 367 in *.
    destruct (Z.ltb_spec d len).
    { exists n, i, 12, (d + 1). unfold day_number in *. change (month_start 12) with 367 in *.
      unfold month_start, century_start, year_start in *. repeat split; dlia. }
    destruct (Z.eq_dec i 99) as [->|].
    + exists (n + 1), 0, 1, 1. unfold day_number in *. change (month_start 12) with 367 in *.
      change (month_start (12 + 1)) with 397 in *. change (month_start (1 + 1)) with 61 in *.
      change (month_start 1) with 30 in *. 
      split; [apply triple_eq; dlia|]. unfold century_start, year_start in *. repeat split; dlia.
    + exists n, (i + 1), 1, 1. unfold day_number in *. change (month_start 12) with 367 in *.
      change (month_start (12 + 1)) with 397 in *. change (month_start (1 + 1)) with 61 in *.
      change (month_start 1) with 30 in *. 
      split; [apply triple_eq; dlia|]. unfold century_start, year_start in *. repeat split; dlia.
Qed.

(** Advancing the julian day by one advances the date by one day. *)
Lemma jday2calendar_next j :
  0 <= j < NO_OVERFLOW -> jday2calendar (j + 1) = next_day (jday2calendar j).
Proof.
  intros Hj. destruct (jday2calendar_parts j ltac:(lia))
    as (n & i & k & d & -> & Hi & Hk & Hd & Hn & Ej & Hlen & Hr). rewrite Ej in Hr.
  destruct (next_day_parts n i k d) as (n' & i' & k' & d' & -> & Hi' & Hk' & Hd' & En & Hr'); try lia.
  apply jday2calendar_unique; lia.
Qed.

Lemma digits_no_dash ds :
  Forall (fun c => isdigit c = true) ds -> Forall (fun c => ceqb "-"%char c = false) ds.
Proof.
  intros H. eapply Forall_impl; [exact H|]. intros c Hc. cbn.
  apply bool_decide_eq_false. intros <-. by vm_compute in Hc.
Qed.

Lemma fmt_d_2_token m :
  0 <= m <= 99 -> exists c t, fmt_d 2 m = c :: t /\ isdigit c = true
    /\ Forall (fun x => ceqb "-"%char x = false) (c :: t).
Proof.
  intros Hm. rewrite fmt_d_2 by done.
  assert (isdigit (digit_chr (m / 10)) = true) by (apply isdigit_chr; dlia).
  assert (isdigit (digit_chr (m mod 10)) = true) by (apply isdigit_chr; dlia).
  eexists _, _. repeat split; [done|]. apply digits_no_dash. by repeat constructor.
Qed.

(** The fields of a date string of the form ["Y...-MM-DD"] are recovered when
    the year has more than its first character. *)
Lemma ascii2jday_fields c0 c1 cy m d y :
  (isdigit c0 = true \/ c0 = "-"%char) ->
  Forall (fun c => isdigit c = true) (c1 :: cy) -> (length (c1 :: cy) <= 6)%nat ->
  fmt_d 1 y = c0 :: c1 :: cy -> - 2 ^ 31 <= y < 2 ^ 31 -> 0 <= m <= 99 -> 0 <= d <= 99 ->
  ascii2jday (fmt_d 1 y ++ "-"%char :: fmt_d 2 m ++ "-"%char :: fmt_d 2 d)
  = calendar2jday y m d.
Proof.
  intros Hc0 Hcy Hlen Ey Hy Hm Hd. unfold ascii2jday.
  destruct (fmt_d_2_token m Hm) as (cm & tm & Em & Hcm & Hm').
  destruct (fmt_d_2_token d Hd) as (cd & td & Ed & Hcd & Hd').
  assert (length (cm :: tm) = 2%nat) as Lm by (rewrite <- Em, fmt_d_2 by lia; done).
  assert (length (cd :: td) = 2%nat) as Ld by (rewrite <- Ed, fmt_d_2 by lia; done).
  replace (13 <? _) with false; cycle 1.
  { symmetry. apply Z.ltb_ge. unfold strlen. rewrite Ey, Em, Ed.
    rewrite !length_app; cbn [length] in *. rewrite length_app; cbn [length]. lia. }
  replace (_ <? 5) with false; cycle 1.
  { symmetry. apply Z.ltb_ge. unfold strlen. rewrite Ey, Em, Ed.
    rewrite !length_app; cbn [length] in *. rewrite length_app; cbn [length]. lia. }
  cbn [orb]. rewrite Ey. cbn [app].
  rewrite strtok_token by by apply digits_no_dash.
  rewrite Em. cbn [app]. rewrite strtok_token by done.
  rewrite Ed. rewrite strtok_last by done.
  change (default [] (Some (c1 :: cy))) with (c1 :: cy). cbn [starts_digit]. rewrite Hcm, Hcd. 
  replace (negb (isdigit c0) && negb (ceqb c0 "-"%char)) with false; cycle 1.
  { destruct Hc0 as [->| ->]; [done|]. by rewrite ceqb_refl, andb_false_r. }
  cbn [orb negb app]. rewrite <- Em, <- Ed, <- Ey. unfold atol.
  rewrite !atoi_fmt_d_end by lia. rewrite <- (app_nil_r (fmt_d 1 y)), strtol_fmt_d by done.
  by rewrite s32_id, !s16_id by lia.
Qed.

(** A one-digit year loses its month: [strtok] starts after the digit. *)
Lemma ascii2jday_short_year y m d :
  0 <= y <= 9 -> 0 <= m <= 99 -> 0 <= d <= 99 ->
  ascii2jday (fmt_d 1 y ++ "-"%char :: fmt_d 2 m ++ "-"%char :: fmt_d 2 d) = -1.
Proof.
  intros Hy Hm Hd. unfold ascii2jday.
  assert (fmt_d 1 y = [digit_chr y]) as ->.
  { unfold fmt_d. destruct (Z.ltb_spec y 0); [lia|]. rewrite Z.abs_eq by lia.
    cbn [dec_digits]. destruct (Z.ltb_spec y 10); [done|lia]. }
  destruct ((13 <? _) || _); [done|].
  destruct (fmt_d_2_token m Hm) as (cm & tm & -> & Hcm & Hm').
  destruct (fmt_d_2_token d Hd) as (cd & td & -> & Hcd & Hd').
  cbn [app].
  assert (strtok "-"%char ("-"%char :: cm :: tm ++ "-"%char :: cd :: td)
    = (["-"%char], Some (cm :: tm), cd :: td)) as ->.
  { by rewrite strtok_skip, strtok_token. }
  rewrite strtok_last by done. done.
Qed.

Lemma julian_ok_no_overflow j : julian_ok j -> 0 <= j <= NO_OVERFLOW.
Proof. unfold julian_ok, MIN_JULIAN, MAX_JULIAN, NO_OVERFLOW. lia. Qed.


#[local] Hint Resolve julian_ok_no_overflow : eyedb.

Lemma jday2calendar_year_range j y m d :
  julian_ok j -> jday2calendar j = (y, m, d) -> -4713 <= y <= 999999.
Proof.
  intros Hj E. destruct (jday2calendar_parts j) as (n & i & k & d' & E' & Hi & Hk & Hd & Hn & Ej & Hlen & Hr).
  { auto with eyedb. }
  rewrite E in E'. inversion E'; subst.
  unfold julian_ok, MAX_JULIAN, MIN_JULIAN, day_number, century_start, year_start, month_start in *.
  dlia.
Qed.

Lemma ascii2jday_jday2ascii j :
  julian_ok j ->
  let '(y, _, _) := jday2calendar j in
  ascii2jday (jday2ascii j) = if (0 <=? y) && (y <=? 9) then -1 else j.
Proof.
  intros Hj. pose proof (jday2calendar_valid j ltac:(auto with eyedb)) as Hv.
  pose proof (calendar_roundtrip_noov j ltac:(auto with eyedb)) as Hrt.
  unfold jday2ascii.
  destruct (jday2calendar j) as [[y m] d] eqn:Ec.
  pose proof (jday2calendar_year_range j y m d Hj Ec) as Hy.
  destruct Hv as [Hm Hd].
  assert (d <= 31) by (unfold month_len in Hd; repeat case_match; lia).
  destruct (Z.leb_spec 0 y), (Z.leb_spec y 9); cbn [andb];
    [by rewrite ascii2jday_short_year by lia| | | lia].
  - (* two digits at least *)
    destruct (fmt_d_nonneg 1 y) as (ds & Eds & Hds & Hne & Hv); [lia|].
    assert (length ds = length (dec_digits 20 y) /\ (2 <= length ds <= 6)%nat) as [_ Hl].
    { revert Eds. unfold fmt_d. destruct (Z.ltb_spec y 0); [lia|]. rewrite Z.abs_eq by lia.
      pose proof (dec_digits_length_ge 20 y 1 ltac:(lia) ltac:(lia)).
      pose proof (dec_digits_length_le 20 y 6 ltac:(lia) ltac:(lia)).
      intros <-. rewrite !length_app, length_replicate. cbn [length]. lia. }
    destruct ds as [|c0 [|c1 cy]]; cbn [length] in Hl; [lia|lia|].
    inversion Hds; subst.
    rewrite (ascii2jday_fields c0 c1 cy); cbn [length]; auto; lia.
  - destruct (fmt_d_nonneg 1 (- y)) as (ds & Eds & Hds & Hne & Hv); [lia|].
    pose proof (fmt_d_neg 1 y ltac:(lia)) as En. rewrite Eds in En.
    assert ((1 <= length ds <= 6)%nat) as Hl.
    { revert Eds. unfold fmt_d. destruct (Z.ltb_spec (- y) 0); [lia|]. rewrite Z.abs_eq by lia.
      pose proof (dec_digits_length_ge 20 (- y) 0 ltac:(lia) ltac:(lia)).
      pose proof (dec_digits_length_le 20 (- y) 6 ltac:(lia) ltac:(lia)).
      intros <-. rewrite !length_app, length_replicate. cbn [length]. lia. }
    destruct ds as [|c1 cy]; cbn [length] in Hl; [lia|].
    rewrite (ascii2jday_fields "-" c1 cy); cbn [length]; auto; lia.
Qed.

Lemma jday2ascii_shape j :
  j <= MAX_JULIAN ->
  0 < strlen (jday2ascii j) <= 12
  /\ Forall (fun c => ceqb " "%char c = false) (jday2ascii j).
Proof.
  intros Hj. unfold jday2ascii.
  assert (exists y m d, jday2calendar j = (y, m, d) /\ -4713 <= y <= 999999
    /\ 0 <= m <= 99 /\ 0 <= d <= 99) as (y & m & d & -> & Hy & Hm & Hd).
  { destruct (Z.lt_ge_cases j 0) as [Hneg|Hpos].
    - exists (-4713), 11, 24. unfold jday2calendar.
      destruct (Z.ltb_spec j 0); [repeat split; done|lia].
    - assert (julian_ok j) as Hok by (split; [exact Hpos|exact Hj]).
      pose proof (jday2calendar_valid j ltac:(auto with eyedb)) as Hv.
      destruct (jday2calendar j) as [[y m] d] eqn:E. exists y, m, d.
      pose proof (jday2calendar_year_range j y m d Hok E). destruct Hv as [Hm Hd].
      assert (d <= 31) by (unfold month_len in Hd; repeat case_match; lia).
      repeat split; lia. }
  split.
  - assert (1 <= length (fmt_d 1 y) <= 6)%nat as Hl.
    { unfold fmt_d. rewrite !length_app, length_replicate.
      pose proof (dec_digits_length 20 (Z.abs y) ltac:(lia)).
      destruct (Z.ltb_spec y 0); cbn [length].
      - pose proof (dec_digits_length_le 20 (Z.abs y) 4 ltac:(lia) ltac:(lia)). lia.
      - pose proof (dec_digits_length_le 20 (Z.abs y) 6 ltac:(lia) ltac:(lia)). lia. }
    rewrite !fmt_d_2 by lia. unfold strlen. rewrite length_app. cbn [length app]. lia.
  - apply Forall_app; split; [apply fmt_d_not_space|]. constructor; [done|].
    apply Forall_app; split; [apply fmt_d_not_space|]. constructor; [done|].
    apply fmt_d_not_space.
Qed.

Lemma jday2leap_year_spec j :
  let '(y, _, _) := jday2calendar j in jday2leap_year j = leap y.
Proof.
  unfold jday2leap_year. destruct (jday2calendar j) as [[y m] d].
  unfold leap. apply eq_true_iff_eq. rewrite !andb_true_iff, !orb_true_iff, !negb_true_iff.
  rewrite !Z.eqb_neq, !Z.eqb_eq. dlia.
Qed.

Lemma jday2weekday_spec j :
  julian_ok j -> 0 <= jday2weekday j < 7 /\ jday2weekday j = (j + 1) mod 7.
Proof.
  unfold julian_ok, MIN_JULIAN, MAX_JULIAN, jday2weekday. intros Hj.
  rewrite s32_id by lia. dlia.
Qed.

Lemma days_before_parts y k :
  1 <= k <= 10 -> days_before y (k + 2) = (if leap y then 60 else 59) + month_start k - 30.
Proof.
  intros Hk. unfold days_before.
  destruct (leap y) eqn:El;
  assert (k = 1 \/ k = 2 \/ k = 3 \/ k = 4 \/ k = 5 \/ k = 6 \/ k = 7 \/ k = 8 \/ k = 9 \/ k = 10)
    as H by lia; repeat destruct H as [H|H]; subst k; cbn; unfold month_len; cbn;
   rewrite ?El; reflexivity.
Qed.

Lemma day_of_year_spec j :
  julian_ok j -> 
  jday2day_of_year j = if j <? 38 then j + 1 else day_of_year (jday2calendar j).
Proof.
  intros Hj.
  destruct (jday2calendar_parts j ltac:(auto with eyedb))
    as (n & i & k & d & E & Hi & Hk & Hd & Hn & Ej & Hlen & Hr).
  unfold jday2day_of_year. rewrite E. unfold day_of_year.
  rewrite Ej in Hr.
  assert (n <= 14600) by (unfold julian_ok, MAX_JULIAN, day_number, century_start, year_start, month_start in *; dlia).
  destruct (Z.leb_spec 11 k).
  - assert (k / 11 = 1) as -> by dlia.
    replace (100 * (n - 49) + i + 1) with (100 * (n - 49) + i + 11 / 11) at 1 by reflexivity.
    change (calendar2jday (100 * (n - 49) + i + 11 / 11) 1 0)
      with (calendar2jday (100 * (n - 49) + i + 11 / 11) (11 + 2 - 12 * (11 / 11)) 0).
    rewrite calendar2jday_parts by lia.
    assert (days_before (100 * (n - 49) + i + 1) (k + 2 - 12 * 1) = month_start k - month_start 11) as ->.
    { assert (k = 11 \/ k = 12) as [-> | ->] by lia; reflexivity. }
    change (month_start 11) with 336.
    destruct (Z.ltb_spec (100 * (n - 49) + i + 11 / 11) (-4713)), (Z.ltb_spec (day_number n i 11 0) 68569),
      (Z.ltb_spec j 38); cbn [orb]; rewrite s16_id;
    unfold day_number, century_start, year_start, month_start in *; dlia.
  - assert (k / 11 = 0) as -> by dlia. replace (k + 2 - 12 * 0) with (k + 2) by lia.
    rewrite days_before_parts by lia.
    assert (exists np ip, 100 * (n - 49) + i + 0 = 100 * (np - 49) + ip + 11 / 11
      /\ 0 <= ip <= 99 /\ 1 <= np <= 14690
      /\ Z.min (century_start np + year_start (ip + 1)) (century_start (np + 1))
         = century_start n + year_start i) as (np & ip & Ey & Hip & Hnp & Estart).
    { change (11 / 11) with 1. destruct (Z.eq_dec i 0) as [->|].
      - assert (2 <= n).
        { assert (n <> 1); [intros ->|lia]. clear - Hj Ej Hlen Hk Hd H.
          unfold julian_ok, MIN_JULIAN, day_number, century_start, year_start, month_start in *. dlia. }
        exists (n - 1), 99. clear - H1 Hn H0. unfold century_start, year_start.
        repeat split; dlia.
      - exists n, (i - 1). clear - n0 Hi Hn. unfold century_start, year_start.
        repeat split; dlia. }
    rewrite Ey. change (calendar2jday (100 * (np - 49) + ip + 11 / 11) 1 0)
      with (calendar2jday (100 * (np - 49) + ip + 11 / 11) (11 + 2 - 12 * (11 / 11)) 0).
    rewrite calendar2jday_parts by lia.
    change (11 / 11) with 1. rewrite leap_year_start, Estart by lia.
    assert (day_number np ip 11 0 = century_start np + year_start ip + 305) as -> by
      (unfold day_number; change (month_start 11) with 336; lia).
    unfold day_number in *.
    assert (365 <= century_start n + year_start i - (century_start np + year_start ip) <= 366)
      by (rewrite <- Estart; clear - Hip Hnp; unfold century_start, year_start; dlia).
    assert (0 <= century_start np + year_start ip + 305 - 68569 <-> -4712 <= 100 * (np - 49) + ip + 1)
      by (clear - Hip Hnp; unfold century_start, year_start; split; dlia).
    assert (100 * (np - 49) + ip + 1 <= -4713 -> century_start n + year_start i <= 68301)
      by (rewrite <- Estart; clear - Hip Hnp; unfold century_start, year_start; dlia).
    clear Estart Hr. unfold julian_ok, MIN_JULIAN in Hj.
    assert (30 <= month_start k <= 305 /\ 1 <= d <= 31) by (unfold month_start in *; dlia).
    assert (month_start k + d <= 336) by (unfold month_start in *; dlia).
    destruct (Z.eqb_spec (century_start n + year_start i - (century_start np + year_start ip)) 366);
    destruct (Z.ltb_spec (100 * (np - 49) + ip + 1) (-4713)),
      (Z.ltb_spec (century_start np + year_start ip + 305) 68569),
      (Z.ltb_spec j 38); cbn [orb]; rewrite s16_id; lia.
Qed.

End Proofs.

#[export] Hint Resolve julian_ok_no_overflow : eyedb.

#[export] Instance converter_laws : CalendarLaws converter.
Proof.
  split.
  - reflexivity.
  - intros j Hj. apply jday2calendar_next. unfold NO_OVERFLOW, MAX_JULIAN in *. lia.
  - intros j Hj. apply calendar_roundtrip_noov. auto with eyedb.
  - exact jday2weekday_spec.
  - intros j Hj. pose proof (ascii2jday_jday2ascii j Hj) as H.
    change (let '(y, _, _) := jday2calendar j in
            0 <= y <= 9 \/ ascii2jday (jday2ascii j) = j).
    destruct (jday2calendar j) as [[y m] d]. cbn beta iota in *.
    destruct (Z.leb_spec 0 y), (Z.leb_spec y 9); cbn [andb] in H; auto; left; lia.
  - exact jday2ascii_shape.
Qed.

(** ** Properties *)

(** C24: [jday2calendar] counts the days of the proleptic Gregorian calendar:
    day 0 is 24 November -4713, every julian day a Date may hold is a date the
    calendar has, and the next julian day is the next date (month lengths and
    leap years included). *)
Theorem jday2calendar_gregorian :
  jday2calendar 0 = (-4713, 11, 24)
  /\ forall j, julian_ok j ->
     GregorianSpec.valid (jday2calendar j)
     /\ (j < MAX_JULIAN ->
         jday2calendar (j + 1) = GregorianSpec.next_day (jday2calendar j)).
Proof.
  split; [reflexivity|]. intros j Hj. split.
  - apply jday2calendar_valid. auto with eyedb.
  - intros Hlt. apply jday2calendar_next.
    unfold julian_ok, MIN_JULIAN, NO_OVERFLOW, MAX_JULIAN in *. lia.
Qed.

(** [calendar2jday] and [jday2calendar] are inverse of each other: on every
    julian day a Date may hold, and on every date of the Gregorian calendar
    [calendar2jday] accepts, up to the year 1000000. *)
Theorem calendar_bijection :
  (forall j, julian_ok j ->
     let '(y, m, d) := jday2calendar j in calendar2jday y m d = j)
  /\ (forall y m d, GregorianSpec.valid (y, m, d) -> y < 1000000 ->
      0 <= calendar2jday y m d -> jday2calendar (calendar2jday y m d) = (y, m, d)).
Proof.
  split; [intros; apply calendar_roundtrip_noov; auto with eyedb|].
  exact jday2calendar_calendar2jday.
Qed.

(** Printing a julian day and parsing it back gives the same day, except in
    the years 0 to 9, where the parse fails with -1: [ascii2jday] starts
    [strtok] after the first character of the year. *)
Theorem ascii_roundtrip j :
  julian_ok j ->
  let '(y, _, _) := jday2calendar j in
  ascii2jday (jday2ascii j) = if (0 <=? y) && (y <=? 9) then -1 else j.
Proof. exact (ascii2jday_jday2ascii j). Qed.

Lemma ascii_roundtrip_witness :
  julian_ok 2440588 /\ ascii2jday (jday2ascii 2440588) = 2440588.
Proof. split; [split; discriminate|]. exact (ascii_roundtrip 2440588 ltac:(split; discriminate)). Defined.

(** [jday2day_of_year] is the rank of the day in its Gregorian year, except
    in the last 38 days of the year -4713, where the first day of the year has
    no julian day and the rank is counted from day 0. *)
Theorem day_of_year_correct j :
  julian_ok j ->
  jday2day_of_year j =
  if j <? 38 then j + 1 else GregorianSpec.day_of_year (jday2calendar j).
Proof. exact (day_of_year_spec j). Qed.

Lemma day_of_year_correct_witness :
  julian_ok 2440647 /\ jday2day_of_year 2440647 = 60.
Proof. split; [split; discriminate|]. exact (day_of_year_correct 2440647 ltac:(split; discriminate)). Defined.

End Gregorian.

(** DateAlgorithmRepository::getDefaultCalendarConverter, src/eyedb/datelib.cc. *)
#[export] Instance getDefaultCalendarConverter : CalendarConverter := Gregorian.converter.
#[export] Instance getDefaultCalendarConverter_laws : CalendarLaws getDefaultCalendarConverter :=
  Gregorian.converter_laws.
