(* ===== verification/Clock.v ===== *)
(** * The clock converter

    src/eyedb/ClockConverter.cc: microseconds and clock readings, time zones
    in minutes, and their printed forms. *)

From Stdlib Require Import Ascii String.
From S2P Require Import Prelude CString.

(** What the code reads from the operating system: gettimeofday and the
    [timezone] variable of [tzset]. *)
Record os_clock := { tv_sec : Z; tv_usec : Z; timezone : Z }.

(** eyedb::Status: a null pointer for success, or an exception. *)
Inductive Status := Success | Exception_make (msg : string).

Module Clock.

Definition USEC_OF_DAY : Z := 86400000000.
Definition USEC_OF_HOUR : Z := 3600000000.
Definition USEC_OF_MINUTE : Z := 60000000.
Definition USEC_OF_SECOND : Z := 1000000.
Definition USEC_OF_MILLISECOND : Z := 1000.
Definition MAX_TZ : Z := 720.
Definition MIN_TZ : Z := -720.
Definition MAX_STRING_CLOCK : Z := 32.
Definition MAX_STRING_ZONE : Z := 16.

(** hour, minute, second, millisecond, microsecond, each an int16. *)
Record clock := mk_clock { c_hour : Z; c_min : Z; c_sec : Z; c_ms : Z; c_us : Z }.

Definition usec2clock (usec : Z) : clock :=
  let hour := s16 (usec `quot` USEC_OF_HOUR) in
  let usec_res := usec `rem` USEC_OF_HOUR in
  let min := s16 (usec_res `quot` USEC_OF_MINUTE) in
  let usec_res := usec_res `rem` USEC_OF_MINUTE in
  let sec := s16 (usec_res `quot` USEC_OF_SECOND) in
  let usec_res := usec_res `rem` USEC_OF_SECOND in
  let ms := s16 (usec_res `quot` USEC_OF_MILLISECOND) in
  let usec_res := usec_res `rem` USEC_OF_MILLISECOND in
  let us := s16 usec_res in
  mk_clock hour min sec ms us.

Definition clock2usec (c : clock) : Z :=
  s64 (c_hour c * USEC_OF_HOUR + c_min c * USEC_OF_MINUTE + c_sec c * USEC_OF_SECOND
       + c_ms c * USEC_OF_MILLISECOND + c_us c).

Definition usec2day (usec : Z) : Z := s32 (usec `quot` USEC_OF_DAY).

Definition tz2clock (tz : Z) : Z * Z :=
  (s16 ((tz `quot` 60) `rem` 24), s16 (tz `rem` 60)).

Definition clock2tz (hour min : Z) : Z := s16 ((hour `rem` 24) * 60 + min).

(** The characters of the buffer from offset [a] up to the NUL written at
    offset [b]. *)
Definition field (a b : nat) (s : cstr) : cstr := take (b - a) (drop a s).

(** The [switch] falls through: each length has the fields of the shorter ones. *)
Definition ascii2usec (t : cstr) : Z :=
  let len := strlen t in
  if (16 <? len) || (len <? 5) then 0
  else
    let has n := existsb (Z.eqb len) n in
    let s_us := if has [16] then drop 13 t else [] in
    let s_ms := if has [16; 12] then field 9 12 t else [] in
    let s_sec := if has [16; 12; 8] then field 6 8 t else [] in
    let s_min := if has [16; 12; 8; 5] then field 3 5 t else [] in
    let s_hour := if has [16; 12; 8; 5] then field 0 2 t else [] in
    let hour := s16 (atoi s_hour) in
    let min := s16 (atoi s_min) in
    let sec := s16 (atoi s_sec) in
    let ms := s16 (atoi s_ms) in
    let us := s16 (atoi s_us) in
    clock2usec (mk_clock hour min sec ms us).

Definition usec2ascii (usec : Z) : cstr :=
  let c := usec2clock usec in
  fmt_d 2 (c_hour c) ++ ":"%char :: fmt_d 2 (c_min c) ++ ":"%char :: fmt_d 2 (c_sec c)
  ++ ","%char :: fmt_d 3 (c_ms c) ++ ","%char :: fmt_d 3 (c_us c).

Definition ascii2tz (tz : cstr) : Z :=
  let len := strlen tz in
  if (9 <? len) || (len <? 6) then 0
  else
    let s_min := if len =? 9 then drop 7 tz else [] in
    let s_hour := if len =? 9 then field 4 6 tz
                  else if len =? 6 then drop 4 tz else [] in
    let sign := if (len =? 9) || (len =? 6) then nth 3 tz (chr 0) else chr 0 in
    let hour := s16 (atoi s_hour) in
    let min := s16 (atoi s_min) in
    let '(hour, min) :=
      if ceqb sign "-"%char then (s16 (- hour), s16 (- min)) else (hour, min) in
    clock2tz hour min.

Definition tz2ascii (tz : Z) : cstr :=
  let sign := if tz <? 0 then "-"%char else "+"%char in
  let '(hour, min) := tz2clock tz in
  cs "GMT" ++ sign :: fmt_d 2 (Z.abs hour) ++ ":"%char :: fmt_d 2 (Z.abs min).

(** [gmtime] splits [tv_sec] as the C library does. *)
Definition current_time (os : os_clock) : Z :=
  let s := tv_sec os mod 86400 in
  let tm_hour := s / 3600 in
  let tm_min := (s mod 3600) / 60 in
  let tm_sec := s mod 60 in
  s64 (clock2usec (mk_clock tm_hour tm_min tm_sec 0 0) + tv_usec os).

(** [timezone] counts seconds west of Greenwich. *)
Definition local_timezone (os : os_clock) : Z := s16 (- (timezone os `quot` 60)).

Example parse_clock : ascii2usec (cs "01:02:03,004,005") = 3723004005.
Proof. reflexivity. Qed.
Example print_clock : usec2ascii 3723004005 = cs "01:02:03,004,005".
Proof. reflexivity. Qed.
Example print_tz : tz2ascii (-570) = cs "GMT-09:30".
Proof. reflexivity. Qed.
Example parse_tz : ascii2tz (cs "GMT-09:30") = -570.
Proof. reflexivity. Qed.

(** ** Well-formed values *)

Definition clock_ok (c : clock) : Prop :=
  0 <= c_hour c < 32768 /\ 0 <= c_min c < 60 /\ 0 <= c_sec c < 60
  /\ 0 <= c_ms c < 1000 /\ 0 <= c_us c < 1000.

Definition usec_ok (u : Z) : Prop := 0 <= u < USEC_OF_DAY.
Definition tz_ok (z : Z) : Prop := MIN_TZ <= z <= MAX_TZ.

Ltac clock_unfold :=
  unfold usec_ok, tz_ok, MIN_TZ, MAX_TZ, USEC_OF_DAY, USEC_OF_HOUR, USEC_OF_MINUTE,
    USEC_OF_SECOND, USEC_OF_MILLISECOND in *.

(** The quotients and remainders of a microsecond count, without wrap-around. *)
Lemma usec2clock_fields u :
  0 <= u < 32768 * USEC_OF_HOUR ->
  usec2clock u = mk_clock (u / 3600000000) (u / 60000000 mod 60) (u / 1000000 mod 60)
                          (u / 1000 mod 1000) (u mod 1000).
Proof.
  clock_unfold. intros Hu. unfold usec2clock. clock_unfold.
  assert (u `quot` 3600000000 = u / 3600000000) as -> by dlia.
  rewrite !s16_id by dlia.
  f_equal; dlia.
Qed.

Lemma usec2clock_ok u : 0 <= u < 32768 * USEC_OF_HOUR -> clock_ok (usec2clock u).
Proof.
  intros Hu. rewrite usec2clock_fields by done. clock_unfold.
  unfold clock_ok; cbn [c_hour c_min c_sec c_ms c_us]. dlia.
Qed.

Lemma clock2usec_usec2clock u :
  0 <= u < 32768 * USEC_OF_HOUR -> clock2usec (usec2clock u) = u.
Proof.
  intros Hu. rewrite usec2clock_fields by done. unfold clock2usec; clock_unfold.
  cbn [c_hour c_min c_sec c_ms c_us]. rewrite s64_id by dlia. dlia.
Qed.

Lemma clock2usec_value c :
  clock_ok c ->
  clock2usec c = c_hour c * 3600000000 + c_min c * 60000000 + c_sec c * 1000000
                 + c_ms c * 1000 + c_us c.
Proof. intros Hc. unfold clock_ok, clock2usec in *; clock_unfold. rewrite s64_id; lia. Qed.

Lemma usec2clock_clock2usec c : clock_ok c -> usec2clock (clock2usec c) = c.
Proof.
  intros Hc. rewrite clock2usec_value by done. unfold clock_ok in Hc.
  rewrite usec2clock_fields by (clock_unfold; lia).
  destruct c as [h m s ms us]; cbn [c_hour c_min c_sec c_ms c_us] in *.
  f_equal; dlia.
Qed.

Lemma fmt_d_3 m : 0 <= m <= 999 ->
  fmt_d 3 m = [digit_chr (m / 100); digit_chr (m / 10 mod 10); digit_chr (m mod 10)].
Proof.
  intros Hm. unfold fmt_d. destruct (Z.ltb_spec m 0); [lia|]. rewrite Z.abs_eq by lia.
  cbn [dec_digits]. destruct (Z.ltb_spec m 10).
  - cbn. rewrite !Z.div_small, !Z.mod_small by lia. done.
  - destruct (Z.ltb_spec (m / 10) 10).
    + cbn. rewrite (Z.div_small m 100), (Z.mod_small (m / 10) 10) by dlia. done.
    + destruct (Z.ltb_spec (m / 10 / 10) 10); [|dlia].
      cbn. rewrite Z.div_div by lia. done.
Qed.

(** Reading back a field of two or three digits. *)
Lemma atoi_2 m : 0 <= m <= 99 -> s16 (atoi [digit_chr (m / 10); digit_chr (m mod 10)]) = m.
Proof. intros. rewrite <- fmt_d_2, atoi_fmt_d_end by lia. apply s16_id; lia. Qed.

Lemma atoi_3 m : 0 <= m <= 999 ->
  s16 (atoi [digit_chr (m / 100); digit_chr (m / 10 mod 10); digit_chr (m mod 10)]) = m.
Proof. intros. rewrite <- fmt_d_3, atoi_fmt_d_end by lia. apply s16_id; lia. Qed.

(** The printed form of a clock reading and its five fields. *)
Lemma ascii2usec_fields h m s ms us :
  0 <= h <= 99 -> 0 <= m <= 99 -> 0 <= s <= 99 -> 0 <= ms <= 999 -> 0 <= us <= 999 ->
  ascii2usec (fmt_d 2 h ++ ":"%char :: fmt_d 2 m ++ ":"%char :: fmt_d 2 s
    ++ ","%char :: fmt_d 3 ms ++ ","%char :: fmt_d 3 us)
  = clock2usec (mk_clock h m s ms us).
Proof.
  intros. rewrite !fmt_d_2, !fmt_d_3 by lia.
  unfold ascii2usec, field, strlen. cbn [app length].
  change (Z.of_nat 16) with 16. cbn -[atoi s16 digit_chr].
  rewrite !atoi_2, !atoi_3 by lia. done.
Qed.

Lemma ascii2usec_usec2ascii u :
  0 <= u < 100 * USEC_OF_HOUR -> ascii2usec (usec2ascii u) = u.
Proof.
  intros Hu. assert (0 <= u < 32768 * USEC_OF_HOUR) as Hu' by (clock_unfold; lia).
  unfold usec2ascii. rewrite usec2clock_fields by done. cbn [c_hour c_min c_sec c_ms c_us].
  rewrite ascii2usec_fields by (clock_unfold; dlia).
  rewrite <- usec2clock_fields by done. by apply clock2usec_usec2clock.
Qed.

Lemma tz_split z : tz_ok z -> clock2tz (fst (tz2clock z)) (snd (tz2clock z)) = z.
Proof.
  clock_unfold. intros Hz. unfold tz2clock, clock2tz; cbn [fst snd].
  rewrite (s16_id ((z `quot` 60) `rem` 24)), (s16_id (z `rem` 60)) by dlia.
  rewrite s16_id by dlia. dlia.
Qed.

Lemma ascii2tz_tz2ascii z : -1440 < z < 1440 -> ascii2tz (tz2ascii z) = z.
Proof.
  intros Hz. unfold tz2ascii, tz2clock.
  rewrite !s16_id by dlia.
  remember (Z.abs ((z `quot` 60) `rem` 24)) as h eqn:Eh.
  remember (Z.abs (z `rem` 60)) as m eqn:Em.
  assert (0 <= h <= 23 /\ 0 <= m <= 59) as [Hh Hm] by dlia.
  rewrite !fmt_d_2 by lia. unfold ascii2tz, field, strlen.
  destruct (Z.ltb_spec z 0); cbn -[atoi s16 digit_chr clock2tz Z.of_nat];
    change (Z.of_nat 9) with 9; cbn -[atoi s16 digit_chr clock2tz];
    rewrite !atoi_2 by lia; unfold clock2tz.
  - rewrite (s16_id (- h)), (s16_id (- m)) by lia. rewrite ceqb_refl, s16_id by dlia. dlia.
  - change (ceqb "+" "-") with false. cbv iota. rewrite s16_id by dlia. dlia.
Qed.

(** The printed forms fit the buffers they are [sprintf]ed in. *)
Lemma usec2ascii_length u :
  0 <= u < 100 * USEC_OF_HOUR -> strlen (usec2ascii u) = 16.
Proof.
  intros Hu. assert (0 <= u < 32768 * USEC_OF_HOUR) as Hu' by (clock_unfold; lia).
  unfold usec2ascii. rewrite usec2clock_fields by done. cbn [c_hour c_min c_sec c_ms c_us].
  rewrite !fmt_d_2, !fmt_d_3 by (clock_unfold; dlia). reflexivity.
Qed.

Lemma fmt_d_length_le prec n k :
  (prec <= k)%nat -> (0 < k <= 20)%nat -> Z.abs n < 10 ^ Z.of_nat k ->
  (length (fmt_d prec n) <= S k)%nat.
Proof.
  intros Hp Hk Hn. unfold fmt_d. rewrite !length_app, length_replicate.
  pose proof (dec_digits_length_le 20 (Z.abs n) k Hk ltac:(lia)).
  destruct (n <? 0); cbn [length]; lia.
Qed.

(** Whatever the 64-bit count, [usec2ascii] stays in its buffer. *)
Lemma usec2ascii_bound u : in_s 64 u -> strlen (usec2ascii u) < MAX_STRING_CLOCK.
Proof.
  unfold in_s. intros _. unfold usec2ascii, strlen, MAX_STRING_CLOCK.
  rewrite !length_app. cbn [length]. rewrite !length_app. cbn [length].
  rewrite !length_app. cbn [length]. rewrite !length_app. cbn [length].
  set (c := usec2clock u).
  assert (- 2 ^ 15 <= c_hour c < 2 ^ 15) by (apply (wrap_s_range 16); lia).
  assert (-100 < c_min c < 100 /\ -100 < c_sec c < 100
    /\ -1000 < c_ms c < 1000 /\ -1000 < c_us c < 1000) as (?&?&?&?).
  { subst c. unfold usec2clock. clock_unfold. cbn [c_hour c_min c_sec c_ms c_us].
    rewrite (s16_id (_ `quot` 60000000)), (s16_id (_ `quot` 1000000)),
      (s16_id (_ `quot` 1000)), (s16_id (_ `rem` 1000)) by dlia. dlia. }
  pose proof (fmt_d_length_le 2 (c_hour c) 5 ltac:(lia) ltac:(lia) ltac:(lia)).
  pose proof (fmt_d_length_le 2 (c_min c) 2 ltac:(lia) ltac:(lia) ltac:(lia)).
  pose proof (fmt_d_length_le 2 (c_sec c) 2 ltac:(lia) ltac:(lia) ltac:(lia)).
  pose proof (fmt_d_length_le 3 (c_ms c) 3 ltac:(lia) ltac:(lia) ltac:(lia)).
  pose proof (fmt_d_length_le 3 (c_us c) 3 ltac:(lia) ltac:(lia) ltac:(lia)).
  lia.
Qed.

Lemma tz2ascii_length z : strlen (tz2ascii z) = 9.
Proof.
  unfold tz2ascii, tz2clock. rewrite !s16_id by dlia.
  rewrite !fmt_d_2 by dlia. by destruct (z <? 0).
Qed.

(** ** Properties *)

(** [usec2clock] and [clock2usec] are inverse of each other: on the counts
    whose hours fit an int16 and on the clock readings with their components in
    range. *)
Theorem clock_bijection :
  (forall u, 0 <= u < 32768 * USEC_OF_HOUR ->
     clock_ok (usec2clock u) /\ clock2usec (usec2clock u) = u)
  /\ (forall c, clock_ok c ->
      0 <= clock2usec c < 32768 * USEC_OF_HOUR /\ usec2clock (clock2usec c) = c).
Proof.
  split; [intros u Hu; split; [by apply usec2clock_ok|by apply clock2usec_usec2clock]|].
  intros c Hc. split; [|by apply usec2clock_clock2usec].
  rewrite clock2usec_value by done. unfold clock_ok in Hc. clock_unfold. lia.
Qed.

(** The printed forms of a count below 100 hours and of a zone within a day
    of GMT are read back exactly, and the printed form of any 64-bit count and of
    any zone, with its NUL, fits the buffer it is written to. *)
Theorem clock_ascii_roundtrip :
  (forall u, 0 <= u < 100 * USEC_OF_HOUR -> ascii2usec (usec2ascii u) = u)
  /\ (forall z, -1440 < z < 1440 -> ascii2tz (tz2ascii z) = z)
  /\ (forall u, in_s 64 u -> strlen (usec2ascii u) < MAX_STRING_CLOCK)
  /\ (forall z, strlen (tz2ascii z) < MAX_STRING_ZONE).
Proof.
  split_and!; auto using ascii2usec_usec2ascii, ascii2tz_tz2ascii, usec2ascii_bound.
  intros z. by rewrite tz2ascii_length.
Qed.

End Clock.
