(* ===== verification/Date.v ===== *)
(** * Dates

    The user methods of class Date, src/eyedb/Date.cc, over any calendar
    converter. A Date holds its julian day and, as client data, the printed
    form of it. *)

From Stdlib Require Import Ascii String.
From S2P Require Import Prelude CString Calendar Clock.

Record Date := mk_Date { julian : Z; string_date : cstr }.

(** enum Weekday::Type and Month::Type: 0 is Sunday, 1 is January. *)
Abbreviation Weekday := Z (only parsing).
Abbreviation Month := Z (only parsing).

Section Methods.
Context `{C : CalendarConverter}.
Implicit Types d : Date.

(** The generated setter stores the attribute; it succeeds. *)
Definition setJulian d (j : Z) : Date := mk_Date j (string_date d).

Definition setClientData d : Date := mk_Date (julian d) (jday2ascii (julian d)).

(** [new Date(db)]: the attributes are zeroed, then [userInitialize]. *)
Definition new_Date : Date := setClientData (mk_Date 0 []).

(** The generated copy, then [userCopy]. *)
Definition copy_Date d : Date := setClientData (mk_Date (julian d) []).

Definition year d : Z := let '(y, _, _) := jday2calendar (julian d) in y.
Definition month d : Z := let '(_, m, _) := jday2calendar (julian d) in m.
Definition day d : Z := let '(_, _, dd) := jday2calendar (julian d) in dd.
Definition day_of_year d : Z := jday2day_of_year (julian d).
Definition month_of_year d : Month := month d.
Definition day_of_week d : Weekday := jday2weekday (julian d).
Definition is_leap_year d : bool := jday2leap_year (julian d).

Definition is_equal d e : bool := julian d =? julian e.
Definition is_greater d e : bool := julian e <? julian d.
Definition is_greater_or_equal d e : bool := julian e <=? julian d.
Definition is_less d e : bool := julian d <? julian e.
Definition is_less_or_equal d e : bool := julian d <=? julian e.
Definition is_between d d1 d2 : bool :=
  let j := julian d in
  ((julian d1 <? j) && (j <? julian d2)) || ((julian d2 <? j) && (j <? julian d1)).

Definition set_julian d (julian_day : Z) : Status * Date :=
  if (julian_day <? MIN_JULIAN) || (MAX_JULIAN <? julian_day)
  then (Exception_make "date out of range", d)
  else (Success, setClientData (setJulian d julian_day)).

(** These discard the status of [set_julian]. *)
Definition next d (w : Weekday) : Date :=
  let today := day_of_week d in
  let diff := s16 (w - today) in
  let diff := if diff <? 0 then s16 (7 + diff) else diff in
  snd (set_julian d (s32 (julian d + diff))).

Definition previous d (w : Weekday) : Date :=
  let today := day_of_week d in
  let diff := s16 (w - today) in
  let diff := if 0 <? diff then s16 (diff - 7) else diff in
  snd (set_julian d (s32 (julian d + diff))).

Definition add_days d (days : Z) : Date := snd (set_julian d (s32 (julian d + days))).
Definition substract_days d (days : Z) : Date := snd (set_julian d (s32 (julian d - days))).
Definition substract_date d e : Z := s32 (julian d - julian e).

(** The factories: a new Date, then [set_julian], whose status is discarded. *)
Definition date_of_julian (julian_day : Z) : Date := snd (set_julian new_Date julian_day).
Definition date_now (os : os_clock) : Date :=
  snd (set_julian new_Date (current_date (tv_sec os))).
Definition date_of_date d : Date := snd (set_julian new_Date (julian d)).
Definition date_of_calendar (y m dd : Z) : Date :=
  snd (set_julian new_Date (calendar2jday y m dd)).
Definition date_of_string (s : cstr) : Date := snd (set_julian new_Date (ascii2jday s)).

Definition toString d : cstr := string_date d.
Definition julian_of_string (s : cstr) : Z := ascii2jday s.

(** ** Invariant: the julian day is in range and the client data prints it. *)
Record date_ok d : Prop := {
  date_julian : julian_ok (julian d);
  date_string : string_date d = jday2ascii (julian d);
}.

Lemma new_Date_ok : date_ok new_Date.
Proof. split; [split; discriminate|done]. Qed.

(** [set_julian] accepts exactly the julian days in range, and then sets the
    day; otherwise it leaves the date alone. *)
Lemma set_julian_cases d j :
  (julian_ok j /\ set_julian d j = (Success, mk_Date j (jday2ascii j)))
  \/ (~ julian_ok j /\ set_julian d j = (Exception_make "date out of range", d)).
Proof.
  unfold set_julian, julian_ok, MIN_JULIAN, MAX_JULIAN.
  destruct (Z.ltb_spec j 0), (Z.ltb_spec 211202371 j); cbn [orb]; auto; right; split; auto; lia.
Qed.

Lemma set_julian_ok d j : date_ok d -> date_ok (snd (set_julian d j)).
Proof.
  intros Hd. destruct (set_julian_cases d j) as [[Hj ->]|[_ ->]]; [|exact Hd].
  by split.
Qed.

Lemma set_julian_in d j :
  julian_ok j -> set_julian d j = (Success, mk_Date j (jday2ascii j)).
Proof. intros Hj. by destruct (set_julian_cases d j) as [[_ ?]|[? _]]. Qed.

Lemma date_of_julian_ok j : date_ok (date_of_julian j).
Proof. apply set_julian_ok, new_Date_ok. Qed.

Lemma date_eq d e : date_ok d -> date_ok e -> julian d = julian e -> d = e.
Proof. destruct d, e. intros [_ Hd] [_ He] E; cbn in *. by rewrite Hd, He, E. Qed.

End Methods.

#[export] Hint Resolve new_Date_ok set_julian_ok date_of_julian_ok : eyedb.
#[global] Arguments date_ok {C} d.

(** ** Days of the week *)

Section Weekdays.
Context `{L : CalendarLaws}.

(** The offset to a weekday, forwards, is the residue modulo 7. *)
Lemma next_offset d w :
  julian_ok (julian d) -> 0 <= w < 7 ->
  next d w = snd (set_julian d (julian d + (w - (julian d + 1)) mod 7)).
Proof.
  intros Hj Hw. destruct (calendar_weekday (julian d) Hj) as [Hr E].
  unfold next, day_of_week. remember (jday2weekday (julian d)) as t eqn:Et. clear Et.
  unfold julian_ok, MIN_JULIAN, MAX_JULIAN in Hj.
  rewrite (s16_id (w - t)), (s16_id (7 + _)) by lia.
  destruct (Z.ltb_spec (w - t) 0); rewrite s32_id by lia; do 3 f_equal; dlia.
Qed.

Lemma previous_offset d w :
  julian_ok (julian d) -> 0 <= w < 7 ->
  previous d w = snd (set_julian d (julian d - ((julian d + 1) - w) mod 7)).
Proof.
  intros Hj Hw. destruct (calendar_weekday (julian d) Hj) as [Hr E].
  unfold previous, day_of_week. remember (jday2weekday (julian d)) as t eqn:Et. clear Et.
  unfold julian_ok, MIN_JULIAN, MAX_JULIAN in Hj.
  rewrite (s16_id (w - t)), (s16_id (_ - 7)) by lia.
  destruct (Z.ltb_spec 0 (w - t)); rewrite s32_id by lia; do 2 f_equal; dlia.
Qed.

End Weekdays.

(** ** The dates a program can build *)

Section Reachable.
Context `{C : CalendarConverter}.

Inductive reachable : Date -> Prop :=
| reach_new : reachable new_Date
| reach_copy d : reachable d -> reachable (copy_Date d)
| reach_now os : reachable (date_now os)
| reach_of_date d : reachable d -> reachable (date_of_date d)
| reach_of_julian j : reachable (date_of_julian j)
| reach_of_calendar y m dd : reachable (date_of_calendar y m dd)
| reach_of_string s : reachable (date_of_string s)
| reach_set d j : reachable d -> reachable (snd (set_julian d j))
| reach_next d w : reachable d -> reachable (next d w)
| reach_previous d w : reachable d -> reachable (previous d w)
| reach_add d n : reachable d -> reachable (add_days d n)
| reach_substract d n : reachable d -> reachable (substract_days d n).

Lemma date_reachable_ok d : reachable d -> date_ok d.
Proof.
  induction 1; try (apply set_julian_ok; first [assumption|apply new_Date_ok]).
  - apply new_Date_ok.
  - destruct IHreachable as [Hj _]. by split.
Qed.

End Reachable.

(** ** Properties *)

(** Every date a program builds, whatever the calls and whatever the
    calendar converter answers, has its julian day in range and its printed form
    up to date; a call that would leave the range changes nothing. *)
Theorem date_invariant `{CalendarConverter} d :
  reachable d ->
  julian_ok (julian d) /\ toString d = jday2ascii (julian d)
  /\ (forall j, fst (set_julian d j) <> Success -> snd (set_julian d j) = d).
Proof.
  intros Hd. destruct (date_reachable_ok d Hd) as [Hj Hs]. repeat split; try apply Hj; [exact Hs|].
  intros j. destruct (set_julian_cases d j) as [[_ ->]|[_ ->]]; done.
Qed.

Lemma date_invariant_witness :
  let d := next (date_of_string (cs "2018-05-17")) 0 in
  julian_ok (julian d) /\ toString d = cs "2018-05-20".
Proof.
  cbv zeta.
  destruct (date_invariant (next (date_of_string (cs "2018-05-17")) 0)
    (reach_next _ _ (reach_of_string _))) as (Hj & Hs & _).
  split; [exact Hj|]. exact Hs.
Defined.

(** [next] moves to the first day with the given weekday from the date on
    (the date itself included), [previous] to the last one up to the date,
    unless that leaves the range of dates. *)
Theorem weekday_moves `{CalendarLaws} d w :
  julian_ok (julian d) -> 0 <= w < 7 ->
  (julian d + 6 <= MAX_JULIAN ->
     let e := next d w in
     day_of_week e = w /\ julian d <= julian e <= julian d + 6)
  /\ (6 <= julian d ->
     let e := previous d w in
     day_of_week e = w /\ julian d - 6 <= julian e <= julian d).
Proof.
  intros Hj Hw. rewrite next_offset, previous_offset by done.
  assert (forall e, julian_ok e -> day_of_week (mk_Date e (jday2ascii e)) = (e + 1) mod 7) as Hday.
  { intros e He. apply (calendar_weekday e He). }
  split; intros Hb; cbv zeta; unfold julian_ok, MIN_JULIAN in *.
  - rewrite set_julian_in; cbn [snd julian]; [rewrite Hday|]; unfold julian_ok, MIN_JULIAN; dlia.
  - rewrite set_julian_in; cbn [snd julian]; [rewrite Hday|]; unfold julian_ok, MIN_JULIAN; dlia.
Qed.

Lemma weekday_moves_witness :
  let d := date_of_string (cs "2018-05-17") in
  julian d <= julian (next d 0) <= julian d + 6.
Proof.
  destruct (weekday_moves (date_of_string (cs "2018-05-17")) 0)
    as [H _]; [split; discriminate|lia|].
  apply H. vm_compute. discriminate.
Defined.

(** [add_days], [substract_days] and [substract_date] are the addition and
    the subtraction of days, without wrap-around, as long as the result is in
    range, and nothing happens otherwise; the comparisons are those of the
    calendar. *)
Theorem date_arithmetic `{CalendarConverter} d e n :
  julian_ok (julian d) -> julian_ok (julian e) -> - 2 ^ 30 <= n <= 2 ^ 30 ->
  (if decide (julian_ok (julian d + n))
   then julian (add_days d n) = julian d + n /\ substract_date (add_days d n) d = n
        /\ substract_days d (- n) = add_days d n
   else add_days d n = d /\ substract_days d (- n) = d)
  /\ add_days d (substract_date e d) = date_of_date e
  /\ (is_less d e = true <-> 0 < substract_date e d)
  /\ (is_between e d d = false).
Proof.
  unfold julian_ok, MIN_JULIAN, MAX_JULIAN. intros Hd He Hn.
  unfold add_days, substract_days, substract_date, is_less, is_between.
  rewrite Z.sub_opp_r, (s32_id (julian d + n)), (s32_id (julian e - julian d)) by lia.
  split_and!.
  - case_decide as Hin.
    + rewrite set_julian_in by exact Hin. cbn [snd julian].
      rewrite s32_id by lia. split_and!; auto; lia.
    + destruct (set_julian_cases d (julian d + n)) as [[? _]|[_ ->]]; done.
  - rewrite s32_id by lia. replace (julian d + (julian e - julian d)) with (julian e) by lia.
    unfold date_of_date. by rewrite !set_julian_in.
  - rewrite Z.ltb_lt. lia.
  - destruct (Z.ltb_spec (julian d) (julian e)), (Z.ltb_spec (julian e) (julian d)); cbn; lia.
Qed.

Lemma date_arithmetic_witness :
  let d := date_of_julian 2440588 in
  julian (add_days d 365) = 2440953.
Proof.
  cbv zeta.
  pose proof (date_arithmetic (date_of_julian 2440588)
    (date_of_julian 2440588) 365) as H.
  exact (proj1 (proj1 (H ltac:(split; discriminate) ltac:(split; discriminate) ltac:(lia)))).
Defined.
