(* ===== verification/TimeInterval.v ===== *)
(** * Time intervals

    The user methods of class TimeInterval, src/eyedb/TimeInterval.cc: a signed
    count of microseconds and, as client data, its printed form. *)

From Stdlib Require Import Ascii String.
From S2P Require Import Prelude CString Clock.
Import Clock.

Record TimeInterval := mk_TimeInterval { usecs : Z; string_time_interval : cstr }.

Implicit Types i : TimeInterval.

(** The generated setter stores the attribute; it succeeds. *)
Definition setUsecs i (u : Z) : TimeInterval := mk_TimeInterval u (string_time_interval i).

Definition setClientData i : TimeInterval := mk_TimeInterval (usecs i) (usec2ascii (usecs i)).

(** [new TimeInterval(db)]: the attributes are zeroed, then [userInitialize]. *)
Definition new_TimeInterval : TimeInterval := setClientData (mk_TimeInterval 0 []).

Definition day i : Z := usec2day (usecs i).
Definition hour i : Z := c_hour (usec2clock (usecs i)) `rem` 24.
Definition minute i : Z := c_min (usec2clock (usecs i)).
Definition second i : Z := c_sec (usec2clock (usecs i)).
Definition millisecond i : Z := c_ms (usec2clock (usecs i)).
Definition microsecond i : Z := c_us (usec2clock (usecs i)).
Definition is_zero i : bool := usecs i =? 0.

Definition set_usecs i (u : Z) : Status * TimeInterval :=
  (Success, setClientData (setUsecs i u)).

Definition plus i j : TimeInterval := snd (set_usecs i (s64 (usecs i + usecs j))).
Definition minus i j : TimeInterval := snd (set_usecs i (s64 (usecs i - usecs j))).
Definition product i (v : Z) : TimeInterval := snd (set_usecs i (s64 (usecs i * v))).
(** A division by zero has no result. *)
Definition quotient i (v : Z) : option TimeInterval :=
  if v =? 0 then None else Some (snd (set_usecs i (s64 (usecs i `quot` v)))).

Definition is_equal i j : bool := usecs i =? usecs j.
Definition is_greater i j : bool := usecs j <? usecs i.
Definition is_greater_or_equal i j : bool := usecs j <=? usecs i.
Definition is_less i j : bool := usecs i <? usecs j.
Definition is_less_or_equal i j : bool := usecs i <=? usecs j.

Definition time_interval (u : Z) : TimeInterval := snd (set_usecs new_TimeInterval u).

(** [day * 24 + hours] is an int; [total_hours] is an int64 passed as the int16
    hour of [clock2usec]. *)
Definition time_interval_of_clock (d hours min sec msec usec : Z) : TimeInterval :=
  let total_hours := s32 (s32 (d * 24) + hours) in
  snd (set_usecs new_TimeInterval
         (clock2usec (mk_clock (s16 total_hours) min sec msec usec))).

Definition toString i : cstr := string_time_interval i.

(** ** Lemmas and properties *)

Definition interval_ok i : Prop :=
  in_s 64 (usecs i) /\ string_time_interval i = usec2ascii (usecs i).

Lemma interval_set_usecs_ok i u : in_s 64 u -> interval_ok (snd (set_usecs i u)).
Proof. by split. Qed.

Lemma s64_ok z : in_s 64 (s64 z).
Proof. by apply wrap_s_range. Qed.

#[export] Hint Resolve interval_set_usecs_ok s64_ok : eyedb.

(** The intervals a program builds. *)
Inductive reachable : TimeInterval -> Prop :=
| reach_new : reachable new_TimeInterval
| reach_interval u : in_s 64 u -> reachable (time_interval u)
| reach_clock d h m s ms us : reachable (time_interval_of_clock d h m s ms us)
| reach_set i u : reachable i -> in_s 64 u -> reachable (snd (set_usecs i u))
| reach_plus i j : reachable i -> reachable j -> reachable (plus i j)
| reach_minus i j : reachable i -> reachable j -> reachable (minus i j)
| reach_product i v : reachable i -> reachable (product i v)
| reach_quotient i v j : reachable i -> quotient i v = Some j -> reachable j.

Lemma interval_reachable_ok i : reachable i -> interval_ok i.
Proof.
  induction 1; try (apply interval_set_usecs_ok; first [assumption|apply s64_ok]).
  - by split.
  - revert H0. unfold quotient. case_match; [done|]. intros [= <-].
    apply interval_set_usecs_ok, s64_ok.
Qed.

(** The 64-bit count and the printed form of an interval stay in step
    through every construction and operation, and the printed form always fits
    the 32 bytes it is copied into. *)
Theorem interval_invariant i :
  reachable i ->
  in_s 64 (usecs i) /\ toString i = usec2ascii (usecs i)
  /\ strlen (toString i) < MAX_STRING_CLOCK.
Proof.
  intros H. apply interval_reachable_ok in H as [Hu Hs]. unfold toString. rewrite Hs.
  split_and!; auto using usec2ascii_bound.
Qed.

Lemma interval_invariant_witness :
  toString (plus (time_interval 1) (time_interval 2)) = cs "00:00:00,000,003".
Proof.
  destruct (interval_invariant (plus (time_interval 1) (time_interval 2))) as (_ & H & _).
  - apply reach_plus; apply reach_interval; by split.
  - exact H.
Defined.

(** An interval built from days, hours, minutes, seconds, milli- and
    microseconds counts exactly that much time and the accessors give the
    components back, as long as the hours fit the int16 they are passed in. *)
Theorem interval_components d h m s ms us :
  0 <= d -> d * 24 + h < 32768 -> 0 <= h < 24 -> 0 <= m < 60 -> 0 <= s < 60 ->
  0 <= ms < 1000 -> 0 <= us < 1000 ->
  let i := time_interval_of_clock d h m s ms us in
  usecs i = ((((d * 24 + h) * 60 + m) * 60 + s) * 1000 + ms) * 1000 + us
  /\ (day i, hour i, minute i) = (d, h, m)
  /\ (second i, millisecond i, microsecond i) = (s, ms, us).
Proof.
  intros Hd Hdh Hh Hm Hs Hms Hus. cbv zeta.
  unfold time_interval_of_clock, set_usecs, setClientData, setUsecs; cbn [snd usecs].
  rewrite (s32_id (d * 24)), s32_id, s16_id by lia.
  set (c := mk_clock (d * 24 + h) m s ms us).
  assert (clock_ok c) as Hc by (unfold clock_ok, c; cbn; lia).
  unfold day, hour, minute, second, millisecond, microsecond; cbn [usecs].
  rewrite usec2clock_clock2usec, clock2usec_value by done. subst c; cbn [c_hour c_min c_sec c_ms c_us].
  split; [lia|]. split; apply triple_eq; try done.
  - unfold usec2day, USEC_OF_DAY. rewrite s32_id by dlia. dlia.
  - dlia.
Qed.

Lemma interval_components_witness :
  usecs (time_interval_of_clock 1364 23 59 59 999 999) = 117935999999999.
Proof.
  pose proof (interval_components 1364 23 59 59 999 999) as H.
  exact (proj1 (H ltac:(lia) ltac:(lia) ltac:(lia) ltac:(lia) ltac:(lia) ltac:(lia) ltac:(lia))).
Defined.

(** The same constructor with 1366 days: the 32784 hours become -32752. *)
Example interval_days_truncated :
  usecs (time_interval_of_clock 1366 0 0 0 0 0) = - 32752 * 3600000000.
Proof. reflexivity. Qed.
