(* ===== verification/Time.v ===== *)
(** * Times of day

    The user methods of class Time and the functions [gmt2local_time] and
    [parse_time], src/eyedb/Time.cc. A Time holds the GMT time of day in
    microseconds, a time zone in minutes and, as client data, the local time
    and the zone in print. *)

From Stdlib Require Import Ascii String.
From S2P Require Import Prelude CString Clock TimeInterval.
Import Clock.

(** The representative in [0, USEC_OF_DAY) of a C remainder. *)
Definition gmt2local_time (gmt_time time_zone : Z) : Z :=
  let local_time := s64 (gmt_time + time_zone * USEC_OF_MINUTE) in
  let local_time := local_time `rem` USEC_OF_DAY in
  if local_time <? 0 then USEC_OF_DAY + local_time else local_time.

(** The GMT microseconds and the zone; [None] when there is no time token, whose
    null pointer the code passes to [strlen]. *)
Definition parse_time (os : os_clock) (time : cstr) : option (Z * Z) :=
  let '(_, s_usec, rest) := strtok " "%char time in
  let '(_, s_tz, _) := strtok " "%char rest in
  match s_usec with
  | None => None
  | Some s_usec =>
    let local_usec := ascii2usec s_usec in
    let tz := match s_tz with None => local_timezone os | Some s_tz => ascii2tz s_tz end in
    let gmt_usec := s64 (local_usec - tz * USEC_OF_MINUTE) in
    let gmt_usec := gmt_usec `rem` USEC_OF_DAY in
    Some (if gmt_usec <? 0 then USEC_OF_DAY + gmt_usec else gmt_usec, tz)
  end.

Record Time := mk_Time { usecs : Z; tz : Z; string_time : cstr }.

Implicit Types t : Time.

(** The generated setters store the attribute; they succeed. *)
Definition setUsecs t (u : Z) : Time := mk_Time u (tz t) (string_time t).
Definition setTz t (z : Z) : Time := mk_Time (usecs t) z (string_time t).

Definition setClientData t : Time :=
  let s_clock := usec2ascii (gmt2local_time (usecs t) (tz t)) in
  let s_zone := tz2ascii (tz t) in
  mk_Time (usecs t) (tz t) (s_clock ++ " "%char :: s_zone).

(** [new Time(db)]: the attributes are zeroed, then [userInitialize]. *)
Definition new_Time : Time := setClientData (mk_Time 0 0 []).

Definition hour t : Z := c_hour (usec2clock (gmt2local_time (usecs t) (tz t))).
Definition minute t : Z := c_min (usec2clock (gmt2local_time (usecs t) (tz t))).
Definition second t : Z := c_sec (usec2clock (usecs t)).
Definition millisecond t : Z := c_ms (usec2clock (usecs t)).
Definition microsecond t : Z := c_us (usec2clock (usecs t)).
Definition tz_hour t : Z := fst (tz2clock (tz t)).
Definition tz_minute t : Z := snd (tz2clock (tz t)).
Definition gmt_hour t : Z := c_hour (usec2clock (usecs t)).
Definition gmt_minute t : Z := c_min (usec2clock (usecs t)).

Definition is_equal t u : bool := usecs t =? usecs u.
Definition is_greater t u : bool := usecs u <? usecs t.
Definition is_greater_or_equal t u : bool := usecs u <=? usecs t.
Definition is_less t u : bool := usecs t <? usecs u.
Definition is_less_or_equal t u : bool := usecs t <=? usecs u.
Definition is_between t t1 t2 : bool :=
  let u := usecs t in
  ((usecs t1 <? u) && (u <? usecs t2)) || ((u <? usecs t1) && (usecs t2 <? u)).

Definition set_usecs t (u z : Z) : Status * Time :=
  if (u <? 0) || (USEC_OF_DAY <=? u) then (Exception_make "time out of range", t)
  else if (z <? MIN_TZ) || (MAX_TZ <? z) then (Exception_make "time_zone out of range", t)
  else
    let t := setClientData (setUsecs t u) in
    let t := setClientData (setTz t z) in
    (Success, t).

(** These discard the status of [set_usecs]. *)
Definition add_interval t (i : TimeInterval) : Time :=
  let u := s64 (usecs t + TimeInterval.usecs i) in
  let u := u `rem` USEC_OF_DAY in
  let u := if u <? 0 then USEC_OF_DAY + u else u in
  snd (set_usecs t u (tz t)).

Definition substract_interval t (i : TimeInterval) : Time :=
  let u := s64 (usecs t - TimeInterval.usecs i) in
  let u := u `rem` USEC_OF_DAY in
  let u := if u <? 0 then USEC_OF_DAY + u else u in
  snd (set_usecs t u (tz t)).

Definition substract_time t u : TimeInterval :=
  let interval := s64 (usecs t - usecs u) in
  let interval := if interval <? 0 then USEC_OF_DAY + interval else interval in
  time_interval interval.

Definition get_local_time_zone (os : os_clock) : Z * Z := tz2clock (local_timezone os).

(** The factories discard the status of [set_usecs] on the new Time. *)
Definition gmt_time (os : os_clock) : Time := snd (set_usecs new_Time (current_time os) 0).
Definition local_time (os : os_clock) : Time :=
  snd (set_usecs new_Time (current_time os) (local_timezone os)).
Definition time_of_time t : Time := snd (set_usecs new_Time (usecs t) (tz t)).
Definition time_of_usec (os : os_clock) (u : Z) : Time :=
  snd (set_usecs new_Time u (local_timezone os)).
Definition time_of_usec_tz (u z : Z) : Time := snd (set_usecs new_Time u z).
Definition time_of_hmsm (os : os_clock) (h m s ms : Z) : Time :=
  snd (set_usecs new_Time (clock2usec (mk_clock h m s ms 0)) (local_timezone os)).
Definition time_of_hmsmu (os : os_clock) (h m s ms us : Z) : Time :=
  snd (set_usecs new_Time (clock2usec (mk_clock h m s ms us)) (local_timezone os)).
Definition time_of_hmsm_tz (h m s ms tzh tzm : Z) : Time :=
  snd (set_usecs new_Time (clock2usec (mk_clock h m s ms 0)) (clock2tz tzh tzm)).
Definition time_of_hmsmu_tz (h m s ms us tzh tzm : Z) : Time :=
  snd (set_usecs new_Time (clock2usec (mk_clock h m s ms us)) (clock2tz tzh tzm)).

Definition time_of_string (os : os_clock) (s : cstr) : option Time :=
  match parse_time os s with
  | None => None
  | Some (gmt_usec, tz) => Some (snd (set_usecs new_Time gmt_usec tz))
  end.

Definition toString t : cstr := string_time t.

Definition usec_time (os : os_clock) (s : cstr) : option Z := fst <$> parse_time os s.

Definition UTC : os_clock := {| tv_sec := 0; tv_usec := 0; timezone := 0 |}.

Example print_time :
  toString (time_of_hmsm_tz 23 30 0 0 2 0) = cs "01:30:00,000,000 GMT+02:00".
Proof. reflexivity. Qed.
Example parse_it :
  usecs <$> time_of_string UTC (cs "01:30 GMT+02:00") = Some 84600000000.
Proof. reflexivity. Qed.

(** ** Lemmas *)

(** C's remainder, made non-negative the way the code does it, is the residue. *)
Lemma day_residue u :
  (if u `rem` USEC_OF_DAY <? 0 then USEC_OF_DAY + u `rem` USEC_OF_DAY else u `rem` USEC_OF_DAY)
  = u mod USEC_OF_DAY.
Proof. unfold USEC_OF_DAY. destruct (Z.ltb_spec (u `rem` 86400000000) 0); dlia. Qed.

Lemma day_residue_ok u : usec_ok (u mod USEC_OF_DAY).
Proof. apply Z.mod_pos_bound. done. Qed.

#[export] Hint Resolve day_residue_ok : eyedb.

Lemma gmt2local_time_mod g z :
  usec_ok g -> tz_ok z ->
  gmt2local_time g z = (g + z * USEC_OF_MINUTE) mod USEC_OF_DAY.
Proof.
  intros Hg Hz. unfold gmt2local_time. rewrite day_residue. f_equal.
  clock_unfold. apply s64_id. lia.
Qed.

(** The value and the text of a well-formed Time. *)
Definition time_string (u z : Z) : cstr :=
  usec2ascii (gmt2local_time u z) ++ " "%char :: tz2ascii z.

Record time_ok t : Prop := {
  time_usecs : usec_ok (usecs t);
  time_tz : tz_ok (tz t);
  time_str : string_time t = time_string (usecs t) (tz t);
}.

Lemma new_Time_ok : time_ok new_Time.
Proof. split; [by split|by split|done]. Qed.

Lemma time_set_usecs_cases t u z :
  (usec_ok u /\ tz_ok z /\ set_usecs t u z = (Success, mk_Time u z (time_string u z)))
  \/ (~ (usec_ok u /\ tz_ok z) /\ exists m, set_usecs t u z = (Exception_make m, t)).
Proof.
  unfold set_usecs, usec_ok, tz_ok, USEC_OF_DAY, MIN_TZ, MAX_TZ.
  destruct (Z.ltb_spec u 0), (Z.leb_spec 86400000000 u), (Z.ltb_spec z (-720)),
    (Z.ltb_spec 720 z); cbn [orb];
  first [left; split_and!; [lia|lia|lia|lia|reflexivity] | right; split; [lia|eauto]].
Qed.

Lemma time_set_usecs_in t u z :
  usec_ok u -> tz_ok z -> set_usecs t u z = (Success, mk_Time u z (time_string u z)).
Proof. intros Hu Hz. destruct (time_set_usecs_cases t u z) as [(_&_&E)|[H _]]; [exact E|tauto]. Qed.

Lemma time_set_usecs_time_ok t u z : time_ok t -> time_ok (snd (set_usecs t u z)).
Proof.
  intros Ht. destruct (time_set_usecs_cases t u z) as [(Hu&Hz&->)|[_ [m ->]]]; [|exact Ht].
  by split.
Qed.

#[export] Hint Resolve new_Time_ok time_set_usecs_time_ok : eyedb.

Lemma time_eq t u : time_ok t -> time_ok u -> usecs t = usecs u -> tz t = tz u -> t = u.
Proof. destruct t, u. intros [_ _ Ht] [_ _ Hu] E1 E2; cbn in *. by rewrite Ht, Hu, E1, E2. Qed.

Lemma usec_ok_hours u : usec_ok u -> 0 <= u < 100 * USEC_OF_HOUR.
Proof. clock_unfold. lia. Qed.
Lemma usec_ok_hours' u : usec_ok u -> 0 <= u < 32768 * USEC_OF_HOUR.
Proof. clock_unfold. lia. Qed.

#[export] Hint Resolve usec_ok_hours usec_ok_hours' : eyedb.

Lemma gmt2local_time_ok g z : usec_ok g -> tz_ok z -> usec_ok (gmt2local_time g z).
Proof. intros. rewrite gmt2local_time_mod by done. auto with eyedb. Qed.

#[export] Hint Resolve gmt2local_time_ok : eyedb.

(** The printed clock and zone are non-empty and hold no space. *)
Definition is_token (s : cstr) : Prop :=
  s <> [] /\ Forall (fun c => ceqb " "%char c = false) s.

Lemma usec2ascii_token u : usec_ok u -> is_token (usec2ascii u).
Proof.
  intros Hu. split.
  - intros E. pose proof (usec2ascii_length u ltac:(auto with eyedb)) as H.
    rewrite E in H. discriminate.
  - unfold usec2ascii.
    repeat first [apply fmt_d_not_space | apply Forall_app; split | constructor; [done|]].
Qed.

Lemma tz2ascii_token z : is_token (tz2ascii z).
Proof.
  split; [discriminate|]. unfold tz2ascii, tz2clock.
  apply Forall_app; split; [by repeat constructor|]. constructor; [by destruct (z <? 0)|].
  apply Forall_app; split; [apply fmt_d_not_space|]. constructor; [done|apply fmt_d_not_space].
Qed.

Lemma strtok_is_token s r :
  is_token s -> strtok " "%char (s ++ " "%char :: r) = ([], Some s, r).
Proof. intros [Hne Hs]. destruct s as [|c s]; [done|]. by apply strtok_token. Qed.

Lemma strtok_is_last s : is_token s -> strtok " "%char s = ([], Some s, []).
Proof. intros [Hne Hs]. destruct s as [|c s]; [done|]. by apply strtok_last. Qed.

Lemma parse_time_string os u z :
  usec_ok u -> tz_ok z -> parse_time os (time_string u z) = Some (u, z).
Proof.
  intros Hu Hz. unfold parse_time, time_string.
  rewrite strtok_is_token by (apply usec2ascii_token; auto with eyedb).
  rewrite strtok_is_last by apply tz2ascii_token.
  rewrite ascii2usec_usec2ascii by auto with eyedb.
  rewrite ascii2tz_tz2ascii by (clock_unfold; lia).
  rewrite day_residue, gmt2local_time_mod by done. do 2 f_equal.
  clock_unfold. rewrite s64_id by dlia. dlia.
Qed.

Ltac in64 := unfold in_s; change (2 ^ (64 - 1)) with (2 ^ 63); clock_unfold; lia.

(** ** The times a program builds *)

Inductive reachable : Time -> Prop :=
| reach_new : reachable new_Time
| reach_gmt os : reachable (gmt_time os)
| reach_local os : reachable (local_time os)
| reach_time t : reachable t -> reachable (time_of_time t)
| reach_usec os u : reachable (time_of_usec os u)
| reach_usec_tz u z : reachable (time_of_usec_tz u z)
| reach_hmsm os h m s ms : reachable (time_of_hmsm os h m s ms)
| reach_hmsmu os h m s ms us : reachable (time_of_hmsmu os h m s ms us)
| reach_hmsm_tz h m s ms zh zm : reachable (time_of_hmsm_tz h m s ms zh zm)
| reach_hmsmu_tz h m s ms us zh zm : reachable (time_of_hmsmu_tz h m s ms us zh zm)
| reach_string os s t : time_of_string os s = Some t -> reachable t
| reach_set t u z : reachable t -> reachable (snd (set_usecs t u z))
| reach_add t i : reachable t -> reachable (add_interval t i)
| reach_substract t i : reachable t -> reachable (substract_interval t i).

Lemma time_reachable_ok t : reachable t -> time_ok t.
Proof.
  induction 1; try (apply time_set_usecs_time_ok; first [assumption|apply new_Time_ok]).
  - apply new_Time_ok.
  - revert H. unfold time_of_string. case_match; [|done]. case_match; intros [= <-].
    auto with eyedb.
Qed.

(** The interval additions, as one residue. *)
Lemma shift_usecs t u :
  time_ok t ->
  snd (set_usecs t (u mod USEC_OF_DAY) (tz t))
  = mk_Time (u mod USEC_OF_DAY) (tz t) (time_string (u mod USEC_OF_DAY) (tz t)).
Proof. intros [_ Hz _]. by rewrite time_set_usecs_in by auto with eyedb. Qed.

Lemma add_interval_eq t i :
  time_ok t -> in_s 64 (usecs t + TimeInterval.usecs i) ->
  let u := (usecs t + TimeInterval.usecs i) mod USEC_OF_DAY in
  add_interval t i = mk_Time u (tz t) (time_string u (tz t)).
Proof.
  intros Ht Hi. unfold add_interval. rewrite wrap_s_id by (lia || done).
  by rewrite day_residue, shift_usecs.
Qed.

Lemma substract_interval_eq t i :
  time_ok t -> in_s 64 (usecs t - TimeInterval.usecs i) ->
  let u := (usecs t - TimeInterval.usecs i) mod USEC_OF_DAY in
  substract_interval t i = mk_Time u (tz t) (time_string u (tz t)).
Proof.
  intros Ht Hi. unfold substract_interval. rewrite wrap_s_id by (lia || done).
  by rewrite day_residue, shift_usecs.
Qed.

(** ** Properties *)

(** Every Time a program builds, whatever the calls, has its GMT
    microseconds within the day, its zone within twelve hours and its text up to
    date, and the text fits its 48 bytes; a refused [set_usecs] changes nothing. *)
Theorem time_invariant t :
  reachable t ->
  usec_ok (usecs t) /\ tz_ok (tz t) /\ toString t = time_string (usecs t) (tz t)
  /\ strlen (toString t) < 48
  /\ (forall u z, fst (set_usecs t u z) <> Success -> snd (set_usecs t u z) = t).
Proof.
  intros Hr. pose proof (time_reachable_ok t Hr) as [Hu Hz Hs].
  split_and!; try apply Hu; try apply Hz; [exact Hs|..].
  - unfold toString. rewrite Hs. unfold time_string, strlen. rewrite length_app; cbn [length].
    pose proof (usec2ascii_length (gmt2local_time (usecs t) (tz t)) ltac:(auto with eyedb)).
    pose proof (tz2ascii_length (tz t)). unfold strlen in *. lia.
  - intros u z. destruct (time_set_usecs_cases t u z) as [(_&_&->)|[_ [m ->]]]; done.
Qed.

Lemma time_invariant_witness :
  toString (add_interval (time_of_usec_tz 86399000000 60) (time_interval 1000000))
  = cs "01:00:00,000,000 GMT+01:00".
Proof.
  destruct (time_invariant (add_interval (time_of_usec_tz 86399000000 60) (time_interval 1000000)))
    as (_ & _ & H & _).
  - apply reach_add, reach_usec_tz.
  - exact H.
Defined.

(** Parsing the text of a Time gives that Time back, zone included,
    whatever the local time zone of the reader. *)
Theorem time_print_parse os t :
  reachable t -> time_of_string os (toString t) = Some t.
Proof.
  intros Hr. pose proof (time_reachable_ok t Hr) as Ht. pose proof Ht as [Hu Hz Hs].
  unfold time_of_string, toString. rewrite Hs, parse_time_string by done.
  rewrite time_set_usecs_in by done. f_equal. by apply time_eq.
Qed.

Lemma time_print_parse_witness :
  time_of_string UTC (cs "01:30:00,000,000 GMT+02:00") = Some (time_of_hmsm_tz 23 30 0 0 2 0).
Proof. exact (time_print_parse UTC _ (reach_hmsm_tz 23 30 0 0 2 0)). Defined.

(** Adding an interval to a Time is the addition modulo one day,
    subtracting it is the inverse, and the difference of the two times is the
    interval modulo one day; the zone is kept. *)
Theorem time_interval_group t i :
  reachable t -> Z.abs (TimeInterval.usecs i) <= 2 ^ 63 - 1 - USEC_OF_DAY ->
  usecs (add_interval t i) = (usecs t + TimeInterval.usecs i) mod USEC_OF_DAY
  /\ tz (add_interval t i) = tz t
  /\ substract_interval (add_interval t i) i = t
  /\ add_interval (substract_interval t i) i = t
  /\ TimeInterval.usecs (substract_time (add_interval t i) t)
     = TimeInterval.usecs i mod USEC_OF_DAY.
Proof.
  intros Hr Hi. pose proof (time_reachable_ok t Hr) as Ht. pose proof Ht as [Hu Hz Hs].
  pose proof (day_residue_ok (usecs t + TimeInterval.usecs i)) as Hd.
  pose proof (day_residue_ok (usecs t - TimeInterval.usecs i)) as Hd'.
  rewrite (add_interval_eq t i), (substract_interval_eq t i) by (done || in64).
  cbn [usecs tz]. split_and!; [done|done| | |].
  - rewrite substract_interval_eq; [|by split|cbn [usecs]; in64].
    apply time_eq; [split; cbn; auto with eyedb|done| |done].
    cbn [usecs]. clock_unfold. dlia.
  - rewrite add_interval_eq; [|by split|cbn [usecs]; in64].
    apply time_eq; [split; cbn; auto with eyedb|done| |done].
    cbn [usecs]. clock_unfold. dlia.
  - unfold substract_time; cbn [usecs]. clock_unfold. rewrite s64_id by lia.
    set (r := _ mod _ - usecs t).
    change (TimeInterval.usecs (time_interval ?x)) with x.
    destruct (Z.ltb_spec r 0); subst r; dlia.
Qed.

Lemma time_interval_group_witness :
  usecs (add_interval (time_of_usec_tz 86399000000 0) (time_interval (-172800000000)))
  = 86399000000.
Proof.
  destruct (time_interval_group (time_of_usec_tz 86399000000 0) (time_interval (-172800000000)))
    as [H _]; [apply reach_usec_tz|vm_compute; discriminate|exact H].
Defined.

(** The accessors read the local clock: hour and minute of the local time,
    and seconds and below, which they read from the GMT count, are those of the
    local time too, because a zone is a whole number of minutes. *)
Theorem local_clock t :
  reachable t ->
  usec2clock (gmt2local_time (usecs t) (tz t))
  = mk_clock (hour t) (minute t) (second t) (millisecond t) (microsecond t)
  /\ clock_ok (usec2clock (gmt2local_time (usecs t) (tz t))) /\ hour t < 24.
Proof.
  intros Hr. pose proof (time_reachable_ok t Hr) as [Hu Hz Hs].
  pose proof (gmt2local_time_ok _ _ Hu Hz) as Hl.
  unfold hour, minute, second, millisecond, microsecond. split_and!.
  - rewrite !usec2clock_fields by auto with eyedb. cbn [c_hour c_min c_sec c_ms c_us].
    rewrite gmt2local_time_mod by done. clock_unfold. f_equal; dlia.
  - apply usec2clock_ok. auto with eyedb.
  - rewrite usec2clock_fields by auto with eyedb. cbn [c_hour]. clock_unfold. dlia.
Qed.

Lemma local_clock_witness :
  usec2clock (gmt2local_time 84600000000 120) = mk_clock 1 30 0 0 0.
Proof. exact (proj1 (local_clock _ (reach_hmsm_tz 23 30 0 0 2 0))). Defined.
