(* ===== verification/TimeStamp.v ===== *)
(** * Time stamps

    The user methods of class TimeStamp and the functions
    [gmt2local_timeStamp] and [parse_timeStamp], src/eyedb/TimeStamp.cc. A
    TimeStamp counts the GMT microseconds since julian day 0; its client data
    are the GMT Date and Time and the printed local date, time and zone. *)

From Stdlib Require Import Ascii String.
From S2P Require Import Prelude CString Calendar Clock TimeInterval Date Time.
Import Clock.

(** The local time of day and the day offset. *)
Definition gmt2local_timeStamp (gmt_time time_zone : Z) : Z * Z :=
  let local_time := s64 (gmt_time `rem` USEC_OF_DAY + time_zone * USEC_OF_MINUTE) in
  let day_offset :=
    if USEC_OF_DAY <=? local_time then 1 else if local_time <? 0 then -1 else 0 in
  let local_time := local_time `rem` USEC_OF_DAY in
  let local_time := if local_time <? 0 then USEC_OF_DAY + local_time else local_time in
  (local_time, day_offset).

Record TimeStamp := mk_TimeStamp {
  usecs : Z; tz : Z; ts_date : Date; ts_time : Time; string_time_stamp : cstr }.

Section Methods.
Context `{C : CalendarConverter}.
Implicit Types ts : TimeStamp.

(** The GMT microseconds and the zone; [None] when there is no date token. *)
Definition parse_timeStamp (os : os_clock) (time : cstr) : option (Z * Z) :=
  let '(_, s_julian, rest) := strtok " "%char time in
  let '(_, s_usec, rest) := strtok " "%char rest in
  let '(_, s_tz, _) := strtok " "%char rest in
  match s_julian with
  | None => None
  | Some s_julian =>
    let j := ascii2jday s_julian in
    let local_usec := match s_usec with Some s_usec => ascii2usec s_usec | None => 0 end in
    let z := match s_tz with None => local_timezone os | Some s_tz => ascii2tz s_tz end in
    Some (s64 (j * USEC_OF_DAY + local_usec - z * USEC_OF_MINUTE), z)
  end.

(** The generated setters store the attribute; they succeed. *)
Definition setUsecs ts (u : Z) : TimeStamp :=
  mk_TimeStamp u (tz ts) (ts_date ts) (ts_time ts) (string_time_stamp ts).
Definition setTz ts (z : Z) : TimeStamp :=
  mk_TimeStamp (usecs ts) z (ts_date ts) (ts_time ts) (string_time_stamp ts).

(** The client data; the statuses of [set_julian] and [Time::set_usecs] are
    discarded. *)
Definition setClientData ts : TimeStamp :=
  let '(local_time, day_offset) := gmt2local_timeStamp (usecs ts) (tz ts) in
  let local_julian := s32 (usec2day (usecs ts) + day_offset) in
  let s_date := jday2ascii local_julian in
  let s_time := usec2ascii local_time in
  let s_zone := tz2ascii (tz ts) in
  mk_TimeStamp (usecs ts) (tz ts)
    (snd (Date.set_julian (ts_date ts) (usec2day (usecs ts))))
    (snd (Time.set_usecs (ts_time ts) (usecs ts `rem` USEC_OF_DAY) (tz ts)))
    (s_date ++ " "%char :: s_time ++ " "%char :: s_zone).

(** [new TimeStamp(db)]: default date and time members, the attributes zeroed,
    then [userInitialize]. *)
Definition new_TimeStamp : TimeStamp :=
  setClientData (mk_TimeStamp 0 0 new_Date new_Time []).

Definition date ts : Date := ts_date ts.
Definition time ts : Time := ts_time ts.

Definition year ts : Z := let '(y, _, _) := jday2calendar (usec2day (usecs ts)) in y.
Definition month ts : Z := let '(_, m, _) := jday2calendar (usec2day (usecs ts)) in m.
Definition day ts : Z := let '(_, _, d) := jday2calendar (usec2day (usecs ts)) in d.
Definition hour ts : Z := c_hour (usec2clock (fst (gmt2local_timeStamp (usecs ts) (tz ts)))).
Definition minute ts : Z := c_min (usec2clock (fst (gmt2local_timeStamp (usecs ts) (tz ts)))).
Definition second ts : Z := c_sec (usec2clock (usecs ts)).
Definition millisecond ts : Z := c_ms (usec2clock (usecs ts)).
Definition microsecond ts : Z := c_us (usec2clock (usecs ts)).
Definition tz_hour ts : Z := fst (tz2clock (tz ts)).
Definition tz_minute ts : Z := snd (tz2clock (tz ts)).
Definition gmt_hour ts : Z := c_hour (usec2clock (usecs ts `rem` USEC_OF_DAY)).
Definition gmt_minute ts : Z := c_min (usec2clock (usecs ts)).

Definition is_equal ts us : bool := usecs ts =? usecs us.
Definition is_greater ts us : bool := usecs us <? usecs ts.
Definition is_greater_or_equal ts us : bool := usecs us <=? usecs ts.
Definition is_less ts us : bool := usecs ts <? usecs us.
Definition is_less_or_equal ts us : bool := usecs ts <=? usecs us.
Definition is_between ts ts1 ts2 : bool :=
  let u := usecs ts in
  ((u <? usecs ts1) && (usecs ts2 <? u)) || ((usecs ts1 <? u) && (u <? usecs ts2)).

Definition set_usecs ts (u z : Z) : Status * TimeStamp :=
  if u <? 0 then (Exception_make "time_stamp out of range", ts)
  else if (z <? MIN_TZ) || (MAX_TZ <? z) then (Exception_make "time_zone out of range", ts)
  else
    let ts := setClientData (setUsecs ts u) in
    let ts := setClientData (setTz ts z) in
    (Success, ts).

(** These discard the status of [set_usecs]. *)
Definition plus ts (i : TimeInterval) : TimeStamp :=
  snd (set_usecs ts (s64 (usecs ts + TimeInterval.usecs i)) (tz ts)).
Definition minus ts (i : TimeInterval) : TimeStamp :=
  snd (set_usecs ts (s64 (usecs ts - TimeInterval.usecs i)) (tz ts)).

Definition substract ts us : TimeInterval := time_interval (s64 (usecs ts - usecs us)).

(** The factories discard the status of [set_usecs] on the new TimeStamp. *)
Definition gmt_time_stamp (os : os_clock) : TimeStamp :=
  snd (set_usecs new_TimeStamp
         (s64 (current_time os + current_date (tv_sec os) * USEC_OF_DAY)) 0).
Definition local_time_stamp (os : os_clock) : TimeStamp :=
  snd (set_usecs new_TimeStamp
         (s64 (current_time os + current_date (tv_sec os) * USEC_OF_DAY)) (local_timezone os)).

(** [ts->getTz()] is the zone of the new object, not of the argument. *)
Definition time_stamp_of_time_stamp ts0 : TimeStamp :=
  let ts := new_TimeStamp in snd (set_usecs ts (usecs ts0) (tz ts)).

Definition time_stamp_of_usec (os : os_clock) (u : Z) : TimeStamp :=
  snd (set_usecs new_TimeStamp u (local_timezone os)).
Definition time_stamp_of_usec_tz (u z : Z) : TimeStamp := snd (set_usecs new_TimeStamp u z).
Definition time_stamp_of_julian (os : os_clock) (j u : Z) : TimeStamp :=
  snd (set_usecs new_TimeStamp (s64 (u + s64 (j * USEC_OF_DAY))) (local_timezone os)).
Definition time_stamp_of_julian_tz (j u z : Z) : TimeStamp :=
  snd (set_usecs new_TimeStamp (s64 (u + s64 (j * USEC_OF_DAY))) z).
Definition time_stamp_of_date_time (d : Date) (t : Time) : TimeStamp :=
  snd (set_usecs new_TimeStamp (s64 (Time.usecs t + s64 (julian d * USEC_OF_DAY))) (Time.tz t)).
Definition time_stamp_of_date (os : os_clock) (d : Date) : TimeStamp :=
  snd (set_usecs new_TimeStamp (s64 (julian d * USEC_OF_DAY)) (local_timezone os)).
Definition time_stamp_of_date_tz (d : Date) (tzh tzm : Z) : TimeStamp :=
  snd (set_usecs new_TimeStamp (s64 (julian d * USEC_OF_DAY)) (s16 (tzh * 60 + tzm))).
Definition time_stamp_of_string (os : os_clock) (s : cstr) : option TimeStamp :=
  match parse_timeStamp os s with
  | None => None
  | Some (gmt_usec, z) => Some (snd (set_usecs new_TimeStamp gmt_usec z))
  end.

Definition toString ts : cstr := string_time_stamp ts.

Definition usec_time_stamp (os : os_clock) (s : cstr) : option Z := fst <$> parse_timeStamp os s.

End Methods.

Example print_stamp :
  toString (time_stamp_of_julian_tz 2440588 84600000000 120)
  = cs "1970-01-02 01:30:00,000,000 GMT+02:00".
Proof. reflexivity. Qed.
Example date_is_gmt : toString (time_stamp_of_julian_tz 2440588 84600000000 120)
  <> toString (time_stamp_of_julian_tz 2440588 84600000000 0)
  /\ Date.toString (date (time_stamp_of_julian_tz 2440588 84600000000 120)) = cs "1970-01-01".
Proof. split; [|reflexivity]. intros E. by vm_compute in E. Qed.

(** ** Lemmas *)

(** The largest julian day a TimeStamp can reach. *)
Definition MAX_STAMP_DAY : Z := 106751991.

Definition stamp_usec_ok (u : Z) : Prop := 0 <= u < 2 ^ 63.

(** Local microseconds since julian day 0. *)
Definition local (u z : Z) : Z := u + z * USEC_OF_MINUTE.

Lemma local_bounds u z :
  stamp_usec_ok u -> tz_ok z ->
  -1 <= local u z / USEC_OF_DAY <= MAX_STAMP_DAY + 1
  /\ 0 <= u / USEC_OF_DAY <= MAX_STAMP_DAY.
Proof. unfold stamp_usec_ok, local, MAX_STAMP_DAY. clock_unfold. intros. dlia. Qed.

(** [gmt2local_timeStamp] splits the local count at the day boundaries. *)
Lemma gmt2local_timeStamp_spec u z :
  stamp_usec_ok u -> tz_ok z ->
  gmt2local_timeStamp u z
  = (local u z mod USEC_OF_DAY, local u z / USEC_OF_DAY - u / USEC_OF_DAY).
Proof.
  intros Hu Hz. unfold gmt2local_timeStamp. rewrite day_residue.
  unfold stamp_usec_ok, local in *; clock_unfold.
  rewrite s64_id by dlia. f_equal.
  - dlia.
  - destruct (Z.leb_spec 86400000000 (u `rem` 86400000000 + z * 60000000)),
      (Z.ltb_spec (u `rem` 86400000000 + z * 60000000) 0); dlia.
Qed.

Lemma usec2day_spec u : stamp_usec_ok u -> usec2day u = u / USEC_OF_DAY.
Proof.
  unfold stamp_usec_ok, usec2day; clock_unfold. intros. rewrite s32_id by dlia. dlia.
Qed.

Section Invariant.
Context `{C : CalendarConverter}.
Implicit Types ts : TimeStamp.

Definition stamp_string (u z : Z) : cstr :=
  jday2ascii (local u z / USEC_OF_DAY) ++ " "%char
  :: usec2ascii (local u z mod USEC_OF_DAY) ++ " "%char :: tz2ascii z.

(** The TimeStamp with a given count and zone. *)
Definition stamp (u z : Z) : TimeStamp :=
  mk_TimeStamp u z
    (mk_Date (u / USEC_OF_DAY) (jday2ascii (u / USEC_OF_DAY)))
    (mk_Time (u mod USEC_OF_DAY) z (time_string (u mod USEC_OF_DAY) z))
    (stamp_string u z).

Definition stamp_ok ts : Prop :=
  stamp_usec_ok (usecs ts) /\ tz_ok (tz ts) /\ ts = stamp (usecs ts) (tz ts).

Lemma stamp_fields ts :
  stamp_ok ts ->
  ts_date ts = mk_Date (usecs ts / USEC_OF_DAY) (jday2ascii (usecs ts / USEC_OF_DAY))
  /\ ts_time ts = mk_Time (usecs ts mod USEC_OF_DAY) (tz ts)
                     (time_string (usecs ts mod USEC_OF_DAY) (tz ts))
  /\ string_time_stamp ts = stamp_string (usecs ts) (tz ts).
Proof.
  intros (_ & _ & E).
  split_and!; [apply (f_equal ts_date) in E|apply (f_equal ts_time) in E
    |apply (f_equal string_time_stamp) in E]; exact E.
Qed.

Lemma setClientData_stamp ts :
  stamp_usec_ok (usecs ts) -> tz_ok (tz ts) -> setClientData ts = stamp (usecs ts) (tz ts).
Proof.
  intros Hu Hz. unfold setClientData, stamp. rewrite gmt2local_timeStamp_spec by done.
  destruct (local_bounds (usecs ts) (tz ts) Hu Hz) as [Hl Hd]. unfold MAX_STAMP_DAY in *.
  rewrite usec2day_spec, Date.set_julian_in; [|unfold julian_ok, MIN_JULIAN, MAX_JULIAN; lia|done].
  assert (usecs ts `rem` USEC_OF_DAY = usecs ts mod USEC_OF_DAY) as ->
    by (unfold stamp_usec_ok in Hu; clock_unfold; dlia).
  rewrite Time.time_set_usecs_in by auto with eyedb. cbn [snd].
  unfold stamp_string. f_equal. do 2 f_equal. rewrite s32_id; lia.
Qed.

Lemma stamp_set_usecs_cases ts u z :
  stamp_ok ts -> in_s 64 u ->
  (stamp_usec_ok u /\ tz_ok z /\ set_usecs ts u z = (Success, stamp u z))
  \/ (~ (stamp_usec_ok u /\ tz_ok z) /\ exists m, set_usecs ts u z = (Exception_make m, ts)).
Proof.
  intros (Hts & Hzs & _) Hu. unfold set_usecs, tz_ok, MIN_TZ, MAX_TZ, stamp_usec_ok, in_s in *.
  change (2 ^ (64 - 1)) with (2 ^ 63) in Hu.
  destruct (Z.ltb_spec u 0), (Z.ltb_spec z (-720)), (Z.ltb_spec 720 z); cbn [orb];
    try (right; split; [lia|eauto]; fail).
  left. split_and!; try lia.
  rewrite (setClientData_stamp (setUsecs ts u)) by (cbn; unfold stamp_usec_ok; lia || done).
  by rewrite setClientData_stamp by (cbn; unfold stamp_usec_ok, tz_ok, MIN_TZ, MAX_TZ; lia).
Qed.

Lemma stamp_is_ok u z : stamp_usec_ok u -> tz_ok z -> stamp_ok (stamp u z).
Proof. intros Hu Hz. exact (conj Hu (conj Hz eq_refl)). Qed.

Lemma new_TimeStamp_stamp : new_TimeStamp = stamp 0 0.
Proof. unfold new_TimeStamp. by rewrite setClientData_stamp. Qed.

Lemma new_TimeStamp_ok : stamp_ok new_TimeStamp.
Proof. rewrite new_TimeStamp_stamp. by apply stamp_is_ok. Qed.

Lemma stamp_set_usecs_ok ts u z : stamp_ok ts -> in_s 64 u -> stamp_ok (snd (set_usecs ts u z)).
Proof.
  intros Hts Hu. destruct (stamp_set_usecs_cases ts u z Hts Hu) as [(?&?&->)|[_ [m ->]]];
    [by apply stamp_is_ok|done].
Qed.

Lemma stamp_set_usecs_in ts u z :
  stamp_ok ts -> stamp_usec_ok u -> tz_ok z -> set_usecs ts u z = (Success, stamp u z).
Proof.
  intros Hts Hu Hz. destruct (stamp_set_usecs_cases ts u z Hts) as [(_&_&E)|[H _]];
    [|exact E|tauto].
  unfold stamp_usec_ok in Hu. in64.
Qed.

Lemma stamp_set_usecs_out ts u z :
  stamp_ok ts -> u < 0 -> snd (set_usecs ts u z) = ts.
Proof. intros _ Hu. unfold set_usecs. by destruct (Z.ltb_spec u 0); [|lia]. Qed.

(** The time stamps a program builds. *)
Inductive reachable : TimeStamp -> Prop :=
| reach_new : reachable new_TimeStamp
| reach_gmt os : reachable (gmt_time_stamp os)
| reach_local os : reachable (local_time_stamp os)
| reach_copy ts : reachable ts -> reachable (time_stamp_of_time_stamp ts)
| reach_usec os u : in_s 64 u -> reachable (time_stamp_of_usec os u)
| reach_usec_tz u z : in_s 64 u -> reachable (time_stamp_of_usec_tz u z)
| reach_julian os j u : reachable (time_stamp_of_julian os j u)
| reach_julian_tz j u z : reachable (time_stamp_of_julian_tz j u z)
| reach_date_time d t : reachable (time_stamp_of_date_time d t)
| reach_date os d : reachable (time_stamp_of_date os d)
| reach_date_tz d zh zm : reachable (time_stamp_of_date_tz d zh zm)
| reach_string os s ts : time_stamp_of_string os s = Some ts -> reachable ts
| reach_set ts u z : reachable ts -> in_s 64 u -> reachable (snd (set_usecs ts u z))
| reach_plus ts i : reachable ts -> reachable (plus ts i)
| reach_minus ts i : reachable ts -> reachable (minus ts i).

Lemma parse_timeStamp_range os s u z : parse_timeStamp os s = Some (u, z) -> in_s 64 u.
Proof.
  unfold parse_timeStamp. destruct (strtok _ s) as [[? [?|]] r1];
    destruct (strtok _ r1) as [[? ?] r2]; destruct (strtok _ r2) as [[? ?] ?]; [|done].
  intros [= <- _]. apply s64_ok.
Qed.

Lemma stamp_reachable_ok ts : reachable ts -> stamp_ok ts.
Proof.
  induction 1; try (apply stamp_set_usecs_ok; auto using new_TimeStamp_ok, s64_ok; fail).
  - apply new_TimeStamp_ok.
  - apply stamp_set_usecs_ok; [apply new_TimeStamp_ok|].
    destruct IHreachable as [Hu _]. unfold stamp_usec_ok in Hu. in64.
  - revert H. unfold time_stamp_of_string. case_match eqn:E; [|done]. case_match; intros [= <-].
    subst. apply stamp_set_usecs_ok; [apply new_TimeStamp_ok|]. by eapply parse_timeStamp_range.
Qed.

End Invariant.

Section Parsing.
Context `{L : CalendarLaws}.

Lemma jday2ascii_token j : j <= MAX_JULIAN -> is_token (jday2ascii j).
Proof.
  intros Hj. destruct (calendar_ascii_shape j Hj) as [Hl Hs]. split; [|exact Hs].
  intros E. rewrite E in Hl. unfold strlen in Hl. cbn in Hl. lia.
Qed.

Lemma stamp_string_length u z :
  stamp_usec_ok u -> tz_ok z -> strlen (stamp_string u z) <= 39.
Proof.
  intros Hu Hz. destruct (local_bounds u z Hu Hz) as [Hl _]. unfold MAX_STAMP_DAY in Hl.
  destruct (calendar_ascii_shape (local u z / USEC_OF_DAY)) as [Hd _]; [unfold MAX_JULIAN; lia|].
  pose proof (usec2ascii_length (local u z mod USEC_OF_DAY) ltac:(auto with eyedb)).
  pose proof (tz2ascii_length z).
  unfold stamp_string, strlen in *. rewrite length_app; cbn [length].
  rewrite length_app; cbn [length]. lia.
Qed.

Lemma parse_stamp_string os u z :
  stamp_usec_ok u -> tz_ok z -> 0 <= local u z ->
  (let '(y, _, _) := jday2calendar (local u z / USEC_OF_DAY) in ~ 0 <= y <= 9) ->
  parse_timeStamp os (stamp_string u z) = Some (u, z).
Proof.
  intros Hu Hz Hl Hy. destruct (local_bounds u z Hu Hz) as [Hld _]. unfold MAX_STAMP_DAY in Hld.
  unfold parse_timeStamp, stamp_string.
  rewrite strtok_is_token by (apply jday2ascii_token; unfold MAX_JULIAN; lia).
  rewrite strtok_is_token by (apply usec2ascii_token; auto with eyedb).
  rewrite strtok_is_last by apply tz2ascii_token.
  rewrite ascii2usec_usec2ascii by auto with eyedb.
  rewrite ascii2tz_tz2ascii by (clock_unfold; lia).
  assert (ascii2jday (jday2ascii (local u z / USEC_OF_DAY)) = local u z / USEC_OF_DAY) as ->.
  { pose proof (calendar_ascii (local u z / USEC_OF_DAY)) as H.
    destruct (jday2calendar _) as [[y m] d].
    destruct H as [H|H]; [unfold julian_ok, MIN_JULIAN, MAX_JULIAN|tauto|exact H].
    split; [apply Z.div_pos|]; unfold USEC_OF_DAY in *; lia. }
  unfold stamp_usec_ok, local in *; clock_unfold. rewrite s64_id by dlia. do 2 f_equal. dlia.
Qed.

End Parsing.

(** ** Properties *)

(** Every TimeStamp a program builds, whatever the calls, keeps its count
    and zone in range, its Date and Time members equal to the GMT day and time of
    day of the count, and its text to the local day, time and zone; the text fits
    its 64 bytes; a refused [set_usecs] changes nothing. *)
Theorem time_stamp_invariant `{CalendarLaws} ts :
  reachable ts ->
  stamp_usec_ok (usecs ts) /\ tz_ok (tz ts)
  /\ julian (date ts) = usecs ts / USEC_OF_DAY /\ Date.toString (date ts) = jday2ascii (julian (date ts))
  /\ Time.usecs (time ts) = usecs ts mod USEC_OF_DAY /\ Time.tz (time ts) = tz ts
  /\ toString ts = stamp_string (usecs ts) (tz ts) /\ strlen (toString ts) < 64
  /\ (forall u z, in_s 64 u -> fst (set_usecs ts u z) <> Success -> snd (set_usecs ts u z) = ts).
Proof.
  intros Hr. pose proof (stamp_reachable_ok ts Hr) as Hok. pose proof Hok as (Hu & Hz & E).
  pose proof (stamp_string_length (usecs ts) (tz ts) Hu Hz).
  destruct (stamp_fields ts Hok) as (Ed & Et & Es).
  split; [exact Hu|]. split; [exact Hz|]. unfold date, time, toString. rewrite Ed, Et, Es.
  split_and!; try done; [lia|].
  intros u z Hin. destruct (stamp_set_usecs_cases ts u z Hok Hin) as [(_&_&->)|[_ [m ->]]]; done.
Qed.

Lemma time_stamp_invariant_witness :
  julian (date (time_stamp_of_julian_tz 2440588 84600000000 120)) = 2440588.
Proof.
  destruct (time_stamp_invariant (time_stamp_of_julian_tz 2440588 84600000000 120))
    as (_ & _ & H & _); [apply reach_julian_tz|exact H].
Defined.

(** Parsing the text of a TimeStamp gives that TimeStamp back, whatever the
    zone of the reader, when its local day is not before day 0 nor in the years
    0 to 9, which the calendar converter does not read. *)
Theorem time_stamp_print_parse `{CalendarLaws} os ts :
  reachable ts -> 0 <= local (usecs ts) (tz ts) ->
  (let '(y, _, _) := jday2calendar (local (usecs ts) (tz ts) / USEC_OF_DAY) in ~ 0 <= y <= 9) ->
  time_stamp_of_string os (toString ts) = Some ts.
Proof.
  intros Hr Hl Hy. pose proof (stamp_reachable_ok ts Hr) as (Hu & Hz & E).
  unfold time_stamp_of_string, toString. destruct (stamp_fields ts) as (_ & _ & ->); [done|].
  rewrite parse_stamp_string by done.
  rewrite stamp_set_usecs_in by (done || apply new_TimeStamp_ok). cbn [snd]. by rewrite <- E.
Qed.

Lemma time_stamp_print_parse_witness :
  time_stamp_of_string UTC (toString (time_stamp_of_julian_tz 2440588 84600000000 120))
  = Some (time_stamp_of_julian_tz 2440588 84600000000 120).
Proof.
  apply (time_stamp_print_parse UTC (time_stamp_of_julian_tz 2440588 84600000000 120)).
  - apply reach_julian_tz.
  - vm_compute. discriminate.
  - vm_compute. intros [_ H]. by apply H.
Defined.

(** [plus] and [minus] shift a TimeStamp by the interval when the exact
    result is a count a TimeStamp can hold, and are inverse of each other then;
    when it is not (below day 0, or 64-bit overflow) the TimeStamp does not move.
    [substract] recovers the interval. *)
Theorem time_stamp_shift `{CalendarConverter} ts i :
  reachable ts -> in_s 64 (TimeInterval.usecs i) ->
  let u := usecs ts + TimeInterval.usecs i in
  (if decide (stamp_usec_ok u)
   then plus ts i = stamp u (tz ts) /\ minus (plus ts i) i = ts
        /\ TimeInterval.usecs (substract (plus ts i) ts) = TimeInterval.usecs i
   else plus ts i = ts).
Proof.
  intros Hr Hi. cbv zeta. pose proof (stamp_reachable_ok ts Hr) as Hok. pose proof Hok as (Hu & Hz & E).
  unfold in_s in Hi. change (2 ^ (64 - 1)) with (2 ^ 63) in Hi.
  unfold stamp_usec_ok in *. case_decide as Hin.
  - unfold plus. rewrite s64_id by lia. rewrite stamp_set_usecs_in by done. cbn [snd].
    split; [done|]. unfold minus, substract. cbn [usecs tz stamp].
    rewrite !s64_id by lia. split; [|cbn; lia].
    rewrite stamp_set_usecs_in; [|by apply stamp_is_ok|unfold stamp_usec_ok; lia|done].
    cbn [snd]. rewrite E at 3. f_equal; lia.
  - unfold plus. apply stamp_set_usecs_out; [done|].
    unfold wrap_s. destruct (Z.lt_ge_cases (usecs ts + TimeInterval.usecs i) 0); dlia.
Qed.

Lemma time_stamp_shift_witness :
  usecs (plus (time_stamp_of_julian_tz 2440588 0 0) (time_interval 5)) = 210866803200000005.
Proof.
  pose proof (time_stamp_shift (time_stamp_of_julian_tz 2440588 0 0) (time_interval 5)
    (reach_julian_tz _ _ _) ltac:(by split)) as H.
  vm_compute (decide _) in H. destruct H as [-> _]. reflexivity.
Defined.

(** A TimeStamp is its GMT Date and Time: rebuilding it from its members
    gives it back, its members are the Date and the Time it was built from, and
    the comparison of time stamps is the lexicographic one of the members. A Date
    later than 106751990, which the class Date accepts, is past the 64-bit count. *)
Theorem time_stamp_members `{CalendarConverter} ts us d t :
  reachable ts -> reachable us ->
  date_ok d -> julian d < MAX_STAMP_DAY -> time_ok t ->
  time_stamp_of_date_time (date ts) (time ts) = ts
  /\ date (time_stamp_of_date_time d t) = d /\ time (time_stamp_of_date_time d t) = t
  /\ is_less ts us =
     (Date.is_less (date ts) (date us)
      || (Date.is_equal (date ts) (date us) && Time.is_less (time ts) (time us))).
Proof.
  intros Hr Hr' Hd Hmax Ht. pose proof (stamp_reachable_ok ts Hr) as (Hu & Hz & E).
  pose proof (stamp_reachable_ok us Hr') as (Hu' & Hz' & E').
  unfold stamp_usec_ok, time_stamp_of_date_time, date, time in *.
  pose proof Hd as [[Hj Hj'] Hs]. pose proof Ht as [Htu Htz Hts].
  unfold MIN_JULIAN, MAX_STAMP_DAY in *.
  split_and!.
  - destruct (stamp_fields ts) as (-> & -> & _); [done|]. cbn [julian Time.usecs Time.tz].
    clock_unfold. rewrite (s64_id (_ * _)), s64_id by dlia.
    replace (_ + _) with (usecs ts) by dlia.
    rewrite stamp_set_usecs_in; [by symmetry|apply new_TimeStamp_ok|done|done].
  - clock_unfold. rewrite (s64_id (_ * _)), s64_id by lia.
    rewrite stamp_set_usecs_in; [|apply new_TimeStamp_ok|unfold stamp_usec_ok; lia|done].
    cbn [snd ts_date stamp]. clock_unfold.
    replace (_ / _) with (julian d) by dlia. destruct d; cbn in *. by rewrite Hs.
  - clock_unfold. rewrite (s64_id (_ * _)), s64_id by lia.
    rewrite stamp_set_usecs_in; [|apply new_TimeStamp_ok|unfold stamp_usec_ok; lia|done].
    cbn [snd ts_time stamp]. clock_unfold.
    replace ((_ + _) mod _) with (Time.usecs t) by dlia. destruct t; cbn in *. by rewrite Hts.
  - rewrite E, E'. unfold is_less, Date.is_less, Date.is_equal, Time.is_less.
    cbn [usecs tz ts_date ts_time stamp julian Time.usecs]. clock_unfold.
    apply eq_true_iff_eq. rewrite orb_true_iff, andb_true_iff, !Z.ltb_lt, Z.eqb_eq. dlia.
Qed.

Lemma time_stamp_members_witness :
  date (time_stamp_of_date_time (date_of_julian 2440588) (time_of_usec_tz 5 60))
  = date_of_julian 2440588.
Proof.
  destruct (time_stamp_members new_TimeStamp new_TimeStamp (date_of_julian 2440588)
    (time_of_usec_tz 5 60)) as (_ & H & _);
    [apply reach_new|apply reach_new|apply date_of_julian_ok|done| |exact H].
  apply Time.time_set_usecs_time_ok, new_Time_ok.
Defined.

(** The copying factory drops the zone of its argument. *)
Lemma copy_drops_zone `{CalendarConverter} ts :
  reachable ts -> time_stamp_of_time_stamp ts = stamp (usecs ts) 0.
Proof.
  intros Hr. pose proof (stamp_reachable_ok ts Hr) as (Hu & Hz & E).
  unfold time_stamp_of_time_stamp. rewrite new_TimeStamp_stamp.
  by rewrite stamp_set_usecs_in by (done || by apply stamp_is_ok).
Qed.

(** A date within the range of dates whose time stamp overflows: the TimeStamp
    of the day 106751992 stays at its initial value. *)
Example late_date_lost :
  julian_ok 106751992
  /\ usecs (time_stamp_of_date_tz (date_of_julian 106751992) 0 0) = 0.
Proof. split; [split; discriminate|reflexivity]. Qed.
