(* ===== verification/Codec.v ===== *)
(** * The object data coder

    src/eyedb/code.cc: the functions that write values in the growing buffer of
    an object (IDR) in the exchange format and read them back, and the object
    header. The conversions of eyedblib and eyedbsm between host and exchange
    formats are parameters. *)

From Stdlib Require Import Ascii String.
From S2P Require Import Prelude CString.

(** A byte of memory: [None] is a byte never written since its allocation. *)
Abbreviation cell := (option Z).
Abbreviation Data := (list cell).

(** eyedblib/xdr.h and eyedbsm/xdr.h: h2x writes the exchange form of a host
    value, x2h reads it. A double is its 64-bit pattern. *)
Class Xdr := {
  Oid : Type;
  sizeof_Oid : nat;
  h2x_16 : Z -> list Z;  x2h_16 : list Z -> Z;
  h2x_32 : Z -> list Z;  x2h_32 : list Z -> Z;
  h2x_64 : Z -> list Z;  x2h_64 : list Z -> Z;  x2h_f64 : list Z -> Z;
  h2x_oid : Oid -> list Z;  x2h_oid : list Z -> Oid;
}.

(** What is documented of them: fixed sizes, and x2h undoes h2x. *)
Class XdrLaws (X : Xdr) := {
  h2x_16_length k : length (h2x_16 k) = 2%nat;
  h2x_32_length k : length (h2x_32 k) = 4%nat;
  h2x_64_length k : length (h2x_64 k) = 8%nat;
  h2x_oid_length o : length (h2x_oid o) = sizeof_Oid;
  x2h_h2x_16 k : in_s 16 k -> x2h_16 (h2x_16 k) = k;
  x2h_h2x_32 k : in_s 32 k -> x2h_32 (h2x_32 k) = k;
  x2h_h2x_64 k : in_s 64 k -> x2h_64 (h2x_64 k) = k;
  x2h_h2x_f64 k : 0 <= k < 2 ^ 64 -> x2h_f64 (h2x_64 k) = k;
  x2h_h2x_oid o : x2h_oid (h2x_oid o) = o;
  sizeof_Oid_small : Z.of_nat sizeof_Oid < 2 ^ 16;
}.

Definition INC : Z := 64.

(** The state the coders thread: the buffer, its allocated size and the offset. *)
Record coder := mk_coder { idr : Data; alloc_size : Z; offset : Z }.

Definition inc_size (wsize : Z) (e : coder) : coder :=
  if alloc_size e =? 0 then
    let a := u32 (wsize + INC) in
    mk_coder (replicate (Z.to_nat a) None) a (offset e)
  else if alloc_size e <? wsize then
    let a := u32 (wsize + INC) in
    mk_coder (resize (Z.to_nat a) None (idr e)) a (offset e)
  else e.

(** [mcp] and [memcpy] to the buffer at [off]: [None] when the destination is not
    allocated. *)
Definition store (off : Z) (bs : list cell) (d : Data) : option Data :=
  let o := Z.to_nat off in
  if bool_decide (o + length bs <= length d)%nat
  then Some (take o d ++ bs ++ drop (o + length bs) d) else None.

(** The three steps all coders share: grow for [n] bytes, copy [bs] at the
    offset, advance by [n]. *)
Definition put (n : Z) (bs : list cell) (e : coder) : option coder :=
  let e := inc_size (u32 (offset e + n)) e in
  d ← store (offset e) bs (idr e);
  Some (mk_coder d (alloc_size e) (u32 (offset e + n))).

Definition bytes_of (s : cstr) : list Z := ord <$> s.

Section Coders.
Context `{X : Xdr}.

Definition char_code (k : Z) : coder -> option coder := put 1 [Some k].
Definition int16_code (k : Z) : coder -> option coder := put 2 (Some <$> h2x_16 k).
Definition int32_code (k : Z) : coder -> option coder := put 4 (Some <$> h2x_32 k).
Definition int64_code (k : Z) : coder -> option coder := put 8 (Some <$> h2x_64 k).
Definition double_code (k : Z) : coder -> option coder := put 8 (Some <$> h2x_64 k).

Definition string_code (s : cstr) (e : coder) : option coder :=
  let len := s32 (strlen s + 1) in
  e ← int32_code len e;
  put len (Some <$> (bytes_of s ++ [0])) e.

(** [s] may be a null pointer. *)
Definition bound_string_code (len : Z) (s : option cstr) (e : coder) : option coder :=
  let src := match s with Some s => bytes_of s ++ [0] | None => [] end in
  let slen := Z.of_nat (length src) in
  put len (Some <$> take (Z.to_nat (if slen <? len then slen else len)) src) e.

Definition buffer_code (data : list cell) : coder -> option coder :=
  put (Z.of_nat (length data)) data.

Definition oid_code (oid : Oid) : coder -> option coder :=
  put (Z.of_nat sizeof_Oid) (Some <$> h2x_oid oid).

(** The overloads that code one value at the start of a buffer of exactly its
    size, whose (by value) pointer must not be reallocated. *)
Definition code_at (size : Z) (code : coder -> option coder) (out_data : Data) : option Data :=
  idr <$> code (mk_coder out_data size 0).
Definition oid_code_at (oid : Oid) := code_at (Z.of_nat sizeof_Oid) (oid_code oid).
Definition int16_code_at (i : Z) := code_at 2 (int16_code i).
Definition int32_code_at (i : Z) := code_at 4 (int32_code i).
Definition int64_code_at (i : Z) := code_at 8 (int64_code i).
Definition double_code_at (d : Z) := code_at 8 (double_code d).

(** ** Decoders: the value and the new offset; [None] when a byte read is out of
    the buffer or was never written. *)

Definition load (off : Z) (n : nat) (d : Data) : option (list Z) :=
  let bs := take n (drop (Z.to_nat off) d) in
  if bool_decide (length bs = n) then mapM id bs else None.

Definition get {A} (n : nat) (conv : list Z -> A) (d : Data) (off : Z) : option (A * Z) :=
  bs ← load off n d; Some (conv bs, u32 (off + Z.of_nat n)).

Definition char_decode : Data -> Z -> option (Z * Z) := get 1 (fun bs => hd 0 bs).
Definition int16_decode : Data -> Z -> option (Z * Z) := get 2 x2h_16.
Definition int32_decode : Data -> Z -> option (Z * Z) := get 4 x2h_32.
Definition int64_decode : Data -> Z -> option (Z * Z) := get 8 x2h_64.
Definition double_decode : Data -> Z -> option (Z * Z) := get 8 x2h_f64.

(** The pointer [s] is set to, as an offset of the buffer. *)
Definition string_decode (d : Data) (off : Z) : option (Z * Z) :=
  '(len, off) ← int32_decode d off;
  Some (off, u32 (off + len)).

Definition bound_string_decode (len : Z) (d : Data) (off : Z) : Z * Z :=
  (off, u32 (off + len)).

Definition buffer_decode (size : nat) : Data -> Z -> option (list Z * Z) := get size id.

Definition oid_decode : Data -> Z -> option (Oid * Z) := get sizeof_Oid x2h_oid.

(** The C string at a pointer in the buffer. *)
Fixpoint c_string (d : Data) : option cstr :=
  match d with
  | Some c :: d' => if c =? 0 then Some [] else cons (chr c) <$> c_string d'
  | _ => None
  end.
Definition string_at (d : Data) (p : Z) : option cstr := c_string (drop (Z.to_nat p) d).

(** ** The object header *)

Record ObjectHeader := mk_ObjectHeader {
  type : Z; size : Z; ctime : Z; mtime : Z; xinfo : Z; oid_cl : Oid; oid_prot : Oid }.

(** (int32)0xe8fa6efc *)
Definition IDB_OBJ_HEAD_MAGIC : Z := s32 0xe8fa6efc.
Definition IDB_OBJ_HEAD_SIZE : Z := 4 + 4 + 4 + 8 + 8 + 4 + Z.of_nat sizeof_Oid + Z.of_nat sizeof_Oid.

Definition object_header_code (hdr : ObjectHeader) (e : coder) : option coder :=
  let e := inc_size (u32 (offset e + IDB_OBJ_HEAD_SIZE)) e in
  e ← int32_code IDB_OBJ_HEAD_MAGIC e;
  e ← int32_code (type hdr) e;
  e ← int32_code (size hdr) e;
  e ← int64_code (ctime hdr) e;
  e ← int64_code (mtime hdr) e;
  e ← int32_code (xinfo hdr) e;
  e ← oid_code (oid_cl hdr) e;
  oid_code (oid_prot hdr) e.

Definition object_header_code_head (hdr : ObjectHeader) (d : Data) : option Data :=
  code_at IDB_OBJ_HEAD_SIZE (object_header_code hdr) d.

(** [None] in the result: the magic number is not the one of an object, the code
    returns 0. *)
Definition object_header_decode (d : Data) (off : Z) : option (option ObjectHeader * Z) :=
  '(magic, off) ← int32_decode d off;
  if negb (magic =? IDB_OBJ_HEAD_MAGIC) then Some (None, off)
  else
    '(ty, off) ← int32_decode d off;
    '(sz, off) ← int32_decode d off;
    '(ct, off) ← int64_decode d off;
    '(mt, off) ← int64_decode d off;
    '(xi, off) ← int32_decode d off;
    '(ocl, off) ← oid_decode d off;
    '(opr, off) ← oid_decode d off;
    Some (Some (mk_ObjectHeader ty sz ct mt xi ocl opr), off).

Definition object_header_decode_head (d : Data) : option (option ObjectHeader) :=
  fst <$> object_header_decode d 0.

End Coders.

(** ** The coders append to the written part of the buffer *)

Record coder_ok (e : coder) : Prop := {
  coder_alloc : length (idr e) = Z.to_nat (alloc_size e);
  coder_offset : 0 <= offset e <= alloc_size e;
  coder_bound : alloc_size e < 2 ^ 32;
}.

Definition written (e : coder) : Data := take (Z.to_nat (offset e)) (idr e).

(** The state before the first value: no buffer. *)
Definition coder_init : coder := mk_coder [] 0 0.

Lemma coder_init_ok : coder_ok coder_init.
Proof. by split. Qed.

(** Growing keeps what was written and makes the size asked for available. *)
Lemma inc_size_spec w e :
  coder_ok e -> 0 <= w -> w + INC < 2 ^ 32 ->
  let e' := inc_size w e in
  coder_ok e' /\ w <= alloc_size e' /\ offset e' = offset e /\ written e' = written e.
Proof.
  intros [Ha Ho Hb] Hw Hw'. unfold inc_size, INC in *.
  destruct (Z.eqb_spec (alloc_size e) 0) as [E|E].
  { rewrite u32_id by lia. cbn [alloc_size offset]. split_and!; try lia.
    - split; cbn [idr alloc_size offset]; [by rewrite length_replicate|lia|lia].
    - unfold written; cbn [idr offset]. replace (offset e) with 0 by lia.
      by rewrite !take_0. }
  destruct (Z.ltb_spec (alloc_size e) w); [|by split_and!; [split| | |]; lia || done].
  rewrite u32_id by lia. cbn [alloc_size offset]. split_and!; try lia.
  - split; cbn [idr alloc_size offset]; [by rewrite length_resize|lia|lia].
  - unfold written; cbn [idr offset]. rewrite take_resize_le by lia. apply resize_le. lia.
Qed.

(** No growth, hence no new pointer, when the size is already there. *)
Lemma inc_size_fits w e : 0 < alloc_size e -> w <= alloc_size e -> inc_size w e = e.
Proof.
  intros H0 Hw. unfold inc_size.
  destruct (Z.eqb_spec (alloc_size e) 0); [lia|].
  by destruct (Z.ltb_spec (alloc_size e) w); [lia|].
Qed.

Lemma store_spec off bs d :
  (Z.to_nat off + length bs <= length d)%nat ->
  exists d', store off bs d = Some d' /\ length d' = length d
    /\ take (Z.to_nat off + length bs) d' = take (Z.to_nat off) d ++ bs
    /\ drop (Z.to_nat off + length bs) d' = drop (Z.to_nat off + length bs) d.
Proof.
  intros H. unfold store. rewrite bool_decide_true by done. eexists; split; [done|].
  rewrite !length_app, length_drop, length_take.
  split_and!; [lia| |].
  - rewrite (assoc_L (++)). rewrite take_app_le by (rewrite length_app, length_take; lia).
    apply take_ge. rewrite length_app, length_take. lia.
  - rewrite (assoc_L (++)). rewrite drop_app_ge by (rewrite length_app, length_take; lia).
    rewrite length_app, length_take. by replace (Z.to_nat off + length bs - _)%nat with 0%nat by lia.
Qed.

(** One [put] of a whole value appends it. *)
Lemma put_spec n bs e :
  coder_ok e -> (length bs <= Z.to_nat n)%nat -> 0 <= n -> offset e + n + INC < 2 ^ 32 ->
  exists e' pad, put n bs e = Some e' /\ coder_ok e' /\ offset e' = offset e + n
    /\ written e' = written e ++ bs ++ pad /\ length (bs ++ pad) = Z.to_nat n.
Proof.
  intros He Hl Hn Hb. pose proof He as [_ Ho _]. unfold INC in Hb. unfold put.
  rewrite !u32_id by lia.
  destruct (inc_size_spec (offset e + n) e He) as ([Ha1 Ho1 Hb1] & Hw & Eo & Ew);
    [lia|unfold INC; lia|].
  remember (inc_size (offset e + n) e) as e1 eqn:E1. clear E1.
  destruct (store_spec (offset e1) bs (idr e1)) as (d' & Es & Hld & Ht & Hd); [lia|].
  rewrite Es. cbn [mbind option_bind]. rewrite Eo, u32_id by lia.
  eexists _, (take (Z.to_nat n - length bs) (drop (Z.to_nat (offset e) + length bs) d')).
  split; [reflexivity|]. split; [split; cbn [idr alloc_size offset]; lia|].
  split; [done|]. split.
  - unfold written in *; cbn [idr offset]. rewrite <- Ew, Eo in *.
    replace (Z.to_nat (offset e + n))
      with (Z.to_nat (offset e) + length bs + (Z.to_nat n - length bs))%nat by lia.
    rewrite <- take_take_drop, Ht. by rewrite (assoc_L (++)).
  - rewrite length_app, length_take, length_drop, Hld. lia.
Qed.

Lemma put_exact n bs e :
  coder_ok e -> length bs = Z.to_nat n -> 0 <= n -> offset e + n + INC < 2 ^ 32 ->
  exists e', put n bs e = Some e' /\ coder_ok e' /\ offset e' = offset e + n
    /\ written e' = written e ++ bs.
Proof.
  intros He Hl Hn Hb.
  destruct (put_spec n bs e He ltac:(lia) Hn Hb) as (e' & pad & E & He' & Ho & Hw & Hp).
  rewrite length_app in Hp. destruct pad; [|cbn in Hp; lia].
  exists e'. rewrite app_nil_r in Hw. done.
Qed.

(** ** The decoders read a whole value *)

Lemma mapM_id_Some (bs : list Z) : mapM id (Some <$> bs) = Some bs.
Proof. induction bs as [|b bs IH]; [done|]. cbn in *. by rewrite IH. Qed.

Lemma load_app pre bs rest :
  load (Z.of_nat (length pre)) (length bs) (pre ++ (Some <$> bs) ++ rest) = Some bs.
Proof.
  unfold load. rewrite Nat2Z.id, drop_app_length.
  rewrite take_app_le by (rewrite length_fmap; lia).
  rewrite take_ge by (rewrite length_fmap; lia).
  rewrite length_fmap, bool_decide_true by done. apply mapM_id_Some.
Qed.

Lemma get_app {A} n (conv : list Z -> A) pre bs rest :
  length bs = n -> Z.of_nat (length pre + n) < 2 ^ 32 ->
  get n conv (pre ++ (Some <$> bs) ++ rest) (Z.of_nat (length pre))
  = Some (conv bs, Z.of_nat (length pre + n)).
Proof.
  intros <- Hb. unfold get. rewrite load_app. cbn. rewrite u32_id by lia.
  by rewrite Nat2Z.inj_add.
Qed.

Definition no_nul (s : cstr) : Prop := Forall (fun c => ord c <> 0) s.

Lemma ord_range c : 0 <= ord c < 256.
Proof. unfold ord. pose proof (nat_ascii_bounded c). lia. Qed.

Lemma chr_ord c : chr (ord c) = c.
Proof. unfold chr, ord. rewrite Nat2Z.id. apply ascii_nat_embedding. Qed.

Lemma c_string_app s rest :
  no_nul s -> c_string ((Some <$> (bytes_of s ++ [0])) ++ rest) = Some s.
Proof.
  induction 1 as [|c s Hc _ IH]; [done|].
  cbn [bytes_of fmap list_fmap app c_string] in *.
  destruct (Z.eqb_spec (ord c) 0); [done|]. unfold bytes_of in IH.
  cbn in IH |- *. rewrite IH. cbn. by rewrite chr_ord.
Qed.

Lemma bytes_of_length s : length (bytes_of s ++ [0]) = S (length s).
Proof. unfold bytes_of. rewrite length_app, length_fmap. cbn. lia. Qed.

(** ** Sequences of values *)

Section Items.
Context `{XL : XdrLaws}.

Inductive item :=
| IChar (k : Z) | IInt16 (k : Z) | IInt32 (k : Z) | IInt64 (k : Z) | IDouble (k : Z)
| IString (s : cstr) | IBoundString (len : Z) (s : cstr) | IBuffer (bs : list Z)
| IOid (o : Oid).

(** The values the types of the arguments hold; a bounded string has room. *)
Definition item_ok (i : item) : Prop :=
  match i with
  | IChar k => 0 <= k < 256
  | IInt16 k => in_s 16 k
  | IInt32 k => in_s 32 k
  | IInt64 k => in_s 64 k
  | IDouble k => 0 <= k < 2 ^ 64
  | IString s => no_nul s /\ strlen s + 1 < 2 ^ 31
  | IBoundString len s => no_nul s /\ strlen s < len
  | IBuffer _ | IOid _ => True
  end.

(** The number of bytes of the exchange form. *)
Definition item_size (i : item) : Z :=
  match i with
  | IChar _ => 1 | IInt16 _ => 2 | IInt32 _ => 4 | IInt64 _ => 8 | IDouble _ => 8
  | IString s => 4 + (strlen s + 1)
  | IBoundString len _ => len
  | IBuffer bs => Z.of_nat (length bs)
  | IOid _ => Z.of_nat sizeof_Oid
  end.

Definition code_item (i : item) : coder -> option coder :=
  match i with
  | IChar k => char_code k
  | IInt16 k => int16_code k
  | IInt32 k => int32_code k
  | IInt64 k => int64_code k
  | IDouble k => double_code k
  | IString s => string_code s
  | IBoundString len s => bound_string_code len (Some s)
  | IBuffer bs => buffer_code (Some <$> bs)
  | IOid o => oid_code o
  end.

(** Decoding a value of the same type and, for buffers and bounded strings, of
    the same size. *)
Definition decode_item (i : item) (d : Data) (off : Z) : option (item * Z) :=
  match i with
  | IChar _ => '(k, off) ← char_decode d off; Some (IChar k, off)
  | IInt16 _ => '(k, off) ← int16_decode d off; Some (IInt16 k, off)
  | IInt32 _ => '(k, off) ← int32_decode d off; Some (IInt32 k, off)
  | IInt64 _ => '(k, off) ← int64_decode d off; Some (IInt64 k, off)
  | IDouble _ => '(k, off) ← double_decode d off; Some (IDouble k, off)
  | IString _ => '(p, off) ← string_decode d off; s ← string_at d p; Some (IString s, off)
  | IBoundString len _ =>
    let '(p, off) := bound_string_decode len d off in
    s ← string_at d p; Some (IBoundString len s, off)
  | IBuffer bs => '(bs, off) ← buffer_decode (length bs) d off; Some (IBuffer bs, off)
  | IOid _ => '(o, off) ← oid_decode d off; Some (IOid o, off)
  end.

Fixpoint code_items (l : list item) (e : coder) : option coder :=
  match l with
  | [] => Some e
  | i :: l => e ← code_item i e; code_items l e
  end.

Fixpoint decode_items (l : list item) (d : Data) (off : Z) : option (list item * Z) :=
  match l with
  | [] => Some ([], off)
  | i :: l =>
    '(i, off) ← decode_item i d off;
    '(l, off) ← decode_items l d off;
    Some (i :: l, off)
  end.

Lemma item_size_nonneg i : item_ok i -> 0 <= item_size i.
Proof. destruct i; cbn; unfold strlen; intros; lia. Qed.

(** What one value leaves in the buffer; the bytes after a bounded string are
    whatever was there. *)
Definition item_cells (i : item) (bs : list cell) : Prop :=
  match i with
  | IChar k => bs = [Some k]
  | IInt16 k => bs = Some <$> h2x_16 k
  | IInt32 k => bs = Some <$> h2x_32 k
  | IInt64 k | IDouble k => bs = Some <$> h2x_64 k
  | IString s => bs = (Some <$> h2x_32 (strlen s + 1)) ++ (Some <$> (bytes_of s ++ [0]))
  | IBoundString len s => exists pad, bs = (Some <$> (bytes_of s ++ [0])) ++ pad
                                      /\ length bs = Z.to_nat len
  | IBuffer l => bs = Some <$> l
  | IOid o => bs = Some <$> h2x_oid o
  end.

(** The effect of a coder that writes [bs]. *)
Definition appends (code : coder -> option coder) (e : coder) (n : Z) (bs : list cell) : Prop :=
  exists e', code e = Some e' /\ coder_ok e' /\ offset e' = offset e + n
    /\ written e' = written e ++ bs.

Lemma put_appends n bs e :
  coder_ok e -> length bs = Z.to_nat n -> 0 <= n -> offset e + n + INC < 2 ^ 32 ->
  appends (put n bs) e n bs.
Proof. apply put_exact. Qed.

Lemma put_list_appends n (l : list Z) e :
  coder_ok e -> length l = n -> offset e + Z.of_nat n + INC < 2 ^ 32 ->
  appends (put (Z.of_nat n) (Some <$> l)) e (Z.of_nat n) (Some <$> l).
Proof. intros. apply put_appends; rewrite ?length_fmap; lia || done. Qed.

Lemma string_code_appends s e :
  coder_ok e -> strlen s + 1 < 2 ^ 31 -> offset e + (4 + (strlen s + 1)) + INC < 2 ^ 32 ->
  appends (string_code s) e (4 + (strlen s + 1))
    ((Some <$> h2x_32 (strlen s + 1)) ++ (Some <$> (bytes_of s ++ [0]))).
Proof.
  intros He Hl Hb. unfold string_code. assert (0 <= strlen s) by (unfold strlen; lia).
  rewrite s32_id by lia. unfold INC in *.
  destruct (put_list_appends 4 (h2x_32 (strlen s + 1)) e) as (e1 & E1 & He1 & Ho1 & Hw1);
    [done|apply h2x_32_length|unfold INC; lia|].
  unfold int32_code. change 4 with (Z.of_nat 4) at 1. unfold appends. rewrite E1. cbn [mbind option_bind].
  destruct (put_appends (strlen s + 1) (Some <$> (bytes_of s ++ [0])) e1)
    as (e2 & E2 & He2 & Ho2 & Hw2);
    [done|rewrite length_fmap, bytes_of_length; unfold strlen; lia|lia|unfold INC; lia|].
  exists e2. rewrite E2, Hw2, Hw1, Ho2, Ho1. split_and!; try done; [lia|].
  by rewrite (assoc_L (++)).
Qed.

Lemma bound_string_code_cells len s e :
  coder_ok e -> strlen s < len -> offset e + len + INC < 2 ^ 32 ->
  exists bs, appends (bound_string_code len (Some s)) e len bs
    /\ item_cells (IBoundString len s) bs.
Proof.
  intros He Hl Hb. unfold strlen in *. unfold bound_string_code.
  replace (take _ _) with (bytes_of s ++ [0]).
  2: { rewrite bytes_of_length. destruct (Z.ltb_spec (Z.of_nat (S (length s))) len);
       rewrite take_ge; rewrite ?bytes_of_length; done || lia. }
  destruct (put_spec len (Some <$> (bytes_of s ++ [0])) e He)
    as (e' & pad & E & He' & Ho & Hw & Hp); [|lia|done|].
  - rewrite length_fmap, bytes_of_length. lia.
  - exists ((Some <$> (bytes_of s ++ [0])) ++ pad). split; [by exists e'|]. by exists pad.
Qed.

Lemma code_item_cells i e :
  coder_ok e -> item_ok i -> offset e + item_size i + INC < 2 ^ 32 ->
  exists bs, appends (code_item i) e (item_size i) bs /\ item_cells i bs.
Proof.
  intros He Hi Hb. destruct i; cbn [item_ok item_size code_item] in *.
  - eexists; split; [exact (put_list_appends 1 [k] e He eq_refl Hb)|done].
  - eexists; split; [exact (put_list_appends 2 _ e He (h2x_16_length k) Hb)|done].
  - eexists; split; [exact (put_list_appends 4 _ e He (h2x_32_length k) Hb)|done].
  - eexists; split; [exact (put_list_appends 8 _ e He (h2x_64_length k) Hb)|done].
  - eexists; split; [exact (put_list_appends 8 _ e He (h2x_64_length k) Hb)|done].
  - destruct Hi. eexists; split; [by apply string_code_appends|done].
  - destruct Hi. by apply bound_string_code_cells.
  - unfold buffer_code. rewrite length_fmap. eexists; split; [by apply put_list_appends|done].
  - eexists; split; [exact (put_list_appends _ _ e He (h2x_oid_length o) Hb)|done].
Qed.

(** ** and are read back from where they were written. *)

Lemma string_at_app s pre rest :
  no_nul s ->
  string_at (pre ++ (Some <$> (bytes_of s ++ [0])) ++ rest) (Z.of_nat (length pre)) = Some s.
Proof. intros Hs. unfold string_at. rewrite Nat2Z.id, drop_app_length. by apply c_string_app. Qed.

Lemma get_list {A} n (conv : list Z -> A) (l : list Z) pre rest :
  length l = n -> Z.of_nat (length pre) + Z.of_nat n < 2 ^ 32 ->
  get n conv (pre ++ (Some <$> l) ++ rest) (Z.of_nat (length pre))
  = Some (conv l, Z.of_nat (length pre) + Z.of_nat n).
Proof. intros Hl Hn. rewrite get_app by lia. do 2 f_equal. lia. Qed.

Lemma decode_item_cells i bs pre rest :
  item_ok i -> item_cells i bs -> Z.of_nat (length pre) + item_size i < 2 ^ 32 ->
  decode_item i (pre ++ bs ++ rest) (Z.of_nat (length pre))
  = Some (i, Z.of_nat (length pre) + item_size i)
  /\ Z.of_nat (length bs) = item_size i.
Proof.
  intros Hi Hc Hb. destruct i; cbn [item_ok item_cells item_size decode_item] in *.
  - subst bs. split; [|done]. unfold char_decode. by rewrite (get_list 1 _ [k]).
  - subst bs. unfold int16_decode. rewrite (get_list 2), length_fmap, h2x_16_length by (apply h2x_16_length || done).
    cbn. by rewrite x2h_h2x_16.
  - subst bs. unfold int32_decode. rewrite (get_list 4), length_fmap, h2x_32_length by (apply h2x_32_length || done).
    cbn. by rewrite x2h_h2x_32.
  - subst bs. unfold int64_decode. rewrite (get_list 8), length_fmap, h2x_64_length by (apply h2x_64_length || done).
    cbn. by rewrite x2h_h2x_64.
  - subst bs. unfold double_decode. rewrite (get_list 8), length_fmap, h2x_64_length by (apply h2x_64_length || done).
    cbn. by rewrite x2h_h2x_f64.
  - subst bs. destruct Hi as [Hs Hl]. assert (0 <= strlen s) by (unfold strlen; lia).
    split; [|rewrite length_app, !length_fmap, h2x_32_length, bytes_of_length; unfold strlen; lia].
    unfold string_decode, int32_decode. rewrite <- (assoc_L (++)).
    rewrite (get_list 4) by (apply h2x_32_length || lia). cbn [mbind option_bind].
    rewrite x2h_h2x_32 by (unfold in_s; lia). rewrite (assoc_L (++) pre).
    replace (Z.of_nat (length pre) + Z.of_nat 4)
      with (Z.of_nat (length (pre ++ (Some <$> h2x_32 (strlen s + 1)))))
      by (rewrite length_app, length_fmap, h2x_32_length; lia).
    rewrite string_at_app by done. cbn. do 2 f_equal.
    rewrite length_app, length_fmap, h2x_32_length, u32_id; lia.
  - destruct Hc as (pad & -> & Hlen). destruct Hi as [Hs Hl].
    assert (0 <= strlen s) by (unfold strlen; lia).
    split; [|lia]. unfold bound_string_decode. rewrite <- (assoc_L (++)).
    rewrite string_at_app by done. cbn. by rewrite u32_id by lia.
  - subst bs. rewrite length_fmap. unfold buffer_decode. by rewrite get_list.
  - subst bs. unfold oid_decode. rewrite get_list, length_fmap, h2x_oid_length by (apply h2x_oid_length || done).
    cbn. by rewrite x2h_h2x_oid.
Qed.

Fixpoint items_size (l : list item) : Z :=
  match l with [] => 0 | i :: l => item_size i + items_size l end.

Lemma items_size_nonneg l : Forall item_ok l -> 0 <= items_size l.
Proof. induction 1 as [|i l Hi _ IH]; cbn [items_size]; [lia|]. pose proof (item_size_nonneg i Hi). lia. Qed.

(** Coding a sequence of values from any point of a buffer, and decoding it from
    there once anything else is coded after it. *)
Lemma code_items_spec l e :
  coder_ok e -> Forall item_ok l -> offset e + items_size l + INC < 2 ^ 32 ->
  exists bs, appends (code_items l) e (items_size l) bs
    /\ Z.of_nat (length bs) = items_size l
    /\ forall pre rest, Z.of_nat (length pre) + items_size l < 2 ^ 32 ->
       decode_items l (pre ++ bs ++ rest) (Z.of_nat (length pre))
       = Some (l, Z.of_nat (length pre) + items_size l).
Proof.
  intros He Hl. revert e He. induction Hl as [|i l Hi Hl IH]; intros e He Hb.
  { exists []. split; [|split; [done|]].
    - exists e. rewrite app_nil_r. split_and!; done || cbn; lia.
    - intros. cbn. do 2 f_equal. lia. }
  cbn [items_size] in *.
  pose proof (items_size_nonneg l Hl). pose proof (item_size_nonneg i Hi).
  destruct (code_item_cells i e He Hi) as (bs1 & (e1 & E1 & He1 & Ho1 & Hw1) & Hc1);
    [unfold INC in *; lia|].
  destruct (IH e1 He1) as (bs2 & (e2 & E2 & He2 & Ho2 & Hw2) & Hn2 & Hd2); [lia|].
  assert (Z.of_nat (length bs1) = item_size i) as Hn1.
  { apply (decode_item_cells i bs1 [] []); [done|done|]. cbn [length].
    pose proof (coder_offset e He). unfold INC in Hb. lia. }
  exists (bs1 ++ bs2). split; [|split].
  - exists e2. cbn [code_items]. rewrite E1. cbn [mbind option_bind].
    rewrite E2, Hw2, Hw1, Ho2, Ho1. split_and!; try done; [lia|]. by rewrite (assoc_L (++)).
  - rewrite length_app. lia.
  - intros pre rest Hp. cbn [decode_items]. rewrite <- (assoc_L (++)).
    destruct (decode_item_cells i bs1 pre (bs2 ++ rest) Hi Hc1) as [-> _]; [lia|].
    cbn [mbind option_bind]. rewrite (assoc_L (++) pre).
    replace (Z.of_nat (length pre) + item_size i) with (Z.of_nat (length (pre ++ bs1)))
      by (rewrite length_app; lia).
    rewrite Hd2 by (rewrite length_app; lia). cbn. do 2 f_equal. rewrite length_app. lia.
Qed.

(** ** In a buffer that is large enough, coding is in place *)

Definition overwrite (off : Z) (bs : list cell) (d : Data) : Data :=
  take (Z.to_nat off) d ++ bs ++ drop (Z.to_nat off + length bs) d.

Definition in_place (code : coder -> option coder) (e : coder) (bs : list cell) : Prop :=
  code e = Some (mk_coder (overwrite (offset e) bs (idr e)) (alloc_size e)
                          (offset e + Z.of_nat (length bs))).

(** Room for [n] bytes, in the size and in the memory itself. *)
Definition has_room (n : Z) (e : coder) : Prop :=
  0 <= offset e /\ 0 < alloc_size e < 2 ^ 32 /\ offset e + n <= alloc_size e
  /\ alloc_size e <= Z.of_nat (length (idr e)).

Lemma put_in_place n (l : list Z) e :
  length l = n -> has_room (Z.of_nat n) e ->
  in_place (put (Z.of_nat n) (Some <$> l)) e (Some <$> l).
Proof.
  intros Hl (Ho & Ha & Hf & Hd). unfold in_place, put, overwrite. rewrite length_fmap, Hl.
  rewrite u32_id, inc_size_fits by lia. unfold store.
  rewrite bool_decide_true by (rewrite length_fmap; lia). cbn [mbind option_bind].
  by rewrite length_fmap, Hl, u32_id by lia.
Qed.

Lemma overwrite_app off bs1 bs2 d :
  0 <= off -> (Z.to_nat off + length bs1 <= length d)%nat ->
  overwrite (off + Z.of_nat (length bs1)) bs2 (overwrite off bs1 d) = overwrite off (bs1 ++ bs2) d.
Proof.
  intros Ho Hd. unfold overwrite.
  replace (Z.to_nat (off + Z.of_nat (length bs1))) with (Z.to_nat off + length bs1)%nat by lia.
  assert (length (take (Z.to_nat off) d ++ bs1) = Z.to_nat off + length bs1)%nat as Hp
    by (rewrite length_app, length_take; lia).
  rewrite !(assoc_L (++)). f_equal.
  - f_equal. rewrite take_app_le by lia. by rewrite take_ge by lia.
  - rewrite drop_app_ge by lia. rewrite drop_drop, Hp, length_app. f_equal. lia.
Qed.

Lemma overwrite_length off bs d :
  0 <= off -> (Z.to_nat off + length bs <= length d)%nat -> length (overwrite off bs d) = length d.
Proof. intros. unfold overwrite. rewrite !length_app, length_take, length_drop. lia. Qed.

(** The values of fixed size. *)
Definition item_fixed (i : item) : bool :=
  match i with IString _ | IBoundString _ _ => false | _ => true end.

Lemma code_item_in_place i e :
  item_fixed i = true -> has_room (item_size i) e ->
  exists bs, in_place (code_item i) e bs /\ item_cells i bs.
Proof.
  intros Hf Hr. destruct i; try discriminate; cbn [item_size code_item] in *.
  - eexists; split; [exact (put_in_place 1 [k] e eq_refl Hr)|done].
  - eexists; split; [exact (put_in_place 2 _ e (h2x_16_length k) Hr)|done].
  - eexists; split; [exact (put_in_place 4 _ e (h2x_32_length k) Hr)|done].
  - eexists; split; [exact (put_in_place 8 _ e (h2x_64_length k) Hr)|done].
  - eexists; split; [exact (put_in_place 8 _ e (h2x_64_length k) Hr)|done].
  - unfold buffer_code. rewrite length_fmap.
    eexists; split; [exact (put_in_place _ _ e eq_refl Hr)|done].
  - eexists; split; [exact (put_in_place _ _ e (h2x_oid_length o) Hr)|done].
Qed.

Lemma code_items_in_place l e :
  Forall item_ok l -> forallb item_fixed l = true -> has_room (items_size l) e ->
  exists bs, in_place (code_items l) e bs /\ Z.of_nat (length bs) = items_size l
    /\ forall pre rest, Z.of_nat (length pre) + items_size l < 2 ^ 32 ->
       decode_items l (pre ++ bs ++ rest) (Z.of_nat (length pre))
       = Some (l, Z.of_nat (length pre) + items_size l).
Proof.
  intros Hl. revert e. induction Hl as [|i l Hi Hl IH]; intros e Hf (Ho & Ha & Hn & Hd).
  { exists []. split; [|split; [done|]].
    - unfold in_place, overwrite; cbn. rewrite Nat.add_0_r, take_drop, Z.add_0_r. by destruct e.
    - intros. cbn. do 2 f_equal. lia. }
  cbn [items_size forallb] in *. apply andb_true_iff in Hf as [Hf1 Hf2].
  pose proof (items_size_nonneg l Hl). pose proof (item_size_nonneg i Hi).
  destruct (code_item_in_place i e Hf1) as (bs1 & E1 & Hc1); [by split_and!; lia|].
  assert (Z.of_nat (length bs1) = item_size i) as Hn1
    by (apply (decode_item_cells i bs1 [] []); [done|done|cbn [length]; lia]).
  unfold in_place in E1. rewrite Hn1 in E1.
  destruct (IH (mk_coder (overwrite (offset e) bs1 (idr e)) (alloc_size e) (offset e + item_size i)))
    as (bs2 & E2 & Hn2 & Hd2); [done| |].
  { unfold has_room; cbn [offset alloc_size idr]. rewrite overwrite_length by lia. lia. }
  exists (bs1 ++ bs2). split; [|split].
  - unfold in_place in *. cbn [code_items]. rewrite E1. cbn [mbind option_bind]. rewrite E2.
    cbn [offset alloc_size idr]. rewrite <- Hn1, overwrite_app by lia.
    do 2 f_equal. rewrite length_app. lia.
  - rewrite length_app. lia.
  - intros pre rest Hp. cbn [decode_items]. rewrite <- (assoc_L (++)).
    destruct (decode_item_cells i bs1 pre (bs2 ++ rest) Hi Hc1) as [-> _]; [lia|].
    cbn [mbind option_bind]. rewrite (assoc_L (++) pre).
    replace (Z.of_nat (length pre) + item_size i) with (Z.of_nat (length (pre ++ bs1)))
      by (rewrite length_app; lia).
    rewrite Hd2 by (rewrite length_app; lia). cbn. do 2 f_equal. rewrite length_app. lia.
Qed.

(** ** The header as a sequence of values *)

Definition header_items (h : ObjectHeader) : list item :=
  [IInt32 IDB_OBJ_HEAD_MAGIC; IInt32 (type h); IInt32 (size h); IInt64 (ctime h);
   IInt64 (mtime h); IInt32 (xinfo h); IOid (oid_cl h); IOid (oid_prot h)].

Definition header_ok (h : ObjectHeader) : Prop :=
  in_s 32 (type h) /\ in_s 32 (size h) /\ in_s 64 (ctime h) /\ in_s 64 (mtime h)
  /\ in_s 32 (xinfo h).

Lemma header_items_ok h : header_ok h -> Forall item_ok (header_items h).
Proof.
  intros (?&?&?&?&?). unfold header_items.
  repeat (apply Forall_cons; split); try apply Forall_nil; cbn [item_ok]; try assumption; try exact I.
  apply wrap_s_range; lia.
Qed.

Lemma header_items_size h : items_size (header_items h) = IDB_OBJ_HEAD_SIZE.
Proof. unfold IDB_OBJ_HEAD_SIZE. cbn [items_size item_size header_items]. lia. Qed.

Lemma object_header_code_items h e :
  object_header_code h e
  = code_items (header_items h) (inc_size (u32 (offset e + IDB_OBJ_HEAD_SIZE)) e).
Proof.
  unfold object_header_code, header_items. cbn [code_items code_item].
  do 7 (apply bind_eq; intros ?). symmetry. apply bind_ret.
Qed.

Lemma decode_items_cons i l d off i' l' off' :
  decode_items (i :: l) d off = Some (i' :: l', off') ->
  exists o, decode_item i d off = Some (i', o) /\ decode_items l d o = Some (l', off').
Proof.
  cbn [decode_items]. destruct (decode_item i d off) as [[i1 o]|]; cbn [mbind option_bind]; [|done].
  destruct (decode_items l d o) as [[l1 o1]|] eqn:E; cbn [mbind option_bind]; [|done].
  intros H. injection H as -> -> ->. by exists o.
Qed.

Lemma decode_int32_inv k k' d off o :
  decode_item (IInt32 k) d off = Some (IInt32 k', o) -> int32_decode d off = Some (k', o).
Proof.
  cbn [decode_item]. destruct (int32_decode d off) as [[? ?]|]; cbn [mbind option_bind]; [|done].
  by intros [= -> ->].
Qed.

Lemma decode_int64_inv k k' d off o :
  decode_item (IInt64 k) d off = Some (IInt64 k', o) -> int64_decode d off = Some (k', o).
Proof.
  cbn [decode_item]. destruct (int64_decode d off) as [[? ?]|]; cbn [mbind option_bind]; [|done].
  by intros [= -> ->].
Qed.

Lemma decode_oid_inv k k' d off o :
  decode_item (IOid k) d off = Some (IOid k', o) -> oid_decode d off = Some (k', o).
Proof.
  cbn [decode_item]. destruct (oid_decode d off) as [[? ?]|]; cbn [mbind option_bind]; [|done].
  by intros [= -> ->].
Qed.

Lemma object_header_decode_items h d off off' :
  decode_items (header_items h) d off = Some (header_items h, off') ->
  object_header_decode d off = Some (Some h, off').
Proof.
  intros H. unfold header_items in H.
  apply decode_items_cons in H as (o1 & E1%decode_int32_inv & H).
  apply decode_items_cons in H as (o2 & E2%decode_int32_inv & H).
  apply decode_items_cons in H as (o3 & E3%decode_int32_inv & H).
  apply decode_items_cons in H as (o4 & E4%decode_int64_inv & H).
  apply decode_items_cons in H as (o5 & E5%decode_int64_inv & H).
  apply decode_items_cons in H as (o6 & E6%decode_int32_inv & H).
  apply decode_items_cons in H as (o7 & E7%decode_oid_inv & H).
  apply decode_items_cons in H as (o8 & E8%decode_oid_inv & H).
  cbn [decode_items] in H. injection H as <-.
  unfold object_header_decode. rewrite E1; cbn [mbind option_bind]. rewrite Z.eqb_refl; cbn [negb].
  rewrite E2; cbn [mbind option_bind]. rewrite E3; cbn [mbind option_bind].
  rewrite E4; cbn [mbind option_bind]. rewrite E5; cbn [mbind option_bind].
  rewrite E6; cbn [mbind option_bind]. rewrite E7; cbn [mbind option_bind].
  rewrite E8; cbn [mbind option_bind]. by destruct h.
Qed.

End Items.

(** ** A concrete exchange format: big-endian integers, 8-byte oids *)

Module BigEndian.

Fixpoint le_bytes (n : nat) (k : Z) : list Z :=
  match n with O => [] | S n => k mod 256 :: le_bytes n (k / 256) end.
Definition le_val (l : list Z) : Z := foldr (fun b v => b + 256 * v) 0 l.

Definition h2x (n : nat) (k : Z) : list Z := reverse (le_bytes n k).
Definition x2h_u (l : list Z) : Z := le_val (reverse l).

Lemma le_bytes_length n k : length (le_bytes n k) = n.
Proof. revert k; induction n as [|n IH]; intros; cbn; [done|]. by rewrite IH. Qed.

Lemma le_val_bytes n k : le_val (le_bytes n k) = k mod 2 ^ (8 * Z.of_nat n).
Proof.
  revert k; induction n as [|n IH]; intros k; cbn [le_bytes le_val foldr].
  { by rewrite Z.mod_1_r. }
  fold (le_val (le_bytes n (k / 256))). rewrite IH.
  replace (8 * Z.of_nat (S n)) with (8 + 8 * Z.of_nat n) by lia.
  rewrite Z.pow_add_r by lia. change (2 ^ 8) with 256.
  rewrite Z.rem_mul_r by lia. done.
Qed.

Lemma x2h_u_h2x n k : x2h_u (h2x n k) = k mod 2 ^ (8 * Z.of_nat n).
Proof. unfold x2h_u, h2x. rewrite reverse_involutive. apply le_val_bytes. Qed.

Lemma h2x_length n k : length (h2x n k) = n.
Proof. unfold h2x. by rewrite length_reverse, le_bytes_length. Qed.

Lemma wrap_s_u w k : 0 < w -> in_s w k -> wrap_s w (k mod 2 ^ w) = k.
Proof.
  intros Hw Hk. rewrite (wrap_s_congr w _ k) by (done || by apply Z.mod_mod, Z.pow_nonzero; lia).
  by apply wrap_s_id.
Qed.

Definition oid8 : Type := (ascii * ascii * ascii * ascii) * (ascii * ascii * ascii * ascii).

#[export] Instance big_endian : Xdr := {|
  Oid := oid8; sizeof_Oid := 8;
  h2x_16 := h2x 2; x2h_16 l := s16 (x2h_u l);
  h2x_32 := h2x 4; x2h_32 l := s32 (x2h_u l);
  h2x_64 := h2x 8; x2h_64 l := s64 (x2h_u l); x2h_f64 := x2h_u;
  h2x_oid '((a, b, c, d), (e, f, g, h)) :=
    [ord a; ord b; ord c; ord d; ord e; ord f; ord g; ord h];
  x2h_oid l := let z i := chr (nth i l 0) in
               ((z 0%nat, z 1%nat, z 2%nat, z 3%nat), (z 4%nat, z 5%nat, z 6%nat, z 7%nat));
|}.

#[export] Instance big_endian_laws : XdrLaws big_endian.
Proof.
  split.
  1-3: intros; apply h2x_length.
  all: cbn -[h2x x2h_u].
  - by intros [[[[? ?] ?] ?] [[[? ?] ?] ?]].
  - intros k Hk. rewrite x2h_u_h2x. by apply wrap_s_u.
  - intros k Hk. rewrite x2h_u_h2x. by apply wrap_s_u.
  - intros k Hk. rewrite x2h_u_h2x. by apply wrap_s_u.
  - intros k Hk. rewrite x2h_u_h2x. by apply Z.mod_small.
  - intros [[[[? ?] ?] ?] [[[? ?] ?] ?]]. cbn. by rewrite !chr_ord.
  - done.
Qed.

Definition oid_a : oid8 := (("a", "b", "c", "d"), ("e", "f", "g", "h"))%char.
Definition oid_b : oid8 := (("0", "1", "2", "3"), ("4", "5", "6", "7"))%char.
Definition header : ObjectHeader := mk_ObjectHeader 1 100 (-1) 5 2 oid_a oid_b.

Lemma header_is_ok : header_ok header.
Proof. by vm_compute. Qed.

End BigEndian.
Import (hints) BigEndian.

(** ** Properties *)

(** C1: values of any types coded one after the other, from any state of a
    buffer, are all written (the buffer grows as needed, no store is out of it),
    what was written before is kept, the offset advances by their sizes, and
    decoding from the old offset gives the same values back and ends at the new
    one, whatever is written after. *)
Theorem codec_roundtrip `{XdrLaws} l e0 :
  coder_ok e0 -> Forall item_ok l -> offset e0 + items_size l + INC < 2 ^ 32 ->
  exists e bs, code_items l e0 = Some e /\ coder_ok e
    /\ offset e = offset e0 + items_size l
    /\ written e = written e0 ++ bs
    /\ forall rest, decode_items l (written e ++ rest) (offset e0) = Some (l, offset e).
Proof.
  intros He Hl Hb. destruct (code_items_spec l e0 He Hl Hb) as (bs & (e & E & He' & Ho & Hw) & Hn & Hd).
  exists e, bs. split_and!; try done. intros rest. rewrite Hw, Ho, <- (assoc_L (++)).
  pose proof He as [Ha Ho0 _].
  assert (Z.of_nat (length (written e0)) = offset e0) as El
    by (unfold written; rewrite length_take; lia).
  rewrite <- El at 1. rewrite Hd by (unfold INC in Hb; lia). by rewrite El.
Qed.

Definition sample : list item :=
  [IChar 65; IInt16 (-2); IString (cs "eyedb"); IBoundString 10 (cs "x");
   IInt64 123456789012; IOid (X := BigEndian.big_endian) BigEndian.oid_a].

Lemma sample_ok : Forall item_ok sample.
Proof.
  assert (forall s, forallb (fun c => negb (ord c =? 0)) s = true -> no_nul s) as Hs.
  { intros s. induction s as [|c s IH]; cbn; [constructor|].
    intros [Hc Hs]%andb_true_iff. constructor; [lia|by apply IH]. }
  unfold sample. repeat (apply Forall_cons; split); try apply Forall_nil; cbn [item_ok];
    try (by vm_compute); try exact I; (split; [by apply Hs|by vm_compute]).
Qed.

Lemma codec_roundtrip_witness :
  exists e, code_items sample coder_init = Some e /\ offset e = 39
    /\ decode_items sample (written e ++ []) 0 = Some (sample, 39).
Proof.
  destruct (codec_roundtrip sample coder_init coder_init_ok sample_ok)
    as (e & bs & E & _ & Ho & _ & Hd); [by vm_compute|].
  exists e. split; [exact E|]. change (offset coder_init + items_size sample) with 39 in Ho.
  split; [exact Ho|]. rewrite <- Ho. apply Hd.
Defined.

(** An object header coded from any state of a buffer takes
    IDB_OBJ_HEAD_SIZE bytes and is read back field by field; bytes whose first
    word is not the magic number are refused after that word. *)
Theorem header_roundtrip `{XdrLaws} h e0 :
  coder_ok e0 -> header_ok h -> offset e0 + IDB_OBJ_HEAD_SIZE + INC < 2 ^ 32 ->
  (exists e, object_header_code h e0 = Some e /\ coder_ok e
     /\ offset e = offset e0 + IDB_OBJ_HEAD_SIZE
     /\ forall rest, object_header_decode (written e ++ rest) (offset e0) = Some (Some h, offset e))
  /\ (forall d off m off', int32_decode d off = Some (m, off') -> m <> IDB_OBJ_HEAD_MAGIC ->
       object_header_decode d off = Some (None, off')).
Proof.
  intros He Hh Hb. split.
  - rewrite object_header_code_items.
    assert (0 <= IDB_OBJ_HEAD_SIZE) by (unfold IDB_OBJ_HEAD_SIZE; lia).
    rewrite u32_id by (pose proof (coder_offset e0 He); unfold INC in *; lia).
    destruct (inc_size_spec (offset e0 + IDB_OBJ_HEAD_SIZE) e0 He) as (He1 & _ & Eo & Ew);
      [pose proof (coder_offset e0 He); lia|done|].
    remember (inc_size _ e0) as e1 eqn:E1. clear E1.
    destruct (code_items_spec (header_items h) e1 He1 (header_items_ok h Hh))
      as (bs & (e & E & He' & Ho & Hw) & Hn & Hd);
      [rewrite header_items_size; lia|].
    rewrite header_items_size in *.
    exists e. split_and!; try done; [lia|]. intros rest.
    apply object_header_decode_items. rewrite Hw, Ho, <- (assoc_L (++)), <- Eo.
    pose proof He1 as [Ha Ho1 _].
    assert (Z.of_nat (length (written e1)) = offset e1) as El
      by (unfold written; rewrite length_take; lia).
    rewrite <- El at 1. rewrite Hd by (unfold INC in *; lia). by rewrite El.
  - intros d off m off' E Hm. unfold object_header_decode. rewrite E. cbn [mbind option_bind].
    by destruct (Z.eqb_spec m IDB_OBJ_HEAD_MAGIC).
Qed.

Lemma header_roundtrip_witness :
  exists e, object_header_code BigEndian.header coder_init = Some e /\ coder_ok e
    /\ offset e = 0 + 48
    /\ forall rest, object_header_decode (written e ++ rest) 0 = Some (Some BigEndian.header, offset e).
Proof.
  apply (header_roundtrip BigEndian.header coder_init);
    [apply coder_init_ok|apply BigEndian.header_is_ok|by vm_compute].
Defined.

(** [object_header_code_head], which receives the buffer by value, writes
    the header of an object that is already allocated without reallocating it:
    the size and the bytes after the header do not change, and
    [object_header_decode_head] reads the header back. *)
Theorem header_code_head_in_place `{XdrLaws} h d :
  header_ok h -> IDB_OBJ_HEAD_SIZE <= Z.of_nat (length d) ->
  exists d', object_header_code_head h d = Some d' /\ length d' = length d
    /\ drop (Z.to_nat IDB_OBJ_HEAD_SIZE) d' = drop (Z.to_nat IDB_OBJ_HEAD_SIZE) d
    /\ object_header_decode_head d' = Some (Some h).
Proof.
  intros Hh Hd. pose proof sizeof_Oid_small.
  assert (32 <= IDB_OBJ_HEAD_SIZE < 2 ^ 20) as Hs by (unfold IDB_OBJ_HEAD_SIZE; lia).
  unfold object_header_code_head, code_at. rewrite object_header_code_items. cbn [offset].
  rewrite u32_id, inc_size_fits by (cbn [alloc_size]; lia).
  destruct (code_items_in_place (header_items h) (mk_coder d IDB_OBJ_HEAD_SIZE 0)
    (header_items_ok h Hh) eq_refl) as (bs & E & Hn & Hdec).
  { unfold has_room; cbn [offset alloc_size idr]. rewrite header_items_size. lia. }
  rewrite header_items_size in *. unfold in_place in E. rewrite E. cbn [fmap option_fmap option_map idr offset].
  eexists; split; [reflexivity|]. split_and!.
  - apply overwrite_length; lia.
  - unfold overwrite. change (take (Z.to_nat 0) d) with (@nil cell). cbn [app].
    rewrite drop_app_ge by lia. rewrite drop_drop. f_equal. lia.
  - unfold object_header_decode_head, overwrite. change (take (Z.to_nat 0) d) with (@nil cell).
    specialize (Hdec [] (drop (Z.to_nat 0 + length bs) d) ltac:(cbn [length]; lia)).
    apply object_header_decode_items in Hdec.
    change (Z.of_nat (length [])) with 0 in Hdec. by rewrite Hdec.
Qed.

Lemma header_code_head_in_place_witness :
  exists d', object_header_code_head BigEndian.header (replicate 50 (Some 7)) = Some d'
    /\ length d' = 50%nat /\ drop 48 d' = [Some 7; Some 7]
    /\ object_header_decode_head d' = Some (Some BigEndian.header).
Proof.
  exact (header_code_head_in_place BigEndian.header (replicate 50 (Some 7))
    BigEndian.header_is_ok ltac:(discriminate)).
Defined.
