(* ===== verification/ArgCodec.v ===== *)
(** * Marshalling of the arguments of remote methods

    src/eyedb/Argument_code.cc: the size, the coding and the decoding of the
    arguments and signatures passed between client and server. Values are copied
    in the memory representation of the host; that representation, the schema and
    the construction of objects are parameters. *)

From Stdlib Require Import Ascii String.
From S2P Require Import Prelude CString Codec.

#[local] Set Warnings "-register-all".

(** The representation in memory of the types that [mcp] copies. *)
Class Host := {
  Oid : Type;
  sizeof_Oid : nat;
  rep_16 : Z -> list Z;  val_16 : list Z -> Z;
  rep_32 : Z -> list Z;  val_32 : list Z -> Z;
  rep_64 : Z -> list Z;  val_64 : list Z -> Z;
  rep_double : Z -> list Z;  val_double : list Z -> Z;
  rep_oid : Oid -> list Z;  val_oid : list Z -> Oid;
}.

Class HostLaws (H : Host) := {
  rep_16_length k : length (rep_16 k) = 2%nat;
  rep_32_length k : length (rep_32 k) = 4%nat;
  rep_64_length k : length (rep_64 k) = 8%nat;
  rep_double_length k : length (rep_double k) = 8%nat;
  rep_oid_length o : length (rep_oid o) = sizeof_Oid;
  val_rep_16 k : in_s 16 k -> val_16 (rep_16 k) = k;
  val_rep_32 k : in_s 32 k -> val_32 (rep_32 k) = k;
  val_rep_64 k : in_s 64 k -> val_64 (rep_64 k) = k;
  val_rep_double k : 0 <= k < 2 ^ 64 -> val_double (rep_double k) = k;
  val_rep_oid o : val_oid (rep_oid o) = o;
}.

Definition INT16_TYPE : Z := 2.
Definition VOID_TYPE : Z := 1.
Definition INT32_TYPE : Z := 3.
Definition INT64_TYPE : Z := 4.
Definition STRING_TYPE : Z := 5.
Definition CHAR_TYPE : Z := 6.
Definition FLOAT_TYPE : Z := 7.
Definition OID_TYPE : Z := 8.
Definition OBJ_TYPE : Z := 9.
Definition RAW_TYPE : Z := 10.
Definition BYTE_TYPE : Z := 11.
Definition ARRAY_TYPE : Z := 256.

(** A memory and a pointer in it. *)
Abbreviation ptr := (Data * Z)%type.

Section Coding.
Context `{H : Host}.

(** What the coder uses of an object: its oid, the one of its class, its IDR. *)
Record Object := mk_Object { o_oid : Oid; o_class : Oid; o_idr : list Z }.

Inductive argument :=
| AVoid
| AInt16 (i : Z) | AInt32 (i : Z) | AInt64 (i : Z) | AChar (c : Z) | AByte (b : Z)
| AString (s : cstr) | AFloat (d : Z) | AOid (o : Oid) | AObj (o : option Object)
| ARaw (data : list Z)
| AArray (l : list argument)
| AArrInt16 (l : list Z) | AArrInt32 (l : list Z) | AArrInt64 (l : list Z)
| AArrChar (l : list Z) | AArrFloat (l : list Z) | AArrOid (l : list Oid)
| AArrString (l : list cstr) | AArrObj (l : list (option Object)).

(** arg->type->getType() *)
Definition getType (a : argument) : Z :=
  match a with
  | AVoid => VOID_TYPE
  | AInt16 _ => INT16_TYPE | AInt32 _ => INT32_TYPE | AInt64 _ => INT64_TYPE
  | AChar _ => CHAR_TYPE | AByte _ => BYTE_TYPE
  | AString _ => STRING_TYPE | AFloat _ => FLOAT_TYPE | AOid _ => OID_TYPE
  | AObj _ => OBJ_TYPE | ARaw _ => RAW_TYPE
  | AArray _ => ARRAY_TYPE
  | AArrInt16 _ => Z.lor ARRAY_TYPE INT16_TYPE
  | AArrInt32 _ => Z.lor ARRAY_TYPE INT32_TYPE
  | AArrInt64 _ => Z.lor ARRAY_TYPE INT64_TYPE
  | AArrChar _ => Z.lor ARRAY_TYPE CHAR_TYPE
  | AArrFloat _ => Z.lor ARRAY_TYPE FLOAT_TYPE
  | AArrOid _ => Z.lor ARRAY_TYPE OID_TYPE
  | AArrString _ => Z.lor ARRAY_TYPE STRING_TYPE
  | AArrObj _ => Z.lor ARRAY_TYPE OBJ_TYPE
  end.

Definition cnt {A} (l : list A) : Z := Z.of_nat (length l).
Definition zsum {A} (f : A -> Z) (l : list A) : Z := foldr (fun x s => f x + s) 0 l.

Definition objSize (o : option Object) : Z :=
  4 + match o with Some o => 2 * Z.of_nat sizeof_Oid + cnt (o_idr o) | None => 0 end.

(** [None]: the type has no coding and the process aborts (UNKNOWN_TYPE). *)
Fixpoint getSize (a : argument) : option Z :=
  let size := 4 in
  match a with
  | AInt16 _ => Some (size + 2)
  | AInt32 _ => Some (size + 4)
  | AInt64 _ => Some (size + 8)
  | AChar _ => Some (size + 1)
  | AString s => Some (u32 (size + (4 + strlen s + 1)))
  | AFloat _ => Some (size + 8)
  | AOid _ => Some (size + Z.of_nat sizeof_Oid)
  | AObj o => Some (u32 (size + objSize o))
  | AArray l =>
    (* getSize of an ArgArray *)
    n ← (fix go l := match l with
                     | [] => Some 4
                     | x :: l => s ← getSize x; t ← go l; Some (s + t)
                     end) l;
    Some (u32 (size + n))
  | ARaw data => Some (u32 (size + (4 + cnt data)))
  | AArrInt16 l => Some (u32 (size + 4 + 2 * cnt l))
  | AArrInt32 l => Some (u32 (size + 4 + 4 * cnt l))
  | AArrInt64 l => Some (u32 (size + 4 + 8 * cnt l))
  | AArrChar l => Some (u32 (size + 4 + 1 * cnt l))
  | AArrFloat l => Some (u32 (size + 4 + 8 * cnt l))
  | AArrString l => Some (u32 (size + 4 + zsum (fun s => 4 + strlen s + 1) l))
  | AArrObj l => Some (u32 (size + 4 + zsum objSize l))
  | AArrOid l => Some (u32 (size + 4 + Z.of_nat sizeof_Oid * cnt l))
  | AVoid => Some size
  | AByte _ => None
  end.

(** [mcp(p, ...); p += ...]. *)
Definition emit (bs : list Z) (s : ptr) : option ptr :=
  d ← store (snd s) (Some <$> bs) (fst s);
  Some (d, snd s + cnt bs).

Definition code_string (s : cstr) (p : ptr) : option ptr :=
  let len := s32 (strlen s + 1) in
  p ← emit (rep_32 len) p;
  emit (bytes_of s ++ [0]) p.

Definition code_object (o : option Object) (p : ptr) : option ptr :=
  let len := match o with Some o => cnt (o_idr o) | None => 0 end in
  p ← emit (rep_32 (s32 len)) p;
  match o with
  | None => Some p
  | Some o =>
    p ← emit (rep_oid (o_oid o)) p;
    p ← emit (rep_oid (o_class o)) p;
    emit (o_idr o) p
  end.

(** CODE_SIMPLE_ARRAY: one copy of the whole array. *)
Definition CODE_SIMPLE_ARRAY {A} (rep : A -> list Z) (l : list A) (p : ptr) : option ptr :=
  p ← emit (rep_32 (s32 (cnt l))) p;
  emit (mjoin (rep <$> l)) p.

Fixpoint code_each {A} (f : A -> ptr -> option ptr) (l : list A) (p : ptr) : option ptr :=
  match l with [] => Some p | x :: l => p ← f x p; code_each f l p end.

Fixpoint code_arg (a : argument) (p : ptr) : option ptr :=
  p ← emit (rep_32 (getType a)) p;
  match a with
  | AInt16 i => emit (rep_16 i) p
  | AInt32 i => emit (rep_32 i) p
  | AInt64 i => emit (rep_64 i) p
  | AChar c => emit [c] p
  | AString s => code_string s p
  | ARaw data => p ← emit (rep_32 (s32 (cnt data))) p; emit data p
  | AFloat d => emit (rep_double d) p
  | AOid o => emit (rep_oid o) p
  | AObj o => code_object o p
  | AArray l =>
    (* code_arg of an ArgArray *)
    p ← emit (rep_32 (s32 (cnt l))) p;
    (fix go l p := match l with
                   | [] => Some p
                   | x :: l => p ← code_arg x p; go l p
                   end) l p
  | AArrInt16 l => CODE_SIMPLE_ARRAY rep_16 l p
  | AArrInt32 l => CODE_SIMPLE_ARRAY rep_32 l p
  | AArrInt64 l => CODE_SIMPLE_ARRAY rep_64 l p
  | AArrChar l => CODE_SIMPLE_ARRAY (fun c => [c]) l p
  | AArrFloat l => CODE_SIMPLE_ARRAY rep_double l p
  | AArrOid l => CODE_SIMPLE_ARRAY rep_oid l p
  | AArrString l => p ← emit (rep_32 (s32 (cnt l))) p; code_each code_string l p
  | AArrObj l => p ← emit (rep_32 (s32 (cnt l))) p; code_each code_object l p
  | AVoid => Some p
  | AByte _ => None
  end.

(** ** Decoding *)

(** The schema of the database: the class of an oid, which builds an object from
    the memory at a pointer. *)
Variable getClass : Oid -> option (Data -> option Object).

Definition fetch {A} (n : nat) (conv : list Z -> A) (p : ptr) : option (A * ptr) :=
  bs ← load (snd p) n (fst p);
  Some (conv bs, (fst p, snd p + Z.of_nat n)).

Definition decode_object (p : ptr) : option (option Object * ptr) :=
  '(len, p) ← fetch 4 val_32 p;
  if len =? 0 then Some (None, p)
  else
    '(oid, p) ← fetch sizeof_Oid val_oid p;
    '(cl_oid, p) ← fetch sizeof_Oid val_oid p;
    let p := (fst p, snd p + len) in
    match getClass cl_oid with
    | None => Some (None, p)
    | Some newObj =>
      (* the pointer has already moved past the object *)
      let o := newObj (drop (Z.to_nat (snd p + (4 + 4 + 4 + 8 + 8 + 4
                  + Z.of_nat sizeof_Oid + Z.of_nat sizeof_Oid))) (fst p)) in
      Some ((fun o => mk_Object oid (o_class o) (o_idr o)) <$> o, p)
    end.

(** strdup of the C string at the pointer, which then skips the coded length. *)
Definition decode_string (p : ptr) : option (cstr * ptr) :=
  '(len, p) ← fetch 4 val_32 p;
  s ← string_at (fst p) (snd p);
  Some (s, (fst p, snd p + len)).

Fixpoint decode_n {A} (f : ptr -> option (A * ptr)) (n : nat) (p : ptr) : option (list A * ptr) :=
  match n with
  | O => Some ([], p)
  | S n => '(x, p) ← f p; '(l, p) ← decode_n f n p; Some (x :: l, p)
  end.

(** The count, then the elements one by one; a negative count is an allocation
    that fails. *)
Definition decode_array {A} (f : ptr -> option (A * ptr)) (p : ptr) : option (list A * ptr) :=
  '(c, p) ← fetch 4 val_32 p;
  if c <? 0 then None else decode_n f (Z.to_nat c) p.

Definition map_fst {A B} (f : A -> B) (r : option (A * ptr)) : option (B * ptr) :=
  '(x, p) ← r; Some (f x, p).

(** What follows the type. [old] is the argument before the call, which a VOID
    leaves as it is; [decode] decodes an element of an array of arguments. *)
Definition decode_value (decode : ptr -> option (argument * ptr)) (old : argument)
    (type : Z) (p : ptr) : option (argument * ptr) :=
    if type =? INT16_TYPE then map_fst AInt16 (fetch 2 val_16 p)
    else if type =? INT32_TYPE then map_fst AInt32 (fetch 4 val_32 p)
    else if type =? INT64_TYPE then map_fst AInt64 (fetch 8 val_64 p)
    else if type =? CHAR_TYPE then map_fst AChar (fetch 1 (hd 0) p)
    else if type =? STRING_TYPE then map_fst AString (decode_string p)
    else if type =? FLOAT_TYPE then map_fst AFloat (fetch 8 val_double p)
    else if type =? OID_TYPE then map_fst AOid (fetch sizeof_Oid val_oid p)
    else if type =? RAW_TYPE then
      '(size, p) ← fetch 4 val_32 p;
      if size <? 0 then None else map_fst ARaw (fetch (Z.to_nat size) id p)
    else if type =? OBJ_TYPE then map_fst AObj (decode_object p)
    else if type =? Z.lor OBJ_TYPE ARRAY_TYPE then map_fst AArrObj (decode_array decode_object p)
    else if type =? Z.lor INT16_TYPE ARRAY_TYPE then map_fst AArrInt16 (decode_array (fetch 2 val_16) p)
    else if type =? Z.lor INT32_TYPE ARRAY_TYPE then map_fst AArrInt32 (decode_array (fetch 4 val_32) p)
    else if type =? Z.lor INT64_TYPE ARRAY_TYPE then map_fst AArrInt64 (decode_array (fetch 8 val_64) p)
    else if type =? Z.lor CHAR_TYPE ARRAY_TYPE then map_fst AArrChar (decode_array (fetch 1 (hd 0)) p)
    else if type =? Z.lor STRING_TYPE ARRAY_TYPE then map_fst AArrString (decode_array decode_string p)
    else if type =? Z.lor FLOAT_TYPE ARRAY_TYPE then map_fst AArrFloat (decode_array (fetch 8 val_double) p)
    else if type =? Z.lor OID_TYPE ARRAY_TYPE then map_fst AArrOid (decode_array (fetch sizeof_Oid val_oid) p)
    else if type =? ARRAY_TYPE then map_fst AArray (decode_array decode p)
    else if type =? VOID_TYPE then Some (old, p)
    else None.

(** [fuel] bounds the nesting of the arrays. *)
Fixpoint decode_arg (fuel : nat) (old : argument) (p : ptr) : option (argument * ptr) :=
  match fuel with
  | O => None
  | S fuel =>
    '(type, p) ← fetch 4 val_32 p;
    decode_value (decode_arg fuel AVoid) old type p
  end.

(** ** Exported functions *)

(** Sizes of a list of arguments, as [code_arg_array] adds them. *)
Definition getSizes (l : list argument) : option Z :=
  foldr (fun a n => s ← getSize a; t ← n; Some (s + t)) (Some 0) l.

(** The buffer allocated and filled, with its size. *)
Definition code_arg_array (argarray : list argument) : option (Data * Z) :=
  n ← getSizes argarray;
  let size := u32 (4 + n) in
  p ← emit (rep_32 (s32 (cnt argarray))) (replicate (Z.to_nat size) None, 0);
  '(d, _) ← code_each code_arg argarray p;
  Some (d, size).

(** With [allocate]: a new array of VOID arguments; the result is the array and
    the number of bytes read. *)
Definition decode_arg_array (fuel : nat) (data : Data) : option (list argument * Z) :=
  '(l, p) ← decode_array (decode_arg fuel AVoid) (data, 0);
  Some (l, snd p).

(** Appends an argument to the data of a call. *)
Definition code_argument (data : Data) (a : argument) : option Data :=
  let osize := cnt data in
  n ← getSize a;
  fst <$> code_arg a (resize (Z.to_nat (u32 (osize + n))) None data, osize).

Definition decode_argument (fuel : nat) (data : Data) (old : argument) (offset : Z) : option argument :=
  fst <$> decode_arg fuel old (data, offset).

End Coding.

(** ** Signatures *)

(** The type of the result, and the types of the arguments with their class
    names. *)
Record Signature := mk_Signature { rettype : Z; types : list (Z * cstr) }.

Section Signatures.
Context `{H : Host}.

Definition code_sign_type (t : Z * cstr) (p : ptr) : option ptr :=
  p ← emit (rep_32 (fst t)) p;
  if fst t =? OBJ_TYPE then
    let len := s32 (strlen (snd t)) in
    p ← emit (rep_32 len) p;
    emit (bytes_of (snd t)) p
  else Some p.

(** The size counts the types, not the class names: a copy past the end of the
    allocated data, as the failed assertion, is [None]. *)
Definition code_signature (sign : Signature) : option Data :=
  let size := u32 (4 * (cnt (types sign) + 2)) in
  p ← emit (rep_32 (rettype sign)) (replicate (Z.to_nat size) None, 0);
  p ← emit (rep_32 (s32 (cnt (types sign)))) p;
  p ← code_each code_sign_type (types sign) p;
  if snd p =? size then Some (fst p) else None.

(** The class name is copied in [len + 1] fresh bytes and read as a C string. *)
Definition decode_sign_type (p : ptr) : option ((Z * cstr) * ptr) :=
  '(ty, p) ← fetch 4 val_32 p;
  if ty =? OBJ_TYPE then
    '(len, p) ← fetch 4 val_32 p;
    if len <? 0 then None
    else
      '(bs, p) ← fetch (Z.to_nat len) id p;
      s ← c_string ((Some <$> bs) ++ [None]);
      Some ((ty, s), p)
  else Some ((ty, []), p).

Definition decode_signature (data : Data) : option Signature :=
  '(rt, p) ← fetch 4 val_32 (data, 0);
  '(l, p) ← decode_array decode_sign_type p;
  if snd p =? cnt data then Some (mk_Signature rt l) else None.

End Signatures.

(** ** What is written *)

Section Proofs.
Context `{HL : HostLaws}.

(** [f] writes [bs] at the pointer and moves past them. *)
Definition emits (f : ptr -> option ptr) (bs : list Z) : Prop :=
  forall d p, 0 <= p -> p + cnt bs <= cnt d ->
  f (d, p) = Some (overwrite p (Some <$> bs) d, p + cnt bs).

Lemma cnt_app {A} (l1 l2 : list A) : cnt (l1 ++ l2) = cnt l1 + cnt l2.
Proof. unfold cnt. rewrite length_app. lia. Qed.

Lemma cnt_fmap {A B} (f : A -> B) l : cnt (f <$> l) = cnt l.
Proof. unfold cnt. by rewrite length_fmap. Qed.

Lemma cnt_nonneg {A} (l : list A) : 0 <= cnt l.
Proof. unfold cnt. lia. Qed.

Lemma emits_emit bs : emits (emit bs) bs.
Proof.
  intros d p Hp Hr. unfold emit, store; cbn [fst snd]. unfold cnt in *.
  rewrite bool_decide_true by (rewrite length_fmap; lia). done.
Qed.

Lemma emits_ret : emits Some [].
Proof.
  intros d p Hp Hr. unfold overwrite; cbn. by rewrite Nat.add_0_r, take_drop, Z.add_0_r.
Qed.

Lemma emits_bind f g b1 b2 :
  emits f b1 -> emits g b2 -> emits (fun p => p ← f p; g p) (b1 ++ b2).
Proof.
  intros Hf Hg d p Hp Hr. rewrite cnt_app in Hr.
  pose proof (cnt_nonneg b2). pose proof (cnt_nonneg b1).
  rewrite Hf by lia. cbn [mbind option_bind].
  assert (Z.to_nat p + length (Some <$> b1 : list cell) <= length d)%nat
    by (rewrite length_fmap; unfold cnt in *; lia).
  rewrite Hg by (unfold cnt in *; rewrite ?overwrite_length by lia; lia).
  rewrite cnt_app, fmap_app, <- overwrite_app by lia. do 2 f_equal; [|lia].
  by rewrite length_fmap.
Qed.

Lemma emits_done f bs : emits f bs -> emits (fun p => p ← f p; Some p) bs.
Proof. intros Hf. rewrite <- (app_nil_r bs). apply emits_bind; [exact Hf|apply emits_ret]. Qed.

Lemma emits_each {A} (f : A -> ptr -> option ptr) (bytes : A -> list Z) l :
  (forall x, x ∈ l -> emits (f x) (bytes x)) -> emits (code_each f l) (mjoin (bytes <$> l)).
Proof.
  induction l as [|x l IH]; intros Hf; cbn; [apply emits_ret|].
  apply emits_bind; [apply Hf; constructor|]. apply IH. intros y Hy. apply Hf. by constructor.
Qed.

Definition count_bytes {A} (l : list A) : list Z := rep_32 (s32 (cnt l)).
Definition string_bytes (s : cstr) : list Z := rep_32 (s32 (strlen s + 1)) ++ bytes_of s ++ [0].
Definition object_bytes (o : option Object) : list Z :=
  rep_32 (s32 (match o with Some o => cnt (o_idr o) | None => 0 end))
  ++ match o with
     | Some o => rep_oid (o_oid o) ++ rep_oid (o_class o) ++ o_idr o
     | None => []
     end.

(** The coded form of an argument. *)
Fixpoint arg_bytes (a : argument) : list Z :=
  rep_32 (getType a) ++
  match a with
  | AVoid | AByte _ => []
  | AInt16 i => rep_16 i
  | AInt32 i => rep_32 i
  | AInt64 i => rep_64 i
  | AChar c => [c]
  | AString s => string_bytes s
  | AFloat d => rep_double d
  | AOid o => rep_oid o
  | AObj o => object_bytes o
  | ARaw data => count_bytes data ++ data
  | AArray l => count_bytes l ++ mjoin (arg_bytes <$> l)
  | AArrInt16 l => count_bytes l ++ mjoin (rep_16 <$> l)
  | AArrInt32 l => count_bytes l ++ mjoin (rep_32 <$> l)
  | AArrInt64 l => count_bytes l ++ mjoin (rep_64 <$> l)
  | AArrChar l => count_bytes l ++ mjoin ((fun c => [c]) <$> l)
  | AArrFloat l => count_bytes l ++ mjoin (rep_double <$> l)
  | AArrOid l => count_bytes l ++ mjoin (rep_oid <$> l)
  | AArrString l => count_bytes l ++ mjoin (string_bytes <$> l)
  | AArrObj l => count_bytes l ++ mjoin (object_bytes <$> l)
  end.

(** The arguments that have a coding. *)
Fixpoint codable (a : argument) : bool :=
  match a with AByte _ => false | AArray l => forallb codable l | _ => true end.

Lemma argument_nested_ind (P : argument -> Prop) :
  (forall l, Forall P l -> P (AArray l)) ->
  (forall a, (forall l, a <> AArray l) -> P a) ->
  forall a, P a.
Proof.
  intros HA HO. fix IH 1. intros a. destruct a; try (apply HO; congruence).
  apply HA. induction l as [|x l IHl]; constructor; [apply IH|apply IHl].
Qed.

Lemma code_string_emits s : emits (code_string s) (string_bytes s).
Proof. apply emits_bind; apply emits_emit. Qed.

Lemma code_object_emits o : emits (code_object o) (object_bytes o).
Proof.
  destruct o as [o|]; (apply emits_bind; [apply emits_emit|]); [|apply emits_ret].
  apply emits_bind; [apply emits_emit|]. apply emits_bind; apply emits_emit.
Qed.

Lemma simple_array_emits {A} (rep : A -> list Z) l :
  emits (CODE_SIMPLE_ARRAY rep l) (count_bytes l ++ mjoin (rep <$> l)).
Proof. apply emits_bind; apply emits_emit. Qed.

Lemma code_each_fix l :
  (fix go (l : list argument) (p : ptr) := match l with
     | [] => Some p
     | x :: l => p ← code_arg x p; go l p
     end) l = code_each code_arg l.
Proof. induction l as [|x l IH]; [done|]. cbn. by rewrite IH. Qed.

Lemma code_arg_emits a : codable a = true -> emits (code_arg a) (arg_bytes a).
Proof.
  induction a as [l IH|a Ha] using argument_nested_ind; intros Hc.
  - cbn [code_arg arg_bytes]. apply emits_bind; [apply emits_emit|].
    apply emits_bind; [apply emits_emit|]. rewrite code_each_fix. apply emits_each.
    cbn in Hc. rewrite forallb_forall in Hc. rewrite Forall_forall in IH.
    intros x Hx. apply IH; [done|]. apply Hc. by apply list_elem_of_In.
  - destruct a; try discriminate; cbn [code_arg arg_bytes];
      (apply emits_bind; [apply emits_emit|]);
      try apply emits_emit; try apply simple_array_emits.
    + apply emits_ret.
    + apply code_string_emits.
    + apply code_object_emits.
    + apply emits_bind; apply emits_emit.
    + by destruct (Ha l).
    + apply emits_bind; [apply emits_emit|]. apply emits_each. intros; apply code_string_emits.
    + apply emits_bind; [apply emits_emit|]. apply emits_each. intros; apply code_object_emits.
Qed.


(** ** The size announced is the size written *)

Lemma cnt_mjoin {A} (f : A -> list Z) l : cnt (mjoin (f <$> l)) = zsum (fun x => cnt (f x)) l.
Proof.
  induction l as [|x l IH]; [done|].
  change (mjoin (f <$> x :: l)) with (f x ++ mjoin (f <$> l)).
  change (zsum (fun x => cnt (f x)) (x :: l)) with (cnt (f x) + zsum (fun x => cnt (f x)) l).
  by rewrite cnt_app, IH.
Qed.

Lemma cnt_mjoin_const {A} (f : A -> list Z) k l :
  (forall x, cnt (f x) = k) -> cnt (mjoin (f <$> l)) = k * cnt l.
Proof.
  intros Hf. rewrite cnt_mjoin. induction l as [|x l IH]; [by rewrite Z.mul_0_r|].
  change (cnt (f x) + zsum (fun x => cnt (f x)) l = k * Z.of_nat (S (length l))).
  rewrite IH, Hf. unfold cnt. lia.
Qed.

Lemma cnt_mjoin_zsum {A} (f : A -> list Z) g l :
  (forall x, cnt (f x) = g x) -> cnt (mjoin (f <$> l)) = zsum g l.
Proof.
  intros Hf. rewrite cnt_mjoin. induction l as [|x l IH]; [done|].
  change (cnt (f x) + zsum (fun x => cnt (f x)) l = g x + zsum g l). by rewrite IH, Hf.
Qed.

Lemma cnt_rep_16 k : cnt (rep_16 k) = 2.
Proof. unfold cnt. by rewrite rep_16_length. Qed.
Lemma cnt_rep_32 k : cnt (rep_32 k) = 4.
Proof. unfold cnt. by rewrite rep_32_length. Qed.
Lemma cnt_rep_64 k : cnt (rep_64 k) = 8.
Proof. unfold cnt. by rewrite rep_64_length. Qed.
Lemma cnt_rep_double k : cnt (rep_double k) = 8.
Proof. unfold cnt. by rewrite rep_double_length. Qed.
Lemma cnt_rep_oid o : cnt (rep_oid o) = Z.of_nat sizeof_Oid.
Proof. unfold cnt. by rewrite rep_oid_length. Qed.

Lemma cnt_string_bytes s : cnt (string_bytes s) = 4 + strlen s + 1.
Proof.
  unfold string_bytes. rewrite cnt_app, cnt_rep_32. unfold cnt, strlen.
  rewrite bytes_of_length. lia.
Qed.

Lemma cnt_object_bytes o : cnt (object_bytes o) = objSize o.
Proof.
  unfold object_bytes, objSize. rewrite cnt_app, cnt_rep_32.
  destruct o as [o|]; [|done]. rewrite !cnt_app, !cnt_rep_oid. lia.
Qed.

Lemma cnt_count_bytes {A} (l : list A) : cnt (count_bytes l) = 4.
Proof. apply cnt_rep_32. Qed.

Lemma getSize_array l :
  getSize (AArray l) = n ← getSizes l; Some (u32 (4 + (4 + n))).
Proof.
  cbn [getSize]. unfold getSizes.
  match goal with |- mbind _ (?f l) = _ =>
    assert (f l = (n ← foldr (fun a n => s ← getSize a; t ← n; Some (s + t)) (Some 0) l;
                   Some (4 + n))) as -> end.
  { induction l as [|x l IH]; [done|]. cbn -[Z.add]. rewrite IH.
    destruct (getSize x); cbn; [|done]. destruct (foldr _ _ l); cbn; [|done]. f_equal; lia. }
  by destruct (foldr _ _ l).
Qed.

Lemma getSizes_sum l :
  Forall (fun a => getSize a = Some (cnt (arg_bytes a))) l ->
  getSizes l = Some (cnt (mjoin (arg_bytes <$> l))).
Proof.
  rewrite cnt_mjoin. induction 1 as [|a l Ha _ IH]; [done|].
  unfold getSizes in *. cbn -[Z.add]. by rewrite Ha, IH.
Qed.

Lemma objSize_nonneg o : 0 <= objSize o.
Proof. rewrite <- cnt_object_bytes. apply cnt_nonneg. Qed.

Lemma zsum_nonneg {A} (f : A -> Z) l : (forall x, 0 <= f x) -> 0 <= zsum f l.
Proof.
  intros Hf. induction l as [|x l IH]; [done|]. change (0 <= f x + zsum f l).
  specialize (Hf x). lia.
Qed.

Ltac size_close l := pose proof (cnt_nonneg l); rewrite u32_id by nia; f_equal; lia.

Lemma getSize_spec a :
  codable a = true -> cnt (arg_bytes a) < 2 ^ 31 -> getSize a = Some (cnt (arg_bytes a)).
Proof.
  induction a as [l IH|a Ha] using argument_nested_ind; intros Hc.
  - cbn [arg_bytes]. rewrite !cnt_app, cnt_rep_32, cnt_count_bytes. intros Hb.
    rewrite getSize_array, getSizes_sum; cbn [mbind option_bind].
    { rewrite u32_id; [f_equal; lia|]. pose proof (cnt_nonneg (mjoin (arg_bytes <$> l))). lia. }
    cbn in Hc. rewrite forallb_forall in Hc. rewrite Forall_forall in IH |- *.
    intros x Hx. apply IH; [done|apply Hc; by apply list_elem_of_In|].
    apply list_elem_of_split in Hx as (l1 & l2 & ->).
    rewrite fmap_app, fmap_cons, join_app, cnt_app in Hb. cbn [mjoin list_join] in Hb.
    rewrite cnt_app in Hb. 
    pose proof (cnt_nonneg (mjoin (arg_bytes <$> l1))). pose proof (cnt_nonneg (mjoin (arg_bytes <$> l2))).
    unfold mjoin in *. lia.
  - destruct a; try discriminate; cbn [getSize arg_bytes];
      rewrite cnt_app, cnt_rep_32; rewrite ?cnt_app, ?cnt_count_bytes;
      rewrite ?cnt_rep_16, ?cnt_rep_32, ?cnt_rep_64, ?cnt_rep_double, ?cnt_rep_oid,
        ?cnt_string_bytes, ?cnt_object_bytes; intros Hb; try done.
    + (* string *)
      assert (0 <= strlen s) by (unfold strlen; lia). rewrite u32_id by lia. f_equal; lia.
    + (* object *)
      pose proof (objSize_nonneg o). rewrite u32_id by lia. done.
    + pose proof (cnt_nonneg data). rewrite u32_id by lia. done.
    + by destruct (Ha l).
    + rewrite (cnt_mjoin_const rep_16 2) in * by apply cnt_rep_16. size_close l.
    + rewrite (cnt_mjoin_const rep_32 4) in * by apply cnt_rep_32. size_close l.
    + rewrite (cnt_mjoin_const rep_64 8) in * by apply cnt_rep_64. size_close l.
    + rewrite (cnt_mjoin_const (fun c => [c]) 1) in * by done. size_close l.
    + rewrite (cnt_mjoin_const rep_double 8) in * by apply cnt_rep_double. size_close l.
    + rewrite (cnt_mjoin_const rep_oid (Z.of_nat sizeof_Oid)) in * by apply cnt_rep_oid.
      size_close l.
    + rewrite (cnt_mjoin_zsum string_bytes _ l cnt_string_bytes) in *.
      pose proof (zsum_nonneg (fun s => 4 + strlen s + 1) l ltac:(unfold strlen; lia)). size_close l.
    + rewrite (cnt_mjoin_zsum object_bytes _ l cnt_object_bytes) in *.
      pose proof (zsum_nonneg objSize l objSize_nonneg). size_close l.
Qed.



(** ** What is read back *)

(** [f] reads [bs], wherever they are, as [x], and moves past them. *)
Definition reads {A} (f : ptr -> option (A * ptr)) (bs : list Z) (x : A) : Prop :=
  forall pre rest : Data,
  f (pre ++ (Some <$> bs) ++ rest, cnt pre)
  = Some (x, (pre ++ (Some <$> bs) ++ rest, cnt pre + cnt bs)).

Lemma reads_fetch {A} n (conv : list Z -> A) bs x :
  length bs = n -> conv bs = x -> reads (fetch n conv) bs x.
Proof.
  intros <- <- pre rest. unfold fetch, cnt; cbn [fst snd].
  by rewrite load_app.
Qed.

Lemma reads_bind {A B} (f : ptr -> option (A * ptr)) (g : A -> ptr -> option (B * ptr)) b1 x b2 y :
  reads f b1 x -> reads (g x) b2 y -> reads (fun p => '(x, p) ← f p; g x p) (b1 ++ b2) y.
Proof.
  intros Hf Hg pre rest. rewrite fmap_app, <- (assoc_L (++)), Hf. cbn [mbind option_bind].
  rewrite (assoc_L (++) pre).
  replace (cnt pre + cnt b1) with (cnt (pre ++ (Some <$> b1))) by (by rewrite cnt_app, cnt_fmap).
  rewrite Hg, !cnt_app, cnt_fmap. do 3 f_equal. lia.
Qed.

Lemma reads_map {A B} (h : A -> B) f bs x : reads f bs x -> reads (fun p => map_fst h (f p)) bs (h x).
Proof. intros Hf pre rest. unfold map_fst. by rewrite Hf. Qed.

Lemma reads_ret {A} (x : A) : reads (fun p => Some (x, p)) [] x.
Proof. intros pre rest. do 3 f_equal. by rewrite Z.add_0_r. Qed.

Lemma reads_bind_ret {A B} (f : ptr -> option (A * ptr)) (g : A -> ptr -> option (B * ptr)) bs x y :
  reads f bs x -> (forall p, g x p = Some (y, p)) -> reads (fun p => '(x, p) ← f p; g x p) bs y.
Proof.
  intros Hf Hg. rewrite <- (app_nil_r bs). apply reads_bind with (x := x); [exact Hf|].
  intros pre rest. rewrite Hg. apply reads_ret.
Qed.

Lemma reads_n {A} (f : ptr -> option (A * ptr)) (bytes : A -> list Z) l :
  Forall (fun x => reads f (bytes x) x) l ->
  reads (decode_n f (length l)) (mjoin (bytes <$> l)) l.
Proof.
  induction 1 as [|x l Hx _ IH]; [apply reads_ret|].
  change (mjoin (bytes <$> x :: l)) with (bytes x ++ mjoin (bytes <$> l)). cbn [decode_n length].
  rewrite <- (app_nil_r (mjoin _)).
  apply reads_bind with (x := x); [exact Hx|]. apply reads_bind with (x := l); [exact IH|].
  apply reads_ret.
Qed.

Lemma reads_array {A} (f : ptr -> option (A * ptr)) (bytes : A -> list Z) l :
  cnt l < 2 ^ 31 -> Forall (fun x => reads f (bytes x) x) l ->
  reads (decode_array f) (count_bytes l ++ mjoin (bytes <$> l)) l.
Proof.
  intros Hl Hf. unfold decode_array, count_bytes. pose proof (cnt_nonneg l).
  rewrite s32_id by lia.
  apply (reads_bind _ (fun c p => if c <? 0 then None else decode_n f (Z.to_nat c) p)) with (x := cnt l).
  - apply reads_fetch; [apply rep_32_length|]. apply val_rep_32. unfold in_s. lia.
  - destruct (Z.ltb_spec (cnt l) 0); [lia|]. unfold cnt. rewrite Nat2Z.id. by apply reads_n.
Qed.

Lemma reads_string s :
  no_nul s -> strlen s + 1 < 2 ^ 31 -> reads decode_string (string_bytes s) s.
Proof.
  intros Hs Hl. unfold decode_string, string_bytes. assert (0 <= strlen s) by (unfold strlen; lia).
  rewrite s32_id by lia.
  apply (reads_bind _ (fun len p => s ← string_at (fst p) (snd p); Some (s, (fst p, snd p + len))))
    with (x := strlen s + 1).
  - apply reads_fetch; [apply rep_32_length|]. apply val_rep_32. unfold in_s. lia.
  - intros pre rest. cbn [fst snd]. unfold cnt at 1. rewrite string_at_app by done.
    cbn. do 3 f_equal. unfold cnt. rewrite bytes_of_length. unfold strlen. lia.
Qed.

Context (getClass : Oid -> option (Data -> option Object)).

Lemma reads_null : reads (decode_object getClass) (object_bytes None) None.
Proof.
  unfold decode_object, object_bytes.
  apply (reads_bind _ (fun len p => if len =? 0 then Some (None, p) else _)) with (x := 0);
    [|apply reads_ret].
  apply reads_fetch; [apply rep_32_length|]. by apply val_rep_32.
Qed.

(** The values the types hold; no object but the null pointer. *)
Fixpoint arg_ok (a : argument) : Prop :=
  match a with
  | AVoid => True
  | AByte _ => False
  | AInt16 i => in_s 16 i
  | AInt32 i => in_s 32 i
  | AInt64 i => in_s 64 i
  | AChar _ | AOid _ => True
  | AString s => no_nul s /\ strlen s + 1 < 2 ^ 31
  | AFloat d => 0 <= d < 2 ^ 64
  | AObj o => o = None
  | ARaw data => cnt data < 2 ^ 31
  | AArray l => cnt l < 2 ^ 31 /\ foldr (fun a P => arg_ok a /\ P) True l
  | AArrInt16 l => cnt l < 2 ^ 31 /\ Forall (in_s 16) l
  | AArrInt32 l => cnt l < 2 ^ 31 /\ Forall (in_s 32) l
  | AArrInt64 l => cnt l < 2 ^ 31 /\ Forall (in_s 64) l
  | AArrChar l => cnt l < 2 ^ 31
  | AArrFloat l => cnt l < 2 ^ 31 /\ Forall (fun d => 0 <= d < 2 ^ 64) l
  | AArrOid l => cnt l < 2 ^ 31
  | AArrString l => cnt l < 2 ^ 31 /\ Forall (fun s => no_nul s /\ strlen s + 1 < 2 ^ 31) l
  | AArrObj l => cnt l < 2 ^ 31 /\ Forall (fun o => o = None) l
  end.

(** The nesting of arrays: the fuel that is enough. *)
Fixpoint depth (a : argument) : nat :=
  match a with AArray l => S (list_max (depth <$> l)) | _ => 1 end.

Lemma getType_range a : in_s 32 (getType a).
Proof. destruct a; vm_compute; split; congruence. Qed.

(** Decide the tests on the type. *)
Ltac decide_type :=
  repeat match goal with
  | |- context [Z.eqb ?x ?y] =>
    let v := eval vm_compute in (Z.eqb x y) in
    match v with true => idtac | false => idtac end;
    change (Z.eqb x y) with v; cbv iota
  end.

Lemma reads_type fuel old a bs b :
  reads (decode_value getClass (decode_arg getClass fuel AVoid) old (getType a)) bs b ->
  reads (decode_arg getClass (S fuel) old) (rep_32 (getType a) ++ bs) b.
Proof.
  intros Hb. cbn [decode_arg]. apply reads_bind with (x := getType a); [|exact Hb].
  apply reads_fetch; [apply rep_32_length|]. apply val_rep_32, getType_range.
Qed.

Lemma Forall_reads {A} (f : ptr -> option (A * ptr)) bytes (P : A -> Prop) l :
  (forall x, P x -> reads f (bytes x) x) -> Forall P l -> Forall (fun x => reads f (bytes x) x) l.
Proof. intros Hf. induction 1; constructor; auto. Qed.

Lemma Forall_True {A} (P : A -> Prop) l : (forall x, P x) -> Forall P l.
Proof. intros HP. by apply Forall_forall. Qed.

Lemma reads_array_of {A B} (h : list A -> B) f bytes (P : A -> Prop) l :
  (forall x, P x -> reads f (bytes x) x) -> cnt l < 2 ^ 31 -> Forall P l ->
  reads (fun p => map_fst h (decode_array f p)) (count_bytes l ++ mjoin (bytes <$> l)) (h l).
Proof. intros. by apply reads_map, reads_array, (Forall_reads _ _ P). Qed.

Ltac reads_scalar len := apply reads_map, reads_fetch; [apply len|auto].

Lemma decode_arg_reads a fuel old :
  (depth a <= fuel)%nat -> arg_ok a -> (a = AVoid -> old = AVoid) ->
  reads (decode_arg getClass fuel old) (arg_bytes a) a.
Proof.
  revert fuel old. induction a as [l IH|a Ha] using argument_nested_ind; intros fuel old Hf Hok Hold.
  - destruct fuel as [|fuel]; [cbn in Hf; lia|]. cbn [arg_bytes]. destruct Hok as [Hl Hall].
    apply reads_type with (a := AArray l). unfold decode_value. decide_type.
    apply reads_map, reads_array; [done|].
    cbn [depth] in Hf. revert Hf Hall. clear Hl Hold. induction IH as [|x l Hx _ IHl]; intros Hf Hall; [constructor|].
    destruct Hall as [Hox Hall]. cbn [fmap list_fmap list_max foldr] in Hf. constructor.
    + apply Hx; [unfold list_max in Hf; cbn in Hf; lia|done|done].
    + apply IHl; [unfold list_max in *; cbn in Hf; lia|done].
  - destruct fuel as [|fuel]; [destruct a; cbn in Hf; lia|].
    destruct a; cbn [arg_bytes arg_ok] in *; try contradiction;
      (lazymatch goal with
       | |- reads _ _ ?x => apply reads_type with (a := x)
       end); unfold decode_value; decide_type.
    + rewrite Hold by done. apply reads_ret.
    + reads_scalar rep_16_length.
      by apply val_rep_16.
    + reads_scalar rep_32_length. by apply val_rep_32.
    + reads_scalar rep_64_length. by apply val_rep_64.
    + by apply reads_map, reads_fetch.
    + destruct Hok. by apply reads_map, reads_string.
    + reads_scalar rep_double_length. by apply val_rep_double.
    + reads_scalar rep_oid_length. apply val_rep_oid.
    + subst o. apply reads_map, reads_null.
    + pose proof (cnt_nonneg data). unfold count_bytes. rewrite s32_id by lia.
      apply (reads_bind _ (fun size p =>
        if size <? 0 then None else map_fst ARaw (fetch (Z.to_nat size) id p))) with (x := cnt data).
      * apply reads_fetch; [apply rep_32_length|]. apply val_rep_32. unfold in_s. lia.
      * destruct (Z.ltb_spec (cnt data) 0); [lia|].
        apply reads_map, reads_fetch; [|done]. unfold cnt. lia.
    + by destruct (Ha l).
    + destruct Hok. apply (reads_array_of _ _ _ (in_s 16)); auto.
      intros. apply reads_fetch; auto using rep_16_length, val_rep_16.
    + destruct Hok. apply (reads_array_of _ _ _ (in_s 32)); auto.
      intros. apply reads_fetch; auto using rep_32_length, val_rep_32.
    + destruct Hok. apply (reads_array_of _ _ _ (in_s 64)); auto.
      intros. apply reads_fetch; auto using rep_64_length, val_rep_64.
    + apply (reads_array_of _ _ _ (fun _ => True)); auto using Forall_True.
      intros. by apply reads_fetch.
    + destruct Hok. apply (reads_array_of _ _ _ (fun d => 0 <= d < 2 ^ 64)); auto.
      intros. apply reads_fetch; auto using rep_double_length, val_rep_double.
    + apply (reads_array_of _ _ _ (fun _ => True)); auto using Forall_True.
      intros. apply reads_fetch; auto using rep_oid_length, val_rep_oid.
    + destruct Hok. apply (reads_array_of _ _ _ (fun s => no_nul s /\ strlen s + 1 < 2 ^ 31)); auto.
      intros s [? ?]. by apply reads_string.
    + destruct Hok. apply (reads_array_of _ _ _ (fun o => o = None)); auto.
      intros o ->. apply reads_null.
Qed.

(** ** Whole buffers *)

Definition array_bytes (l : list argument) : list Z := count_bytes l ++ mjoin (arg_bytes <$> l).

Lemma arg_ok_codable a : arg_ok a -> codable a = true.
Proof.
  induction a as [l IH|a Ha] using argument_nested_ind; intros Hok.
  - destruct Hok as [_ Hall]. cbn [codable]. induction IH as [|x l Hx _ IHl]; [done|].
    destruct Hall as [Hox Hall]. cbn [forallb]. rewrite Hx, IHl by done. done.
  - destruct a; try done. by destruct (Ha l).
Qed.

Lemma mjoin_elem_le (l : list argument) a :
  a ∈ l -> cnt (arg_bytes a) <= cnt (mjoin (arg_bytes <$> l)).
Proof.
  intros (l1 & l2 & ->)%list_elem_of_split.
  rewrite !cnt_mjoin. unfold zsum. rewrite foldr_app. cbn [foldr].
  assert (forall (l : list argument) s, 0 <= s -> s <= foldr (fun x s => cnt (arg_bytes x) + s) s l) as Hs.
  { intros l s Hs. induction l as [|x l IH]; cbn [foldr]; [lia|].
    pose proof (cnt_nonneg (arg_bytes x)). lia. }
  pose proof (Hs l2 0 ltac:(lia)). pose proof (cnt_nonneg (arg_bytes a)).
  etrans; [|apply Hs; lia]. lia.
Qed.

Lemma getSizes_spec l :
  Forall (fun a => codable a = true) l -> cnt (mjoin (arg_bytes <$> l)) < 2 ^ 31 ->
  getSizes l = Some (cnt (mjoin (arg_bytes <$> l))).
Proof.
  intros Hc Hb. apply getSizes_sum. rewrite Forall_forall in Hc |- *. intros a Ha.
  apply getSize_spec; [by apply Hc|]. pose proof (mjoin_elem_le l a Ha). lia.
Qed.

Lemma code_args_emits l :
  Forall (fun a => codable a = true) l -> emits (code_each code_arg l) (mjoin (arg_bytes <$> l)).
Proof.
  intros Hc. rewrite Forall_forall in Hc. apply emits_each. intros a Ha.
  by apply code_arg_emits, Hc.
Qed.

Lemma overwrite_all bs (d : Data) :
  length bs = length d -> overwrite 0 (Some <$> bs) d = Some <$> bs.
Proof.
  intros Hl. unfold overwrite. change (Z.to_nat 0) with 0%nat. cbn [take app Nat.add].
  rewrite take_0, drop_ge by (rewrite length_fmap; lia). cbn [app]. apply app_nil_r.
Qed.

Lemma cnt_le_bytes l : cnt l <= zsum (fun a => cnt (arg_bytes a)) l.
Proof.
  induction l as [|a l IH]; [done|].
  change (zsum _ (a :: l)) with (cnt (arg_bytes a) + zsum (fun a => cnt (arg_bytes a)) l).
  change (cnt (a :: l)) with (Z.of_nat (S (length l))). unfold cnt at 1 in IH.
  assert (4 <= cnt (arg_bytes a)); [|lia].
  destruct a; cbn [arg_bytes]; rewrite cnt_app, cnt_rep_32;
    match goal with |- _ <= 4 + cnt ?x => pose proof (cnt_nonneg x) end; lia.
Qed.

Lemma code_arg_array_spec l :
  Forall (fun a => codable a = true) l -> cnt (array_bytes l) < 2 ^ 31 ->
  code_arg_array l = Some (Some <$> array_bytes l, cnt (array_bytes l)).
Proof.
  intros Hc Hb. unfold array_bytes in *. rewrite cnt_app, cnt_count_bytes in Hb.
  pose proof (cnt_nonneg (mjoin (arg_bytes <$> l))) as Hn.
  unfold code_arg_array. rewrite getSizes_spec by (done || lia). cbn [mbind option_bind].
  rewrite u32_id by lia. rewrite cnt_app, cnt_count_bytes.
  set (d := replicate _ None).
  assert (cnt d = 4 + cnt (mjoin (arg_bytes <$> l))) as Hd
    by (subst d; unfold cnt at 1; rewrite length_replicate; lia).
  pose proof (emits_bind _ _ _ _ (emits_emit (count_bytes l)) (code_args_emits l Hc) d 0) as E.
  cbv beta in E. change (rep_32 (s32 (cnt l))) with (count_bytes l).
  rewrite cnt_app, cnt_count_bytes in E. specialize (E ltac:(lia) ltac:(lia)).
  destruct (emit _ (d, 0)) as [p1|]; [|discriminate]. cbn [mbind option_bind] in *.
  rewrite E. cbn [mbind option_bind]. rewrite overwrite_all; [done|].
  apply Nat2Z.inj. change (cnt (count_bytes l ++ mjoin (arg_bytes <$> l)) = cnt d).
  by rewrite cnt_app, cnt_count_bytes, Hd.
Qed.

Lemma decode_args_reads fuel l :
  cnt l < 2 ^ 31 -> Forall (fun a => arg_ok a /\ (depth a <= fuel)%nat) l ->
  reads (decode_array (decode_arg getClass fuel AVoid)) (array_bytes l) l.
Proof.
  intros Hl Hf. apply reads_array; [done|].
  eapply Forall_impl; [exact Hf|]. intros a [Ha Hd]. by apply decode_arg_reads.
Qed.

End Proofs.

(** ** Signatures *)

Section SignatureProofs.
Context `{HL : HostLaws}.

Definition sign_ok (s : Signature) : Prop :=
  in_s 32 (rettype s) /\ cnt (types s) < 2 ^ 28 /\ Forall (fun t => in_s 32 (fst t)) (types s).

Definition has_obj (s : Signature) : bool := existsb (fun t => fst t =? OBJ_TYPE) (types s).

Definition sign_type_size (t : Z * cstr) : Z :=
  if fst t =? OBJ_TYPE then 8 + strlen (snd t) else 4.

Lemma emit_end bs p p' : emit bs p = Some p' -> snd p' = snd p + cnt bs.
Proof. unfold emit. destruct (store _ _ _); cbn; [|done]. by intros [= <-]. Qed.

Lemma code_sign_type_end t p p' :
  code_sign_type t p = Some p' -> snd p' = snd p + sign_type_size t.
Proof.
  unfold code_sign_type, sign_type_size.
  destruct (emit _ p) as [p1|] eqn:E1; cbn [mbind option_bind]; [|done].
  apply emit_end in E1. rewrite cnt_rep_32 in E1.
  destruct (fst t =? OBJ_TYPE); [|intros [= <-]; lia].
  destruct (emit _ p1) as [p2|] eqn:E2; cbn [mbind option_bind]; [|done].
  apply emit_end in E2. rewrite cnt_rep_32 in E2. intros E3%emit_end.
  unfold bytes_of in E3. rewrite cnt_fmap in E3. unfold strlen, cnt in *. lia.
Qed.

Lemma code_sign_types_end l p p' :
  code_each code_sign_type l p = Some p' -> snd p' = snd p + zsum sign_type_size l.
Proof.
  revert p; induction l as [|t l IH]; intros p; [cbn; intros [= <-]; lia|]. cbn [code_each].
  destruct (code_sign_type t p) as [p1|] eqn:E; cbn [mbind option_bind]; [|done].
  apply code_sign_type_end in E. intros E'%IH.
  change (zsum sign_type_size (t :: l)) with (sign_type_size t + zsum sign_type_size l). lia.
Qed.

Lemma sign_sizes l :
  4 * cnt l <= zsum sign_type_size l
  /\ (existsb (fun t => fst t =? OBJ_TYPE) l = true -> 4 * cnt l < zsum sign_type_size l).
Proof.
  induction l as [|t l [IH1 IH2]]; [done|].
  change (zsum sign_type_size (t :: l)) with (sign_type_size t + zsum sign_type_size l).
  change (cnt (t :: l)) with (Z.of_nat (S (length l))). cbn [existsb].
  unfold cnt, sign_type_size, strlen in *.
  destruct (fst t =? OBJ_TYPE); cbn [orb]; split; try lia; intros; specialize (IH2 ltac:(done)); lia.
Qed.

Lemma code_signature_obj s : sign_ok s -> has_obj s = true -> code_signature s = None.
Proof.
  intros (_ & Hc & _) Ho. unfold code_signature. pose proof (cnt_nonneg (types s)).
  rewrite u32_id by lia.
  destruct (emit _ (replicate _ _, 0)) as [p1|] eqn:E1; cbn [mbind option_bind]; [|done].
  apply emit_end in E1. rewrite cnt_rep_32 in E1. cbn [snd] in E1.
  destruct (emit _ p1) as [p2|] eqn:E2; cbn [mbind option_bind]; [|done].
  apply emit_end in E2. rewrite cnt_rep_32 in E2.
  destruct (code_each _ _ p2) as [p3|] eqn:E3; cbn [mbind option_bind]; [|done].
  apply code_sign_types_end in E3. pose proof (proj2 (sign_sizes (types s)) Ho).
  destruct (Z.eqb_spec (snd p3) (4 * (cnt (types s) + 2))); [lia|done].
Qed.

Definition sign_bytes (s : Signature) : list Z :=
  rep_32 (rettype s) ++ count_bytes (types s) ++ mjoin ((fun t => rep_32 (fst t)) <$> types s).

Lemma no_obj s : has_obj s = false -> Forall (fun t => (fst t =? OBJ_TYPE) = false) (types s).
Proof.
  unfold has_obj. induction (types s) as [|t l IH]; [constructor|]. cbn [existsb].
  intros [? ?]%orb_false_iff. constructor; auto.
Qed.

Lemma code_signature_basic s :
  sign_ok s -> has_obj s = false -> code_signature s = Some (Some <$> sign_bytes s).
Proof.
  intros (_ & Hc & _) Ho. unfold code_signature. pose proof (cnt_nonneg (types s)).
  rewrite u32_id by lia. set (d := replicate _ None).
  assert (cnt (sign_bytes s) = 4 * (cnt (types s) + 2)) as Hb.
  { unfold sign_bytes. rewrite !cnt_app, cnt_rep_32, cnt_count_bytes.
    rewrite (cnt_mjoin_const _ 4) by (intros; apply cnt_rep_32). lia. }
  assert (emits (code_each code_sign_type (types s)) (mjoin ((fun t => rep_32 (fst t)) <$> types s))) as Ht.
  { apply emits_each. intros t Ht. pose proof (no_obj s Ho) as Hf. rewrite Forall_forall in Hf.
    unfold code_sign_type. rewrite (Hf t Ht). apply emits_done, emits_emit. }
  pose proof (emits_bind _ _ _ _ (emits_emit (rep_32 (rettype s)))
    (emits_bind _ _ _ _ (emits_emit (count_bytes (types s))) Ht) d 0 ltac:(lia)) as E.
  fold (sign_bytes s) in E. cbv beta in E.
  assert (cnt d = cnt (sign_bytes s)) as Hd
    by (subst d; unfold cnt at 1; rewrite length_replicate; lia).
  specialize (E ltac:(lia)). unfold count_bytes at 1 in E.
  destruct (emit _ (d, 0)) as [p1|]; [|discriminate]; cbn [mbind option_bind] in *.
  destruct (emit _ p1) as [p2|]; [|discriminate]; cbn [mbind option_bind] in *.
  rewrite E. cbn [mbind option_bind fst snd]. rewrite Hb, Z.add_0_l, Z.eqb_refl.
  rewrite overwrite_all; [done|]. apply Nat2Z.inj. symmetry. exact Hd.
Qed.

Lemma decode_sign_type_reads (t : Z * cstr) :
  in_s 32 (fst t) -> (fst t =? OBJ_TYPE) = false ->
  reads decode_sign_type (rep_32 (fst t)) (fst t, []).
Proof.
  intros Ht Ho. unfold decode_sign_type.
  apply (reads_bind_ret _ (fun ty p => if ty =? OBJ_TYPE then _ else Some ((ty, []), p))) with (x := fst t).
  - apply reads_fetch; [apply rep_32_length|by apply val_rep_32].
  - intros p. by rewrite Ho.
Qed.

Lemma decode_signature_basic s :
  sign_ok s -> has_obj s = false -> Forall (fun t => snd t = []) (types s) ->
  decode_signature (Some <$> sign_bytes s) = Some s.
Proof.
  intros (Hr & Hc & Hf) Ho Hs. unfold decode_signature. pose proof (no_obj s Ho) as Hno.
  pose proof (cnt_nonneg (types s)).
  assert (reads (fun p => '(rt, p) ← fetch 4 val_32 p;
                          '(l, p) ← decode_array decode_sign_type p; Some (mk_Signature rt l, p))
    (sign_bytes s) s) as E.
  { unfold sign_bytes. destruct s as [rt l]; cbn [rettype types] in *.
    apply reads_bind with (x := rt).
    { apply reads_fetch; [apply rep_32_length|by apply val_rep_32]. }
    apply (reads_bind_ret (decode_array decode_sign_type) (fun l p => Some (mk_Signature rt l, p)))
      with (x := l); [|done].
    apply (reads_array _ (fun t : Z * cstr => rep_32 (fst t))); [lia|].
    rewrite Forall_forall in Hf, Hno, Hs |- *. intros [ty nm] Hin.
    specialize (Hs _ Hin). cbn in Hs. subst nm.
    apply (decode_sign_type_reads (ty, [])); [by apply (Hf (ty, []))|by apply (Hno (ty, []))]. }
  specialize (E [] []). rewrite app_nil_r in E. cbn [app] in E. change (cnt []) with 0 in E.
  destruct (fetch 4 val_32 _) as [[rt p1]|]; [|discriminate]; cbn [mbind option_bind] in *.
  destruct (decode_array _ p1) as [[l p2]|]; [|discriminate]; cbn [mbind option_bind] in *.
  injection E as E1 E2. rewrite E2. cbn [snd]. rewrite cnt_fmap, Z.add_0_l, Z.eqb_refl. by rewrite E1.
Qed.

End SignatureProofs.

(** ** A concrete host: little-endian, 8-byte oids *)

Module LittleEndian.
Import Codec.BigEndian.

#[export] Instance little_endian : Host := {|
  Oid := oid8; sizeof_Oid := 8;
  rep_16 := le_bytes 2; val_16 l := s16 (le_val l);
  rep_32 := le_bytes 4; val_32 l := s32 (le_val l);
  rep_64 := le_bytes 8; val_64 l := s64 (le_val l);
  rep_double := le_bytes 8; val_double := le_val;
  rep_oid := h2x_oid (Xdr := big_endian);
  val_oid := x2h_oid (Xdr := big_endian);
|}.

#[export] Instance little_endian_laws : HostLaws little_endian.
Proof.
  split.
  1-4: intros; apply le_bytes_length.
  all: cbn -[le_bytes le_val h2x_oid x2h_oid].
  - exact (@h2x_oid_length big_endian _).
  - intros k Hk. rewrite le_val_bytes. by apply wrap_s_u.
  - intros k Hk. rewrite le_val_bytes. by apply wrap_s_u.
  - intros k Hk. rewrite le_val_bytes. by apply wrap_s_u.
  - intros k Hk. rewrite le_val_bytes. by apply Z.mod_small.
  - exact (@x2h_h2x_oid big_endian _).
Qed.

End LittleEndian.

(** A host that has the byte order of the exchange format. *)
Module BigEndianHost.
Import Codec.BigEndian.

#[export] Instance big_endian_host : Host := {|
  Oid := oid8; sizeof_Oid := 8;
  rep_16 := h2x_16; val_16 := x2h_16; rep_32 := h2x_32; val_32 := x2h_32; rep_64 := h2x_64; val_64 := x2h_64;
  rep_double := h2x_64; val_double := x2h_f64; rep_oid := h2x_oid; val_oid := x2h_oid;
|}.
#[export] Instance big_endian_host_laws : HostLaws big_endian_host.
Proof. split; apply big_endian_laws. Qed.

End BigEndianHost.
Import (hints) LittleEndian.

(** ** Properties *)

(** [code_arg_array] allocates exactly what it writes: for any arguments
    that have a coding (objects included), up to 2 GB, no copy leaves the buffer,
    no byte of it stays unwritten, and the size announced is the size of the
    count and of the arguments. *)
Theorem arguments_fill_buffer `{HostLaws} l :
  Forall (fun a => codable a = true) l -> cnt (array_bytes l) < 2 ^ 31 ->
  exists bytes, code_arg_array l = Some (Some <$> bytes, cnt bytes)
    /\ cnt bytes = 4 + zsum (fun a => default 0 (getSize a)) l.
Proof.
  intros Hc Hb. exists (array_bytes l). split; [by apply code_arg_array_spec|].
  unfold array_bytes in *. rewrite cnt_app, cnt_count_bytes in *.
  f_equal. assert (cnt (mjoin (arg_bytes <$> l)) < 2 ^ 31) as Hb' by lia.
  assert (Forall (fun a => getSize a = Some (cnt (arg_bytes a))) l) as Hg.
  { rewrite Forall_forall in Hc |- *. intros a Ha. apply getSize_spec; [by apply Hc|].
    pose proof (mjoin_elem_le l a Ha). lia. }
  clear Hb Hb' Hc. rewrite cnt_mjoin. induction Hg as [|a l Ha _ IH]; [done|].
  unfold zsum in *. cbn [foldr]. by rewrite IH, Ha.
Qed.

Definition object_c : Object (H := LittleEndian.little_endian) :=
  mk_Object (H := LittleEndian.little_endian) BigEndian.oid_a BigEndian.oid_b [1; 2; 3].

Lemma arguments_fill_buffer_witness :
  exists bytes, code_arg_array [AInt16 (-5); AString (cs "hello"); AObj (Some object_c)]
                = Some (Some <$> bytes, cnt bytes) /\ cnt bytes = 4 + 47.
Proof.
  exact (arguments_fill_buffer [AInt16 (-5); AString (cs "hello"); AObj (Some object_c)]
    (ltac:(repeat constructor)) (ltac:(by vm_compute))).
Defined.

(** C38: decoding the buffer of [code_arg_array] gives the arguments back, reads
    it to the end and nothing after it, for every nesting of arrays and every type but
    bytes, which are not coded, and objects that are not null, whose bytes decode_arg
    reads after their end ([Example.decode_object_past]); the fuel needed is the
    nesting. *)
Theorem arguments_roundtrip `{HostLaws} getClass l fuel rest :
  Forall (fun a => arg_ok a /\ (depth a <= fuel)%nat) l -> cnt (array_bytes l) < 2 ^ 31 ->
  exists data size, code_arg_array l = Some (data, size)
    /\ decode_arg_array getClass fuel (data ++ rest) = Some (l, size).
Proof.
  intros Hl Hb.
  assert (Forall (fun a => codable a = true) l) as Hc
    by (eapply Forall_impl; [exact Hl|]; intros a [Ha _]; by apply arg_ok_codable).
  exists (Some <$> array_bytes l), (cnt (array_bytes l)).
  split; [by apply code_arg_array_spec|]. unfold decode_arg_array.
  assert (cnt l < 2 ^ 31) as Hn.
  { unfold array_bytes in Hb. rewrite cnt_app, cnt_count_bytes, cnt_mjoin in Hb.
    pose proof (cnt_le_bytes l). lia. }
  pose proof (decode_args_reads getClass fuel l Hn Hl [] rest) as E.
  change (cnt []) with 0 in E. cbn [app] in E. rewrite E. cbn [mbind option_bind snd].
  by rewrite Z.add_0_l.
Qed.

Definition no_class (_ : Oid (Host := LittleEndian.little_endian)) : option (Data -> option (Object (H := LittleEndian.little_endian))) := None.

Lemma arguments_roundtrip_witness :
  exists data size,
    code_arg_array [AInt64 7; AArray [AChar 3; AArray [AVoid]]; AArrInt16 [1; 2]] = Some (data, size)
    /\ decode_arg_array no_class 3 (data ++ [])
       = Some ([AInt64 7; AArray [AChar 3; AArray [AVoid]]; AArrInt16 [1; 2]], size).
Proof.
  apply (arguments_roundtrip no_class); [|by vm_compute].
  repeat apply List.Forall_cons; try apply List.Forall_nil; (split; [|cbn; lia]); cbn [arg_ok foldr].
  - by vm_compute.
  - by repeat split.
  - split; [done|]. by repeat apply List.Forall_cons.
Defined.

(** [code_argument] appends an argument to the data of a call without
    changing what is there, and [decode_argument] at the old size reads it. *)
Theorem code_argument_appends `{HostLaws} getClass a fuel (data : Data) :
  arg_ok a -> (depth a <= fuel)%nat -> cnt data + cnt (arg_bytes a) < 2 ^ 31 ->
  exists new, code_argument data a = Some (data ++ new)
    /\ decode_argument getClass fuel (data ++ new) AVoid (cnt data) = Some a.
Proof.
  intros Ha Hf Hb. pose proof (cnt_nonneg data). pose proof (cnt_nonneg (arg_bytes a)).
  exists (Some <$> arg_bytes a). split.
  - unfold code_argument. rewrite getSize_spec by (apply arg_ok_codable, Ha || lia).
    cbn [mbind option_bind]. rewrite u32_id by lia.
    set (d := resize _ None data).
    assert (cnt d = cnt data + cnt (arg_bytes a)) as Hd
      by (subst d; unfold cnt at 1; rewrite length_resize; lia).
    rewrite (code_arg_emits a (arg_ok_codable a Ha)) by lia. cbn. f_equal.
    unfold overwrite. rewrite drop_ge by (rewrite length_fmap; unfold cnt in *; lia).
    rewrite app_nil_r. f_equal. subst d. unfold cnt in *. rewrite Nat2Z.id.
    rewrite take_resize_le by lia. by apply resize_all.
  - unfold decode_argument.
    pose proof (decode_arg_reads getClass a fuel AVoid Hf Ha (fun _ => eq_refl) data []) as E.
    rewrite app_nil_r in E. rewrite E. done.
Qed.

Lemma code_argument_appends_witness :
  exists new, code_argument [Some 1] (AArrString [cs "a"; cs "bc"]) = Some ([Some 1] ++ new)
    /\ decode_argument no_class 1 ([Some 1] ++ new) AVoid 1 = Some (AArrString [cs "a"; cs "bc"]).
Proof.
  apply (code_argument_appends no_class _ 1 [Some 1]); [|cbn; lia|by vm_compute].
  split; [by vm_compute|]. repeat apply List.Forall_cons; try apply List.Forall_nil;
    (split; [|by vm_compute]); by repeat apply List.Forall_cons.
Defined.

(** A signature whose types are not objects fills its buffer exactly and is
    read back; one with an object type is written past the buffer, whose size
    leaves out the class names. *)
Theorem signature_coding `{HostLaws} s :
  sign_ok s ->
  (has_obj s = false -> exists bytes, code_signature s = Some (Some <$> bytes)
     /\ (Forall (fun t => snd t = []) (types s) -> decode_signature (Some <$> bytes) = Some s))
  /\ (has_obj s = true -> code_signature s = None).
Proof.
  intros Hs. split; [|by apply code_signature_obj]. intros Ho. exists (sign_bytes s).
  split; [by apply code_signature_basic|]. by apply decode_signature_basic.
Qed.

Lemma signature_coding_witness :
  code_signature (mk_Signature VOID_TYPE [(INT32_TYPE, []); (OBJ_TYPE, cs "Person")]) = None.
Proof.
  refine (proj2 (signature_coding (mk_Signature VOID_TYPE [(INT32_TYPE, []); (OBJ_TYPE, cs "Person")]) _) _);
    [|reflexivity].
  split; [by vm_compute|]. split; [by vm_compute|].
  by repeat apply List.Forall_cons.
Defined.

(** The object the decoder builds is not the one coded: its constructor is given
    the memory past the object, here the bytes 9, 9, 9 and not 1, 2, 3. *)
Definition some_class (_ : Oid (Host := LittleEndian.little_endian)) :
    option (Data -> option (Object (H := LittleEndian.little_endian))) :=
  Some (fun d => mk_Object (H := LittleEndian.little_endian) BigEndian.oid_a BigEndian.oid_b
                   <$> mapM id d).

Example decode_object_past :
  fst <$> decode_object some_class
    ((Some <$> object_bytes (Some object_c)) ++ (Some <$> (replicate 48 0 ++ [9; 9; 9])), 0)
  = Some (Some (mk_Object (H := LittleEndian.little_endian) BigEndian.oid_a BigEndian.oid_b [9; 9; 9])).
Proof. reflexivity. Qed.
