(* ===== verification/NullBits.v ===== *)
(** * Attributes: null values

    The bits that say which elements of an attribute of a basic or enum class were
    set: [setInit], [isNull] and [iniSize] of src/eyedb/Attribute.cc, over the bytes
    that precede the elements in an object. [None] is a byte out of the area. *)

From S2P Require Import Prelude.

Definition iniSize (sz : Z) : Z := if sz =? 0 then 0 else Z.shiftr (sz - 1) 3 + 1.
Definition revSize (sz : Z) : Z := Z.quot (Z.shiftl sz 3) 9.

Definition SHIFT (x : Z) : Z := Z.shiftr x 3.
Definition UNSHIFT (x : Z) : Z := Z.shiftl x 3.
Definition MASK (from sfrom : Z) : Z := Z.shiftl 1 (7 - (from - UNSHIFT sfrom)).
Definition SMASK (from sfrom : Z) : Z := Z.shiftr 0xff (from - UNSHIFT sfrom).
Definition EMASK (to sto : Z) : Z := Z.shiftl 0xff (7 - (to - UNSHIFT sto)).

(** [*p] and [*p = f( *p)] on a byte. *)
Definition byte_at (inidata : list Z) (p : Z) : option Z :=
  if 0 <=? p then inidata !! Z.to_nat p else None.
Definition set_byte (inidata : list Z) (p : Z) (f : Z -> Z) : option (list Z) :=
  b ← byte_at inidata p; Some (<[Z.to_nat p := Z.land (f b) 0xff]> inidata).

(** The loops on the bytes from [p], [n] of them. *)
Fixpoint all_zero (n : nat) (p : Z) (inidata : list Z) : option bool :=
  match n with
  | O => Some true
  | S n => b ← byte_at inidata p; if negb (b =? 0) then Some false else all_zero n (p + 1) inidata
  end.
Fixpoint fill (n : nat) (p v : Z) (inidata : list Z) : option (list Z) :=
  match n with
  | O => Some inidata
  | S n => d ← set_byte inidata p (fun _ => v); fill n (p + 1) v d
  end.

Definition isNull (inidata : list Z) (nb from : Z) : option bool :=
  if nb =? 0 then Some true
  else
    let sfrom := SHIFT from in
    if nb =? 1 then
      s ← byte_at inidata sfrom; Some (Z.land s (MASK from sfrom) =? 0)
    else
      let to := from + nb - 1 in
      let sto := SHIFT to in
      s ← byte_at inidata sfrom;
      if negb (Z.land s (SMASK from sfrom) =? 0) then Some false
      else
        e ← byte_at inidata sto;
        if negb (Z.land e (EMASK to sto) =? 0) then Some false
        else all_zero (Z.to_nat (sto - sfrom - 1)) (sfrom + 1) inidata.

(** [s |= mask] or [s &= ~mask] *)
Definition set_mask (val : bool) (mask s : Z) : Z := if val then Z.lor s mask else Z.land s (Z.lnot mask).

Definition setInit (inidata : list Z) (nb from : Z) (val : bool) : option (list Z) :=
  if nb =? 0 then Some inidata
  else
    let sfrom := SHIFT from in
    if nb =? 1 then
      set_byte inidata sfrom (set_mask val (MASK from sfrom))
    else
      let to := from + nb - 1 in
      let sto := SHIFT to in
      d ← set_byte inidata sfrom (set_mask val (SMASK from sfrom));
      d ← set_byte d sto (set_mask val (EMASK to sto));
      fill (Z.to_nat (sto - sfrom - 1)) (sfrom + 1) (if val then 0xff else 0) d.

(** ** The elements *)

(** The bit of element [i]. *)
Definition initialized (inidata : list Z) (i : Z) : bool :=
  match byte_at inidata (i / 8) with Some b => Z.testbit b (7 - i mod 8) | None => false end.

(** What the functions touch: the elements asked for, or the eight elements of the
    byte when there are several and they are in one byte. *)
Definition touched (nb from i : Z) : bool :=
  if nb =? 0 then false
  else if (nb =? 1) || negb (from / 8 =? (from + nb - 1) / 8) then (from <=? i) && (i <? from + nb)
  else i / 8 =? from / 8.

Definition bytes_ok (inidata : list Z) : Prop := Forall (fun b => 0 <= b < 256) inidata.

Lemma iniSize_ceil sz : 0 <= sz -> iniSize sz = (sz + 7) / 8.
Proof.
  intros H. unfold iniSize. destruct (Z.eqb_spec sz 0) as [->|]; [done|].
  rewrite Z.shiftr_div_pow2 by lia. change (2 ^ 3) with 8. replace (sz + 7) with (sz - 1 + 1 * 8) by lia.
  by rewrite Z.div_add.
Qed.

Lemma byte_at_lookup d p b : byte_at d p = Some b <-> 0 <= p /\ d !! Z.to_nat p = Some b.
Proof. unfold byte_at. destruct (Z.leb_spec 0 p); split; try done; [|lia]. by intros [_ ?]. Qed.

Lemma byte_at_some d p : 0 <= p < Z.of_nat (length d) -> exists b, byte_at d p = Some b.
Proof.
  intros H. destruct (lookup_lt_is_Some_2 d (Z.to_nat p)) as [b Hb]; [lia|]. exists b. apply byte_at_lookup. split; [lia|done].
Qed.

Lemma set_byte_spec d p f :
  0 <= p < Z.of_nat (length d) ->
  exists b d', byte_at d p = Some b /\ set_byte d p f = Some d' /\ length d' = length d
    /\ forall q, byte_at d' q = if q =? p then Some (Z.land (f b) 0xff) else byte_at d q.
Proof.
  intros H. destruct (byte_at_some d p H) as [b Hb]. exists b. unfold set_byte. rewrite Hb. cbn.
  eexists. split; [done|]. split; [done|]. split; [apply length_insert|]. intros q. unfold byte_at.
  destruct (Z.eqb_spec q p) as [->|Hne].
  - destruct (Z.leb_spec 0 p); [|lia]. apply list_lookup_insert_eq. lia.
  - destruct (Z.leb_spec 0 q); [|done]. apply list_lookup_insert_ne. lia.
Qed.

Lemma fill_spec v n : forall p d, 0 <= p -> p + Z.of_nat n <= Z.of_nat (length d) ->
  exists d', fill n p v d = Some d' /\ length d' = length d
    /\ forall q, byte_at d' q = if (p <=? q) && (q <? p + Z.of_nat n) then Some (Z.land v 0xff) else byte_at d q.
Proof.
  induction n as [|n IH]; intros p d Hp Hn; cbn [fill].
  { exists d. split; [done|]. split; [done|]. intros q.
    destruct (Z.leb_spec p q), (Z.ltb_spec q (p + Z.of_nat 0)); done || lia. }
  destruct (set_byte_spec d p (fun _ => v)) as (b & d1 & _ & E1 & L1 & B1); [lia|]. rewrite E1. cbn [mbind option_bind].
  destruct (IH (p + 1) d1) as (d2 & E2 & L2 & B2); [lia|lia|]. exists d2. split; [done|]. split; [congruence|].
  intros q. rewrite B2, B1.
  destruct (Z.leb_spec (p + 1) q), (Z.ltb_spec q (p + 1 + Z.of_nat n)), (Z.eqb_spec q p), (Z.leb_spec p q),
    (Z.ltb_spec q (p + Z.of_nat (S n))); cbn [andb]; done || lia.
Qed.

(** ** Masks *)

Lemma div_mod_8 i : i = 8 * (i / 8) + i mod 8 /\ 0 <= i mod 8 < 8.
Proof. split; [apply Z.div_mod; lia|apply Z.mod_pos_bound; lia]. Qed.

Lemma SHIFT_div x : SHIFT x = x / 8.
Proof. unfold SHIFT. by rewrite Z.shiftr_div_pow2. Qed.

Lemma offset_in_byte x : x - UNSHIFT (SHIFT x) = x mod 8.
Proof. rewrite SHIFT_div. unfold UNSHIFT. rewrite Z.shiftl_mul_pow2 by lia. pose proof (div_mod_8 x). lia. Qed.

(** A statement on the offsets in a byte is the one of eight cases. *)
Lemma eight_cases (P : Z -> Prop) : P 0 -> P 1 -> P 2 -> P 3 -> P 4 -> P 5 -> P 6 -> P 7 -> forall k, 0 <= k < 8 -> P k.
Proof.
  intros ???????? k Hk.
  assert (k = 0 \/ k = 1 \/ k = 2 \/ k = 3 \/ k = 4 \/ k = 5 \/ k = 6 \/ k = 7) as Hc by lia.
  destruct Hc as [->|[->|[->|[->|[->|[->|[->| ->]]]]]]]; done.
Qed.

Lemma masks_bits k j : 0 <= k < 8 -> 0 <= j < 8 ->
  Z.testbit (Z.shiftl 1 (7 - k)) (7 - j) = (j =? k) /\ Z.testbit (Z.shiftr 0xff k) (7 - j) = (k <=? j)
  /\ Z.testbit (Z.shiftl 0xff (7 - k)) (7 - j) = (j <=? k) /\ Z.testbit 0xff (7 - j) = true.
Proof.
  intros Hk. revert k Hk j.
  apply (eight_cases (fun k => forall j, 0 <= j < 8 -> _)); apply eight_cases; by vm_compute.
Qed.

(** The bit of element [j] of a byte, after a mask was added or removed. *)
Lemma masked_bit (val : bool) b m j : 0 <= j < 8 ->
  Z.testbit (Z.land (set_mask val m b) 0xff) (7 - j)
  = if Z.testbit m (7 - j) then val else Z.testbit b (7 - j).
Proof.
  intros Hj. rewrite Z.land_spec, (proj2 (proj2 (proj2 (masks_bits 0 j ltac:(lia) Hj)))), andb_true_r.
  unfold set_mask. destruct val; rewrite ?Z.lor_spec, ?Z.land_spec, ?Z.lnot_spec by lia;
    destruct (Z.testbit b _), (Z.testbit m _); done.
Qed.

(** A byte with a mask is zero when the elements of the mask are not set. *)
Lemma land_zero b m : 0 <= b < 256 ->
  (Z.land b m =? 0) = true <-> forall j, 0 <= j < 8 -> Z.testbit m (7 - j) = true -> Z.testbit b (7 - j) = false.
Proof.
  intros Hb. rewrite Z.eqb_eq. split.
  - intros H j Hj Hm. apply (f_equal (fun z => Z.testbit z (7 - j))) in H.
    rewrite Z.land_spec, Hm, Z.bits_0, andb_true_r in H. done.
  - intros H. apply Z.bits_inj'. intros n Hn. rewrite Z.land_spec, Z.bits_0.
    destruct (Z.lt_ge_cases n 8).
    + destruct (Z.testbit m n) eqn:Em; [|by rewrite andb_false_r]. specialize (H (7 - n) ltac:(lia)).
      replace (7 - (7 - n)) with n in H by lia. by rewrite (H Em).
    + rewrite (Z.bits_above_log2 b n); [done|lia|]. destruct (Z.eq_dec b 0) as [->|]; [by cbn; lia|].
      assert (Z.log2 b < 8); [|lia]. apply Z.log2_lt_pow2; lia.
Qed.

Lemma initialized_byte d i b : byte_at d (i / 8) = Some b -> initialized d i = Z.testbit b (7 - i mod 8).
Proof. intros H. unfold initialized. by rewrite H. Qed.

(** Bounds on elements, seen from their bytes. *)
Lemma in_bytes i n : 0 <= i < 8 * n -> 0 <= i / 8 < n.
Proof. pose proof (div_mod_8 i). lia. Qed.

Ltac byte_cases :=
  repeat match goal with
  | |- context [?a =? ?b] => destruct (Z.eqb_spec a b)
  | |- context [?a <=? ?b] => destruct (Z.leb_spec a b)
  | |- context [?a <? ?b] => destruct (Z.ltb_spec a b)
  end; cbn [andb orb negb].

(** ** Properties *)

Lemma setInit_bits d nb from val :
  0 <= from -> 0 <= nb -> from + nb <= 8 * Z.of_nat (length d) ->
  exists d', setInit d nb from val = Some d' /\ length d' = length d
    /\ forall i, 0 <= i < 8 * Z.of_nat (length d) ->
         initialized d' i = if touched nb from i then val else initialized d i.
Proof.
  intros Hf Hnb Hb. unfold setInit, touched. destruct (Z.eqb_spec nb 0) as [->|H0]; [by exists d|].
  rewrite !SHIFT_div. pose proof (div_mod_8 from) as [Ef Bf].
  destruct (Z.eqb_spec nb 1) as [->|H1]; cbn [orb].
  - set (f := set_mask val (MASK from (from / 8))). destruct (set_byte_spec d (from / 8) f) as (b & d' & Eb & E & L & B); [lia|].
    exists d'. split; [done|]. split; [done|]. intros i Hi. pose proof (div_mod_8 i) as [Ei Bi].
    destruct (byte_at_some d (i / 8)) as [bi Hbi]; [by apply in_bytes|].
    rewrite (initialized_byte d i bi Hbi). destruct (Z.eqb_spec (i / 8) (from / 8)) as [Hd|Hd].
    + rewrite (initialized_byte d' i (Z.land (f b) 0xff)) by (by rewrite B, Hd, Z.eqb_refl).
      assert (bi = b) as -> by congruence. unfold f. rewrite masked_bit by done.
      unfold MASK. rewrite <- SHIFT_div, offset_in_byte.
      rewrite (proj1 (masks_bits (from mod 8) (i mod 8) ltac:(lia) ltac:(lia))). byte_cases; done || lia.
    + rewrite (initialized_byte d' i bi); [byte_cases; done || lia|].
      rewrite B. by destruct (Z.eqb_spec (i / 8) (from / 8)).
  - set (to := from + nb - 1). pose proof (div_mod_8 to) as [Et Bt].
    set (f := set_mask val (SMASK from (from / 8))). destruct (set_byte_spec d (from / 8) f) as (b & d1 & Eb & E1 & L1 & B1); [lia|].
    rewrite E1. cbn [mbind option_bind].
    set (g := set_mask val (EMASK to (to / 8))). destruct (set_byte_spec d1 (to / 8) g) as (e & d2 & Ee & E2 & L2 & B2); [lia|].
    rewrite E2. cbn [mbind option_bind].
    destruct (fill_spec (if val then 0xff else 0) (Z.to_nat (to / 8 - from / 8 - 1)) (from / 8 + 1) d2) as (d3 & E3 & L3 & B3); [lia|lia|].
    exists d3. split; [done|]. split; [congruence|]. intros i Hi. pose proof (div_mod_8 i) as [Ei Bi].
    assert (forall k, 0 <= k < 8 -> Z.testbit (Z.land (if val then 255 else 0) 255) (7 - k) = val) as Hfill
      by (intros k Hk; destruct val; [by apply masks_bits with (k := 0)|by rewrite Z.testbit_0_l]).
    assert (forall b, Z.testbit (Z.land (f b) 255) (7 - i mod 8) = if from mod 8 <=? i mod 8 then val else Z.testbit b (7 - i mod 8)) as Hfb.
    { intros b0. unfold f. rewrite masked_bit by done. unfold SMASK. rewrite <- SHIFT_div, offset_in_byte.
      by rewrite (proj1 (proj2 (masks_bits (from mod 8) (i mod 8) ltac:(lia) ltac:(lia)))). }
    assert (forall b, Z.testbit (Z.land (g b) 255) (7 - i mod 8) = if i mod 8 <=? to mod 8 then val else Z.testbit b (7 - i mod 8)) as Hgb.
    { intros b0. unfold g. rewrite masked_bit by done. unfold EMASK. rewrite <- SHIFT_div, offset_in_byte.
      by rewrite (proj1 (proj2 (proj2 (masks_bits (to mod 8) (i mod 8) ltac:(lia) ltac:(lia))))). }
    destruct (byte_at_some d (i / 8)) as [bi Hbi]; [by apply in_bytes|].
    rewrite (initialized_byte d i bi Hbi). unfold initialized. rewrite B3, B2, B1.
    destruct (Z.eqb_spec (i / 8) (from / 8)) as [Hif|Hif]; [assert (bi = b) as -> by congruence|];
      (destruct (Z.eqb_spec (i / 8) (to / 8)) as [Hit|Hit]; [try assert (e = Z.land (f b) 255) as -> by (rewrite <- Hit, Hif, B1, Z.eqb_refl in Ee; congruence);
         try assert (e = bi) as -> by (rewrite <- Hit, B1 in Ee; destruct (Z.eqb_spec (i / 8) (from / 8)); congruence)|]);
      byte_cases; rewrite ?Hbi, ?Hfill, ?Hgb, ?Hfb by done; byte_cases; try done; try lia.
Qed.

Lemma all_zero_spec n : forall p d, 0 <= p -> p + Z.of_nat n <= Z.of_nat (length d) ->
  exists r, all_zero n p d = Some r /\ (r = true <-> forall q, p <= q < p + Z.of_nat n -> byte_at d q = Some 0).
Proof.
  induction n as [|n IH]; intros p d Hp Hn; cbn [all_zero]; [exists true; split; [done|]; split; [lia|done]|].
  destruct (byte_at_some d p) as [b Hb]; [lia|]. rewrite Hb. cbn [mbind option_bind].
  destruct (Z.eqb_spec b 0) as [->|Hne]; cbn [negb].
  - destruct (IH (p + 1) d) as (r & -> & Hr); [lia|lia|]. exists r. split; [done|]. rewrite Hr. split; intros H q Hq.
    + destruct (Z.eq_dec q p) as [->|]; [done|]. apply H. lia.
    + apply H. lia.
  - exists false. split; [done|]. split; [done|]. intros H. specialize (H p ltac:(lia)). congruence.
Qed.

Lemma bytes_ok_at d p b : bytes_ok d -> byte_at d p = Some b -> 0 <= b < 256.
Proof. intros H [_ Hb]%byte_at_lookup. by apply (Forall_lookup_1 _ _ _ _ H Hb). Qed.

Lemma zero_byte b : 0 <= b < 256 -> (forall j, 0 <= j < 8 -> Z.testbit b (7 - j) = false) -> b = 0.
Proof.
  intros Hb H. destruct (land_zero b 0xff Hb) as [_ Hz]. specialize (Hz ltac:(auto)). apply Z.eqb_eq in Hz.
  change 0xff with (Z.ones 8) in Hz. rewrite Z.land_ones in Hz by lia. by rewrite Z.mod_small in Hz by lia.
Qed.

Lemma element_of p j : 0 <= j < 8 -> (8 * p + j) / 8 = p /\ (8 * p + j) mod 8 = j.
Proof.
  intros Hj. rewrite (Z.add_comm _ j), (Z.mul_comm 8), Z.div_add, Z.mod_add by lia.
  rewrite Z.div_small, Z.mod_small by lia. lia.
Qed.

(** A masked byte is zero when the elements of its mask are not set. *)
Lemma masked_zero d p b m : bytes_ok d -> byte_at d p = Some b -> 0 <= p ->
  (Z.land b m =? 0) = true <->
  forall i, i / 8 = p -> Z.testbit m (7 - i mod 8) = true -> initialized d i = false.
Proof.
  intros Hd Hb Hp. rewrite land_zero by (by eapply bytes_ok_at). split.
  - intros H i <- Hm. rewrite (initialized_byte _ _ _ Hb). apply H; [|done]. pose proof (div_mod_8 i). lia.
  - intros H j Hj Hm. destruct (element_of p j Hj) as [E1 E2]. specialize (H (8 * p + j) E1). rewrite E2 in H.
    specialize (H Hm). rewrite (initialized_byte d _ b) in H by (by rewrite E1). by rewrite E2 in H.
Qed.

Lemma isNull_bits d nb from :
  bytes_ok d -> 0 <= from -> 0 <= nb -> from + nb <= 8 * Z.of_nat (length d) ->
  exists r, isNull d nb from = Some r
    /\ (r = true <-> forall i, 0 <= i < 8 * Z.of_nat (length d) -> touched nb from i = true -> initialized d i = false).
Proof.
  intros Hd Hf Hnb Hb. unfold isNull, touched. destruct (Z.eqb_spec nb 0) as [->|H0]; [by exists true|].
  rewrite !SHIFT_div. pose proof (div_mod_8 from) as [Ef Bf].
  destruct (Z.eqb_spec nb 1) as [->|H1]; cbn [orb].
  - destruct (byte_at_some d (from / 8)) as [b Eb]; [lia|]. rewrite Eb. cbn [mbind option_bind]. eexists. split; [done|].
    rewrite (masked_zero d _ b _ Hd Eb) by lia. unfold MASK. rewrite <- SHIFT_div, offset_in_byte, SHIFT_div. split.
    + intros H i Hi Ht. assert (i = from) as -> by (revert Ht; byte_cases; intros; done || lia). apply H; [done|].
      rewrite (proj1 (masks_bits (from mod 8) (from mod 8) ltac:(lia) ltac:(lia))). apply Z.eqb_refl.
    + intros H i Hi Hm. pose proof (div_mod_8 i).
      rewrite (proj1 (masks_bits (from mod 8) (i mod 8) ltac:(lia) ltac:(lia))) in Hm. apply Z.eqb_eq in Hm.
      apply H; [|byte_cases]; done || lia.
  - set (to := from + nb - 1). pose proof (div_mod_8 to) as [Et Bt].
    destruct (byte_at_some d (from / 8)) as [b Eb]; [lia|]. rewrite Eb. cbn [mbind option_bind].
    destruct (byte_at_some d (to / 8)) as [e Ee]; [lia|].
    destruct (all_zero_spec (Z.to_nat (to / 8 - from / 8 - 1)) (from / 8 + 1) d) as (r & Er & Hr); [lia|lia|].
    exists ((Z.land b (SMASK from (from / 8)) =? 0) && (Z.land e (EMASK to (to / 8)) =? 0) && r). split.
    { destruct (Z.land b _ =? 0); [|done]. cbn [negb andb]. rewrite Ee. cbn [mbind option_bind].
      by destruct (Z.land e _ =? 0). }
    rewrite !andb_true_iff, (masked_zero d _ b _ Hd Eb), (masked_zero d _ e _ Hd Ee), Hr by lia.
    unfold SMASK, EMASK. rewrite <- !SHIFT_div, !offset_in_byte, !SHIFT_div.
    assert (forall i, Z.testbit (Z.shiftr 255 (from mod 8)) (7 - i mod 8) = (from mod 8 <=? i mod 8)) as Hs.
    { intros i. pose proof (div_mod_8 i). apply masks_bits; lia. }
    assert (forall i, Z.testbit (Z.shiftl 255 (7 - to mod 8)) (7 - i mod 8) = (i mod 8 <=? to mod 8)) as He.
    { intros i. pose proof (div_mod_8 i). apply masks_bits; lia. }
    setoid_rewrite Hs. setoid_rewrite He. split.
    + intros [[Ha Hb'] Hc] i Hi Ht. pose proof (div_mod_8 i).
      destruct (Z.eq_dec (i / 8) (from / 8)) as [E1|E1]; [destruct (Z.leb_spec (from mod 8) (i mod 8)) as [Hle|Hle]|].
      * apply Ha; [done|]. by apply Z.leb_le.
      * apply Hb'; [|apply Z.leb_le]; revert Ht; byte_cases; intros; done || lia.
      * destruct (Z.eq_dec (i / 8) (to / 8)) as [E2|E2].
        -- apply Hb'; [done|]. apply Z.leb_le. revert Ht. byte_cases; intros; done || lia.
        -- unfold initialized. rewrite Hc; [apply Z.testbit_0_l|]. revert Ht. byte_cases; intros; done || lia.
    + intros H. split; [split|].
      * intros i Hi Hm. pose proof (div_mod_8 i). apply Z.leb_le in Hm. apply H; [|byte_cases]; done || lia.
      * intros i Hi Hm. pose proof (div_mod_8 i). apply Z.leb_le in Hm. apply H; [|byte_cases]; done || lia.
      * intros q Hq. destruct (byte_at_some d q) as [x Hx]; [lia|]. rewrite Hx. f_equal.
        apply zero_byte; [by eapply bytes_ok_at|]. intros j Hj. destruct (element_of q j Hj) as [E1 E2].
        rewrite <- E2. rewrite <- (initialized_byte d) by (by rewrite E1). pose proof (div_mod_8 (8 * q + j)).
        apply H; [|byte_cases]; done || lia.
Qed.

Lemma set_byte_ok d p f d' : bytes_ok d -> set_byte d p f = Some d' -> bytes_ok d'.
Proof.
  intros Hd. unfold set_byte. destruct (byte_at d p) as [b|]; [|done]. intros [= <-]. apply Forall_insert; [done|].
  change 0xff with (Z.ones 8). rewrite Z.land_ones by lia. by apply Z.mod_pos_bound.
Qed.

Lemma fill_ok v n : forall p d d', bytes_ok d -> fill n p v d = Some d' -> bytes_ok d'.
Proof.
  induction n as [|n IH]; intros p d d' Hd; cbn [fill]; [by intros [= <-]|].
  destruct (set_byte d p _) as [d1|] eqn:E; [|done]. apply IH. by eapply set_byte_ok.
Qed.

Lemma setInit_ok d nb from val d' : bytes_ok d -> setInit d nb from val = Some d' -> bytes_ok d'.
Proof.
  intros Hd. unfold setInit. destruct (nb =? 0); [by intros [= <-]|]. destruct (nb =? 1); [by apply set_byte_ok|].
  destruct (set_byte d _ _) as [d1|] eqn:E1; [|done]. cbn [mbind option_bind].
  destruct (set_byte d1 _ _) as [d2|] eqn:E2; [|done]. apply fill_ok. by eapply set_byte_ok, E2; eapply set_byte_ok, E1.
Qed.

Lemma touched_from nb from : 0 < nb -> touched nb from from = true.
Proof. intros H. unfold touched. byte_cases; done || lia. Qed.

(** ** The bytes after the area are not reached *)

Lemma byte_at_app d d' p : p < Z.of_nat (length d) -> byte_at (d ++ d') p = byte_at d p.
Proof. intros H. unfold byte_at. destruct (Z.leb_spec 0 p); [|done]. by rewrite lookup_app_l by lia. Qed.

Lemma set_byte_app d d' p f : p < Z.of_nat (length d) -> set_byte (d ++ d') p f = (fun d => d ++ d') <$> set_byte d p f.
Proof.
  intros H. unfold set_byte. rewrite byte_at_app by done. destruct (byte_at d p) as [b|] eqn:E; [|done].
  apply byte_at_lookup in E as [H0 _]. cbn. by rewrite insert_app_l by lia.
Qed.

Lemma set_byte_length d p f d1 : set_byte d p f = Some d1 -> length d1 = length d.
Proof. unfold set_byte. destruct (byte_at d p); [|done]. intros [= <-]. apply length_insert. Qed.

Lemma fill_app v d' n : forall p d, p + Z.of_nat n <= Z.of_nat (length d) ->
  fill n p v (d ++ d') = (fun d => d ++ d') <$> fill n p v d.
Proof.
  induction n as [|n IH]; intros p d H; cbn [fill]; [done|]. rewrite set_byte_app by lia.
  destruct (set_byte d p _) as [d1|] eqn:E; [|done]. cbn [fmap option_fmap option_map mbind option_bind].
  apply IH. rewrite (set_byte_length _ _ _ _ E). lia.
Qed.

Lemma last_byte from nb d : 0 <= from -> 0 < nb -> from + nb <= 8 * Z.of_nat (length (A:=Z) d) ->
  from / 8 <= (from + nb - 1) / 8 < Z.of_nat (length d).
Proof. intros. Z.div_mod_to_equations. lia. Qed.

Lemma setInit_app d d' nb from val : 0 <= from -> 0 <= nb -> from + nb <= 8 * Z.of_nat (length d) ->
  setInit (d ++ d') nb from val = (fun d => d ++ d') <$> setInit d nb from val.
Proof.
  intros Hf Hn Hb. unfold setInit. destruct (Z.eqb_spec nb 0); [done|].
  pose proof (last_byte from nb d Hf ltac:(lia) Hb). rewrite !SHIFT_div.
  destruct (nb =? 1); [apply set_byte_app; lia|]. rewrite set_byte_app by lia.
  destruct (set_byte d _ _) as [d1|] eqn:E1; [|done]. cbn [fmap option_fmap option_map mbind option_bind].
  pose proof (set_byte_length _ _ _ _ E1). rewrite set_byte_app by lia.
  destruct (set_byte d1 _ _) as [d2|] eqn:E2; [|done]. cbn [fmap option_fmap option_map mbind option_bind].
  pose proof (set_byte_length _ _ _ _ E2). destruct (Z.leb_spec 0 ((from + nb - 1) / 8 - from / 8 - 1)).
  - apply fill_app. lia.
  - replace (Z.to_nat _) with 0%nat by lia. done.
Qed.

Lemma all_zero_app d' n : forall p d, p + Z.of_nat n <= Z.of_nat (length d) -> all_zero n p (d ++ d') = all_zero n p d.
Proof.
  induction n as [|n IH]; intros p d H; cbn [all_zero]; [done|]. rewrite byte_at_app by lia.
  destruct (byte_at d p); [|done]. cbn [mbind option_bind]. destruct (negb _); [done|]. apply IH. lia.
Qed.

Lemma isNull_app d d' nb from : 0 <= from -> 0 <= nb -> from + nb <= 8 * Z.of_nat (length d) ->
  isNull (d ++ d') nb from = isNull d nb from.
Proof.
  intros Hf Hn Hb. unfold isNull. destruct (Z.eqb_spec nb 0); [done|].
  pose proof (last_byte from nb d Hf ltac:(lia) Hb). rewrite !SHIFT_div, !byte_at_app by lia.
  destruct (nb =? 1); [done|]. apply bind_eq. intros s. destruct (negb _); [done|]. apply bind_eq. intros e.
  destruct (negb _); [done|]. destruct (Z.leb_spec 0 ((from + nb - 1) / 8 - from / 8 - 1)).
  - apply all_zero_app. lia.
  - by replace (Z.to_nat _) with 0%nat by lia.
Qed.

(** C32: setting or clearing a range of elements reaches no byte out of the area,
    marks the elements of the range, and no other unless the range is in one byte,
    and the range is null afterwards exactly when it was cleared or empty. *)
Theorem null_bits d nb from val :
  bytes_ok d -> 0 <= from -> 0 <= nb -> from + nb <= 8 * Z.of_nat (length d) ->
  exists d', setInit d nb from val = Some d' /\ length d' = length d /\ bytes_ok d'
    /\ (forall i, 0 <= i < 8 * Z.of_nat (length d) ->
          initialized d' i = if touched nb from i then val else initialized d i)
    /\ isNull d' nb from = Some (negb val || (nb =? 0)).
Proof.
  intros Hd Hf Hnb Hb. destruct (setInit_bits d nb from val Hf Hnb Hb) as (d' & E & L & B).
  exists d'. pose proof (setInit_ok _ _ _ _ _ Hd E) as Hd'. split; [done|]. split; [done|]. split; [done|]. split; [done|].
  destruct (isNull_bits d' nb from Hd' Hf Hnb ltac:(lia)) as (r & -> & Hr). f_equal. rewrite L in Hr.
  destruct (Z.eqb_spec nb 0) as [->|H0].
  { rewrite orb_true_r. by apply Hr. }
  rewrite orb_false_r. destruct val; cbn [negb].
  - destruct r; [|done]. destruct Hr as [Hr _]. specialize (Hr eq_refl from ltac:(lia) (touched_from nb from ltac:(lia))).
    rewrite B, touched_from in Hr by lia. done.
  - apply Hr. intros i Hi Ht. by rewrite B, Ht.
Qed.

(** Several elements that are in one byte are set, cleared and tested with all
    the elements of the byte: setting two elements of an attribute of eight makes the
    six others not null. *)
Theorem one_byte_together d nb from val :
  bytes_ok d -> 0 <= from -> 1 < nb -> from / 8 = (from + nb - 1) / 8 -> from + nb <= 8 * Z.of_nat (length d) ->
  exists d', setInit d nb from val = Some d'
    /\ (forall i, i / 8 = from / 8 -> initialized d' i = val)
    /\ (isNull d nb from = Some true <-> forall i, i / 8 = from / 8 -> initialized d i = false).
Proof.
  intros Hd Hf Hnb Hs Hb. destruct (setInit_bits d nb from val ltac:(lia) ltac:(lia) Hb) as (d' & E & L & B).
  assert (forall i, touched nb from i = (i / 8 =? from / 8)) as Ht.
  { intros i. unfold touched. rewrite Hs, Z.eqb_refl. destruct (Z.eqb_spec nb 0); [lia|]. by destruct (Z.eqb_spec nb 1); [lia|]. }
  assert (forall i, i / 8 = from / 8 -> 0 <= i < 8 * Z.of_nat (length d)) as Hin.
  { intros i Hi. pose proof (div_mod_8 i). pose proof (div_mod_8 from). pose proof (div_mod_8 (from + nb - 1)). lia. }
  exists d'. split; [done|]. split.
  - intros i Hi. by rewrite B, Ht, (proj2 (Z.eqb_eq _ _) Hi) by auto.
  - destruct (isNull_bits d nb from Hd Hf ltac:(lia) Hb) as (r & -> & Hr). split.
    + intros [= ->] i Hi. apply Hr; [done|auto|]. by rewrite Ht, Z.eqb_eq.
    + intros H. f_equal. apply Hr. intros i Hi. rewrite Ht, Z.eqb_eq. apply H.
Qed.

(** The elements touched are those asked for when a range is of one element or
    over several bytes. *)
Lemma touched_exact nb from i :
  nb = 1 \/ from / 8 <> (from + nb - 1) / 8 -> 0 < nb -> touched nb from i = (from <=? i) && (i <? from + nb).
Proof. intros H Hnb. unfold touched. destruct H; byte_cases; done || lia. Qed.

(** ** Examples *)
Module Example.

(** int x[8]: setting x[0] and x[1] makes x[7] not null. *)
Example two_of_eight :
  (d ← setInit [0] 2 0 true; isNull d 1 7) = Some false.
Proof. reflexivity. Qed.

(** int x[16]: setting x[6], x[7] and x[8] sets them only. *)
Example over_two_bytes : setInit [0; 0] 3 6 true = Some [3; 128].
Proof. reflexivity. Qed.

Example out_of_area : setInit [0] 2 7 true = None.
Proof. reflexivity. Qed.

Lemma null_bits_witness :
  exists d', setInit [0; 0] 3 6 true = Some d' /\ initialized d' 9 = false /\ isNull d' 3 6 = Some false.
Proof.
  destruct (null_bits [0; 0] 3 6 true) as (d' & E & L & O & B & H);
    [repeat (apply List.Forall_cons; [lia|]); constructor|lia|lia|by vm_compute|].
  exists d'. split; [exact E|]. split; [|exact H]. rewrite B; [reflexivity|]. split; [lia|reflexivity].
Defined.

Lemma one_byte_together_witness :
  exists d', setInit [0] 2 0 true = Some d' /\ initialized d' 7 = true.
Proof.
  destruct (one_byte_together [0] 2 0 true) as (d' & E & B & _);
    [repeat (apply List.Forall_cons; [lia|]); constructor|lia|lia|reflexivity|by vm_compute|].
  exists d'. split; [exact E|]. by apply B.
Defined.

End Example.
