(* ===== verification/LinkedList.v ===== *)
(** * Linked lists

    src/eyedb/linklist.cc: the doubly linked lists the kernel keeps its
    attributes, methods, objects to free, ... in, with their links in a heap.
    [None] is an access to a link that does not exist (any more). *)

From Stdlib Require Import Ascii String.
From S2P Require Import Prelude.

#[local] Set Warnings "-clear-no-such-hyp".

(** A link's address; an object is a pointer, 0 when null. *)
Abbreviation loc := positive.
Abbreviation obj := Z.

Record Link := mk_Link { object : obj; prev : option loc; next : option loc }.

(** A list, with the heap its links live in; [fresh] is the next address [new]
    returns. *)
Record LinkedList := mk_LinkedList {
  heap : gmap loc Link; fresh : loc;
  link_cnt : Z; f_link : option loc; l_link : option loc }.

Implicit Types s : LinkedList.

Definition new_LinkedList : LinkedList := mk_LinkedList ∅ 1%positive 0 None None.

(** [l->next = n], [l->prev = n]. *)
Definition set_next (h : gmap loc Link) (l : loc) (n : option loc) : option (gmap loc Link) :=
  k ← h !! l; Some (<[l := mk_Link (object k) (prev k) n]> h).
Definition set_prev (h : gmap loc Link) (l : loc) (n : option loc) : option (gmap loc Link) :=
  k ← h !! l; Some (<[l := mk_Link (object k) n (next k)]> h).

Definition insertObjectLast s (o : obj) : option (LinkedList * Z) :=
  let l := fresh s in
  let h := <[l := mk_Link o None None]> (heap s) in
  let cnt := s32 (link_cnt s + 1) in
  match l_link s with
  | Some ll =>
    h ← set_next h ll (Some l);
    h ← set_prev h l (Some ll);
    Some (mk_LinkedList h (Pos.succ l) cnt (f_link s) (Some l), s32 (cnt - 1))
  | None => Some (mk_LinkedList h (Pos.succ l) cnt (Some l) (Some l), s32 (cnt - 1))
  end.

Definition insertObject s (o : obj) : option (LinkedList * Z) := insertObjectLast s o.

Definition insertObjectFirst s (o : obj) : option (LinkedList * Z) :=
  let l := fresh s in
  let h := <[l := mk_Link o None None]> (heap s) in
  let cnt := s32 (link_cnt s + 1) in
  match f_link s with
  | Some fl =>
    h ← set_prev h fl (Some l);
    h ← set_next h l (Some fl);
    Some (mk_LinkedList h (Pos.succ l) cnt (Some l) (l_link s), 0)
  | None => Some (mk_LinkedList h (Pos.succ l) cnt (Some l) (Some l), 0)
  end.

(** [for (j = 0; j < n; j++) l = l->next] *)
Fixpoint walk (h : gmap loc Link) (n : nat) (l : option loc) : option (option loc) :=
  match n with
  | O => Some l
  | S n => l ← l; k ← h !! l; walk h n (next k)
  end.

Definition getObject s (pos : Z) : option obj :=
  if (pos <? 0) || (link_cnt s <=? pos) then Some 0
  else
    l ← walk (heap s) (Z.to_nat pos) (f_link s);
    l ← l; k ← heap s !! l; Some (object k).

Definition delete_realize s (l : loc) : option LinkedList :=
  k ← heap s !! l;
  '(h, fl) ← match prev k with
             | Some p => h ← set_next (heap s) p (next k); Some (h, f_link s)
             | None => Some (heap s, next k)
             end;
  k ← h !! l;
  '(h, ll) ← match next k with
             | Some n => h ← set_prev h n (prev k); Some (h, l_link s)
             | None => Some (h, prev k)
             end;
  Some (mk_LinkedList (delete l h) (fresh s) (s32 (link_cnt s - 1)) fl ll).

(** The scan for an object: its link and position. [fuel] is the number of links
    visited at most. *)
Fixpoint find_link (fuel : nat) (h : gmap loc Link) (o : obj) (l : option loc) (pos : Z) :
    option (option (loc * Z)) :=
  match l with
  | None => Some None
  | Some l =>
    match fuel with
    | O => None
    | S fuel =>
      k ← h !! l;
      if object k =? o then Some (Some (l, pos))
      else find_link fuel h o (next k) (s32 (pos + 1))
    end
  end.

Definition deleteObject_obj s (o : obj) : option (LinkedList * Z) :=
  r ← find_link (size (heap s)) (heap s) o (f_link s) 0;
  match r with
  | Some (l, pos) => s ← delete_realize s l; Some (s, pos)
  | None => Some (s, -1)
  end.

Definition deleteObject_pos s (pos : Z) : option (LinkedList * Z) :=
  if (pos <? 0) || (link_cnt s <=? pos) then Some (s, -1)
  else
    l ← walk (heap s) (Z.to_nat pos) (f_link s);
    l ← l;
    s ← delete_realize s l;
    Some (s, pos).

Definition getPos s (o : obj) : option Z :=
  r ← find_link (size (heap s)) (heap s) o (f_link s) 0;
  Some (match r with Some (_, pos) => pos | None => -1 end).

Definition getCount s : Z := link_cnt s.

Definition getFirstObject s : option obj :=
  match f_link s with Some l => k ← heap s !! l; Some (object k) | None => Some 0 end.
Definition getLastObject s : option obj :=
  match l_link s with Some l => k ← heap s !! l; Some (object k) | None => Some 0 end.

(** The objects [applyToObjects] calls its function on, in order. *)
Fixpoint objects_from (fuel : nat) (h : gmap loc Link) (l : option loc) : option (list obj) :=
  match l with
  | None => Some []
  | Some l =>
    match fuel with
    | O => None
    | S fuel => k ← h !! l; r ← objects_from fuel h (next k); Some (object k :: r)
    end
  end.
Definition applyToObjects s : option (list obj) :=
  objects_from (size (heap s)) (heap s) (f_link s).

Fixpoint delete_links (fuel : nat) (h : gmap loc Link) (l : option loc) : option (gmap loc Link) :=
  match l with
  | None => Some h
  | Some l =>
    match fuel with
    | O => None
    | S fuel => k ← h !! l; delete_links fuel (delete l h) (next k)
    end
  end.
Definition empty s : option LinkedList :=
  h ← delete_links (size (heap s)) (heap s) (f_link s);
  Some (mk_LinkedList h (fresh s) 0 None None).

(** ** Cursors *)

(** The link the cursor will return next. *)
Abbreviation LinkedListCursor := (option loc) (only parsing).

Definition startScan s : LinkedListCursor := f_link s.

(** [None]: the cursor's link was deleted; otherwise the object, if any, and the
    advanced cursor. *)
Definition getNextObject s (link : LinkedListCursor) : option (option (obj * LinkedListCursor)) :=
  match link with
  | None => Some None
  | Some l => k ← heap s !! l; Some (Some (object k, next k))
  end.

(** ** The list of objects a LinkedList holds *)

(** The first link of [ls], or [n] when there is none; the last, or [p]. *)
Definition first_or (n : option loc) (ls : list loc) : option loc :=
  match ls with [] => n | l :: _ => Some l end.
Definition last_or (p : option loc) (ls : list loc) : option loc :=
  match last ls with None => p | Some l => Some l end.

(** The links [ls] hold the objects [xs], between the links [p] and [n]. *)
Fixpoint seg (h : gmap loc Link) (p : option loc) (ls : list loc) (xs : list obj)
    (n : option loc) : Prop :=
  match ls, xs with
  | [], [] => True
  | l :: ls, x :: xs => h !! l = Some (mk_Link x p (first_or n ls)) /\ seg h (Some l) ls xs n
  | _, _ => False
  end.

Record list_ok s (ls : list loc) (xs : list obj) : Prop := {
  ok_seg : seg (heap s) None ls xs None;
  ok_nodup : NoDup ls;
  ok_dom : dom (heap s) =@{gset loc} list_to_set ls;
  ok_fresh l : l ∈ ls -> (l < fresh s)%positive;
  ok_cnt : link_cnt s = Z.of_nat (length xs);
  ok_first : f_link s = first_or None ls;
  ok_last : l_link s = last_or None ls;
}.

(** The counter is an int. *)
Definition represents s (xs : list obj) : Prop :=
  Z.of_nat (length xs) < 2 ^ 31 /\ exists ls, list_ok s ls xs.

Lemma new_represents : represents new_LinkedList [].
Proof.
  split; [done|]. exists []. split; try done; [constructor|set_solver].
Qed.

Lemma first_or_app n l1 l2 : first_or n (l1 ++ l2) = first_or (first_or n l2) l1.
Proof. by destruct l1. Qed.

Lemma last_or_app p l1 l2 : last_or p (l1 ++ l2) = last_or (last_or p l1) l2.
Proof.
  unfold last_or. rewrite last_app. by destruct (last l2).
Qed.

Lemma last_or_cons p l ls : last_or p (l :: ls) = last_or (Some l) ls.
Proof. unfold last_or. rewrite last_cons. by destruct (last ls). Qed.

Lemma seg_length h p ls xs n : seg h p ls xs n -> length ls = length xs.
Proof. revert p xs; induction ls as [|l ls IH]; intros p [|x xs]; cbn; try done. intros [_ H]. f_equal. eauto. Qed.

Lemma seg_app h p l1 l2 x1 x2 n :
  length l1 = length x1 ->
  seg h p (l1 ++ l2) (x1 ++ x2) n
  <-> seg h p l1 x1 (first_or n l2) /\ seg h (last_or p l1) l2 x2 n.
Proof.
  revert p x1; induction l1 as [|l l1 IH]; intros p [|x x1]; cbn [length app seg]; try done.
  - tauto.
  - intros [= Hl]. rewrite (IH (Some l) x1 Hl), first_or_app, last_or_cons. tauto.
Qed.

(** A change outside of a segment leaves it alone. *)
Lemma seg_frame h h' p ls xs n :
  (forall l, l ∈ ls -> h' !! l = h !! l) -> seg h p ls xs n -> seg h' p ls xs n.
Proof.
  revert p xs; induction ls as [|l ls IH]; intros p [|x xs] Hh; cbn [seg]; try done.
  intros [Hl Hs]. split; [by rewrite Hh by constructor|]. apply IH; [|done].
  intros k Hk. apply Hh. by constructor.
Qed.

Lemma seg_insert h l k p ls xs n : l ∉ ls -> seg h p ls xs n -> seg (<[l := k]> h) p ls xs n.
Proof. intros Hl. apply seg_frame. intros l' Hl'. apply lookup_insert_ne. by intros <-. Qed.

Lemma seg_delete h l p ls xs n : l ∉ ls -> seg h p ls xs n -> seg (delete l h) p ls xs n.
Proof. intros Hl. apply seg_frame. intros l' Hl'. apply lookup_delete_ne. by intros <-. Qed.

(** Changing the pointer out of a segment changes its last link. *)
Lemma seg_set_next h p ls ll xs x n m h' :
  ll ∉ ls -> length ls = length xs -> seg h p (ls ++ [ll]) (xs ++ [x]) n ->
  set_next h ll m = Some h' -> seg h' p (ls ++ [ll]) (xs ++ [x]) m.
Proof.
  intros Hnl Hlen. rewrite !seg_app by done. cbn [first_or seg]. intros (Hs & Hl & _).
  unfold set_next. rewrite Hl. cbn. intros [= <-].
  split_and!; [by apply seg_insert|by rewrite lookup_insert_eq|done].
Qed.

(** Changing the pointer into a segment changes its first link. *)
Lemma seg_set_prev h p l ls x xs n m h' :
  l ∉ ls -> seg h p (l :: ls) (x :: xs) n ->
  set_prev h l m = Some h' -> seg h' m (l :: ls) (x :: xs) n.
Proof.
  intros Hnl. cbn [seg]. intros (Hl & Hs). unfold set_prev. rewrite Hl. cbn. intros [= <-].
  split; [by rewrite lookup_insert_eq|by apply seg_insert].
Qed.

Lemma set_next_dom h l m h' : set_next h l m = Some h' -> dom h' = dom h.
Proof.
  unfold set_next. destruct (h !! l) eqn:E; cbn; [|done]. intros [= <-].
  apply dom_insert_lookup_L. eauto.
Qed.

Lemma set_prev_dom h l m h' : set_prev h l m = Some h' -> dom h' = dom h.
Proof.
  unfold set_prev. destruct (h !! l) eqn:E; cbn; [|done]. intros [= <-].
  apply dom_insert_lookup_L. eauto.
Qed.

Lemma set_next_Some h l m : is_Some (h !! l) -> exists h', set_next h l m = Some h'.
Proof. unfold set_next. intros [k ->]. cbn. eauto. Qed.
Lemma set_prev_Some h l m : is_Some (h !! l) -> exists h', set_prev h l m = Some h'.
Proof. unfold set_prev. intros [k ->]. cbn. eauto. Qed.

Lemma set_next_ne h l m h' k : set_next h l m = Some h' -> k <> l -> h' !! k = h !! k.
Proof.
  unfold set_next. destruct (h !! l); cbn; [|done]. intros [= <-] Hk. by apply lookup_insert_ne.
Qed.
Lemma set_prev_ne h l m h' k : set_prev h l m = Some h' -> k <> l -> h' !! k = h !! k.
Proof.
  unfold set_prev. destruct (h !! l); cbn; [|done]. intros [= <-] Hk. by apply lookup_insert_ne.
Qed.

Lemma ok_lookup s ls xs l : list_ok s ls xs -> l ∈ ls -> is_Some (heap s !! l).
Proof.
  intros Hs Hl. apply elem_of_dom. rewrite (ok_dom _ _ _ Hs). by apply elem_of_list_to_set.
Qed.

Lemma ok_size s ls xs : list_ok s ls xs -> size (heap s) = length xs.
Proof.
  intros Hs. rewrite <- (seg_length _ _ _ _ _ (ok_seg _ _ _ Hs)), <- size_dom, (ok_dom _ _ _ Hs).
  apply size_list_to_set, (ok_nodup _ _ _ Hs).
Qed.

Lemma ok_fresh_notin s ls xs : list_ok s ls xs -> fresh s ∉ ls.
Proof. intros Hs Hl. pose proof (ok_fresh _ _ _ Hs _ Hl). lia. Qed.

(** A list of at least one object has a first and a last link. *)
Lemma snoc_cases {A B} (ls : list A) (xs : list B) :
  length ls = length xs ->
  (ls = [] /\ xs = []) \/ exists ls0 l xs0 x, ls = ls0 ++ [l] /\ xs = xs0 ++ [x] /\ length ls0 = length xs0.
Proof.
  destruct (decide (ls = [])) as [->|Hls]; [destruct xs; auto; done|].
  intros Hlen. right. destruct (exists_last Hls) as (ls0 & l & ->).
  destruct xs as [|x0 xs0]; [rewrite length_app in Hlen; cbn in Hlen; lia|].
  destruct (exists_last (l := x0 :: xs0) ltac:(done)) as (xs1 & x & E).
  exists ls0, l, xs1, x. rewrite E in *. rewrite !length_app in Hlen; cbn in Hlen.
  split_and!; auto; lia.
Qed.

(** ** Each operation does on the links what it says on the list *)

Lemma insertObjectLast_spec s xs o :
  represents s xs -> Z.of_nat (length xs) + 1 < 2 ^ 31 ->
  exists s', insertObjectLast s o = Some (s', Z.of_nat (length xs)) /\ represents s' (xs ++ [o]).
Proof.
  intros [_ (ls & Hs)] Hb. pose proof (seg_length _ _ _ _ _ (ok_seg _ _ _ Hs)) as Hlen.
  pose proof (ok_fresh_notin _ _ _ Hs) as Hnf. destruct Hs as [Hseg Hnd Hdom Hfr Hc Hf Hl].
  unfold insertObjectLast. rewrite Hc, Hl, !s32_id by lia.
  replace (Z.of_nat (length xs) + 1 - 1) with (Z.of_nat (length xs)) by lia.
  set (l := fresh s) in *. set (h1 := <[l := _]> (heap s)).
  assert (forall h', dom h' =@{gset loc} dom h1 -> seg h' None (ls ++ [l]) (xs ++ [o]) None ->
    represents (mk_LinkedList h' (Pos.succ l) (Z.of_nat (length xs) + 1)
      (first_or (Some l) ls) (Some l)) (xs ++ [o])) as Hrep.
  { intros h' Hd' Hs'. split; [rewrite length_app; cbn; lia|]. exists (ls ++ [l]).
    split; cbn [heap fresh link_cnt f_link l_link]; try done.
    - apply NoDup_app. split_and!; [done|set_solver|apply NoDup_singleton].
    - rewrite Hd'. subst h1. rewrite dom_insert_L, Hdom, list_to_set_app_L. set_solver.
    - intros k [Hk| ->%list_elem_of_singleton]%elem_of_app; [specialize (Hfr k Hk); lia|lia].
    - rewrite length_app; cbn; lia.
    - by rewrite first_or_app.
    - by rewrite last_or_app. }
  assert (seg h1 None ls xs None) as H1 by by apply seg_insert.
  destruct (snoc_cases ls xs Hlen) as [[-> ->]|(ls0 & ll & xs0 & x & -> & -> & Hlen0)].
  - eexists; split; [reflexivity|]. apply (Hrep h1); [done|].
    cbn. subst h1. by rewrite lookup_insert_eq.
  - rewrite last_or_app; cbn [last_or last].
    apply NoDup_app in Hnd as (_ & Hnl & _).
    assert (ll ∉ ls0) as Hll by (intros Hin; apply (Hnl ll Hin); set_solver).
    assert (ll <> l) as Hne by (intros ->; apply Hnf; set_solver).
    destruct (set_next_Some h1 ll (Some l)) as [h2 E2].
    { subst h1. rewrite lookup_insert_ne by done. apply elem_of_dom. rewrite Hdom.
      apply elem_of_list_to_set. set_solver. }
    rewrite E2. cbn [mbind option_bind].
    destruct (set_prev_Some h2 l (Some ll)) as [h3 E3].
    { rewrite (set_next_ne _ _ _ _ l E2) by done. subst h1. rewrite lookup_insert_eq. eauto. }
    rewrite E3. cbn [mbind option_bind]. eexists; split; [reflexivity|].
    rewrite Hf. replace (first_or None (ls0 ++ [ll])) with (first_or (Some l) (ls0 ++ [ll]))
      by (by destruct ls0).
    apply Hrep.
    + by rewrite (set_prev_dom _ _ _ _ E3), (set_next_dom _ _ _ _ E2).
    + rewrite seg_app by (rewrite !length_app; cbn; lia). cbn [first_or seg]. split_and!; [| |done].
      * apply (seg_frame h2); [|by eapply seg_set_next].
        intros k Hk. apply (set_prev_ne _ _ _ _ k E3). by intros ->.
      * unfold set_prev in E3. rewrite (set_next_ne _ _ _ _ l E2) in E3 by done.
        subst h1. rewrite lookup_insert_eq in E3. cbn in E3. injection E3 as <-.
        rewrite lookup_insert_eq, last_or_app. done.
Qed.

Lemma insertObjectFirst_spec s xs o :
  represents s xs -> Z.of_nat (length xs) + 1 < 2 ^ 31 ->
  exists s', insertObjectFirst s o = Some (s', 0) /\ represents s' (o :: xs).
Proof.
  intros [_ (ls & Hs)] Hb. pose proof (ok_fresh_notin _ _ _ Hs) as Hnf.
  destruct Hs as [Hseg Hnd Hdom Hfr Hc Hf Hl].
  unfold insertObjectFirst. rewrite Hc, Hf, s32_id by lia.
  set (l := fresh s) in *. set (h1 := <[l := _]> (heap s)).
  assert (forall h', dom h' =@{gset loc} dom h1 -> seg h' None (l :: ls) (o :: xs) None ->
    represents (mk_LinkedList h' (Pos.succ l) (Z.of_nat (length xs) + 1)
      (Some l) (last_or (Some l) ls)) (o :: xs)) as Hrep.
  { intros h' Hd' Hs'. split; [cbn [length]; lia|]. exists (l :: ls).
    split; cbn [heap fresh link_cnt f_link l_link]; try done.
    - by constructor.
    - rewrite Hd'. subst h1. rewrite dom_insert_L, Hdom. done.
    - intros k [-> |Hk]%elem_of_cons; [lia|]. specialize (Hfr k Hk). lia.
    - cbn [length]. lia.
    - by rewrite last_or_cons. }
  assert (seg h1 None ls xs None) as H1 by by apply seg_insert.
  destruct ls as [|fl ls].
  - eexists; split; [reflexivity|]. destruct xs; [|done]. apply (Hrep h1); [done|].
    cbn. subst h1. by rewrite lookup_insert_eq.
  - destruct xs as [|x xs]; [done|]. cbn [first_or].
    assert (fl <> l) as Hne by (intros ->; apply Hnf; constructor).
    destruct (set_prev_Some h1 fl (Some l)) as [h2 E2].
    { subst h1. rewrite lookup_insert_ne by done. apply elem_of_dom. rewrite Hdom.
      apply elem_of_list_to_set. constructor. }
    rewrite E2. cbn [mbind option_bind].
    destruct (set_next_Some h2 l (Some fl)) as [h3 E3].
    { rewrite (set_prev_ne _ _ _ _ l E2) by done. subst h1. rewrite lookup_insert_eq. eauto. }
    rewrite E3. cbn [mbind option_bind]. eexists; split; [reflexivity|].
    rewrite Hl. replace (last_or None (fl :: ls)) with (last_or (Some l) (fl :: ls))
      by by rewrite !last_or_cons.
    apply Hrep; [by rewrite (set_next_dom _ _ _ _ E3), (set_prev_dom _ _ _ _ E2)|].
    change (seg h3 None (l :: fl :: ls) (o :: x :: xs) None)
      with (h3 !! l = Some (mk_Link o None (Some fl)) /\ seg h3 (Some l) (fl :: ls) (x :: xs) None).
    apply NoDup_cons in Hnd as [Hnl _]. split.
    + unfold set_next in E3. rewrite (set_prev_ne _ _ _ _ l E2) in E3 by done.
      subst h1. rewrite lookup_insert_eq in E3. cbn in E3. injection E3 as <-.
      by rewrite lookup_insert_eq.
    + apply (seg_frame h2); [|by eapply seg_set_prev].
      intros k Hk. apply (set_next_ne _ _ _ _ k E3). by intros ->.
Qed.

(** The pointer of the link before, or of the list, past a deleted link. *)
Lemma unlink_next h l1 l2 x1 n fl :
  seg h None l1 x1 n -> NoDup l1 -> fl = first_or (first_or None l2) l1 \/ l1 = [] ->
  exists h', match last_or None l1 with
             | Some p => h' ← set_next h p (first_or None l2); Some (h', fl)
             | None => Some (h, first_or None l2)
             end = Some (h', first_or None (l1 ++ l2))
    /\ seg h' None l1 x1 (first_or None l2)
    /\ (forall k, k ∉ l1 -> h' !! k = h !! k) /\ dom h' =@{gset loc} dom h.
Proof.
  intros Hs Hnd Hfl. rewrite first_or_app.
  destruct (snoc_cases l1 x1) as [[-> ->]|(l0 & p & x0 & x & -> & -> & Hlen)];
    [by eapply seg_length|by exists h|].
  destruct Hfl as [->|Hfl]; [|by destruct l0].
  rewrite last_or_app; cbn [last_or last].
  apply NoDup_app in Hnd as (_ & Hp & _).
  assert (p ∉ l0) by (intros Hin; apply (Hp p Hin); constructor).
  pose proof Hs as Hs'. rewrite seg_app in Hs' by done. cbn [seg] in Hs'. destruct Hs' as (_ & Hhp & _).
  destruct (set_next_Some h p (first_or None l2)) as [h' E]; [eauto|].
  exists h'. rewrite E. split_and!; [done|by eapply seg_set_next| |by eapply set_next_dom].
  intros k Hk. apply (set_next_ne _ _ _ _ k E). intros ->. apply Hk. set_solver.
Qed.

(** The pointer of the link after, or of the list, before a deleted link. *)
Lemma unlink_prev h l1 l2 x2 p ll :
  seg h p l2 x2 None -> NoDup l2 -> ll = last_or None (l1 ++ l2) \/ l2 = [] ->
  exists h', match first_or None l2 with
             | Some n => h' ← set_prev h n (last_or None l1); Some (h', ll)
             | None => Some (h, last_or None l1)
             end = Some (h', last_or None (l1 ++ l2))
    /\ seg h' (last_or None l1) l2 x2 None
    /\ (forall k, k ∉ l2 -> h' !! k = h !! k) /\ dom h' =@{gset loc} dom h.
Proof.
  intros Hs Hnd Hll. destruct l2 as [|n l2].
  - exists h. rewrite last_or_app. split_and!; try done; by destruct x2.
  - destruct Hll as [->|]; [|done]. destruct x2 as [|x x2]; [done|]. cbn [first_or].
    apply NoDup_cons in Hnd as [Hn _].
    destruct (set_prev_Some h n (last_or None l1)) as [h' E]; [destruct Hs; eauto|].
    exists h'. rewrite E. split_and!; [done|by eapply seg_set_prev| |by eapply set_prev_dom].
    intros k Hk. apply (set_prev_ne _ _ _ _ k E). intros ->. apply Hk. constructor.
Qed.

Lemma delete_realize_spec s l1 l l2 x1 x x2 :
  list_ok s (l1 ++ l :: l2) (x1 ++ x :: x2) -> length l1 = length x1 ->
  Z.of_nat (length (x1 ++ x :: x2)) < 2 ^ 31 ->
  exists s', delete_realize s l = Some s' /\ list_ok s' (l1 ++ l2) (x1 ++ x2).
Proof.
  intros [Hseg Hnd Hdom Hfr Hc Hf Hl] Hlen Hb.
  rewrite seg_app in Hseg by done. cbn [first_or seg] in Hseg. destruct Hseg as (H1 & Hk & H2).
  apply NoDup_app in Hnd as (Hnd1 & Hd12 & (Hnl2 & Hnd2)%NoDup_cons).
  assert (l ∉ l1) as Hnl1 by (intros Hin; apply (Hd12 l Hin); constructor).
  assert (forall k, k ∈ l1 -> k ∉ l2) as Hd by (intros k Hk1 Hk2; apply (Hd12 k Hk1); by constructor).
  unfold delete_realize. rewrite Hk. cbn [mbind option_bind prev next].
  destruct (unlink_next (heap s) l1 l2 x1 (Some l) (f_link s) H1 Hnd1) as (h1 & E1 & Hs1 & Hf1 & Hdm1).
  { rewrite Hf. destruct l1; [by right|by left]. }
  rewrite E1. cbn [mbind option_bind]. rewrite Hf1, Hk by done. cbn [mbind option_bind prev next].
  destruct (unlink_prev h1 l1 l2 x2 (Some l) (l_link s)) as (h2 & E2 & Hs2 & Hf2 & Hdm2).
  { apply (seg_frame (heap s)); [|done]. intros k Hk2. apply Hf1. intros Hk1. by apply (Hd k). }
  { done. }
  { rewrite Hl, !last_or_app, last_or_cons. destruct l2; [by right|left]. by rewrite !last_or_cons. }
  rewrite E2. cbn [mbind option_bind].
  eexists; split; [reflexivity|]. split; cbn [heap fresh link_cnt f_link l_link]; try done.
  - rewrite seg_app by done. split.
    + apply seg_delete; [done|]. apply (seg_frame h1); [|done]. intros k Hk1. apply Hf2. by apply Hd.
    + by apply seg_delete.
  - apply NoDup_app. done.
  - rewrite dom_delete_L, Hdm2, Hdm1, Hdom.
    assert (l ∉ (list_to_set (l1 ++ l2) : gset loc)) by set_solver.
    rewrite !list_to_set_app_L, list_to_set_cons in *. set_solver.
  - intros k Hin. apply Hfr. set_solver.
  - rewrite Hc, !length_app in *. cbn [length] in *. rewrite s32_id by lia. lia.
Qed.

(** ** Scans *)

Lemma walk_spec h p ls xs n i :
  seg h p ls xs n -> (i <= length ls)%nat -> walk h i (first_or n ls) = Some (first_or n (drop i ls)).
Proof.
  revert p ls xs; induction i as [|i IH]; intros p ls xs Hs Hi; [done|].
  destruct ls as [|l ls]; [cbn in Hi; lia|]. destruct xs as [|x xs]; [done|]. destruct Hs as [Hl Hs].
  cbn [walk first_or mbind option_bind]. rewrite Hl. cbn [mbind option_bind next drop].
  eapply IH; [done|]. cbn in Hi. lia.
Qed.

(** The position of the first occurrence. *)
Definition index_of (o : obj) (xs : list obj) : option nat :=
  fst <$> list_find (fun x => x = o) xs.

Lemma index_of_cons o x xs :
  index_of o (x :: xs) = if x =? o then Some 0%nat else S <$> index_of o xs.
Proof.
  unfold index_of; cbn [list_find]. destruct (Z.eqb_spec x o) as [->|].
  - by rewrite decide_True.
  - rewrite decide_False by done. by destruct (list_find _ xs) as [[? ?]|].
Qed.

Lemma find_link_spec fuel h p ls xs o pos :
  seg h p ls xs None -> (length ls <= fuel)%nat ->
  0 <= pos -> pos + Z.of_nat (length ls) < 2 ^ 31 ->
  find_link fuel h o (first_or None ls) pos
  = Some (i ← index_of o xs; l ← ls !! i; Some (l, pos + Z.of_nat i)).
Proof.
  revert p ls xs pos; induction fuel as [|fuel IH]; intros p ls xs pos Hs Hf Hp Hb.
  { destruct ls; [|cbn in Hf; lia]. by destruct xs. }
  destruct ls as [|l ls], xs as [|x xs]; try done. destruct Hs as [Hl Hs].
  cbn [find_link first_or]. rewrite Hl. cbn [mbind option_bind object next].
  rewrite index_of_cons. cbn [length] in *. destruct (x =? o).
  - cbn. do 3 f_equal. lia.
  - rewrite s32_id by lia. rewrite (IH (Some l) ls xs) by (done || lia). f_equal.
    destruct (index_of o xs) as [i|]; cbn; [|done]. destruct (ls !! i); cbn; [|done].
    do 2 f_equal. lia.
Qed.

Lemma objects_from_spec fuel h p ls xs :
  seg h p ls xs None -> (length ls <= fuel)%nat -> objects_from fuel h (first_or None ls) = Some xs.
Proof.
  revert p ls xs; induction fuel as [|fuel IH]; intros p ls xs Hs Hf.
  { destruct ls; [|cbn in Hf; lia]. by destruct xs. }
  destruct ls as [|l ls], xs as [|x xs]; try done. destruct Hs as [Hl Hs].
  cbn [objects_from first_or]. rewrite Hl. cbn [mbind option_bind object next].
  cbn [length] in Hf. rewrite (IH (Some l) ls xs) by (done || lia). done.
Qed.

(** [empty] frees every link exactly once: no access to a freed one, none left. *)
Lemma delete_links_spec fuel h p ls xs :
  seg h p ls xs None -> NoDup ls -> dom h =@{gset loc} list_to_set ls -> (length ls <= fuel)%nat ->
  delete_links fuel h (first_or None ls) = Some ∅.
Proof.
  revert h p ls xs; induction fuel as [|fuel IH]; intros h p ls xs Hs Hnd Hd Hf.
  { destruct ls; [|cbn in Hf; lia]. cbn. f_equal. by apply dom_empty_inv_L. }
  destruct ls as [|l ls], xs as [|x xs]; try done.
  { cbn. f_equal. by apply dom_empty_inv_L. }
  destruct Hs as [Hl Hs]. apply NoDup_cons in Hnd as [Hnl Hnd].
  cbn [delete_links first_or]. rewrite Hl. cbn [mbind option_bind next].
  cbn [length] in Hf. apply (IH _ (Some l) ls xs); [by apply seg_delete|done| |lia].
  rewrite dom_delete_L, Hd, list_to_set_cons.
  assert (l ∉ (list_to_set ls : gset loc)) by by rewrite elem_of_list_to_set. set_solver.
Qed.

(** ** The abstract list *)

Inductive op :=
| InsertLast (o : obj) | InsertFirst (o : obj) | Get (pos : Z)
| DeleteObj (o : obj) | DeletePos (pos : Z) | GetPos (o : obj)
| Count | First | Last | Apply | Empty.

Inductive result := RInt (z : Z) | RObj (o : obj) | RList (l : list obj).

Definition run_op s (c : op) : option (LinkedList * result) :=
  match c with
  | InsertLast o => '(s, r) ← insertObject s o; Some (s, RInt r)
  | InsertFirst o => '(s, r) ← insertObjectFirst s o; Some (s, RInt r)
  | Get pos => r ← getObject s pos; Some (s, RObj r)
  | DeleteObj o => '(s, r) ← deleteObject_obj s o; Some (s, RInt r)
  | DeletePos pos => '(s, r) ← deleteObject_pos s pos; Some (s, RInt r)
  | GetPos o => r ← getPos s o; Some (s, RInt r)
  | Count => Some (s, RInt (getCount s))
  | First => r ← getFirstObject s; Some (s, RObj r)
  | Last => r ← getLastObject s; Some (s, RObj r)
  | Apply => r ← applyToObjects s; Some (s, RList r)
  | Empty => s ← empty s; Some (s, RInt 0)
  end.

Definition index_result (r : option nat) : result :=
  RInt (match r with Some i => Z.of_nat i | None => -1 end).

Definition in_range (pos : Z) (xs : list obj) : bool :=
  (0 <=? pos) && (pos <? Z.of_nat (length xs)).

(** What the operations mean on a list of objects. *)
Definition spec_op (xs : list obj) (c : op) : list obj * result :=
  match c with
  | InsertLast o => (xs ++ [o], RInt (Z.of_nat (length xs)))
  | InsertFirst o => (o :: xs, RInt 0)
  | Get pos => (xs, RObj (if in_range pos xs then default 0 (xs !! Z.to_nat pos) else 0))
  | DeleteObj o =>
    (match index_of o xs with Some i => delete i xs | None => xs end, index_result (index_of o xs))
  | DeletePos pos =>
    if in_range pos xs then (delete (Z.to_nat pos) xs, RInt pos) else (xs, RInt (-1))
  | GetPos o => (xs, index_result (index_of o xs))
  | Count => (xs, RInt (Z.of_nat (length xs)))
  | First => (xs, RObj (default 0 (head xs)))
  | Last => (xs, RObj (default 0 (last xs)))
  | Apply => (xs, RList xs)
  | Empty => ([], RInt 0)
  end.

(** Splitting both lists at a position. *)
Lemma split_at (ls : list loc) (xs : list obj) i :
  length ls = length xs -> (i < length xs)%nat ->
  exists l1 l l2 x1 x x2, ls = l1 ++ l :: l2 /\ xs = x1 ++ x :: x2
    /\ length l1 = i /\ length x1 = i.
Proof.
  intros Hl Hi. destruct (lookup_lt_is_Some_2 ls i) as [l Hli]; [lia|].
  destruct (lookup_lt_is_Some_2 xs i) as [x Hxi]; [lia|].
  exists (take i ls), l, (drop (S i) ls), (take i xs), x, (drop (S i) xs).
  rewrite !take_drop_middle, !length_take by done. split_and!; auto; lia.
Qed.

Lemma delete_middle {A} (l1 l2 : list A) x : delete (length l1) (l1 ++ x :: l2) = l1 ++ l2.
Proof. by rewrite delete_middle. Qed.

Lemma delete_at_spec s ls xs i :
  list_ok s ls xs -> Z.of_nat (length xs) < 2 ^ 31 -> (i < length xs)%nat ->
  exists l s', ls !! i = Some l /\ delete_realize s l = Some s' /\ represents s' (delete i xs).
Proof.
  intros Hs Hb Hi. pose proof (seg_length _ _ _ _ _ (ok_seg _ _ _ Hs)) as Hlen.
  destruct (split_at ls xs i Hlen Hi) as (l1 & l & l2 & x1 & x & x2 & -> & -> & El & Ex).
  destruct (delete_realize_spec s l1 l l2 x1 x x2 Hs ltac:(lia) Hb) as (s' & E & Hs').
  exists l, s'. split_and!; [|done|].
  - rewrite lookup_app_r by lia. by rewrite El, Nat.sub_diag.
  - rewrite <- Ex, delete_middle. split; [|by eexists].
    rewrite length_app in *; cbn in Hb. lia.
Qed.

Lemma in_range_false pos xs s :
  link_cnt s = Z.of_nat (length xs) -> ((pos <? 0) || (link_cnt s <=? pos)) = negb (in_range pos xs).
Proof.
  intros ->. unfold in_range.
  destruct (Z.ltb_spec pos 0), (Z.leb_spec (Z.of_nat (length xs)) pos), (Z.leb_spec 0 pos),
    (Z.ltb_spec pos (Z.of_nat (length xs))); cbn; lia || done.
Qed.

Lemma first_or_lookup (ls : list loc) i : first_or None (drop i ls) = ls !! i.
Proof. rewrite <- (Nat.add_0_r i) at 2. rewrite <- lookup_drop. by destruct (drop i ls). Qed.

Lemma index_of_lt o xs i : index_of o xs = Some i -> (i < length xs)%nat.
Proof.
  unfold index_of. destruct (list_find _ xs) as [[j x]|] eqn:E; cbn; [|done]. intros [= <-].
  apply list_find_Some in E as [E _]. by apply lookup_lt_Some in E.
Qed.

(** ** The operations refine the abstract list *)

Lemma getObject_spec s xs pos :
  represents s xs ->
  getObject s pos = Some (if in_range pos xs then default 0 (xs !! Z.to_nat pos) else 0).
Proof.
  intros [Hb (ls & Hs)]. pose proof (seg_length _ _ _ _ _ (ok_seg _ _ _ Hs)) as Hlen.
  unfold getObject. rewrite (in_range_false _ xs) by apply (ok_cnt _ _ _ Hs).
  destruct (in_range pos xs) eqn:Hr; cbn [negb]; [|done].
  unfold in_range in Hr. apply andb_true_iff in Hr as [H1 H2].
  rewrite (ok_first _ _ _ Hs), (walk_spec _ _ _ _ _ _ (ok_seg _ _ _ Hs)) by lia.
  cbn [mbind option_bind]. rewrite first_or_lookup.
  destruct (split_at ls xs (Z.to_nat pos) Hlen ltac:(lia)) as (l1 & l & l2 & x1 & x & x2 & -> & -> & El & Ex).
  rewrite !lookup_app_r, El, Ex, Nat.sub_diag by lia. cbn.
  pose proof (ok_seg _ _ _ Hs) as Hseg. rewrite seg_app in Hseg by lia. destruct Hseg as (_ & -> & _).
  done.
Qed.

Lemma find_spec s ls xs o :
  list_ok s ls xs -> Z.of_nat (length xs) < 2 ^ 31 ->
  find_link (size (heap s)) (heap s) o (f_link s) 0
  = Some (i ← index_of o xs; l ← ls !! i; Some (l, Z.of_nat i)).
Proof.
  intros Hs Hb. pose proof (seg_length _ _ _ _ _ (ok_seg _ _ _ Hs)) as Hlen.
  rewrite (ok_first _ _ _ Hs).
  by rewrite (find_link_spec _ _ _ _ _ _ 0 (ok_seg _ _ _ Hs)) by (rewrite ?(ok_size _ _ _ Hs); lia).
Qed.

Lemma find_cases s ls xs o :
  list_ok s ls xs -> Z.of_nat (length xs) < 2 ^ 31 ->
  find_link (size (heap s)) (heap s) o (f_link s) 0
  = Some (match index_of o xs with Some i => Some (default 1%positive (ls !! i), Z.of_nat i) | None => None end).
Proof.
  intros Hs Hb. rewrite (find_spec _ _ _ _ Hs Hb). f_equal.
  destruct (index_of o xs) as [i|] eqn:E; cbn; [|done].
  pose proof (index_of_lt _ _ _ E). pose proof (seg_length _ _ _ _ _ (ok_seg _ _ _ Hs)) as Hlen.
  destruct (lookup_lt_is_Some_2 ls i) as [l ->]; [lia|]. done.
Qed.

Lemma deleteObject_obj_spec s xs o :
  represents s xs ->
  exists s', deleteObject_obj s o
    = Some (s', match index_of o xs with Some i => Z.of_nat i | None => -1 end)
    /\ represents s' (match index_of o xs with Some i => delete i xs | None => xs end).
Proof.
  intros [Hb (ls & Hs)]. unfold deleteObject_obj. rewrite (find_cases _ _ _ _ Hs Hb).
  cbn [mbind option_bind]. destruct (index_of o xs) as [i|] eqn:E.
  - destruct (delete_at_spec s ls xs i Hs Hb (index_of_lt _ _ _ E)) as (l & s' & Hl & Hd & Hs').
    rewrite Hl. change (default 1%positive (Some l)) with l. rewrite Hd. by exists s'.
  - exists s. split; [done|]. split; [done|]. by exists ls.
Qed.

Lemma deleteObject_pos_spec s xs pos :
  represents s xs ->
  exists s', deleteObject_pos s pos = Some (s', if in_range pos xs then pos else -1)
    /\ represents s' (if in_range pos xs then delete (Z.to_nat pos) xs else xs).
Proof.
  intros [Hb (ls & Hs)]. pose proof (seg_length _ _ _ _ _ (ok_seg _ _ _ Hs)) as Hlen.
  unfold deleteObject_pos. rewrite (in_range_false _ xs) by apply (ok_cnt _ _ _ Hs).
  destruct (in_range pos xs) eqn:Hr; cbn [negb]; [|exists s; split; [done|]; split; [done|]; by exists ls].
  unfold in_range in Hr. apply andb_true_iff in Hr as [H1 H2].
  rewrite (ok_first _ _ _ Hs), (walk_spec _ _ _ _ _ _ (ok_seg _ _ _ Hs)) by lia.
  cbn [mbind option_bind]. rewrite first_or_lookup.
  destruct (delete_at_spec s ls xs (Z.to_nat pos) Hs Hb ltac:(lia)) as (l & s' & Hl & Hd & Hs').
  rewrite Hl. cbn [mbind option_bind]. rewrite Hd. by exists s'.
Qed.

Lemma getPos_spec s xs o :
  represents s xs -> getPos s o = Some (match index_of o xs with Some i => Z.of_nat i | None => -1 end).
Proof.
  intros [Hb (ls & Hs)]. unfold getPos. rewrite (find_cases _ _ _ _ Hs Hb). cbn.
  by destruct (index_of o xs).
Qed.

Lemma getFirst_spec s xs : represents s xs -> getFirstObject s = Some (default 0 (head xs)).
Proof.
  intros [_ (ls & Hs)]. unfold getFirstObject. rewrite (ok_first _ _ _ Hs).
  pose proof (ok_seg _ _ _ Hs) as Hseg. destruct ls as [|l ls], xs as [|x xs]; try done.
  cbn in Hseg |- *. by destruct Hseg as [-> _].
Qed.

Lemma getLast_spec s xs : represents s xs -> getLastObject s = Some (default 0 (last xs)).
Proof.
  intros [_ (ls & Hs)]. unfold getLastObject. rewrite (ok_last _ _ _ Hs).
  pose proof (ok_seg _ _ _ Hs) as Hseg. pose proof (seg_length _ _ _ _ _ Hseg) as Hlen.
  destruct (snoc_cases ls xs Hlen) as [[-> ->]|(l0 & l & x0 & x & -> & -> & Hl0)]; [done|].
  rewrite seg_app in Hseg by done. destruct Hseg as (_ & Hk & _).
  rewrite last_or_app; cbn [last_or last]. rewrite Hk. by rewrite last_snoc.
Qed.

Lemma applyToObjects_spec s xs : represents s xs -> applyToObjects s = Some xs.
Proof.
  intros [_ (ls & Hs)]. unfold applyToObjects. rewrite (ok_first _ _ _ Hs).
  apply (objects_from_spec _ _ None ls); [apply (ok_seg _ _ _ Hs)|].
  rewrite (ok_size _ _ _ Hs), (seg_length _ _ _ _ _ (ok_seg _ _ _ Hs)). done.
Qed.

Lemma empty_spec s xs : represents s xs -> exists s', empty s = Some s' /\ heap s' = ∅ /\ represents s' [].
Proof.
  intros [_ (ls & Hs)]. unfold empty. rewrite (ok_first _ _ _ Hs).
  rewrite (delete_links_spec _ _ None ls xs); [|apply Hs..|].
  2: { by rewrite (ok_size _ _ _ Hs), (seg_length _ _ _ _ _ (ok_seg _ _ _ Hs)). }
  eexists; split; [reflexivity|]. split; [done|]. split; [done|]. exists [].
  split; try done; [constructor|set_solver].
Qed.

Lemma run_op_refines s xs c :
  represents s xs -> Z.of_nat (length xs) + 1 < 2 ^ 31 ->
  exists s', run_op s c = Some (s', snd (spec_op xs c)) /\ represents s' (fst (spec_op xs c)).
Proof.
  intros Hs Hb. destruct c; cbn [run_op spec_op fst snd].
  - destruct (insertObjectLast_spec s xs o Hs Hb) as (s' & E & Hs').
    unfold insertObject. rewrite E. by exists s'.
  - destruct (insertObjectFirst_spec s xs o Hs Hb) as (s' & E & Hs'). rewrite E. by exists s'.
  - rewrite (getObject_spec s xs pos Hs). by exists s.
  - destruct (deleteObject_obj_spec s xs o Hs) as (s' & E & Hs'). rewrite E. by exists s'.
  - destruct (deleteObject_pos_spec s xs pos Hs) as (s' & E & Hs'). rewrite E. exists s'.
    by destruct (in_range pos xs).
  - rewrite (getPos_spec s xs o Hs). by exists s.
  - exists s. split; [|done]. destruct Hs as [_ (ls & Hs)]. unfold getCount.
    by rewrite (ok_cnt _ _ _ Hs).
  - rewrite (getFirst_spec s xs Hs). by exists s.
  - rewrite (getLast_spec s xs Hs). by exists s.
  - rewrite (applyToObjects_spec s xs Hs). by exists s.
  - destruct (empty_spec s xs Hs) as (s' & E & _ & Hs'). rewrite E. by exists s'.
Qed.

Fixpoint run s (cs : list op) : option (LinkedList * list result) :=
  match cs with
  | [] => Some (s, [])
  | c :: cs => '(s, r) ← run_op s c; '(s, rs) ← run s cs; Some (s, r :: rs)
  end.

Fixpoint spec (xs : list obj) (cs : list op) : list obj * list result :=
  match cs with
  | [] => (xs, [])
  | c :: cs =>
    let '(xs, r) := spec_op xs c in
    let '(xs, rs) := spec xs cs in (xs, r :: rs)
  end.

Lemma spec_op_length xs c : (length (fst (spec_op xs c)) <= S (length xs))%nat.
Proof.
  destruct c; cbn [spec_op fst length]; try lia.
  - rewrite length_app; cbn; lia.
  - destruct (index_of o xs) as [i|] eqn:E; [|lia]. apply index_of_lt in E.
    rewrite length_delete by by apply lookup_lt_is_Some_2. lia.
  - destruct (in_range pos xs) eqn:E; cbn [fst]; [|lia].
    unfold in_range in E. rewrite length_delete by (apply lookup_lt_is_Some_2; lia). lia.
Qed.

Lemma run_refines s xs cs :
  represents s xs -> Z.of_nat (length xs + length cs) < 2 ^ 31 ->
  exists s', run s cs = Some (s', snd (spec xs cs)) /\ represents s' (fst (spec xs cs)).
Proof.
  revert s xs; induction cs as [|c cs IH]; intros s xs Hs Hb; cbn [run spec fst snd length] in *.
  { by exists s. }
  destruct (run_op_refines s xs c Hs ltac:(lia)) as (s1 & E1 & Hs1). rewrite E1. cbn [mbind option_bind].
  pose proof (spec_op_length xs c) as Hlen.
  destruct (spec_op xs c) as [xs1 r1]. cbn [fst snd] in *.
  destruct (IH s1 xs1 Hs1 ltac:(lia)) as (s2 & E2 & Hs2). rewrite E2. cbn [mbind option_bind].
  destruct (spec xs1 cs) as [xs2 rs2]. by exists s2.
Qed.

(** ** Scans that delete *)

(** A cursor before the objects [x2] of the list [x1 ++ x2]. *)
Definition cursor_at s (c : LinkedListCursor) (x1 x2 : list obj) : Prop :=
  Z.of_nat (length (x1 ++ x2)) < 2 ^ 31 /\
  exists l1 l2, list_ok s (l1 ++ l2) (x1 ++ x2) /\ length l1 = length x1 /\ c = first_or None l2.

(** A scan that deletes the objects that satisfy [p] as it meets them, as the
    kernel does when it frees some of the objects it keeps in a list. *)
Fixpoint scan_delete (fuel : nat) (p : obj -> bool) s (c : LinkedListCursor) :
    option (LinkedList * list obj) :=
  match fuel with
  | O => None
  | S fuel =>
    r ← getNextObject s c;
    match r with
    | None => Some (s, [])
    | Some (o, c') =>
      s ← (if p o then l ← c; delete_realize s l else Some s);
      '(s, seen) ← scan_delete fuel p s c';
      Some (s, o :: seen)
    end
  end.

Lemma scan_delete_spec fuel p s c x1 x2 :
  cursor_at s c x1 x2 -> (length x2 < fuel)%nat ->
  exists s', scan_delete fuel p s c = Some (s', x2)
    /\ represents s' (x1 ++ filter (fun o => p o = false) x2).
Proof.
  revert s c x1 x2; induction fuel as [|fuel IH]; intros s c x1 x2 (Hb & l1 & l2 & Hs & Hl & ->) Hf; [lia|].
  pose proof (ok_seg _ _ _ Hs) as Hseg. rewrite seg_app in Hseg by done. destruct Hseg as [_ H2].
  destruct l2 as [|l l2], x2 as [|x x2]; try done.
  { exists s. split; [done|]. split; [done|]. by eexists. }
  destruct H2 as [Hk H2]. cbn [scan_delete first_or getNextObject]. rewrite Hk.
  cbn [mbind option_bind object next]. cbn [length] in Hf.
  rewrite filter_cons. destruct (p x) eqn:Hp.
  - destruct (delete_realize_spec s l1 l l2 x1 x x2 Hs Hl Hb) as (s1 & E & Hs1).
    rewrite E. cbn [mbind option_bind]. rewrite decide_False by done.
    destruct (IH s1 (first_or None l2) x1 x2) as (s2 & E2 & Hs2); [|lia|].
    { split; [rewrite !length_app in *; cbn in Hb; lia|]. by exists l1, l2. }
    rewrite E2. by exists s2.
  - cbn [mbind option_bind]. rewrite decide_True by done.
    destruct (IH s (first_or None l2) (x1 ++ [x]) x2) as (s2 & E2 & Hs2); [|lia|].
    { unfold cursor_at. rewrite <- (assoc_L (++) x1). split; [done|]. exists (l1 ++ [l]), l2.
      rewrite <- (assoc_L (++) l1), !length_app. cbn. split_and!; auto; lia. }
    rewrite <- (assoc_L (++)) in Hs2. rewrite E2. by exists s2.
Qed.

(** ** Properties *)

(** C2: any sequence of operations on a new list, on fewer than 2^31 objects,
    runs without touching a link that does not exist and gives the results and the
    objects of the same operations on a mathematical list: insertions at either
    end, accesses and deletions by position (out of range ones included) and by
    object, search, scan, emptying. *)
Theorem linked_list_refines cs :
  Z.of_nat (length cs) < 2 ^ 31 ->
  exists s, run new_LinkedList cs = Some (s, snd (spec [] cs)) /\ represents s (fst (spec [] cs)).
Proof. intros Hb. by apply run_refines; [apply new_represents|]. Qed.

Lemma linked_list_refines_witness :
  exists s, run new_LinkedList [InsertLast 5; InsertFirst 7; InsertLast 5; DeleteObj 5; Apply; Get 3]
            = Some (s, [RInt 0; RInt 0; RInt 2; RInt 1; RList [7; 5]; RObj 0])
  /\ represents s [7; 5].
Proof.
  exact (linked_list_refines [InsertLast 5; InsertFirst 7; InsertLast 5; DeleteObj 5; Apply; Get 3]
    ltac:(reflexivity)).
Defined.

(** A cursor survives the deletion of the objects it has returned: a scan
    that deletes some of the objects it meets sees each object once, in order, and
    leaves the others. *)
Theorem scan_while_deleting s xs p :
  represents s xs ->
  exists s', scan_delete (S (length xs)) p s (startScan s) = Some (s', xs)
    /\ represents s' (filter (fun o => p o = false) xs).
Proof.
  intros [Hb (ls & Hs)]. destruct (scan_delete_spec (S (length xs)) p s (startScan s) [] xs)
    as (s' & E & Hs'); [|lia|by exists s'].
  split; [done|]. exists [], ls. split_and!; [done|done|]. apply (ok_first _ _ _ Hs).
Qed.

Lemma scan_while_deleting_witness :
  exists s s', fst <$> run new_LinkedList [InsertLast 1; InsertLast 2; InsertLast 3] = Some s
    /\ scan_delete 4 Z.even s (startScan s) = Some (s', [1; 2; 3]) /\ represents s' [1; 3].
Proof.
  destruct (run_refines new_LinkedList [] [InsertLast 1; InsertLast 2; InsertLast 3] new_represents
    ltac:(reflexivity)) as (s & E & Hs).
  destruct (scan_while_deleting s [1; 2; 3] Z.even Hs) as (s' & E' & Hs').
  exists s, s'. rewrite E. split; [reflexivity|]. split; [exact E'|exact Hs'].
Defined.
