(* ===== verification/Oid.v ===== *)
(** * Object identifiers

    src/include/eyedb/Oid.h: an oid wraps the one of the storage manager,
    eyedbsm::Oid, which is a parameter: a type whose values are compared as bytes
    and numbered by [getNX]. *)

From S2P Require Import Prelude.

Class Oids (Oid : Type) := {
  Oid_eq : EqDecision Oid;
  Oid_count : Countable Oid;
  getNX : Oid -> Z
}.
#[export] Existing Instances Oid_eq Oid_count.

Section Oid.
Context {Oid : Type} `{OI : Oids Oid}.

Definition isValid (oid : Oid) : bool := negb (getNX oid =? 0).

(** Oid::compare and operator==: memcmp of the two. *)
Definition compare (oid oid' : Oid) : bool := bool_decide (oid = oid').

Lemma compare_true oid oid' : oid = oid' -> compare oid oid' = true.
Proof. apply bool_decide_eq_true. Qed.
Lemma compare_false oid oid' : oid <> oid' -> compare oid oid' = false.
Proof. apply bool_decide_eq_false. Qed.

End Oid.
