(* ===== verification/Attribute.v ===== *)
(** * Attributes: types and storage

    The type modifier of an attribute, its coding in the description of its class and
    its decoding (class TypeModifier and class Attribute of src/eyedb/Attribute.cc),
    over the coder of Codec, and the attributes of a class coded one after the other
    (src/eyedb/AgregatClass.cc). [None] is a failed assertion, a null pointer that is
    followed, or an overflow of a signed integer, which C++ does not define. *)

From Stdlib Require Import Ascii String.
From S2P Require Import Prelude CString Oid Codec.

(** ** Type modifiers *)

(** TypeModifier::_mode *)
Definition Indirect_ : Z := 1.
Definition VarDim_ : Z := 2.

Record TypeModifier := mk_TypeModifier {
  mode : Z; ndims : Z; dims : list Z; pdims : Z; maxdims : Z }.

#[export] Instance TypeModifier_eq : EqDecision TypeModifier.
Proof. solve_decision. Defined.

Definition int32 (z : Z) : option Z := if bool_decide (in_s 32 z) then Some z else None.

(** The loop of TypeModifier::make on the dimensions. *)
Fixpoint make_dims (ds : list Z) (md pd mx : Z) : option (Z * Z * Z) :=
  match ds with
  | [] => Some (md, pd, mx)
  | d :: ds =>
      if d <? 0 then
        d ← int32 (- d); mx ← int32 (mx * d); make_dims ds (Z.lor md VarDim_) pd mx
      else
        pd ← int32 (pd * d); mx ← int32 (mx * d); make_dims ds md pd mx
  end.

Definition make (isRef : bool) (ds : list Z) : option TypeModifier :=
  '(md, pd, mx) ← make_dims ds (if isRef then Indirect_ else 0) 1 1;
  Some (mk_TypeModifier md (s16 (Z.of_nat (length ds))) ds pd mx).

Definition isVarDim (t : TypeModifier) : bool := (mode t =? 2) || (mode t =? 3).
Definition isIndirect (t : TypeModifier) : bool := (mode t =? 1) || (mode t =? 3).

(** TypeModifier::compare; [None] when a dimension is read out of an array. *)
Fixpoint compare_dims (n : nat) (ds ds' : list Z) : option bool :=
  match n with
  | O => Some true
  | S n =>
      match ds, ds' with
      | d :: ds, d' :: ds' => if negb (d =? d') then Some false else compare_dims n ds ds'
      | _, _ => None
      end
  end.
Definition compare (t tmod : TypeModifier) : option bool :=
  if negb (ndims t =? ndims tmod) then Some false
  else if negb (pdims t =? pdims tmod) then Some false
  else if negb (maxdims t =? maxdims tmod) then Some false
  else if negb (mode t =? mode tmod) then Some false
  else compare_dims (Z.to_nat (ndims t)) (dims t) (dims tmod).

Section Coding.
Context `{X : Xdr}.

(** The loops on the dimensions. *)
Fixpoint code_dims (n : nat) (ds : list Z) (e : coder) : option coder :=
  match n with
  | O => Some e
  | S n => match ds with d :: ds => e ← int32_code d e; code_dims n ds e | [] => None end
  end.
Fixpoint decode_dims (n : nat) (d : Data) (off : Z) : option (list Z * Z) :=
  match n with
  | O => Some ([], off)
  | S n => '(k, off) ← int32_decode d off; '(ks, off) ← decode_dims n d off; Some (k :: ks, off)
  end.

(** TypeModifier::codeIDR and decodeIDR *)
Definition typmod_code (t : TypeModifier) (e : coder) : option coder :=
  e ← int16_code (s16 (mode t)) e;
  e ← int32_code (pdims t) e;
  e ← int32_code (maxdims t) e;
  e ← int16_code (ndims t) e;
  code_dims (Z.to_nat (ndims t)) (dims t) e.

Definition typmod_decode (d : Data) (off : Z) : option (TypeModifier * Z) :=
  '(k, off) ← int16_decode d off;
  '(pd, off) ← int32_decode d off;
  '(mx, off) ← int32_decode d off;
  '(n, off) ← int16_decode d off;
  '(ds, off) ← decode_dims (Z.to_nat n) d off;
  Some (mk_TypeModifier k n ds pd mx, off).

(** ** Attributes *)

Context {OI : Oids Oid}.

(** What is used of the class a pointer leads to: its oid, and the oid of the class
    that the schema of the database has under its name. *)
Record ClassRef := mk_ClassRef { getOid : Oid; getClass : option Oid }.

(** [endoff] is where the coded attribute ends; [cls] and [class_owner] are [None]
    when null, [inv_item] is the oid of the owner and the number of inv_spec.item. *)
Record Attribute := mk_Attribute {
  endoff : Z; code : Z; cls : option ClassRef; oid_cl : Oid;
  class_owner : option ClassRef; oid_cl_own : Oid; magorder : Z;
  inv_item : option (Oid * Z); inv_oid_cl : Oid; inv_num : Z;
  is_basic_enum : Z; is_string : Z; dspid : Z; attr_comp_set_oid : Oid; name : cstr;
  idr_inisize : Z; idr_poff : Z; idr_item_psize : Z; idr_psize : Z;
  idr_voff : Z; idr_item_vsize : Z; idr_vsize : Z; typmod : TypeModifier }.

Definition set_endoff (n : Z) (a : Attribute) : Attribute :=
  mk_Attribute n (code a) (cls a) (oid_cl a) (class_owner a) (oid_cl_own a) (magorder a)
    (inv_item a) (inv_oid_cl a) (inv_num a) (is_basic_enum a) (is_string a) (dspid a)
    (attr_comp_set_oid a) (name a) (idr_inisize a) (idr_poff a) (idr_item_psize a) (idr_psize a)
    (idr_voff a) (idr_item_vsize a) (idr_vsize a) (typmod a).
Definition set_inverse (o : Oid) (n : Z) (a : Attribute) : Attribute :=
  mk_Attribute (endoff a) (code a) (cls a) (oid_cl a) (class_owner a) (oid_cl_own a) (magorder a)
    (inv_item a) o n (is_basic_enum a) (is_string a) (dspid a)
    (attr_comp_set_oid a) (name a) (idr_inisize a) (idr_poff a) (idr_item_psize a) (idr_psize a)
    (idr_voff a) (idr_item_vsize a) (idr_vsize a) (typmod a).

Definition set_attr_comp_set_oid (o : Oid) (a : Attribute) : Attribute :=
  mk_Attribute (endoff a) (code a) (cls a) (oid_cl a) (class_owner a) (oid_cl_own a) (magorder a)
    (inv_item a) (inv_oid_cl a) (inv_num a) (is_basic_enum a) (is_string a) (dspid a)
    o (name a) (idr_inisize a) (idr_poff a) (idr_item_psize a) (idr_psize a)
    (idr_voff a) (idr_item_vsize a) (idr_vsize a) (typmod a).

Definition AttrDirect_Code : Z := 0x31.
Definition AttrIndirect_Code : Z := 0x32.
Definition AttrVarDim_Code : Z := 0x33.
Definition AttrIndirectVarDim_Code : Z := 0x34.
Definition AttrNative_Code : Z := 0x35.

Definition isNative (a : Attribute) : bool := code a =? AttrNative_Code.

Definition ATTR_COMP_SET_OID_OFFSET : Z := 40.

(** Attribute::getClassOid *)
Definition getClassOid (ocls : ClassRef) (cls_oid : Oid) : Oid :=
  let oid := getOid ocls in
  if isValid oid then oid
  else if isValid cls_oid then cls_oid
  else match getClass ocls with Some xcls => xcls | None => oid end.

(** The inverse, found from its attribute when its class was not known. *)
Definition complete_inverse (a : Attribute) : Attribute :=
  match inv_item a with
  | Some (o, n) => if isValid (inv_oid_cl a) then a else set_inverse o n a
  | None => a
  end.

(** Attribute::codeIDR: the attribute as it is afterwards, and the buffer. *)
Definition codeIDR (a : Attribute) (e : coder) : option (Attribute * coder) :=
  if isNative a then Some (a, e)
  else
    let soffset := offset e in
    e ← int32_code (endoff a) e;
    e ← int16_code (code a) e;
    c ← cls a;
    e ← oid_code (getClassOid c (oid_cl a)) e;
    o ← class_owner a;
    e ← oid_code (getClassOid o (oid_cl_own a)) e;
    e ← int32_code (magorder a) e;
    let a := complete_inverse a in
    e ← oid_code (inv_oid_cl a) e;
    e ← int16_code (inv_num a) e;
    e ← char_code (is_basic_enum a) e;
    e ← char_code (is_string a) e;
    e ← int16_code (dspid a) e;
    if negb (offset e - soffset =? ATTR_COMP_SET_OID_OFFSET) then None
    else
      e ← oid_code (attr_comp_set_oid a) e;
      e ← string_code (name a) e;
      e ← int32_code (idr_inisize a) e;
      e ← int32_code (idr_poff a) e;
      e ← int32_code (idr_item_psize a) e;
      e ← int32_code (idr_psize a) e;
      e ← int32_code (idr_voff a) e;
      e ← int32_code (idr_item_vsize a) e;
      e ← int32_code (idr_vsize a) e;
      e ← typmod_code (typmod a) e;
      let endoff := offset e in
      e' ← int32_code endoff (mk_coder (idr e) (alloc_size e) soffset);
      Some (set_endoff endoff a, mk_coder (idr e') (alloc_size e') (offset e)).

(** The constructor of Attribute from its coded form. *)
Definition decode_attribute (d : Data) (off : Z) : option (Attribute * Z) :=
  '(endoff, off) ← int32_decode d off;
  '(code, off) ← int16_decode d off;
  '(oid_cl, off) ← oid_decode d off;
  '(oid_cl_own, off) ← oid_decode d off;
  '(magorder, off) ← int32_decode d off;
  '(inv_oid_cl, off) ← oid_decode d off;
  '(inv_num, off) ← int16_decode d off;
  '(is_basic_enum, off) ← char_decode d off;
  '(is_string, off) ← char_decode d off;
  '(dspid, off) ← int16_decode d off;
  '(attr_comp_set_oid, off) ← oid_decode d off;
  '(p, off) ← string_decode d off;
  name ← string_at d p;
  '(idr_inisize, off) ← int32_decode d off;
  '(idr_poff, off) ← int32_decode d off;
  '(idr_item_psize, off) ← int32_decode d off;
  '(idr_psize, off) ← int32_decode d off;
  '(idr_voff, off) ← int32_decode d off;
  '(idr_item_vsize, off) ← int32_decode d off;
  '(idr_vsize, off) ← int32_decode d off;
  '(typmod, off) ← typmod_decode d off;
  Some (mk_Attribute endoff code None oid_cl None oid_cl_own magorder None inv_oid_cl inv_num
          is_basic_enum is_string dspid attr_comp_set_oid name idr_inisize idr_poff idr_item_psize idr_psize idr_voff
          idr_item_vsize idr_vsize typmod, off).

(** makeAttribute: the code says which class of attributes is built, all by that
    constructor; an unknown one fails. *)
Definition makeAttribute (d : Data) (off : Z) : option (Attribute * Z) :=
  '(_, off) ← int32_decode d off;
  '(c, off) ← int16_decode d off;
  let off := u32 (off - 2) in
  let off := u32 (off - 4) in
  if (c =? AttrDirect_Code) || (c =? AttrIndirect_Code) || (c =? AttrVarDim_Code)
     || (c =? AttrIndirectVarDim_Code)
  then decode_attribute d off else None.

(** The attributes of a class, in the loop of AgregatClass::create. *)
Fixpoint code_attributes (l : list Attribute) (e : coder) : option (list Attribute * coder) :=
  match l with
  | [] => Some ([], e)
  | a :: l => '(a, e) ← codeIDR a e; '(l, e) ← code_attributes l e; Some (a :: l, e)
  end.

(** The loops of agregatClassMake: [cnt] attributes, the first ones those that every
    object has. *)
Fixpoint make_attributes (n : nat) (d : Data) (off : Z) : option (list Attribute * Z) :=
  match n with
  | O => Some ([], off)
  | S n => '(a, off) ← makeAttribute d off; '(l, off) ← make_attributes n d off; Some (a :: l, off)
  end.
Definition class_attributes (items_nat : list Attribute) (cnt : Z) (d : Data) (off : Z)
  : option (list Attribute * Z) :=
  '(l, off) ← make_attributes (Z.to_nat cnt - length items_nat) d off;
  Some (items_nat ++ l, off).

(** Attribute::reportAttrCompSetOid: the oid is written in place and the offset
    moves to the end of the attribute. *)
Definition reportAttrCompSetOid (a : Attribute) (off : Z) (d : Data) : option (Data * Z) :=
  '(endo, _) ← int32_decode d off;
  let soffset := off + ATTR_COMP_SET_OID_OFFSET in
  e ← oid_code (attr_comp_set_oid a) (mk_coder d (u32 (soffset + Z.of_nat sizeof_Oid)) soffset);
  Some (idr e, endo).

(** Attribute::codeClassOid *)
Definition codeClassOid (a : Attribute) (off : Z) (d : Data) : option (Data * Z) :=
  let off := off + 2 in
  c ← cls a;
  e ← oid_code (getOid c) (mk_coder d (endoff a) off);
  o ← class_owner a;
  e ← oid_code (getOid o) e;
  Some (idr e, endoff a).

End Coding.

(** ** The modifiers that make builds *)

Fixpoint abs_product (ds : list Z) : Z :=
  match ds with [] => 1 | d :: ds => Z.abs d * abs_product ds end.
Fixpoint fixed_product (ds : list Z) : Z :=
  match ds with [] => 1 | d :: ds => if d <? 0 then fixed_product ds else d * fixed_product ds end.

Lemma abs_product_pos ds : Forall (fun d => d <> 0) ds -> 1 <= abs_product ds.
Proof. induction 1 as [|d ds Hd _ IH]; cbn [abs_product]; [lia|]. nia. Qed.

Lemma fixed_product_le ds : Forall (fun d => d <> 0) ds -> 1 <= fixed_product ds <= abs_product ds.
Proof.
  induction 1 as [|d ds Hd H IH]; cbn [abs_product fixed_product]; [lia|]. pose proof (abs_product_pos ds H). destruct (Z.ltb_spec d 0); nia.
Qed.

Lemma int32_id z : in_s 32 z -> int32 z = Some z.
Proof. intros H. unfold int32. by rewrite bool_decide_true. Qed.

Lemma make_dims_spec ds : Forall (fun d => d <> 0) ds -> forall md pd mx,
  1 <= pd -> pd <= mx -> mx * abs_product ds < 2 ^ 31 ->
  make_dims ds md pd mx
  = Some (if existsb (fun d => d <? 0) ds then Z.lor md VarDim_ else md, pd * fixed_product ds, mx * abs_product ds).
Proof.
  induction 1 as [|d ds Hd H IH]; intros md pd mx Hpd Hmx Hb; cbn [make_dims existsb abs_product fixed_product].
  { by rewrite !Z.mul_1_r. }
  cbn [abs_product] in Hb.
  pose proof (abs_product_pos ds H). pose proof (fixed_product_le ds H).
  assert (1 <= Z.abs d) as Ha by lia.
  assert (mx <= mx * Z.abs d) as Hm0 by nia.
  assert (Z.abs d <= mx * Z.abs d) as Hm1 by nia.
  assert (mx * Z.abs d <= mx * (Z.abs d * abs_product ds)) as Hm2 by (apply Z.mul_le_mono_nonneg_l; nia).
  destruct (Z.ltb_spec d 0).
  - replace (Z.abs d) with (- d) in * by lia.
    rewrite int32_id by (unfold in_s; lia). cbn [mbind option_bind].
    rewrite int32_id by (unfold in_s; lia). cbn [mbind option_bind].
    rewrite IH; [|lia|lia|by rewrite <- Z.mul_assoc]. cbn [orb].
    f_equal. f_equal; [f_equal|lia].
    destruct (existsb _ ds); [|done]. by rewrite <- Z.lor_assoc.
  - replace (Z.abs d) with d in * by lia.
    assert (pd * d <= mx * d) by (apply Z.mul_le_mono_nonneg_r; lia). assert (1 <= pd * d) by nia.
    rewrite int32_id by (unfold in_s; lia). cbn [mbind option_bind].
    rewrite int32_id by (unfold in_s; lia). cbn [mbind option_bind].
    rewrite IH; [|lia|lia|by rewrite <- Z.mul_assoc]. cbn [orb].
    f_equal. f_equal; [f_equal|]; lia.
Qed.

Lemma make_spec isRef ds :
  Forall (fun d => d <> 0) ds -> abs_product ds < 2 ^ 31 -> Z.of_nat (length ds) < 2 ^ 15 ->
  exists t, make isRef ds = Some t /\ dims t = ds /\ ndims t = Z.of_nat (length ds)
    /\ pdims t = fixed_product ds /\ maxdims t = abs_product ds
    /\ isIndirect t = isRef /\ isVarDim t = existsb (fun d => d <? 0) ds /\ 0 <= mode t <= 3.
Proof.
  intros H Hb Hn. unfold make. rewrite make_dims_spec by (done || lia). cbn [mbind option_bind].
  eexists. split; [done|]. cbn. split; [done|].
  split; [apply wrap_s_id; [lia|unfold in_s; lia]|]. rewrite !Z.mul_1_l. split; [done|]. split; [done|].
  unfold isIndirect, isVarDim. cbn. by destruct isRef, (existsb _ ds).
Qed.

(** A modifier whose counts are those of its dimensions. *)
Definition typmod_ok (t : TypeModifier) : Prop :=
  in_s 16 (mode t) /\ in_s 32 (pdims t) /\ in_s 32 (maxdims t) /\ ndims t = Z.of_nat (length (dims t))
  /\ ndims t < 2 ^ 15 /\ Forall (in_s 32) (dims t).

Lemma compare_dims_eq ds ds' : length ds = length ds' -> compare_dims (length ds) ds ds' = Some (bool_decide (ds = ds')).
Proof.
  revert ds'. induction ds as [|d ds IH]; intros [|d' ds'] Hl; try done; cbn [length compare_dims].
  injection Hl as Hl. destruct (Z.eqb_spec d d') as [->|Hne]; cbn [negb].
  - rewrite IH by done. f_equal. apply bool_decide_ext. split; [by intros ->|by intros [=]].
  - f_equal. symmetry. apply bool_decide_eq_false. by intros [=].
Qed.

Lemma compare_eq t t' : typmod_ok t -> typmod_ok t' -> compare t t' = Some (bool_decide (t = t')).
Proof.
  intros (_ & _ & _ & Hn & _) (_ & _ & _ & Hn' & _). unfold compare.
  destruct t as [m n ds p x], t' as [m' n' ds' p' x']; cbn [mode ndims dims pdims maxdims] in *.
  destruct (Z.eqb_spec n n') as [E|]; cbn [negb]; [|f_equal; symmetry; apply bool_decide_eq_false; congruence].
  destruct (Z.eqb_spec p p') as [<-|]; cbn [negb]; [|f_equal; symmetry; apply bool_decide_eq_false; congruence].
  destruct (Z.eqb_spec x x') as [<-|]; cbn [negb]; [|f_equal; symmetry; apply bool_decide_eq_false; congruence].
  destruct (Z.eqb_spec m m') as [<-|]; cbn [negb]; [|f_equal; symmetry; apply bool_decide_eq_false; congruence].
  rewrite Hn, Nat2Z.id, compare_dims_eq by lia. f_equal. apply bool_decide_ext.
  split; [intros ->; congruence|by intros [=]].
Qed.

(** ** Coded attributes are sequences of values *)

Section Items.
Context `{XL : XdrLaws} {OI : Oids Oid}.

Definition typmod_items (t : TypeModifier) : list item :=
  [IInt16 (mode t); IInt32 (pdims t); IInt32 (maxdims t); IInt16 (ndims t)] ++ (IInt32 <$> dims t).

Lemma typmod_items_ok t : typmod_ok t -> Forall item_ok (typmod_items t).
Proof.
  intros (? & ? & ? & Hn & ? & Hd). unfold typmod_items. repeat (apply List.Forall_cons; [done || (cbn; unfold in_s; lia)|]).
  by apply Forall_fmap.
Qed.

Lemma code_dims_items ds e : code_dims (length ds) ds e = code_items (IInt32 <$> ds) e.
Proof. revert e. induction ds as [|d ds IH]; intros e; [done|]. cbn. by apply bind_eq. Qed.

Lemma typmod_code_items t e : typmod_ok t -> typmod_code t e = code_items (typmod_items t) e.
Proof.
  intros (Hm & _ & _ & Hn & _). unfold typmod_code, typmod_items. cbn [app code_items code_item].
  rewrite (wrap_s_id 16 (mode t)) by (done || lia). rewrite Hn, Nat2Z.id.
  do 4 (apply bind_eq; intros ?). apply code_dims_items.
Qed.

Lemma decode_int16_inv k k' d off o :
  decode_item (IInt16 k) d off = Some (IInt16 k', o) -> int16_decode d off = Some (k', o).
Proof.
  cbn [decode_item]. destruct (int16_decode d off) as [[? ?]|]; cbn [mbind option_bind]; [|done].
  by intros [= -> ->].
Qed.
Lemma decode_char_inv k k' d off o :
  decode_item (IChar k) d off = Some (IChar k', o) -> char_decode d off = Some (k', o).
Proof.
  cbn [decode_item]. destruct (char_decode d off) as [[? ?]|]; cbn [mbind option_bind]; [|done].
  by intros [= -> ->].
Qed.
Lemma decode_string_inv k k' d off o :
  decode_item (IString k) d off = Some (IString k', o) ->
  exists p, string_decode d off = Some (p, o) /\ string_at d p = Some k'.
Proof.
  cbn [decode_item]. destruct (string_decode d off) as [[p ?]|]; cbn [mbind option_bind]; [|done].
  destruct (string_at d p) as [s|] eqn:E; cbn [mbind option_bind]; [|done]. intros [= -> ->]. by exists p.
Qed.

(** Reads the values of a sequence one after the other. *)
Ltac read_items H :=
  repeat (apply decode_items_cons in H as (? & ?E & H));
  repeat match goal with
  | E : decode_item (IInt32 _) _ _ = _ |- _ => apply decode_int32_inv in E
  | E : decode_item (IInt16 _) _ _ = _ |- _ => apply decode_int16_inv in E
  | E : decode_item (IChar _) _ _ = _ |- _ => apply decode_char_inv in E
  | E : decode_item (IOid _) _ _ = _ |- _ => apply decode_oid_inv in E
  | E : decode_item (IString _) _ _ = _ |- _ => apply decode_string_inv in E as (? & ?E & ?E)
  end.
Ltac use_reads := repeat match goal with E : _ = Some _ |- _ => rewrite E; cbn [mbind option_bind]; clear E end.

Lemma decode_dims_items ds d off off' :
  decode_items (IInt32 <$> ds) d off = Some (IInt32 <$> ds, off') -> decode_dims (length ds) d off = Some (ds, off').
Proof.
  revert off. induction ds as [|k ds IH]; intros off H; [by injection H as ->|]. cbn [fmap list_fmap] in H.
  apply decode_items_cons in H as (o & E%decode_int32_inv & H). cbn [length decode_dims]. rewrite E. cbn [mbind option_bind].
  by rewrite (IH o H).
Qed.

Lemma typmod_decode_items t d off off' : typmod_ok t ->
  decode_items (typmod_items t) d off = Some (typmod_items t, off') -> typmod_decode d off = Some (t, off').
Proof.
  intros (_ & _ & _ & Hn & _) H. unfold typmod_items in H. cbn [app] in H.
  apply decode_items_cons in H as (o1 & E1%decode_int16_inv & H).
  apply decode_items_cons in H as (o2 & E2%decode_int32_inv & H).
  apply decode_items_cons in H as (o3 & E3%decode_int32_inv & H).
  apply decode_items_cons in H as (o4 & E4%decode_int16_inv & H).
  apply decode_dims_items in H. unfold typmod_decode. rewrite E1. cbn [mbind option_bind]. rewrite E2. cbn [mbind option_bind].
  rewrite E3. cbn [mbind option_bind]. rewrite E4. cbn [mbind option_bind]. rewrite Hn, Nat2Z.id, H. by destruct t; cbn in *; subst.
Qed.

(** The values before the oid of the component set, and from it on. *)
Definition head_items (a : Attribute) : list item :=
  [IInt16 (code a); IOid (oid_cl a); IOid (oid_cl_own a); IInt32 (magorder a); IOid (inv_oid_cl a);
   IInt16 (inv_num a); IChar (is_basic_enum a); IChar (is_string a); IInt16 (dspid a)].
Definition tail_items (a : Attribute) : list item :=
  [IOid (attr_comp_set_oid a); IString (name a); IInt32 (idr_inisize a); IInt32 (idr_poff a);
   IInt32 (idr_item_psize a); IInt32 (idr_psize a); IInt32 (idr_voff a); IInt32 (idr_item_vsize a);
   IInt32 (idr_vsize a)] ++ typmod_items (typmod a).
Definition attribute_items (a : Attribute) : list item := IInt32 (endoff a) :: head_items a ++ tail_items a.

Definition attribute_ok (a : Attribute) : Prop :=
  in_s 32 (endoff a) /\ in_s 16 (code a) /\ in_s 32 (magorder a) /\ in_s 16 (inv_num a)
  /\ 0 <= is_basic_enum a < 256 /\ 0 <= is_string a < 256 /\ in_s 16 (dspid a)
  /\ (no_nul (name a) /\ strlen (name a) + 1 < 2 ^ 31)
  /\ in_s 32 (idr_inisize a) /\ in_s 32 (idr_poff a) /\ in_s 32 (idr_item_psize a) /\ in_s 32 (idr_psize a)
  /\ in_s 32 (idr_voff a) /\ in_s 32 (idr_item_vsize a) /\ in_s 32 (idr_vsize a) /\ typmod_ok (typmod a).

Lemma attribute_items_ok a : attribute_ok a ->
  Forall item_ok (head_items a) /\ Forall item_ok (tail_items a).
Proof.
  intros (? & ? & ? & ? & ? & ? & ? & ? & ? & ? & ? & ? & ? & ? & ? & Ht). split.
  - unfold head_items. repeat (apply List.Forall_cons; [done|]). constructor.
  - unfold tail_items. cbn [app]. repeat (apply List.Forall_cons; [done|]). by apply typmod_items_ok.
Qed.

(** An attribute as the constructor builds it. *)
Definition unlinked (a : Attribute) : Prop := cls a = None /\ class_owner a = None /\ inv_item a = None.

Lemma decode_attribute_items a d off off' : attribute_ok a -> unlinked a ->
  decode_items (attribute_items a) d off = Some (attribute_items a, off') -> decode_attribute d off = Some (a, off').
Proof.
  intros Hok (Hc & Ho & Hi) H. unfold attribute_items, head_items, tail_items in H. cbn [app] in H.
  do 19 (apply decode_items_cons in H as (? & ?E & H)).
  apply (typmod_decode_items (typmod a)) in H; [|by apply Hok].
  read_items H. unfold decode_attribute. use_reads. destruct a; cbn in *. by subst.
Qed.

(** ** Coding an attribute *)

(** What the constructor reads back of an attribute coded at [c], [o] its class and
    owner and [n] the end of its coded form. *)
Definition read_back (n : Z) (a : Attribute) : Attribute :=
  let a := complete_inverse a in
  let oid_of c o := match c with Some c => getClassOid c o | None => o end in
  mk_Attribute n (code a) None (oid_of (cls a) (oid_cl a)) None
    (oid_of (class_owner a) (oid_cl_own a)) (magorder a) None (inv_oid_cl a) (inv_num a)
    (is_basic_enum a) (is_string a) (dspid a) (attr_comp_set_oid a) (name a) (idr_inisize a)
    (idr_poff a) (idr_item_psize a) (idr_psize a) (idr_voff a) (idr_item_vsize a) (idr_vsize a)
    (typmod a).

(** An attribute that can be coded: linked to its class and owner, of a known kind. *)
Definition codable (a : Attribute) : Prop :=
  attribute_ok (complete_inverse a) /\ is_Some (cls a) /\ is_Some (class_owner a)
  /\ AttrDirect_Code <= code a <= AttrIndirectVarDim_Code.

Definition attribute_size (a : Attribute) : Z := items_size (attribute_items (read_back 0 a)).

Lemma bind_assoc {A B C} (x : option A) (f : A -> option B) (g : B -> option C) :
  ((x ≫= f) ≫= g) = (x ≫= fun a => f a ≫= g).
Proof. by destruct x. Qed.

(** [codeIDR] codes the values of [read_back], the check on the offset between the
    head and the tail, and then the end in place of the first value. *)
Lemma complete_inverse_other a : code (complete_inverse a) = code a /\ cls (complete_inverse a) = cls a
  /\ class_owner (complete_inverse a) = class_owner a /\ oid_cl (complete_inverse a) = oid_cl a
  /\ oid_cl_own (complete_inverse a) = oid_cl_own a /\ endoff (complete_inverse a) = endoff a
  /\ magorder (complete_inverse a) = magorder a
  /\ attr_comp_set_oid (complete_inverse a) = attr_comp_set_oid a.
Proof. unfold complete_inverse. destruct (inv_item a) as [[o n]|]; [|done]. by destruct (isValid _). Qed.

Lemma codeIDR_items a e : codable a ->
  codeIDR a e
  = (e1 ← int32_code (endoff a) e;
     e2 ← code_items (head_items (read_back 0 a)) e1;
     if negb (offset e2 - offset e =? ATTR_COMP_SET_OID_OFFSET) then None
     else
       e3 ← code_items (tail_items (read_back 0 a)) e2;
       e4 ← int32_code (offset e3) (mk_coder (idr e3) (alloc_size e3) (offset e));
       Some (set_endoff (offset e3) (complete_inverse a), mk_coder (idr e4) (alloc_size e4) (offset e3))).
Proof.
  intros (Hok & [c Hc] & [o Ho] & Hk).
  destruct (complete_inverse_other a) as (E1 & E2 & E3 & E4 & E5 & E6 & E7 & _).
  unfold codeIDR, isNative. destruct (Z.eqb_spec (code a) AttrNative_Code) as [E|_];
    [unfold AttrNative_Code, AttrIndirectVarDim_Code in *; lia|].
  unfold head_items, tail_items, read_back. cbn [app code_items code_item code oid_cl oid_cl_own magorder
    inv_oid_cl inv_num is_basic_enum is_string dspid attr_comp_set_oid name idr_inisize idr_poff idr_item_psize
    idr_psize idr_voff idr_item_vsize idr_vsize typmod].
  rewrite E1, E2, E3, E4, E5, E7, Hc, Ho. cbn [mbind option_bind].
  apply bind_eq; intros e1. repeat (rewrite bind_assoc; apply bind_eq; intros ?). cbn [mbind option_bind].
  destruct (negb _); [done|]. repeat (rewrite bind_assoc; apply bind_eq; intros ?).
  rewrite typmod_code_items by apply Hok. done.
Qed.
(** Four bytes before the offset are replaced in place. *)
Lemma patch_spec n so e (w c r : Data) :
  coder_ok e -> written e = w ++ c ++ r -> Z.of_nat (length w) = so -> length c = 4%nat ->
  exists e', int32_code n (mk_coder (idr e) (alloc_size e) so) = Some e'
    /\ coder_ok (mk_coder (idr e') (alloc_size e') (offset e))
    /\ written (mk_coder (idr e') (alloc_size e') (offset e)) = w ++ (Some <$> h2x_32 n) ++ r.
Proof.
  intros [Ha Ho Hb] Hw Hso Hc. unfold written in Hw.
  assert (length (w ++ c ++ r) = Z.to_nat (offset e)) as Hl by (rewrite <- Hw, length_take; lia).
  rewrite !length_app in Hl.
  pose proof (put_in_place 4 (h2x_32 n) (mk_coder (idr e) (alloc_size e) so) (h2x_32_length n)) as Hp.
  unfold in_place in Hp. cbn [idr alloc_size offset] in Hp. unfold int32_code. change 4 with (Z.of_nat 4).
  rewrite Hp by (unfold has_room; cbn [idr alloc_size offset]; lia). clear Hp.
  eexists. split; [done|]. cbn [idr alloc_size offset].
  assert (length (overwrite so (Some <$> h2x_32 n) (idr e)) = length (idr e)) as Hlo
    by (apply overwrite_length; rewrite ?length_fmap, ?h2x_32_length; lia).
  split; [split; cbn [idr alloc_size offset]; lia|].
  unfold written; cbn [idr offset]. unfold overwrite.
  rewrite <- (take_drop (Z.to_nat (offset e)) (idr e)), Hw. rewrite length_fmap, h2x_32_length.
  replace (Z.to_nat so) with (length w) by lia.
  rewrite <- (assoc_L (++) w), take_app_length.
  rewrite <- drop_drop, drop_app_length, <- (assoc_L (++) c), <- Hc, drop_app_length.
  replace (Z.to_nat (offset e)) with (length (w ++ (Some <$> h2x_32 n) ++ r))
    by (rewrite !length_app, length_fmap, h2x_32_length; lia).
  rewrite !(assoc_L (++)). by rewrite take_app_length.
Qed.

Lemma written_length e : coder_ok e -> Z.of_nat (length (written e)) = offset e.
Proof. intros [Ha Ho Hb]. unfold written. rewrite length_take. lia. Qed.

Lemma items_size_app l l' : items_size (l ++ l') = items_size l + items_size l'.
Proof. induction l as [|i l IH]; cbn [app items_size]; lia. Qed.

Lemma decode_items_app l1 l2 d off off1 off2 :
  decode_items l1 d off = Some (l1, off1) -> decode_items l2 d off1 = Some (l2, off2) ->
  decode_items (l1 ++ l2) d off = Some (l1 ++ l2, off2).
Proof.
  revert off. induction l1 as [|i l1 IH]; intros off H1 H2.
  { cbn in H1. by injection H1 as ->. }
  apply decode_items_cons in H1 as (o & E & H1). cbn [app decode_items]. rewrite E. cbn [mbind option_bind].
  by rewrite (IH o H1 H2).
Qed.

Lemma read_back_ok n a : codable a -> in_s 32 n -> attribute_ok (read_back n a).
Proof.
  intros ((? & ? & ? & ? & ? & ? & ? & ? & ? & ? & ? & ? & ? & ? & ? & ?) & _) Hn.
  destruct (complete_inverse_other a) as (E1 & _).
  unfold attribute_ok, read_back. cbn [endoff code magorder inv_num is_basic_enum is_string dspid name idr_inisize
    idr_poff idr_item_psize idr_psize idr_voff idr_item_vsize idr_vsize typmod]. done.
Qed.

Lemma head_items_size a : sizeof_Oid = 8%nat -> items_size (head_items a) = 36.
Proof. intros Hs. cbn [head_items items_size item_size]. rewrite Hs. done. Qed.

Lemma code_items_cons i l e : code_items (i :: l) e = (e ← code_item i e; code_items l e).
Proof. done. Qed.

(** The bytes of a coded attribute, around the oid of the component set. *)
Definition attribute_cells (n : Z) (b2 : Data) (o : Oid) (b3 : Data) : Data :=
  (Some <$> h2x_32 n) ++ b2 ++ (Some <$> h2x_oid o) ++ b3.

(** The values after the oid of the component set. *)
Definition rest_items (a : Attribute) : list item := tail (tail_items a).

Lemma decode_items_at l bs (pre rest : Data) off :
  (forall pre rest, Z.of_nat (length pre) + items_size l < 2 ^ 32 ->
     decode_items l (pre ++ bs ++ rest) (Z.of_nat (length pre)) = Some (l, Z.of_nat (length pre) + items_size l)) ->
  Z.of_nat (length pre) = off -> off + items_size l < 2 ^ 32 ->
  decode_items l (pre ++ bs ++ rest) off = Some (l, off + items_size l).
Proof. intros H <- Hb. by apply H. Qed.

Lemma decode_one_at i bs (pre rest : Data) off :
  item_ok i -> item_cells i bs -> Z.of_nat (length pre) = off -> off + item_size i < 2 ^ 32 ->
  decode_items [i] (pre ++ bs ++ rest) off = Some ([i], off + item_size i).
Proof.
  intros Hi Hc <- Hb. cbn [decode_items]. destruct (decode_item_cells i bs pre rest Hi Hc Hb) as [-> _]. done.
Qed.

(** Reading the bytes of a coded attribute, where the bytes [b2] and [b3] are those
    of its values, with whatever oid of a component set. *)
Lemma attribute_cells_decode a n o b2 b3 (pre rest : Data) off m :
  sizeof_Oid = 8%nat -> codable a -> in_s 32 n -> Z.of_nat (length pre) = off -> Z.of_nat (length b2) = 36 ->
  off + 48 + items_size (rest_items (read_back 0 a)) = m -> m < 2 ^ 32 ->
  (forall pre rest, Z.of_nat (length pre) + items_size (head_items (read_back 0 a)) < 2 ^ 32 ->
     decode_items (head_items (read_back 0 a)) (pre ++ b2 ++ rest) (Z.of_nat (length pre))
     = Some (head_items (read_back 0 a), Z.of_nat (length pre) + items_size (head_items (read_back 0 a)))) ->
  (forall pre rest, Z.of_nat (length pre) + items_size (rest_items (read_back 0 a)) < 2 ^ 32 ->
     decode_items (rest_items (read_back 0 a)) (pre ++ b3 ++ rest) (Z.of_nat (length pre))
     = Some (rest_items (read_back 0 a), Z.of_nat (length pre) + items_size (rest_items (read_back 0 a)))) ->
  decode_attribute (pre ++ attribute_cells n b2 o b3 ++ rest) off
  = Some (set_attr_comp_set_oid o (read_back n a), m).
Proof.
  intros Hs Ha Hn Hl Hl2 Hm Hb Hd2 Hd3.
  assert (0 <= items_size (rest_items (read_back 0 a))) as H0.
  { apply items_size_nonneg. destruct (attribute_items_ok (read_back 0 a)) as [_ Ht]; [by apply read_back_ok|].
    by apply Forall_inv_tail in Ht. }
  apply decode_attribute_items; [by apply (read_back_ok n a)|done|].
  change (attribute_items _) with
    ([IInt32 n] ++ head_items (read_back 0 a) ++ [IOid o] ++ rest_items (read_back 0 a)).
  unfold attribute_cells. rewrite <- !(assoc_L (++)).
  rewrite <- (head_items_size (read_back 0 a) Hs) in Hl2.
  pose proof (head_items_size (read_back 0 a) Hs) as E36.
  assert (length (Some <$> h2x_32 n) = 4%nat) as L4 by (rewrite length_fmap; apply h2x_32_length).
  assert (length (Some <$> h2x_oid o) = 8%nat) as L8 by (rewrite length_fmap, h2x_oid_length; done).
  eapply decode_items_app; [apply decode_one_at; [done|done|done|cbn [item_size]; lia]|].
  rewrite (assoc_L (++) pre).
  eapply decode_items_app; [apply decode_items_at; [done|rewrite length_app, L4; cbn [item_size]; lia|cbn [item_size]; lia]|].
  rewrite (assoc_L (++) (pre ++ _)).
  eapply decode_items_app; [apply decode_one_at; [done|done|rewrite !length_app, L4; cbn [item_size]; lia|cbn [item_size]; lia]|].
  rewrite (assoc_L (++) ((pre ++ _) ++ _)).
  rewrite (decode_items_at _ _ _ rest _ Hd3); [do 2 f_equal; cbn [item_size]; lia|rewrite !length_app, L4, L8; cbn [item_size]; lia|cbn [item_size]; lia].
Qed.

(** Coding an attribute from any state of the buffer, and reading it back from
    there. *)
Lemma codeIDR_spec a e0 :
  sizeof_Oid = 8%nat -> coder_ok e0 -> codable a ->
  offset e0 + attribute_size a + INC < 2 ^ 31 ->
  let n := offset e0 + attribute_size a in
  exists e b2 b3, codeIDR a e0 = Some (set_endoff n (complete_inverse a), e) /\ coder_ok e /\ offset e = n
    /\ written e = written e0 ++ attribute_cells n b2 (attr_comp_set_oid a) b3
    /\ length b2 = 36%nat
    /\ forall o rest, decode_attribute (written e0 ++ attribute_cells n b2 o b3 ++ rest) (offset e0)
                      = Some (set_attr_comp_set_oid o (read_back n a), n).
Proof.
  intros Hs He Ha Hb n. rewrite codeIDR_items by done.
  destruct (attribute_items_ok (read_back 0 a)) as [Hh Ht]; [by apply read_back_ok|].
  change (tail_items (read_back 0 a)) with (IOid (attr_comp_set_oid (read_back 0 a)) :: rest_items (read_back 0 a)) in *.
  apply Forall_cons in Ht as [Hto Ht].
  assert (attribute_size a = 48 + items_size (rest_items (read_back 0 a))) as Hsz.
  { unfold attribute_size. change (attribute_items (read_back 0 a)) with ([IInt32 0] ++ head_items (read_back 0 a)
      ++ [IOid (attr_comp_set_oid (read_back 0 a))] ++ rest_items (read_back 0 a)).
    rewrite !items_size_app, head_items_size by done. cbn [items_size item_size]. rewrite Hs. lia. }
  pose proof (items_size_nonneg _ Ht) as Ht0. pose proof (coder_offset e0 He) as Ho0.
  assert (in_s 32 n) as Hin by (unfold in_s, n; unfold INC in *; lia).
  destruct (complete_inverse_other a) as (_ & _ & _ & _ & _ & Ee & _ & Es).
  assert (in_s 32 (endoff a)) as Hend by (rewrite <- Ee; apply Ha).
  destruct (code_item_cells (IInt32 (endoff a)) e0 He Hend) as (b1 & (e1 & E1 & He1 & Ho1 & Hw1) & Hc1);
    [cbn; unfold INC in *; lia|]. cbn [item_size item_cells code_item] in *.
  rewrite E1. cbn [mbind option_bind].
  destruct (code_items_spec _ e1 He1 Hh) as (b2 & (e2 & E2 & He2 & Ho2 & Hw2) & Hn2 & Hd2);
    [rewrite head_items_size by done; unfold INC in *; lia|].
  pose proof (head_items_size (read_back 0 a) Hs) as E36. rewrite E2. cbn [mbind option_bind].
  destruct (Z.eqb_spec (offset e2 - offset e0) ATTR_COMP_SET_OID_OFFSET) as [_|E];
    [|unfold ATTR_COMP_SET_OID_OFFSET in E; lia]. cbn [negb].
  destruct (code_item_cells (IOid (attr_comp_set_oid a)) e2 He2 I) as (bo & (eo & Eo & Heo & Hoo & Hwo) & Hco);
    [cbn [item_size]; rewrite Hs; unfold INC in *; lia|]. cbn [item_size item_cells] in *. rewrite Hs in Hoo.
  destruct (code_items_spec _ eo Heo Ht) as (b3 & (e3 & E3 & He3 & Ho3 & Hw3) & Hn3 & Hd3);
    [unfold INC in *; lia|].
  rewrite code_items_cons. change (attr_comp_set_oid (read_back 0 a)) with (attr_comp_set_oid (complete_inverse a)).
  rewrite Es, Eo. cbn [mbind option_bind]. rewrite E3. cbn [mbind option_bind].
  assert (offset e3 = n) as Hn by (unfold n; lia).
  assert (length b1 = 4%nat) as Hb1 by (rewrite Hc1, length_fmap; apply h2x_32_length).
  pose proof (written_length e0 He) as Hl0.
  destruct (patch_spec (offset e3) (offset e0) e3 (written e0) b1 (b2 ++ bo ++ b3) He3)
    as (e4 & E4 & He4 & Hw4); [by rewrite Hw3, Hwo, Hw2, Hw1, <- !(assoc_L (++))|done|done|].
  rewrite E4. cbn [mbind option_bind]. rewrite Hn in *.
  eexists _, b2, b3. split; [done|]. split; [done|]. split; [done|].
  split; [by rewrite Hw4, Hco|]. split; [lia|]. intros o rest.
  apply attribute_cells_decode; [done|done|done|done|lia|unfold n; lia|unfold n; unfold INC in *; lia|done|done].
Qed.

(** ** The attributes of a class *)

Lemma get_inv {A} n (conv : list Z -> A) d off v o : get n conv d off = Some (v, o) -> o = u32 (off + Z.of_nat n).
Proof. unfold get. destruct (load off n d); cbn; [|done]. by intros [= _ ->]. Qed.

Lemma make_attribute_decode a d off o : 0 <= off < 2 ^ 32 -> AttrDirect_Code <= code a <= AttrIndirectVarDim_Code ->
  decode_attribute d off = Some (a, o) -> makeAttribute d off = Some (a, o).
Proof.
  intros Hoff Hc H. unfold makeAttribute. pose proof H as H'. unfold decode_attribute in H'.
  destruct (int32_decode d off) as [[n o1]|] eqn:E1; cbn [mbind option_bind] in *; [|done].
  destruct (int16_decode d o1) as [[c o2]|] eqn:E2; cbn [mbind option_bind] in *; [|done].
  apply get_inv in E1 as ->, E2 as ->. change (Z.of_nat 4) with 4. change (Z.of_nat 2) with 2.
  assert (u32 (u32 (u32 (u32 (off + 4) + 2) - 2) - 4) = off) as ->.
  { clear - Hoff. unfold u32, wrap_u. change (2 ^ 32) with 4294967296 in *. Z.div_mod_to_equations. lia. }
  replace (_ || _ || _ || _) with true; [done|].
  repeat match type of H' with
  | (?x ≫= _) = _ => destruct x as [[? ?]|]; cbn [mbind option_bind] in H'; [|done]
  | (?x ≫= _) = _ => destruct x; cbn [mbind option_bind] in H'; [|done]
  end.
  injection H' as <- _. cbn [code] in Hc. unfold AttrDirect_Code, AttrIndirect_Code, AttrVarDim_Code,
    AttrIndirectVarDim_Code in *. lia.
Qed.

(** The attributes after they are coded and as they are read back, from an offset. *)
Fixpoint coded (off : Z) (l : list Attribute) : list Attribute :=
  match l with
  | [] => []
  | a :: l => let n := off + attribute_size a in set_endoff n (complete_inverse a) :: coded n l
  end.
Fixpoint reread (off : Z) (l : list Attribute) : list Attribute :=
  match l with
  | [] => []
  | a :: l => let n := off + attribute_size a in read_back n a :: reread n l
  end.
Fixpoint attributes_size (l : list Attribute) : Z :=
  match l with [] => 0 | a :: l => attribute_size a + attributes_size l end.

Lemma attribute_size_nonneg a : codable a -> 0 <= attribute_size a.
Proof.
  intros Ha. destruct (attribute_items_ok (read_back 0 a)) as [Hh Ht]; [by apply read_back_ok|].
  unfold attribute_size, attribute_items. cbn [items_size item_size]. rewrite items_size_app.
  pose proof (items_size_nonneg _ Hh). pose proof (items_size_nonneg _ Ht). lia.
Qed.

Lemma attributes_size_nonneg l : Forall codable l -> 0 <= attributes_size l.
Proof. induction 1 as [|a l Ha _ IH]; cbn [attributes_size]; [lia|]. pose proof (attribute_size_nonneg a Ha). lia. Qed.

Lemma code_attributes_spec l e0 :
  sizeof_Oid = 8%nat -> coder_ok e0 -> Forall codable l -> offset e0 + attributes_size l + INC < 2 ^ 31 ->
  exists e bs, code_attributes l e0 = Some (coded (offset e0) l, e) /\ coder_ok e
    /\ offset e = offset e0 + attributes_size l /\ written e = written e0 ++ bs
    /\ forall rest, make_attributes (length l) (written e ++ rest) (offset e0)
                    = Some (reread (offset e0) l, offset e).
Proof.
  intros Hs He Hl. revert e0 He. induction Hl as [|a l Ha Hl IH]; intros e0 He Hb.
  { exists e0, []. rewrite app_nil_r. split; [done|]. split; [done|]. split; [cbn; lia|]. done. }
  cbn [attributes_size] in *. pose proof (attributes_size_nonneg l Hl). pose proof (attribute_size_nonneg a Ha).
  pose proof (coder_offset e0 He) as Ho0.
  destruct (codeIDR_spec a e0 Hs He Ha) as (e1 & b2 & b3 & E1 & He1 & Ho1 & Hw1 & _ & Hd1); [lia|].
  destruct (IH e1 He1) as (e2 & bs & E2 & He2 & Ho2 & Hw2 & Hd2); [lia|].
  eexists e2, (_ ++ bs). cbn [code_attributes coded]. rewrite E1. cbn [mbind option_bind]. rewrite E2, <- Ho1. cbn [mbind option_bind].
  split; [done|]. split; [done|]. split; [lia|]. split; [by rewrite Hw2, Hw1, <- (assoc_L (++))|].
  intros rest. cbn [length make_attributes reread]. rewrite <- Ho1.
  rewrite (make_attribute_decode (read_back (offset e1) a) _ _ (offset e1)); [|unfold INC in *; lia| |].
  - cbn [mbind option_bind]. by rewrite Hd2.
  - cbn [read_back code]. destruct (complete_inverse_other a) as [-> _]. apply Ha.
  - rewrite Hw2, Hw1, <- !(assoc_L (++)), Hd1, Ho1.
    do 2 f_equal. unfold set_attr_comp_set_oid, read_back; cbn.
    destruct (complete_inverse_other a) as (_ & _ & _ & _ & _ & _ & _ & ->). done.
Qed.

Lemma code_natives nats l e : Forall (fun a => isNative a = true) nats ->
  code_attributes (nats ++ l) e = ('(l, e) ← code_attributes l e; Some (nats ++ l, e)).
Proof.
  induction 1 as [|a nats Ha _ IH]; cbn [app code_attributes].
  { by destruct (code_attributes l e) as [[? ?]|]. }
  unfold codeIDR. rewrite Ha. cbn [mbind option_bind]. rewrite IH.
  by destruct (code_attributes l e) as [[? ?]|].
Qed.

(** ** Writing in place in a coded attribute *)

Lemma overwrite_mid off (w c bs r : Data) :
  Z.of_nat (length w) = off -> length bs = length c -> overwrite off bs (w ++ c ++ r) = w ++ bs ++ r.
Proof.
  intros <- Hl. unfold overwrite. rewrite Nat2Z.id, take_app_length. do 2 f_equal.
  rewrite <- drop_drop, drop_app_length, Hl. apply drop_app_length.
Qed.

Lemma oid_code_mid o e (w c r : Data) :
  idr e = w ++ c ++ r -> Z.of_nat (length w) = offset e -> length c = sizeof_Oid ->
  0 < offset e + Z.of_nat sizeof_Oid -> offset e + Z.of_nat sizeof_Oid <= alloc_size e ->
  alloc_size e <= Z.of_nat (length (idr e)) -> alloc_size e < 2 ^ 32 ->
  oid_code o e = Some (mk_coder (w ++ (Some <$> h2x_oid o) ++ r) (alloc_size e) (offset e + Z.of_nat sizeof_Oid)).
Proof.
  intros Hi Hw Hc H0 Ha Hd Hb.
  pose proof (put_in_place _ _ e (h2x_oid_length o)) as Hp. unfold in_place in Hp. unfold oid_code.
  rewrite Hp by (unfold has_room; lia).
  rewrite length_fmap, h2x_oid_length, Hi, overwrite_mid by (rewrite ?length_fmap, ?h2x_oid_length; lia). done.
Qed.

Lemma coded_idr e (w : Data) : written e = w -> idr e = w ++ drop (Z.to_nat (offset e)) (idr e).
Proof. intros <-. symmetry. apply take_drop. Qed.

(** The attribute just coded at [offset e0], its bytes in the buffer. *)
Lemma coded_attribute a e0 :
  sizeof_Oid = 8%nat -> coder_ok e0 -> codable a -> offset e0 + attribute_size a + INC < 2 ^ 31 ->
  let n := offset e0 + attribute_size a in
  exists e b2 b3 r, codeIDR a e0 = Some (set_endoff n (complete_inverse a), e)
    /\ idr e = written e0 ++ attribute_cells n b2 (attr_comp_set_oid a) b3 ++ r
    /\ length b2 = 36%nat /\ n <= Z.of_nat (length (idr e))
    /\ Z.of_nat (length (written e0)) = offset e0 /\ 0 <= offset e0 /\ 48 <= attribute_size a
    /\ forall o rest, decode_attribute (written e0 ++ attribute_cells n b2 o b3 ++ rest) (offset e0)
                      = Some (set_attr_comp_set_oid o (read_back n a), n).
Proof.
  intros Hs He Ha Hb n. destruct (codeIDR_spec a e0 Hs He Ha Hb) as (e & b2 & b3 & E & He' & Ho & Hw & Hl & Hd).
  exists e, b2, b3, (drop (Z.to_nat (offset e)) (idr e)). split; [done|].
  pose proof (coded_idr e _ Hw) as Hi. rewrite <- (assoc_L (++)) in Hi. split; [done|]. split; [done|].
  destruct He' as [Hal Hao _]. split; [lia|]. pose proof (written_length e0 He). destruct He as [_ Hao0 _].
  split; [done|]. split; [lia|]. split; [|done].
  unfold attribute_size, attribute_items. destruct (attribute_items_ok (read_back 0 a)) as [_ Ht]; [by apply read_back_ok|].
  cbn [items_size item_size]. rewrite items_size_app, head_items_size by done.
  change (tail_items (read_back 0 a)) with (IOid (attr_comp_set_oid (read_back 0 a)) :: rest_items (read_back 0 a)) in *.
  apply Forall_cons in Ht as [_ Ht]. pose proof (items_size_nonneg _ Ht). cbn [items_size item_size]. rewrite Hs. lia.
Qed.

Lemma report_spec a e0 o :
  sizeof_Oid = 8%nat -> coder_ok e0 -> codable a -> offset e0 + attribute_size a + INC < 2 ^ 31 ->
  exists a' e d, codeIDR a e0 = Some (a', e)
    /\ reportAttrCompSetOid (set_attr_comp_set_oid o a') (offset e0) (idr e) = Some (d, endoff a')
    /\ length d = length (idr e)
    /\ take (Z.to_nat (offset e0) + 40) d = take (Z.to_nat (offset e0) + 40) (idr e)
    /\ drop (Z.to_nat (offset e0) + 48) d = drop (Z.to_nat (offset e0) + 48) (idr e)
    /\ decode_attribute d (offset e0) = Some (set_attr_comp_set_oid o (read_back (endoff a') a), endoff a').
Proof.
  intros Hs He Ha Hb.
  destruct (coded_attribute a e0 Hs He Ha Hb) as (e & b2 & b3 & r & E & Hi & Hl & Hn & Hw & Ho & Hz & Hd).
  unfold INC in Hb. remember (offset e0 + attribute_size a) as n eqn:En.
  assert (in_s 32 n) as Hin by (unfold in_s; lia).
  pose proof (h2x_oid_length (attr_comp_set_oid a)) as L8. rewrite Hs in L8.
  pose proof (h2x_oid_length o) as L8'. rewrite Hs in L8'. pose proof (h2x_32_length n) as L4.
  eexists _, e, (written e0 ++ attribute_cells n b2 o b3 ++ r). split; [done|]. unfold reportAttrCompSetOid.
  rewrite Hi. unfold attribute_cells, int32_decode in *. rewrite <- !(assoc_L (++)) in *. rewrite <- Hw at 1.
  rewrite get_list by (done || lia). cbn [mbind option_bind]. rewrite x2h_h2x_32 by done.
  unfold ATTR_COMP_SET_OID_OFFSET. rewrite Hs, u32_id by lia. change (Z.of_nat 8) with 8.
  pose proof (f_equal length Hi) as Hli. rewrite !length_app, !length_fmap in Hli.
  assert (length ((written e0 ++ (Some <$> h2x_32 n)) ++ b2) = Z.to_nat (offset e0) + 40)%nat as Lp
    by (rewrite !length_app, length_fmap; lia).
  rewrite (oid_code_mid o _ ((written e0 ++ (Some <$> h2x_32 n)) ++ b2) (Some <$> h2x_oid (attr_comp_set_oid a)) (b3 ++ r)).
  2: { cbn [idr]. by rewrite <- !(assoc_L (++)). }
  2: { cbn [offset]. lia. }
  2: { rewrite length_fmap, Hs. lia. }
  2-5: cbn [idr alloc_size offset]; rewrite ?Hs, <- ?Hi; lia.
  cbn [mbind option_bind attr_comp_set_oid set_attr_comp_set_oid endoff set_endoff idr].
  assert (written e0 ++ (Some <$> h2x_32 n) ++ b2 ++ (Some <$> h2x_oid (attr_comp_set_oid a)) ++ b3 ++ r
          = ((written e0 ++ (Some <$> h2x_32 n)) ++ b2) ++ (Some <$> h2x_oid (attr_comp_set_oid a)) ++ (b3 ++ r)) as ->
    by (by rewrite <- !(assoc_L (++))).
  assert (written e0 ++ (Some <$> h2x_32 n) ++ b2 ++ (Some <$> h2x_oid o) ++ b3 ++ r
          = ((written e0 ++ (Some <$> h2x_32 n)) ++ b2) ++ (Some <$> h2x_oid o) ++ (b3 ++ r)) as E2
    by (by rewrite <- !(assoc_L (++))).
  specialize (Hd o r). rewrite <- !(assoc_L (++)), E2 in Hd. rewrite E2. clear E2.
  split; [done|]. split; [rewrite !length_app, !length_fmap; lia|].
  rewrite <- Lp, !take_app_length. split; [done|].
  replace (Z.to_nat (offset e0) + 48)%nat with (length ((written e0 ++ (Some <$> h2x_32 n)) ++ b2) + 8)%nat by lia.
  rewrite <- !drop_drop, !drop_app_length. split; [|done].
  assert (forall c : Data, length c = 8%nat -> drop 8 (c ++ b3 ++ r) = b3 ++ r) as H8
    by (intros c <-; apply drop_app_length).
  by rewrite !H8 by (by rewrite length_fmap).
Qed.

Lemma cut_twice i m n (d : Data) : (i + m + n <= length d)%nat ->
  exists w c1 c2 t, d = w ++ c1 ++ c2 ++ t /\ length w = i /\ length c1 = m /\ length c2 = n.
Proof.
  intros H. exists (take i d), (take m (drop i d)), (take n (drop m (drop i d))), (drop n (drop m (drop i d))).
  rewrite !take_drop, !length_take, !length_drop. split; [done|]. lia.
Qed.

Lemma class_oid_spec a e0 c o :
  sizeof_Oid = 8%nat -> coder_ok e0 -> codable a -> cls a = Some c -> class_owner a = Some o ->
  offset e0 + attribute_size a + INC < 2 ^ 31 ->
  exists a' e d, codeIDR a e0 = Some (a', e)
    /\ codeClassOid a' (offset e0) (idr e) = Some (d, endoff a')
    /\ int16_decode d (offset e0 + 4)
       = Some (x2h_16 (take 2 (drop 2 (h2x_oid (getOid c)))), offset e0 + 6).
Proof.
  intros Hs He Ha Hc Ho Hb.
  destruct (coded_attribute a e0 Hs He Ha Hb) as (e & b2 & b3 & r & E & Hi & Hl & Hn & Hw & Ho0 & Hz & _).
  destruct (complete_inverse_other a) as (_ & Ec & Eo & _).
  unfold INC in Hb. remember (offset e0 + attribute_size a) as n eqn:En.
  pose proof (h2x_oid_length (getOid c)) as Lc. pose proof (h2x_oid_length (getOid o)) as Lo. rewrite Hs in Lc, Lo.
  pose proof (f_equal length Hi) as Hli. unfold attribute_cells in Hi. rewrite length_app in Hli.
  destruct (cut_twice (Z.to_nat (offset e0) + 2) 8 8 (idr e)) as (w & c1 & c2 & t & H1 & Lw & Lc1 & Lc2); [lia|].
  eexists _, e, (w ++ (Some <$> h2x_oid (getOid c)) ++ (Some <$> h2x_oid (getOid o)) ++ t).
  split; [done|]. unfold codeClassOid. cbn [cls class_owner endoff set_endoff]. rewrite Ec, Eo, Hc, Ho. cbn [mbind option_bind].
  rewrite (oid_code_mid _ _ w c1 (c2 ++ t)); cbn [idr alloc_size offset]; try (rewrite ?Hs; lia || done).
  cbn [mbind option_bind].
  rewrite (oid_code_mid _ _ (w ++ (Some <$> h2x_oid (getOid c))) c2 t); cbn [idr alloc_size offset];
    try (rewrite ?length_app, ?length_fmap, ?Hs; lia || done).
  all: rewrite <- ?(assoc_L (++)); try done.
  2: { apply (f_equal length) in H1. rewrite !length_app in *. rewrite !length_fmap. lia. }
  cbn [mbind option_bind]. split; [done|].
  rewrite <- (take_drop 4 (h2x_oid (getOid c))), <- (take_drop 2 (take 4 _)).
  rewrite !fmap_app, <- !(assoc_L (++)), (assoc_L (++) w).
  assert (length (take 2 (take 4 (h2x_oid (getOid c)))) = 2%nat) as L2 by (rewrite !length_take; lia).
  assert (length (drop 2 (take 4 (h2x_oid (getOid c)))) = 2%nat) as L2' by (rewrite length_drop, length_take; lia).
  assert (Z.of_nat (length (w ++ (Some <$> take 2 (take 4 (h2x_oid (getOid c)))))) = offset e0 + 4) as Lp
    by (rewrite length_app, length_fmap; lia).
  unfold int16_decode. rewrite <- Lp, get_list by (done || lia). rewrite Lp. f_equal. f_equal; [|lia].
  f_equal. rewrite (assoc_L (++) (take 2 _)), (take_drop 2 (take 4 _)), (take_drop 4). by rewrite take_drop_commute.
Qed.

End Items.

(** ** Properties *)

Lemma abs_product_in ds d : Forall (fun d => d <> 0) ds -> d ∈ ds -> Z.abs d <= abs_product ds.
Proof.
  induction 1 as [|d' ds Hd' H IH]; intros Hin; [by apply elem_of_nil in Hin|]. cbn [abs_product].
  pose proof (abs_product_pos ds H). apply elem_of_cons in Hin as [<-|Hin]; [nia|]. specialize (IH Hin). nia.
Qed.

Lemma made_ok isRef ds t : Forall (fun d => d <> 0) ds -> abs_product ds < 2 ^ 31 -> Z.of_nat (length ds) < 2 ^ 15 ->
  make isRef ds = Some t -> typmod_ok t.
Proof.
  intros H Hb Hn E. destruct (make_spec isRef ds H Hb Hn) as (t' & E' & Hds & Hnd & Hp & Hm & _ & _ & Hmo).
  rewrite E in E'. injection E' as <-. pose proof (fixed_product_le ds H). pose proof (abs_product_pos ds H).
  unfold typmod_ok. rewrite Hds, Hnd, Hp, Hm. unfold in_s. split_and!; try lia.
  apply Forall_forall. intros d Hd. pose proof (abs_product_in ds d H Hd). lia.
Qed.

(** For dimensions that are not zero and whose product holds in an int,
    TypeModifier::make gives the modifier whose dimensions they are, with the product
    of all their sizes and that of the fixed ones, of variable dimension when one is
    negative and indirect when asked, and TypeModifier::compare tells exactly whether
    two modifiers were made alike. *)
Theorem make_and_compare isRef ds isRef' ds' :
  Forall (fun d => d <> 0) ds -> abs_product ds < 2 ^ 31 -> Z.of_nat (length ds) < 2 ^ 15 ->
  Forall (fun d => d <> 0) ds' -> abs_product ds' < 2 ^ 31 -> Z.of_nat (length ds') < 2 ^ 15 ->
  exists t t', make isRef ds = Some t /\ make isRef' ds' = Some t'
    /\ dims t = ds /\ pdims t = fixed_product ds /\ maxdims t = abs_product ds
    /\ isIndirect t = isRef /\ isVarDim t = existsb (fun d => d <? 0) ds
    /\ compare t t' = Some (bool_decide (isRef = isRef' /\ ds = ds')).
Proof.
  intros H Hb Hn H' Hb' Hn'.
  destruct (make_spec isRef ds H Hb Hn) as (t & E & Hd & Hnd & Hp & Hm & Hi & Hv & Hmo).
  destruct (make_spec isRef' ds' H' Hb' Hn') as (t' & E' & Hd' & _ & _ & _ & Hi' & _ & _).
  exists t, t'. split_and!; try done.
  rewrite compare_eq by (by eapply made_ok; [| | |done]). f_equal. apply bool_decide_ext. split.
  - intros <-. split; congruence.
  - intros [-> ->]. congruence.
Qed.

(** C25: the attributes of a class coded one after the other (AgregatClass::create),
    from any state of the buffer and with the native ones, which take no room, first,
    are all written, each with the offset of its end put back in its first word; and
    agregatClassMake gives them back from there, linked to the oids of their classes,
    whatever is written after. *)
Theorem attributes_roundtrip `{XL : XdrLaws} {OI : Oids Oid} nats l e0 :
  sizeof_Oid = 8%nat -> coder_ok e0 -> Forall (fun a => isNative a = true) nats -> Forall codable l ->
  offset e0 + attributes_size l + INC < 2 ^ 31 ->
  exists e bs, code_attributes (nats ++ l) e0 = Some (nats ++ coded (offset e0) l, e) /\ coder_ok e
    /\ offset e = offset e0 + attributes_size l /\ written e = written e0 ++ bs
    /\ forall rest, class_attributes nats (Z.of_nat (length (nats ++ l))) (written e ++ rest) (offset e0)
                    = Some (nats ++ reread (offset e0) l, offset e).
Proof.
  intros Hs He Hn Hl Hb. destruct (code_attributes_spec l e0 Hs He Hl Hb) as (e & bs & E & He' & Ho & Hw & Hd).
  exists e, bs. rewrite code_natives, E by done. split; [done|]. split; [done|]. split; [done|]. split; [done|].
  intros rest. unfold class_attributes. rewrite Nat2Z.id, length_app.
  replace (length nats + length l - length nats)%nat with (length l) by lia. by rewrite Hd.
Qed.

(** Attribute::reportAttrCompSetOid changes, in the bytes of a class, only the
    oid of the component set of the attribute that starts at the offset, which moves
    to the end of that attribute: the attribute read back is the same with the new
    oid. *)
Theorem component_set_reported `{XL : XdrLaws} {OI : Oids Oid} a e0 o :
  sizeof_Oid = 8%nat -> coder_ok e0 -> codable a -> offset e0 + attribute_size a + INC < 2 ^ 31 ->
  exists a' e d, codeIDR a e0 = Some (a', e)
    /\ reportAttrCompSetOid (set_attr_comp_set_oid o a') (offset e0) (idr e) = Some (d, endoff a')
    /\ length d = length (idr e)
    /\ take (Z.to_nat (offset e0) + 40) d = take (Z.to_nat (offset e0) + 40) (idr e)
    /\ drop (Z.to_nat (offset e0) + 48) d = drop (Z.to_nat (offset e0) + 48) (idr e)
    /\ decode_attribute d (offset e0) = Some (set_attr_comp_set_oid o (read_back (endoff a') a), endoff a').
Proof. apply report_spec. Qed.

(** Attribute::codeClassOid counts the code of the attribute but not the four
    bytes of the end that precede it: it writes the oids of the class and of the owner
    four bytes too early, so that the code then read is two bytes of the oid of the
    class, and makeAttribute fails unless they happen to be a code. *)
Theorem class_oid_misplaced `{XL : XdrLaws} {OI : Oids Oid} a e0 c o :
  sizeof_Oid = 8%nat -> coder_ok e0 -> codable a -> cls a = Some c -> class_owner a = Some o ->
  offset e0 + attribute_size a + INC < 2 ^ 31 ->
  exists a' e d k, codeIDR a e0 = Some (a', e)
    /\ codeClassOid a' (offset e0) (idr e) = Some (d, endoff a')
    /\ int16_decode d (offset e0 + 4) = Some (k, offset e0 + 6)
    /\ k = x2h_16 (take 2 (drop 2 (h2x_oid (getOid c))))
    /\ (k < AttrDirect_Code \/ AttrIndirectVarDim_Code < k -> makeAttribute d (offset e0) = None).
Proof.
  intros Hs He Ha Hc Ho Hb. destruct (class_oid_spec a e0 c o Hs He Ha Hc Ho Hb) as (a' & e & d & E & Ec & Ed).
  exists a', e, d, (x2h_16 (take 2 (drop 2 (h2x_oid (getOid c))))). split_and!; try done. intros Hk.
  unfold makeAttribute. destruct (int32_decode d (offset e0)) as [[n o1]|] eqn:E1; cbn [mbind option_bind]; [|done].
  apply get_inv in E1 as ->. change (Z.of_nat 4) with 4.
  pose proof (coder_offset e0 He). unfold INC in Hb. pose proof (attribute_size_nonneg a Ha).
  rewrite u32_id, Ed by lia. cbn [mbind option_bind].
  unfold AttrDirect_Code, AttrIndirect_Code, AttrVarDim_Code, AttrIndirectVarDim_Code in *.
  replace (_ || _ || _ || _) with false; [done|lia].
Qed.

Module Example.
Import (hints) BigEndian.

#[export] Instance oids : Oids (@Oid BigEndian.big_endian) := {|
  Oid_eq := _ : EqDecision BigEndian.oid8;
  Oid_count := _ : Countable BigEndian.oid8;
  getNX o := ord (fst (fst (fst (fst o)))) |}.

Definition no_oid : BigEndian.oid8 := let z := chr 0 in ((z, z, z, z), (z, z, z, z)).

Definition a_class : ClassRef := mk_ClassRef (X := BigEndian.big_endian) BigEndian.oid_a None.
Definition b_class : ClassRef := mk_ClassRef (X := BigEndian.big_endian) BigEndian.oid_b None.

(** int x[3][-2], with its class known by its name only; an attribute of references
    with an inverse; and a native one. *)
Definition x_attr : Attribute :=
  mk_Attribute 0 AttrVarDim_Code (Some (mk_ClassRef no_oid (Some BigEndian.oid_b))) no_oid
    (Some a_class) no_oid 7 None no_oid 0 1 0 0 no_oid (cs "x") 0 48 4 12 60 0 8
    (mk_TypeModifier 2 2 [3; -2] 3 6).
Definition r_attr : Attribute :=
  mk_Attribute 0 AttrIndirect_Code (Some b_class) no_oid
    (Some a_class) no_oid 8 (Some (BigEndian.oid_b, 3)) no_oid 0 0 0 0 no_oid
    (cs "other") 0 60 8 8 68 8 8 (mk_TypeModifier 1 0 [] 1 1).
Definition native_attr : Attribute :=
  mk_Attribute 0 AttrNative_Code None no_oid None no_oid 0 None no_oid 0 0 0 0 no_oid (cs "class") 0 0 0 0 0 0 0
    (mk_TypeModifier 1 0 [] 1 1).

Lemma x_attr_codable : codable x_attr.
Proof.
  split; [|split; [by eexists|split; [by eexists|done]]]. unfold attribute_ok, typmod_ok.
  split_and!; try done; apply (bool_decide_eq_true_1 _); vm_compute; reflexivity.
Qed.
Lemma r_attr_codable : codable r_attr.
Proof.
  split; [|split; [by eexists|split; [by eexists|done]]]. unfold attribute_ok, typmod_ok.
  split_and!; try done; apply (bool_decide_eq_true_1 _); vm_compute; reflexivity.
Qed.

Example made : make false [3; -2] = Some (typmod x_attr) /\ make true [] = Some (typmod r_attr).
Proof. by vm_compute. Qed.

(** Dimensions whose product does not hold in an int. *)
Example make_overflow : make false [65536; 65536] = None.
Proof. by vm_compute. Qed.

(** The class is found by its name, and the inverse by its attribute. *)
Example read_attributes :
  oid_cl (read_back 0 x_attr) = BigEndian.oid_b /\ inv_num (read_back 0 r_attr) = 3
  /\ inv_oid_cl (read_back 0 r_attr) = BigEndian.oid_b.
Proof. by vm_compute. Qed.

Lemma make_and_compare_witness :
  exists t t', make true [3; -2] = Some t /\ make true [3; -3] = Some t' /\ compare t t' = Some false.
Proof.
  destruct (make_and_compare true [3; -2] true [3; -3]) as (t & t' & E & E' & _ & _ & _ & _ & _ & C);
    try (repeat constructor; done).
  exists t, t'. split; [exact E|]. split; [exact E'|]. by rewrite C.
Defined.

Lemma attributes_roundtrip_witness :
  exists e, code_attributes [native_attr; x_attr; r_attr] coder_init
            = Some ([native_attr; set_endoff 102 x_attr; set_endoff 200 (set_inverse BigEndian.oid_b 3 r_attr)], e)
    /\ class_attributes [native_attr] 3 (written e ++ []) 0
       = Some ([native_attr; read_back 102 x_attr; read_back 200 r_attr], offset e).
Proof.
  destruct (attributes_roundtrip [native_attr] [x_attr; r_attr] coder_init) as (e & bs & E & _ & _ & _ & D).
  - reflexivity.
  - apply coder_init_ok.
  - by constructor.
  - constructor; [apply x_attr_codable|]. constructor; [apply r_attr_codable|]. constructor.
  - by vm_compute.
  - exists e. split; [exact E|exact (D [])].
Defined.

Lemma component_set_reported_witness :
  exists a' e d, codeIDR x_attr coder_init = Some (a', e)
    /\ reportAttrCompSetOid (set_attr_comp_set_oid BigEndian.oid_a a') 0 (idr e) = Some (d, endoff a')
    /\ decode_attribute d 0 = Some (set_attr_comp_set_oid BigEndian.oid_a (read_back (endoff a') x_attr), endoff a').
Proof.
  destruct (component_set_reported x_attr coder_init BigEndian.oid_a) as (a' & e & d & E & R & _ & _ & _ & D).
  - reflexivity.
  - apply coder_init_ok.
  - apply x_attr_codable.
  - by vm_compute.
  - exists a', e, d. split; [exact E|]. split; [exact R|exact D].
Defined.

Lemma class_oid_misplaced_witness :
  exists a' e d, codeIDR r_attr coder_init = Some (a', e)
    /\ codeClassOid a' 0 (idr e) = Some (d, endoff a') /\ makeAttribute d 0 = None.
Proof.
  destruct (class_oid_misplaced r_attr coder_init b_class a_class)
    as (a' & e & d & k & E & C & _ & K & N).
  - reflexivity.
  - apply coder_init_ok.
  - apply r_attr_codable.
  - reflexivity.
  - reflexivity.
  - by vm_compute.
  - exists a', e, d. split; [exact E|]. split; [exact C|]. apply N. right. rewrite K. by vm_compute.
Defined.

End Example.
