(* ===== verification/ClassLayout.v ===== *)
(** * Classes: the layout of their objects

    The places of the attributes in the objects of a class: [compile_perst] and
    [compile_volat] of the four kinds of attributes (src/eyedb/Attribute.cc),
    AgregatClass::compile (src/eyedb/AgregatClass.cc), the attributes a class takes
    from its parent (Class::setAttributes of src/eyedb/Class.cc) and the size of the
    items of a collection of literals (src/eyedb/CollectionClass.cc). [None] is an
    overflow of a signed integer, which C++ does not define, or the use of a variable
    that was not set. *)

From Stdlib Require Import Ascii String.
From S2P Require Import Prelude CString Codec NullBits Oid Attribute.

Section Layout.
Context `{X : Xdr} {OI : Oids Oid}.

(** Class::getIDRObjectSize of the class of an attribute: its idr_objsz, which is 0
    while it is not complete, and its idr_psize. *)
Variable getIDRObjectSize : option ClassRef -> Z * Z.

Definition SIZEOFOBJECT : Z := 8.
Definition SIZEOFDATA : Z := 8.
Definition VARS_INISZ : Z := 3.
Definition VARS_SZ : Z := 24.
Definition VARS_TSZ : Z := VARS_INISZ + VARS_SZ.
Definition VARS_OFFSET : Z := 4 + Z.of_nat sizeof_Oid.

Definition set_perst (poff inisize item_psize psize : Z) (a : Attribute) : Attribute :=
  mk_Attribute (endoff a) (code a) (cls a) (oid_cl a) (class_owner a) (oid_cl_own a) (magorder a)
    (inv_item a) (inv_oid_cl a) (inv_num a) (is_basic_enum a) (is_string a) (dspid a)
    (attr_comp_set_oid a) (name a) inisize poff item_psize psize
    (idr_voff a) (idr_item_vsize a) (idr_vsize a) (typmod a).
Definition set_volat (voff item_vsize vsize : Z) (a : Attribute) : Attribute :=
  mk_Attribute (endoff a) (code a) (cls a) (oid_cl a) (class_owner a) (oid_cl_own a) (magorder a)
    (inv_item a) (inv_oid_cl a) (inv_num a) (is_basic_enum a) (is_string a) (dspid a)
    (attr_comp_set_oid a) (name a) (idr_inisize a) (idr_poff a) (idr_item_psize a) (idr_psize a)
    voff item_vsize vsize (typmod a).

(** IDB_ATTRIBUTE_ERROR, for a variable dimension that is not the left one or for a
    class that is not complete. *)
Inductive status := Success | OnlyLeft | Incomplete.

#[export] Instance status_eq : EqDecision status.
Proof. solve_decision. Defined.

(** AttrVarDim::check and AttrIndirectVarDim::check; the other attributes pass. *)
Definition check (a : Attribute) : status :=
  if ((code a =? AttrVarDim_Code) || (code a =? AttrIndirectVarDim_Code))
     && existsb (fun d => d <? 0) (tail (take (Z.to_nat (ndims (typmod a))) (dims (typmod a))))
  then OnlyLeft else Success.

(** The variables of AgregatClass::compile; [inisize] is [None] until an attribute
    sets it. *)
Record frame := mk_frame { f_offset : Z; f_size : Z; f_inisize : option Z }.

Definition compile_update (union : bool) (isz : Z) (f : frame) : option frame :=
  if union then Some (mk_frame (f_offset f) (if f_size f <? isz then isz else f_size f) (f_inisize f))
  else o ← int32 (f_offset f + isz); Some (mk_frame o isz (f_inisize f)).

Definition set_inisize (n : Z) (f : frame) : frame := mk_frame (f_offset f) (f_size f) (Some n).

(** The [compile_perst] of each kind; the attribute as it is left, errors included. *)
Definition compile_perst (union : bool) (a : Attribute) (f : frame) : option (status * Attribute * frame) :=
  let pd := pdims (typmod a) in
  if code a =? AttrNative_Code then Some (Success, a, f)
  else
    match check a with
    | Success =>
        let poff := f_offset f in
        if code a =? AttrIndirect_Code then
          let psize := u32 (Z.of_nat sizeof_Oid * pd) in
          f ← compile_update union (s32 psize) (set_inisize 0 f);
          Some (Success, set_perst poff 0 (Z.of_nat sizeof_Oid) psize a, f)
        else if code a =? AttrIndirectVarDim_Code then
          let psize := 4 + Z.of_nat sizeof_Oid in
          f ← compile_update union psize (set_inisize 0 f);
          Some (Success, set_perst poff 0 (Z.of_nat sizeof_Oid) psize a, f)
        else
          let ini := if (code a =? AttrDirect_Code) && negb (is_basic_enum a =? 0) then u32 (iniSize pd) else 0 in
          let '(objsz, item) := getIDRObjectSize (cls a) in
          if objsz =? 0 then Some (Incomplete, set_perst poff ini item (idr_psize a) a, f)
          else
            let item := u32 (item - IDB_OBJ_HEAD_SIZE) in
            let psize := if code a =? AttrDirect_Code then u32 (item * pd + ini)
                         else if negb (is_string a =? 0) then VARS_OFFSET + VARS_TSZ
                         else 4 + Z.of_nat sizeof_Oid in
            f ← compile_update union (s32 psize) (set_inisize ini f);
            Some (Success, set_perst poff ini item psize a, f)
    | s => Some (s, a, f)
    end.

(** The [compile_volat] of each kind, none of which fails. *)
Definition compile_volat (union : bool) (a : Attribute) (f : frame) : option (Attribute * frame) :=
  let pd := pdims (typmod a) in
  if code a =? AttrNative_Code then Some (a, f)
  else
    let basic := negb (is_basic_enum a =? 0) in
    let '(item, vsize) :=
      if code a =? AttrIndirect_Code then (SIZEOFOBJECT, u32 (SIZEOFOBJECT * pd))
      else if code a =? AttrIndirectVarDim_Code then (SIZEOFOBJECT, SIZEOFDATA + SIZEOFDATA)
      else if code a =? AttrDirect_Code then if basic then (0, 0) else (SIZEOFOBJECT, u32 (SIZEOFOBJECT * pd))
      else if basic then (0, SIZEOFDATA) else (SIZEOFOBJECT, SIZEOFDATA + SIZEOFDATA) in
    let voff := f_offset f in
    f ← compile_update union (s32 vsize) f;
    Some (set_volat voff item vsize a, f).

(** The loops of AgregatClass::compile; the first one stops at an error. *)
Fixpoint compile_persts (union : bool) (l : list Attribute) (f : frame)
  : option (status * list Attribute * frame) :=
  match l with
  | [] => Some (Success, [], f)
  | a :: l =>
      '(s, a, f) ← compile_perst union a f;
      match s with
      | Success => '(s, l, f) ← compile_persts union l f; Some (s, a :: l, f)
      | _ => Some (s, a :: l, f)
      end
  end.
Fixpoint compile_volats (union : bool) (l : list Attribute) (f : frame)
  : option (list Attribute * frame) :=
  match l with
  | [] => Some ([], f)
  | a :: l => '(a, f) ← compile_volat union a f; '(l, f) ← compile_volats union l f; Some (a :: l, f)
  end.

(** A class with its attributes; [cl_inisize] is [None] when its value was not set. *)
Record AgregatClass := mk_AgregatClass {
  asUnionClass : bool; items : list Attribute;
  cl_psize : Z; cl_vsize : Z; cl_objsz : Z; cl_inisize : option Z }.

Definition set_items (l : list Attribute) (c : AgregatClass) : AgregatClass :=
  mk_AgregatClass (asUnionClass c) l (cl_psize c) (cl_vsize c) (cl_objsz c) (cl_inisize c).

Definition compile (c : AgregatClass) : option (status * AgregatClass) :=
  let union := asUnionClass c in
  let offset := IDB_OBJ_HEAD_SIZE + if union then 2 else 0 in
  '(s, l, f) ← compile_persts union (items c) (mk_frame offset 0 None);
  match s with
  | Success =>
      let psize := if union then f_size f + IDB_OBJ_HEAD_SIZE + 2 else f_offset f in
      '(l, g) ← compile_volats union l (mk_frame psize 0 None);
      let vsize := if union then f_size g else u32 (f_offset g - psize) in
      Some (Success, mk_AgregatClass union l psize vsize (u32 (psize + vsize)) (f_inisize f))
  | _ => Some (s, set_items l c)
  end.

(** makeAttribute, of an attribute: a new one of the kind its modifier tells. *)
Definition kind_code (t : TypeModifier) : Z :=
  match isVarDim t, isIndirect t with
  | false, false => AttrDirect_Code
  | false, true => AttrIndirect_Code
  | true, false => AttrVarDim_Code
  | true, true => AttrIndirectVarDim_Code
  end.
Definition set_code (k : Z) (a : Attribute) : Attribute :=
  mk_Attribute (endoff a) k (cls a) (oid_cl a) (class_owner a) (oid_cl_own a) (magorder a)
    (inv_item a) (inv_oid_cl a) (inv_num a) (is_basic_enum a) (is_string a) (dspid a)
    (attr_comp_set_oid a) (name a) (idr_inisize a) (idr_poff a) (idr_item_psize a) (idr_psize a)
    (idr_voff a) (idr_item_vsize a) (idr_vsize a) (typmod a).
Definition copy_attribute (a : Attribute) : Attribute :=
  if isNative a then a else set_code (kind_code (typmod a)) a.

(** Class::setAttributes, once the names are checked: the attributes every object
    has, which the class starts with, those of the parent, then its own. *)
Definition setAttributes (parent : option AgregatClass) (agr : list Attribute) (c : AgregatClass)
  : option (status * AgregatClass) :=
  let native := items c in
  let inherited := match parent with Some p => drop (length native) (items p) | None => [] end in
  compile (set_items (native ++ (copy_attribute <$> inherited ++ agr)) c).

(** get_item_size of CollectionClass.cc *)
Definition get_item_size (c : AgregatClass) (dim : Z) : option Z :=
  isize ← cl_inisize c; Some ((cl_psize c - isize - IDB_OBJ_HEAD_SIZE) * dim).

End Layout.

(** ** The layout as a function *)

Section Spec.
Context `{X : Xdr} {OI : Oids Oid}.
Variable sizes : option ClassRef -> Z * Z.

Definition is_kind (k : Z) (a : Attribute) : bool := code a =? k.
Definition basic (a : Attribute) : bool := negb (is_basic_enum a =? 0).

(** The bytes of the null bits, of one element and of the whole attribute. *)
Definition ini_of (a : Attribute) : Z :=
  if is_kind AttrDirect_Code a && basic a then iniSize (pdims (typmod a)) else 0.
Definition item_of (a : Attribute) : Z :=
  if is_kind AttrIndirect_Code a || is_kind AttrIndirectVarDim_Code a then Z.of_nat sizeof_Oid
  else snd (sizes (cls a)) - IDB_OBJ_HEAD_SIZE.
Definition psize_of (a : Attribute) : Z :=
  if isNative a then 0
  else if is_kind AttrIndirect_Code a then Z.of_nat sizeof_Oid * pdims (typmod a)
  else if is_kind AttrIndirectVarDim_Code a then 4 + Z.of_nat sizeof_Oid
  else if is_kind AttrDirect_Code a then item_of a * pdims (typmod a) + ini_of a
  else if negb (is_string a =? 0) then VARS_OFFSET + VARS_TSZ else 4 + Z.of_nat sizeof_Oid.
Definition item_vsize_of (a : Attribute) : Z :=
  if is_kind AttrIndirect_Code a || is_kind AttrIndirectVarDim_Code a then SIZEOFOBJECT
  else if basic a then 0 else SIZEOFOBJECT.
Definition vsize_of (a : Attribute) : Z :=
  if isNative a then 0
  else if is_kind AttrIndirect_Code a then SIZEOFOBJECT * pdims (typmod a)
  else if is_kind AttrIndirectVarDim_Code a then 16
  else if is_kind AttrDirect_Code a then if basic a then 0 else SIZEOFOBJECT * pdims (typmod a)
  else if basic a then 8 else 16.

(** An attribute that can be laid out. *)
Definition layable (a : Attribute) : Prop :=
  isNative a = true
  \/ (AttrDirect_Code <= code a <= AttrIndirectVarDim_Code /\ check a = Success /\ 1 <= pdims (typmod a)
      /\ fst (sizes (cls a)) <> 0 /\ IDB_OBJ_HEAD_SIZE <= snd (sizes (cls a)) < 2 ^ 31).

(** An attribute at its place. *)
Definition placed (off : Z) (a : Attribute) : Attribute :=
  if isNative a then a else set_perst off (ini_of a) (item_of a) (psize_of a) a.
Definition vplaced (off : Z) (a : Attribute) : Attribute :=
  if isNative a then a else set_volat off (item_vsize_of a) (vsize_of a) a.

Fixpoint place_all (off : Z) (l : list Attribute) : list Attribute :=
  match l with [] => [] | a :: l => placed off a :: place_all (off + psize_of a) l end.
Fixpoint vplace_all (off : Z) (l : list Attribute) : list Attribute :=
  match l with [] => [] | a :: l => vplaced off a :: vplace_all (off + vsize_of a) l end.
(** The attributes of a union all start at the same place. *)
Definition union_all (off voff : Z) (l : list Attribute) : list Attribute :=
  (fun a => vplaced voff (placed off a)) <$> l.

Definition total (f : Attribute -> Z) (l : list Attribute) : Z := foldr (fun a n => f a + n) 0 l.
Definition largest (f : Attribute -> Z) (l : list Attribute) (n : Z) : Z := fold_left (fun n a => Z.max n (f a)) l n.

Lemma iniSize_bounds n : 1 <= n -> 1 <= iniSize n <= n.
Proof. intros H. rewrite iniSize_ceil by lia. Z.div_mod_to_equations. lia. Qed.

Lemma psize_nonneg a : layable a -> 0 <= psize_of a.
Proof.
  intros [H|(Hc & Hk & Hp & _ & Hs)]; unfold psize_of; [by rewrite H|].
  pose proof (iniSize_bounds _ Hp). unfold ini_of, item_of, is_kind, VARS_OFFSET, VARS_TSZ, VARS_INISZ, VARS_SZ.
  repeat case_match; try lia; try (apply Z.add_nonneg_nonneg; [apply Z.mul_nonneg_nonneg|]); lia.
Qed.

Lemma vsize_nonneg a : layable a -> 0 <= vsize_of a.
Proof.
  intros [H|(Hc & Hk & Hp & _ & Hs)]; unfold vsize_of; [by rewrite H|].
  unfold SIZEOFOBJECT. repeat case_match; lia.
Qed.

(** What is after a native attribute is the state before it; after another one the
    offset is past it and the size is its own. *)
Definition after (union : bool) (a : Attribute) (n : Z) (ini : option Z) (f : frame) : frame :=
  if isNative a then f
  else if union then mk_frame (f_offset f) (Z.max (f_size f) n) ini
  else mk_frame (f_offset f + n) n ini.

Lemma update_spec union a n ini f : isNative a = false -> f_inisize f = ini -> 0 <= n -> 0 <= f_offset f ->
  f_offset f + n < 2 ^ 31 -> compile_update union n f = Some (after union a n ini f).
Proof.
  intros Hn Hi H0 Ho Hb. unfold compile_update, after. rewrite Hn. destruct union.
  - do 2 f_equal; [|done]. destruct (Z.ltb_spec (f_size f) n); lia.
  - rewrite int32_id by (unfold in_s; lia). cbn. by rewrite Hi.
Qed.

Lemma code_cases a : AttrDirect_Code <= code a <= AttrIndirectVarDim_Code ->
  code a = AttrDirect_Code \/ code a = AttrIndirect_Code \/ code a = AttrVarDim_Code \/ code a = AttrIndirectVarDim_Code.
Proof.
  unfold AttrDirect_Code, AttrIndirect_Code, AttrVarDim_Code, AttrIndirectVarDim_Code. lia.
Qed.

Lemma compile_perst_spec union a f : layable a -> 0 <= f_offset f -> f_offset f + psize_of a < 2 ^ 31 ->
  compile_perst sizes union a f
  = Some (Success, placed (f_offset f) a, after union a (psize_of a) (Some (ini_of a)) f).
Proof.
  intros Hl Ho Hb. pose proof (psize_nonneg a Hl) as H0. unfold compile_perst, placed.
  destruct Hl as [Hn|(Hc & Hk & Hp & Hz & Hs)].
  { unfold after. rewrite Hn. unfold isNative in Hn. by rewrite Hn. }
  assert (isNative a = false) as Hn.
  { unfold isNative, AttrDirect_Code, AttrIndirectVarDim_Code, AttrNative_Code in *. lia. }
  assert (forall ini, compile_update union (psize_of a) (set_inisize ini f) = Some (after union a (psize_of a) (Some ini) f)) as Hu.
  { intros ini. replace (after union a (psize_of a) (Some ini) f)
      with (after union a (psize_of a) (Some ini) (set_inisize ini f)) by (unfold after; by rewrite Hn).
    by apply update_spec. }
  pose proof Hn as Hn'. unfold isNative in Hn'. rewrite Hn, Hn', Hk. pose proof (iniSize_bounds _ Hp) as Hi.
  destruct (sizes (cls a)) as [objsz cps] eqn:E. cbn [fst snd] in *.
  unfold psize_of, ini_of, item_of, is_kind in *. rewrite Hn, E in *. cbn [fst snd] in *.
  assert (0 <= IDB_OBJ_HEAD_SIZE) by (unfold IDB_OBJ_HEAD_SIZE; lia).
  assert (0 <= (cps - IDB_OBJ_HEAD_SIZE) * pdims (typmod a)) as Hm by (apply Z.mul_nonneg_nonneg; lia).
  fold (basic a).
  destruct (code_cases a Hc) as [C|[C|[C|C]]]; rewrite C in *; cbn [Z.eqb AttrDirect_Code AttrIndirect_Code AttrVarDim_Code
    AttrIndirectVarDim_Code Pos.eqb andb orb] in *.
  - destruct (Z.eqb_spec objsz 0); [done|].
    destruct (basic a); rewrite !u32_id by (rewrite ?u32_id by lia; lia); rewrite s32_id by lia; by rewrite Hu.
  - rewrite u32_id, s32_id by lia. by rewrite Hu.
  - destruct (Z.eqb_spec objsz 0); [done|].
    rewrite u32_id by lia. destruct (is_string a =? 0); cbn [negb] in *; rewrite s32_id by lia; by rewrite Hu.
  - by rewrite Hu.
Qed.

Lemma compile_volat_spec union a f : layable a -> 0 <= f_offset f -> f_offset f + vsize_of a < 2 ^ 31 ->
  compile_volat union a f = Some (vplaced (f_offset f) a, after union a (vsize_of a) (f_inisize f) f).
Proof.
  intros Hl Ho Hb. pose proof (vsize_nonneg a Hl) as H0. unfold compile_volat, vplaced.
  destruct Hl as [Hn|(Hc & _ & Hp & _)].
  { unfold after. rewrite Hn. unfold isNative in Hn. by rewrite Hn. }
  assert (isNative a = false) as Hn.
  { unfold isNative, AttrDirect_Code, AttrIndirectVarDim_Code, AttrNative_Code in *. lia. }
  pose proof Hn as Hn'. unfold isNative in Hn'. rewrite Hn, Hn'.
  assert (compile_update union (vsize_of a) f = Some (after union a (vsize_of a) (f_inisize f) f)) as Hu
    by (by apply update_spec).
  unfold vsize_of, item_vsize_of, is_kind in *. rewrite Hn in *. fold (basic a).
  destruct (code_cases a Hc) as [C|[C|[C|C]]]; rewrite C in *; cbn [Z.eqb AttrDirect_Code AttrIndirect_Code AttrVarDim_Code
    AttrIndirectVarDim_Code Pos.eqb andb orb] in *.
  all: change (SIZEOFDATA + SIZEOFDATA) with 16; change SIZEOFDATA with 8; try destruct (basic a);
    rewrite ?u32_id, ?s32_id by (unfold SIZEOFOBJECT in *; lia); by rewrite Hu.
Qed.

(** ** The loops *)

Definition after_all (union : bool) (f : Attribute -> Z) (g : Attribute -> option Z -> option Z) (l : list Attribute) (fr : frame) : frame :=
  fold_left (fun fr a => after union a (f a) (g a (f_inisize fr)) fr) l fr.

Lemma after_struct f g l fr : Forall layable l -> (forall a, isNative a = true -> f a = 0) ->
  f_offset (after_all false f g l fr) = f_offset fr + total f l.
Proof.
  intros Hl Hz. revert fr. induction Hl as [|a l Ha Hl IH]; intros fr; cbn [after_all fold_left total foldr]; [lia|].
  fold (after_all false f g l (after false a (f a) (g a (f_inisize fr)) fr)). rewrite IH. fold (total f l).
  unfold after. destruct (isNative a) eqn:E; [rewrite (Hz a E)|cbn]; lia.
Qed.

Lemma after_union f g l fr : Forall layable l -> (forall a, isNative a = true -> f a = 0) -> 0 <= f_size fr ->
  f_offset (after_all true f g l fr) = f_offset fr /\ f_size (after_all true f g l fr) = largest f l (f_size fr).
Proof.
  intros Hl Hz. revert fr. induction Hl as [|a l Ha Hl IH]; intros fr H0; cbn [after_all fold_left largest]; [done|].
  destruct (IH (after true a (f a) (g a (f_inisize fr)) fr)) as [E1 E2]; [unfold after; destruct (isNative a); cbn; lia|].
  unfold after_all in E1, E2. rewrite E1, E2.
  unfold after, largest. destruct (isNative a) eqn:E; cbn [f_offset f_size]; [|done].
  rewrite (Hz a E). by rewrite (Z.max_l (f_size fr) 0).
Qed.

Lemma psize_native a : isNative a = true -> psize_of a = 0.
Proof. unfold psize_of. by intros ->. Qed.
Lemma vsize_native a : isNative a = true -> vsize_of a = 0.
Proof. unfold vsize_of. by intros ->. Qed.
Lemma total_nonneg f l : (forall a, layable a -> 0 <= f a) -> Forall layable l -> 0 <= total f l.
Proof. intros Hf. induction 1 as [|a l Ha _ IH]; cbn; [lia|]. pose proof (Hf a Ha). unfold total in IH. lia. Qed.

Definition perst_inisize (a : Attribute) (_ : option Z) : option Z := Some (ini_of a).
Definition volat_inisize (a : Attribute) (i : option Z) : option Z := i.

Lemma compile_persts_struct l : Forall layable l -> forall f, 0 <= f_offset f -> f_offset f + total psize_of l < 2 ^ 31 ->
  compile_persts sizes false l f
  = Some (Success, place_all (f_offset f) l, after_all false psize_of perst_inisize l f).
Proof.
  induction 1 as [|a l Ha Hl IH]; intros f Ho Hb; cbn [compile_persts place_all after_all fold_left]; [done|].
  cbn [total foldr] in Hb. fold (total psize_of l) in Hb.
  pose proof (psize_nonneg a Ha). pose proof (total_nonneg psize_of l psize_nonneg Hl).
  rewrite compile_perst_spec by (done || lia). cbn [mbind option_bind].
  assert (f_offset (after false a (psize_of a) (Some (ini_of a)) f) = f_offset f + psize_of a) as E.
  { unfold after. destruct (isNative a) eqn:E; [rewrite (psize_native a E)|cbn]; lia. }
  rewrite IH by lia. cbn [mbind option_bind]. by rewrite E.
Qed.

Lemma compile_volats_struct l : Forall layable l -> forall f, 0 <= f_offset f -> f_offset f + total vsize_of l < 2 ^ 31 ->
  compile_volats false l f = Some (vplace_all (f_offset f) l, after_all false vsize_of volat_inisize l f).
Proof.
  induction 1 as [|a l Ha Hl IH]; intros f Ho Hb; cbn [compile_volats vplace_all after_all fold_left]; [done|].
  cbn [total foldr] in Hb. fold (total vsize_of l) in Hb.
  pose proof (vsize_nonneg a Ha). pose proof (total_nonneg vsize_of l vsize_nonneg Hl).
  rewrite compile_volat_spec by (done || lia). cbn [mbind option_bind].
  assert (f_offset (after false a (vsize_of a) (f_inisize f) f) = f_offset f + vsize_of a) as E.
  { unfold after. destruct (isNative a) eqn:E; [rewrite (vsize_native a E)|cbn]; lia. }
  rewrite IH by lia. cbn [mbind option_bind]. by rewrite E.
Qed.

Lemma place_all_lookup off l i : place_all off l !! i = placed (off + total psize_of (take i l)) <$> l !! i.
Proof.
  revert off i. induction l as [|a l IH]; intros off [|i]; cbn [place_all take lookup list_lookup fmap option_fmap]; try done.
  - cbn. by rewrite Z.add_0_r.
  - rewrite IH. cbn [total foldr]. fold (total psize_of (take i l)). by rewrite Z.add_assoc.
Qed.
Lemma vplace_all_lookup off l i : vplace_all off l !! i = vplaced (off + total vsize_of (take i l)) <$> l !! i.
Proof.
  revert off i. induction l as [|a l IH]; intros off [|i]; cbn [vplace_all take lookup list_lookup fmap option_fmap]; try done.
  - cbn. by rewrite Z.add_0_r.
  - rewrite IH. cbn [total foldr]. fold (total vsize_of (take i l)). by rewrite Z.add_assoc.
Qed.

Lemma placed_vsize off a : vsize_of (placed off a) = vsize_of a.
Proof. unfold placed. by destruct (isNative a) eqn:E. Qed.
Lemma placed_native off a : isNative (placed off a) = isNative a.
Proof. unfold placed. by destruct (isNative a) eqn:E. Qed.
Lemma placed_layable off a : layable (placed off a) <-> layable a.
Proof. unfold placed. by destruct (isNative a) eqn:E. Qed.
Lemma vplaced_psize off a : psize_of (vplaced off a) = psize_of a.
Proof. unfold vplaced. by destruct (isNative a) eqn:E. Qed.
Lemma placed_psize off a : psize_of (placed off a) = psize_of a.
Proof. unfold placed. by destruct (isNative a) eqn:E. Qed.
Lemma vplaced_layable off a : layable (vplaced off a) <-> layable a.
Proof. unfold vplaced. by destruct (isNative a) eqn:E. Qed.

Lemma place_all_layable off l : Forall layable l -> Forall layable (place_all off l).
Proof. intros H. revert off. induction H; intros off; constructor; [by apply placed_layable|done]. Qed.
Lemma place_all_total off l : total vsize_of (place_all off l) = total vsize_of l.
Proof. revert off. induction l as [|a l IH]; intros off; [done|]. cbn. rewrite placed_vsize. f_equal. apply IH. Qed.
Lemma place_all_take off l i : take i (place_all off l) = place_all off (take i l).
Proof. revert off i. induction l as [|a l IH]; intros off [|i]; [done|done|done|]. cbn. by rewrite IH. Qed.

Lemma total_app f l l' : total f (l ++ l') = total f l + total f l'.
Proof. induction l as [|a l IH]; [done|]. cbn. unfold total in *. rewrite IH. lia. Qed.

(** The prefix before an attribute, that attribute, and the rest. *)
Lemma total_take_S f l i a : l !! i = Some a -> total f (take (S i) l) = total f (take i l) + f a.
Proof. intros H. rewrite (take_S_r l i a H), total_app. cbn. lia. Qed.
Lemma total_take_le f l i j : (forall a, layable a -> 0 <= f a) -> Forall layable l -> (i <= j)%nat ->
  total f (take i l) <= total f (take j l).
Proof.
  intros Hf Hl Hij.
  assert (take j l = take i l ++ drop i (take j l)) as ->
    by (rewrite <- (take_drop i (take j l)) at 1; by rewrite take_take, Nat.min_l by lia).
  rewrite total_app. assert (Forall layable (drop i (take j l))) as H by (by apply Forall_drop, Forall_take).
  pose proof (total_nonneg f _ Hf H). lia.
Qed.
Lemma total_take_all f l i : (forall a, layable a -> 0 <= f a) -> Forall layable l -> total f (take i l) <= total f l.
Proof.
  intros Hf Hl. rewrite <- (take_drop i l) at 2. rewrite total_app.
  pose proof (total_nonneg f (drop i l) Hf (Forall_drop _ i l Hl)). lia.
Qed.

Lemma compile_struct c : asUnionClass c = false -> Forall layable (items c) ->
  IDB_OBJ_HEAD_SIZE + total psize_of (items c) + total vsize_of (items c) < 2 ^ 31 ->
  let P := IDB_OBJ_HEAD_SIZE + total psize_of (items c) in
  compile sizes c = Some (Success, mk_AgregatClass false
    (vplace_all P (place_all IDB_OBJ_HEAD_SIZE (items c))) P (total vsize_of (items c))
    (P + total vsize_of (items c))
    (f_inisize (after_all false psize_of perst_inisize (items c) (mk_frame IDB_OBJ_HEAD_SIZE 0 None)))).
Proof.
  intros Hu Hl Hb P. unfold compile. rewrite Hu. rewrite Z.add_0_r.
  pose proof (total_nonneg psize_of _ psize_nonneg Hl). pose proof (total_nonneg vsize_of _ vsize_nonneg Hl).
  assert (0 <= IDB_OBJ_HEAD_SIZE) by (unfold IDB_OBJ_HEAD_SIZE; lia).
  rewrite compile_persts_struct by (cbn; done || lia). cbn [mbind option_bind f_offset].
  rewrite (after_struct psize_of perst_inisize _ _ Hl psize_native). cbn [f_offset]. fold P.
  rewrite compile_volats_struct by (cbn [f_offset]; rewrite ?place_all_total; unfold P; lia || by apply place_all_layable).
  cbn [mbind option_bind f_offset].
  rewrite (after_struct vsize_of volat_inisize _ _ (place_all_layable _ _ Hl) vsize_native).
  cbn [f_offset]. rewrite place_all_total. replace (P + total vsize_of (items c) - P) with (total vsize_of (items c)) by lia.
  unfold P in *. rewrite (u32_id (total vsize_of _)) by lia. by rewrite u32_id by lia.
Qed.

Lemma largest_ge f l n : n <= largest f l n.
Proof. revert n. induction l as [|a l IH]; intros n; cbn; [lia|]. specialize (IH (Z.max n (f a))). unfold largest in IH. lia. Qed.
Lemma largest_bounds f l n b : (forall a, a ∈ l -> f a < b) -> 0 <= n < b -> 0 <= largest f l n < b.
Proof.
  revert n. induction l as [|a l IH]; intros n Hf Hn; [done|]. cbn. apply IH; [intros; apply Hf; by right|].
  pose proof (Hf a (list_elem_of_here _ _)). lia.
Qed.
Lemma largest_elem f l n a : a ∈ l -> f a <= largest f l n.
Proof.
  revert n. induction l as [|b l IH]; intros n Ha; [by apply elem_of_nil in Ha|]. cbn.
  apply elem_of_cons in Ha as [<-|Ha]; [|by apply IH]. pose proof (largest_ge f l (Z.max n (f a))). unfold largest in *. lia.
Qed.
Lemma largest_placed off l n : largest vsize_of (placed off <$> l) n = largest vsize_of l n.
Proof. revert n. induction l as [|a l IH]; intros n; [done|]. cbn. rewrite placed_vsize. apply IH. Qed.

Lemma compile_persts_union l : Forall layable l -> forall f, 0 <= f_offset f ->
  (forall a, a ∈ l -> f_offset f + psize_of a < 2 ^ 31) ->
  compile_persts sizes true l f
  = Some (Success, placed (f_offset f) <$> l, after_all true psize_of perst_inisize l f).
Proof.
  induction 1 as [|a l Ha Hl IH]; intros f Ho Hb; cbn [compile_persts fmap list_fmap after_all fold_left]; [done|].
  rewrite compile_perst_spec by (done || apply Hb; by left). cbn [mbind option_bind].
  assert (f_offset (after true a (psize_of a) (Some (ini_of a)) f) = f_offset f) as E
    by (unfold after; by destruct (isNative a)).
  rewrite IH; rewrite ?E; [done|done|]. intros b Hb'. apply Hb. by right.
Qed.

Lemma compile_volats_union l : Forall layable l -> forall f, 0 <= f_offset f ->
  (forall a, a ∈ l -> f_offset f + vsize_of a < 2 ^ 31) ->
  compile_volats true l f = Some (vplaced (f_offset f) <$> l, after_all true vsize_of volat_inisize l f).
Proof.
  induction 1 as [|a l Ha Hl IH]; intros f Ho Hb; cbn [compile_volats fmap list_fmap after_all fold_left]; [done|].
  rewrite compile_volat_spec by (done || apply Hb; by left). cbn [mbind option_bind].
  assert (f_offset (after true a (vsize_of a) (f_inisize f) f) = f_offset f) as E
    by (unfold after; by destruct (isNative a)).
  rewrite IH; rewrite ?E; [done|done|]. intros b Hb'. apply Hb. by right.
Qed.

Lemma compile_union c : asUnionClass c = true -> Forall layable (items c) ->
  (forall a, a ∈ items c -> psize_of a < 2 ^ 29 /\ vsize_of a < 2 ^ 29) -> IDB_OBJ_HEAD_SIZE < 2 ^ 29 ->
  let start := IDB_OBJ_HEAD_SIZE + 2 in
  let P := start + largest psize_of (items c) 0 in
  exists ini, compile sizes c = Some (Success, mk_AgregatClass true (union_all start P (items c)) P
    (largest vsize_of (items c) 0) (P + largest vsize_of (items c) 0) ini).
Proof.
  intros Hu Hl Hb Hh start P. unfold compile. rewrite Hu.
  assert (0 <= IDB_OBJ_HEAD_SIZE) by (unfold IDB_OBJ_HEAD_SIZE; lia).
  rewrite compile_persts_union; [|done|cbn; lia|intros a Ha; cbn; specialize (Hb a Ha); lia].
  cbn [mbind option_bind f_offset]. fold start.
  destruct (after_union psize_of perst_inisize _ (mk_frame start 0 None) Hl psize_native) as [E1 E2]; [done|].
  rewrite E2. cbn [f_size].
  assert (0 <= largest psize_of (items c) 0 < 2 ^ 29) as Hp by (apply largest_bounds; [intros a Ha; by apply Hb|lia]).
  assert (0 <= largest vsize_of (items c) 0 < 2 ^ 29) as Hv by (apply largest_bounds; [intros a Ha; by apply Hb|lia]).
  replace (largest psize_of (items c) 0 + IDB_OBJ_HEAD_SIZE + 2) with P by (unfold P, start; lia).
  rewrite compile_volats_union.
  - cbn [mbind option_bind f_offset].
    assert (Forall layable (placed start <$> items c)) as Hl' by (apply Forall_fmap; eapply Forall_impl; [done|]; intros; by apply placed_layable).
    destruct (after_union vsize_of volat_inisize _ (mk_frame P 0 None) Hl' vsize_native) as [E3 E4]; [done|].
    rewrite E4. cbn [f_size].
    assert (largest vsize_of (placed start <$> items c) 0 = largest vsize_of (items c) 0) as -> by apply largest_placed.
    rewrite u32_id by (unfold P, start; lia). eexists. do 3 f_equal. unfold union_all. by rewrite <- list_fmap_compose.
  - apply Forall_fmap. eapply Forall_impl; [done|]. intros. by apply placed_layable.
  - cbn. unfold P, start. lia.
  - intros a Ha. apply list_elem_of_fmap in Ha as (b & -> & Hb'). rewrite placed_vsize. cbn. specialize (Hb b Hb'). unfold P, start. lia.
Qed.

(** The place of the attribute [i] of a compiled class. *)
Lemma item_at P l i b : vplace_all P (place_all IDB_OBJ_HEAD_SIZE l) !! i = Some b ->
  exists a, l !! i = Some a /\ isNative b = isNative a /\ typmod b = typmod a /\ name b = name a
    /\ psize_of b = psize_of a /\ ini_of b = ini_of a /\ item_of b = item_of a
    /\ (isNative b = false ->
        idr_poff b = IDB_OBJ_HEAD_SIZE + total psize_of (take i l) /\ idr_psize b = psize_of a
        /\ idr_inisize b = ini_of a /\ idr_item_psize b = item_of a
        /\ idr_voff b = P + total vsize_of (take i l) /\ idr_vsize b = vsize_of a).
Proof.
  rewrite vplace_all_lookup, place_all_lookup, place_all_take, place_all_total.
  destruct (l !! i) as [a|]; cbn [fmap option_fmap option_map]; [|done]. intros [= <-]. exists a. split; [done|].
  unfold vplaced. rewrite placed_native. unfold placed.
  destruct (isNative a) eqn:E; [by split_and!; try (intros; congruence)|]. split_and!; try done.
Qed.

Lemma lookup_layable l i a : Forall layable l -> l !! i = Some a -> layable a.
Proof. intros Hl H. by eapply Forall_lookup_1. Qed.

Lemma copy_native l : Forall (fun a => isNative a = true) l -> copy_attribute <$> l = l.
Proof. induction 1 as [|a l Ha _ IH]; [done|]. cbn. rewrite IH. unfold copy_attribute. by rewrite Ha. Qed.

Definition of_kind (a : Attribute) : Prop := isNative a = true \/ code a = kind_code (typmod a).
Lemma copy_of_kind l : Forall of_kind l -> copy_attribute <$> l = l.
Proof.
  induction 1 as [|a l Ha _ IH]; [done|]. cbn. rewrite IH. f_equal. unfold copy_attribute.
  destruct Ha as [->|Ha]; [done|]. destruct (isNative a); [done|]. rewrite <- Ha. by destruct a.
Qed.

Lemma placed_of_kind P Q a : of_kind a -> of_kind (vplaced P (placed Q a)).
Proof.
  unfold vplaced. rewrite placed_native. unfold of_kind, placed. destruct (isNative a) eqn:E.
  - intros _. by left.
  - intros [?|H]; [done|]. by right.
Qed.
Lemma placed_twice P Q l : Forall of_kind l -> Forall of_kind (vplace_all P (place_all Q l)).
Proof.
  intros H. revert P Q. induction H as [|a l Ha _ IH]; intros P Q; constructor; [by apply placed_of_kind|apply IH].
Qed.
Lemma twice_layable P Q l : Forall layable l -> Forall layable (vplace_all P (place_all Q l)).
Proof.
  intros H. revert P Q. induction H as [|a l Ha _ IH]; intros P Q; constructor; [|apply IH].
  by apply vplaced_layable, placed_layable.
Qed.
Lemma twice_psize P Q l : total psize_of (vplace_all P (place_all Q l)) = total psize_of l.
Proof.
  revert P Q. induction l as [|a l IH]; intros P Q; [done|]. cbn. rewrite vplaced_psize, placed_psize. f_equal. apply IH.
Qed.
Lemma vplaced_vsize P a : vsize_of (vplaced P a) = vsize_of a.
Proof. unfold vplaced. by destruct (isNative a) eqn:E. Qed.
Lemma twice_vsize P Q l : total vsize_of (vplace_all P (place_all Q l)) = total vsize_of l.
Proof.
  revert P Q. induction l as [|a l IH]; intros P Q; [done|]. cbn. rewrite vplaced_vsize, placed_vsize. f_equal. apply IH.
Qed.
Lemma twice_take P Q l i : take i (vplace_all P (place_all Q l)) = vplace_all P (place_all Q (take i l)).
Proof. revert P Q i. induction l as [|a l IH]; intros P Q [|i]; try done. cbn. by rewrite IH. Qed.

Lemma vplace_native P l l' : Forall (fun a => isNative a = true) l ->
  vplace_all P (l ++ l') = l ++ vplace_all P l'.
Proof.
  induction 1 as [|a l Ha _ IH]; [done|]. cbn [app vplace_all]. unfold vplaced at 1. rewrite Ha, vsize_native, Z.add_0_r by done.
  by rewrite IH.
Qed.
Lemma place_native Q l l' : Forall (fun a => isNative a = true) l -> place_all Q (l ++ l') = l ++ place_all Q l'.
Proof.
  induction 1 as [|a l Ha _ IH]; [done|]. cbn [app place_all]. unfold placed at 1. rewrite Ha, psize_native, Z.add_0_r by done.
  by rewrite IH.
Qed.

(** The slots of the attributes. *)
Lemma struct_slots c : asUnionClass c = false -> Forall layable (items c) ->
  IDB_OBJ_HEAD_SIZE + total psize_of (items c) + total vsize_of (items c) < 2 ^ 31 ->
  exists c', compile sizes c = Some (Success, c')
    /\ length (items c') = length (items c)
    /\ cl_psize c' = IDB_OBJ_HEAD_SIZE + total psize_of (items c)
    /\ cl_objsz c' = cl_psize c' + total vsize_of (items c)
    /\ forall i a, items c' !! i = Some a -> isNative a = false ->
         IDB_OBJ_HEAD_SIZE <= idr_poff a /\ 0 <= idr_psize a /\ idr_poff a + idr_psize a <= cl_psize c'
         /\ cl_psize c' <= idr_voff a /\ 0 <= idr_vsize a /\ idr_voff a + idr_vsize a <= cl_objsz c'
         /\ forall j b, items c' !! j = Some b -> isNative b = false -> (i < j)%nat ->
              idr_poff a + idr_psize a <= idr_poff b /\ idr_voff a + idr_vsize a <= idr_voff b.
Proof.
  intros Hu Hl Hb. eexists. split; [by apply compile_struct|]. cbn [items cl_psize cl_objsz].
  split; [|split; [done|split; [done|]]].
  { assert (forall P Q l, length (vplace_all P (place_all Q l)) = length l) as ->; [|done].
    intros P Q l. revert P Q. induction l as [|a l IH]; intros P Q; [done|]. cbn. by rewrite IH. }
  intros i b Hi Hn. apply item_at in Hi as (a & Ha & _ & _ & _ & _ & _ & _ & Hi). destruct (Hi Hn) as (-> & -> & _ & _ & -> & ->).
  pose proof (lookup_layable _ _ _ Hl Ha) as La. pose proof (psize_nonneg a La). pose proof (vsize_nonneg a La).
  pose proof (total_take_S psize_of _ _ _ Ha) as Sp. pose proof (total_take_S vsize_of _ _ _ Ha) as Sv.
  pose proof (total_take_all psize_of _ (S i) psize_nonneg Hl). pose proof (total_take_all vsize_of _ (S i) vsize_nonneg Hl).
  pose proof (total_nonneg psize_of _ psize_nonneg (Forall_take _ i _ Hl)).
  pose proof (total_nonneg vsize_of _ vsize_nonneg (Forall_take _ i _ Hl)).
  split_and!; try lia. intros j b' Hj Hn' Hij. apply item_at in Hj as (a' & Ha' & _ & _ & _ & _ & _ & _ & Hj).
  destruct (Hj Hn') as (-> & _ & _ & _ & -> & _).
  pose proof (total_take_le psize_of _ (S i) j psize_nonneg Hl ltac:(lia)).
  pose proof (total_take_le vsize_of _ (S i) j vsize_nonneg Hl ltac:(lia)). lia.
Qed.

(** ** Properties *)

(** C21: an attribute of a structure has its slot among the persistent bytes, after
    the header, and another among the volatile ones, after all the persistent bytes;
    the slots are within the sizes of the class, in the order of the attributes,
    without overlap, and the persistent size is exactly the header and the slots. *)
Theorem struct_layout c : asUnionClass c = false -> Forall layable (items c) ->
  IDB_OBJ_HEAD_SIZE + total psize_of (items c) + total vsize_of (items c) < 2 ^ 31 ->
  exists c', compile sizes c = Some (Success, c')
    /\ length (items c') = length (items c)
    /\ cl_psize c' = IDB_OBJ_HEAD_SIZE + total psize_of (items c)
    /\ cl_objsz c' = cl_psize c' + total vsize_of (items c)
    /\ forall i a, items c' !! i = Some a -> isNative a = false ->
         IDB_OBJ_HEAD_SIZE <= idr_poff a /\ 0 <= idr_psize a /\ idr_poff a + idr_psize a <= cl_psize c'
         /\ cl_psize c' <= idr_voff a /\ 0 <= idr_vsize a /\ idr_voff a + idr_vsize a <= cl_objsz c'
         /\ forall j b, items c' !! j = Some b -> isNative b = false -> (i < j)%nat ->
              idr_poff a + idr_psize a <= idr_poff b /\ idr_voff a + idr_vsize a <= idr_voff b.
Proof. apply struct_slots. Qed.

(** The attributes a structure takes from its parent have in its objects the
    same persistent place as in those of the parent. *)
Theorem inherited_places p0 p c0 rest agr :
  asUnionClass p0 = false -> asUnionClass c0 = false ->
  Forall (fun a => isNative a = true) (items c0) -> items p0 = items c0 ++ rest ->
  Forall of_kind rest -> Forall layable rest -> Forall layable (copy_attribute <$> agr) ->
  IDB_OBJ_HEAD_SIZE + total psize_of (rest ++ (copy_attribute <$> agr)) + total vsize_of (rest ++ (copy_attribute <$> agr)) < 2 ^ 31 ->
  compile sizes p0 = Some (Success, p) ->
  exists c, setAttributes sizes (Some p) agr c0 = Some (Success, c)
    /\ forall i a, items p !! i = Some a -> exists b, items c !! i = Some b
         /\ name b = name a /\ typmod b = typmod a
         /\ (isNative a = false -> idr_poff b = idr_poff a /\ idr_psize b = idr_psize a
              /\ idr_inisize b = idr_inisize a /\ idr_item_psize b = idr_item_psize a).
Proof.
  intros Hpu Hcu Hnat Hp Hk Hl Hla Hb Hc.
  assert (Forall layable (items c0)) as Hln by (eapply Forall_impl; [exact Hnat|]; intros a Ha; by left).
  assert (total psize_of (items c0) = 0) as Tn.
  { clear -Hnat. induction Hnat as [|a l Ha _ IH]; [done|]. cbn. rewrite psize_native by done. apply IH. }
  assert (total vsize_of (items c0) = 0) as Tv.
  { clear -Hnat. induction Hnat as [|a l Ha _ IH]; [done|]. cbn. rewrite vsize_native by done. apply IH. }
  rewrite !total_app in Hb.
  pose proof (total_nonneg psize_of _ psize_nonneg Hla). pose proof (total_nonneg vsize_of _ vsize_nonneg Hla).
  assert (Forall layable (items p0)) as Hlp by (by rewrite Hp; apply Forall_app).
  rewrite compile_struct in Hc; [|done|done|rewrite Hp, !total_app; lia].
  injection Hc as <-. set (P := _ + total psize_of (items p0)). cbn [items].
  set (ip := vplace_all P (place_all IDB_OBJ_HEAD_SIZE (items p0))).
  assert (ip = items c0 ++ drop (length (items c0)) ip) as Hip.
  { unfold ip. rewrite Hp, place_native, vplace_native by done. by rewrite drop_app_length. }
  assert (copy_attribute <$> drop (length (items c0)) ip = drop (length (items c0)) ip) as Hcopy.
  { apply copy_of_kind. unfold ip. rewrite Hp, place_native, vplace_native, drop_app_length by done. by apply placed_twice. }
  set (m := ip ++ (copy_attribute <$> agr)).
  unfold setAttributes. cbn [items]. rewrite fmap_app, Hcopy, (assoc_L (++)), <- Hip.
  change (items c0 ++ _) with m. rewrite compile_struct; [|done|unfold m, ip; cbn [items set_items]|].
  2: { apply Forall_app. split; [by apply twice_layable|done]. }
  2: { cbn [items set_items]. unfold m, ip. rewrite !total_app, twice_psize, twice_vsize, Hp, !total_app. lia. }
  eexists. split; [done|]. cbn [items set_items]. fold m. intros i a Hi. pose proof Hi as Hi'.
  apply item_at in Hi as (a0 & Ha0 & Hna & Ht & Hnm & Ep & Ei & Et & Hi).
  assert (m !! i = Some a) as Hm by (by apply lookup_app_l_Some).
  assert (take i m = take i ip) as Htk.
  { unfold m. apply take_app_le. apply lookup_lt_Some in Hi'. lia. }
  rewrite vplace_all_lookup, place_all_lookup, Hm. cbn [fmap option_fmap option_map]. eexists. split; [done|].
  unfold vplaced. rewrite placed_native. unfold placed. destruct (isNative a) eqn:Ea; [done|]. cbn.
  split; [done|]. split; [done|]. intros _. destruct (Hi eq_refl) as (-> & -> & -> & -> & _).
  rewrite Htk, Ep, Ei, Et. unfold ip. by rewrite twice_take, twice_psize.
Qed.

(** The attributes of a union all start just after the header and the number
    of the current attribute, and their volatile parts after all the persistent bytes;
    each is within the sizes of the class. *)
Theorem union_layout c : asUnionClass c = true -> Forall layable (items c) ->
  (forall a, a ∈ items c -> psize_of a < 2 ^ 29 /\ vsize_of a < 2 ^ 29) -> IDB_OBJ_HEAD_SIZE < 2 ^ 29 ->
  exists c', compile sizes c = Some (Success, c')
    /\ forall i a, items c !! i = Some a -> exists b, items c' !! i = Some b
       /\ (isNative b = false ->
            idr_poff b = IDB_OBJ_HEAD_SIZE + 2 /\ idr_poff b + idr_psize b <= cl_psize c'
            /\ idr_voff b = cl_psize c' /\ idr_voff b + idr_vsize b <= cl_objsz c').
Proof.
  intros Hu Hl Hb Hh. destruct (compile_union c Hu Hl Hb Hh) as [ini E]. eexists. split; [exact E|].
  cbn [items cl_psize cl_objsz]. intros i a Ha. unfold union_all. rewrite list_lookup_fmap, Ha. cbn [fmap option_fmap option_map].
  eexists. split; [done|]. unfold vplaced. rewrite placed_native. unfold placed.
  pose proof (list_elem_of_lookup_2 _ _ _ Ha) as Hin.
  pose proof (largest_elem psize_of _ 0 _ Hin). pose proof (largest_elem vsize_of _ 0 _ Hin).
  destruct (isNative a) eqn:En; [congruence|]. intros _. cbn.
  change (vsize_of (set_perst _ _ _ _ a)) with (vsize_of a). lia.
Qed.

(** Get_item_size takes from the bytes of an object its header and the
    idr_inisize of the class, which AgregatClass::compile leaves to be that of its last
    attribute: when this one is an array of a basic class in the object, the items of
    a collection of the class are shorter than its objects by the null bits of that
    attribute. *)
Theorem item_size_short c l a dim : asUnionClass c = false -> items c = l ++ [a] -> Forall layable (items c) ->
  IDB_OBJ_HEAD_SIZE + total psize_of (items c) + total vsize_of (items c) < 2 ^ 31 ->
  code a = AttrDirect_Code -> is_basic_enum a <> 0 -> 1 <= dim ->
  exists c' n, compile sizes c = Some (Success, c') /\ get_item_size c' dim = Some n
    /\ n = (cl_psize c' - IDB_OBJ_HEAD_SIZE) * dim - iniSize (pdims (typmod a)) * dim
    /\ n < (cl_psize c' - IDB_OBJ_HEAD_SIZE) * dim.
Proof.
  intros Hu Hi Hl Hb Hc He Hd. eexists _, _. split; [by apply compile_struct|].
  unfold get_item_size. cbn [cl_inisize cl_psize].
  assert (isNative a = false) as Hn by (unfold isNative; by rewrite Hc).
  assert (forall fr, f_inisize (after_all false psize_of perst_inisize (items c) fr) = Some (ini_of a)) as ->.
  { intros fr. rewrite Hi. unfold after_all. rewrite fold_left_app. cbn [fold_left]. unfold after at 1. by rewrite Hn. }
  cbn [mbind option_bind].
  split; [done|]. unfold ini_of, is_kind, basic. rewrite Hc. cbn [Z.eqb AttrDirect_Code Pos.eqb andb].
  replace (negb (is_basic_enum a =? 0)) with true by (symmetry; apply negb_true_iff; lia).
  assert (layable a) as [?|(_ & _ & Hp & _)] by (rewrite Hi in Hl; by apply Forall_app in Hl as [_ ?%Forall_inv]); [congruence|].
  pose proof (iniSize_bounds _ Hp). split; nia.
Qed.

(** AgregatClass::compile stops at the first attribute that has a variable
    dimension which is not the left one, or whose class is not complete: the sizes of
    the class are those it had. *)
Theorem bad_attribute c l1 a l2 : items c = l1 ++ a :: l2 -> asUnionClass c = false -> Forall layable l1 ->
  IDB_OBJ_HEAD_SIZE + total psize_of l1 < 2 ^ 31 -> isNative a = false ->
  (check a = OnlyLeft
   \/ check a = Success /\ (code a = AttrDirect_Code \/ code a = AttrVarDim_Code) /\ fst (sizes (cls a)) = 0) ->
  exists s c', compile sizes c = Some (s, c') /\ s <> Success
    /\ cl_psize c' = cl_psize c /\ cl_objsz c' = cl_objsz c /\ cl_vsize c' = cl_vsize c /\ cl_inisize c' = cl_inisize c.
Proof.
  intros Hi Hu Hl Hb Hn Hbad. unfold compile. rewrite Hu, Hi, Z.add_0_r.
  assert (forall f, exists s b, compile_perst sizes false a f = Some (s, b, f) /\ s <> Success) as Hf.
  { intros f. unfold compile_perst. unfold isNative in Hn. rewrite Hn. destruct Hbad as [->|(-> & Hc & H0)]; [by eexists _, _|].
    destruct (sizes (cls a)) as [o p]. cbn in H0. subst o. destruct Hc as [-> | ->]; by eexists _, _. }
  assert (forall f, 0 <= f_offset f -> f_offset f + total psize_of l1 < 2 ^ 31 ->
    exists s k g, compile_persts sizes false (l1 ++ a :: l2) f = Some (s, k, g) /\ s <> Success) as Hall.
  { clear Hi Hb. induction Hl as [|b l1 Hb Hl IH]; intros f Ho Hs; cbn [app compile_persts].
    - destruct (Hf f) as (s & b & -> & Hs'). cbn [mbind option_bind]. destruct s; [done| |]; by eexists _, _, _.
    - cbn [total foldr] in Hs. fold (total psize_of l1) in Hs. pose proof (psize_nonneg b Hb).
      pose proof (total_nonneg psize_of _ psize_nonneg Hl).
      rewrite compile_perst_spec by (done || lia). cbn [mbind option_bind].
      assert (f_offset (after false b (psize_of b) (Some (ini_of b)) f) = f_offset f + psize_of b) as E.
      { unfold after. destruct (isNative b) eqn:E; [rewrite (psize_native b E)|cbn]; lia. }
      destruct (IH (after false b (psize_of b) (Some (ini_of b)) f)) as (s & k & g & -> & Hs'); [lia|lia|].
      cbn. by eexists _, _, _. }
  destruct (Hall (mk_frame IDB_OBJ_HEAD_SIZE 0 None)) as (s & k & g & -> & Hs);
    [cbn; unfold IDB_OBJ_HEAD_SIZE; lia|done|].
  cbn [mbind option_bind]. destruct s; [done| |]; by eexists _, _.
Qed.

End Spec.

Module Example.
Import (hints) BigEndian.
#[local] Existing Instance Attribute.Example.oids.

Definition int_class : ClassRef := Attribute.Example.a_class.
Definition open_class : ClassRef := Attribute.Example.b_class.
Definition sizes (c : option ClassRef) : Z * Z :=
  match c with
  | Some c => if bool_decide (getOid c = getOid int_class) then (52, 52) else (0, 0)
  | None => (0, 0)
  end.

Definition attr (k : Z) (c : ClassRef) (b : Z) (ds : list Z) (m pd mx : Z) (s : string) : Attribute :=
  mk_Attribute 0 k (Some c) Attribute.Example.no_oid None Attribute.Example.no_oid 0 None Attribute.Example.no_oid 0
    b 0 0 Attribute.Example.no_oid (cs s) 0 0 0 0 0 0 0 (mk_TypeModifier m (Z.of_nat (length ds)) ds pd mx).

Definition native : Attribute := Attribute.Example.native_attr.
(** int x; int y[10]; int v[]; and an attribute of a class that is not complete *)
Definition x : Attribute := attr AttrDirect_Code int_class 1 [] 0 1 1 "x".
Definition y : Attribute := attr AttrDirect_Code int_class 1 [10] 0 10 10 "y".
Definition v : Attribute := attr AttrVarDim_Code int_class 1 [-1] 2 1 1 "v".
Definition w : Attribute := attr AttrDirect_Code open_class 0 [] 0 1 1 "w".

Definition class (u : bool) (l : list Attribute) : AgregatClass := mk_AgregatClass u l 0 0 0 None.

Lemma x_ok : layable sizes x.
Proof. right. vm_compute. repeat split; discriminate. Qed.
Lemma y_ok : layable sizes y.
Proof. right. vm_compute. repeat split; discriminate. Qed.
Lemma v_ok : layable sizes v.
Proof. right. vm_compute. repeat split; discriminate. Qed.
Lemma native_ok : layable sizes native.
Proof. by left. Qed.

(** The slots of a structure: 5 bytes for x, 42 for y and 12 for v. *)
Example slots :
  (fun r => (fun a => (idr_poff a, idr_psize a, idr_voff a, idr_vsize a)) <$> items (snd r))
    <$> compile sizes (class false [native; x; y; v])
  = Some [(0, 0, 0, 0); (48, 5, 107, 0); (53, 42, 107, 0); (95, 12, 107, 8)].
Proof. by vm_compute. Qed.

Lemma struct_layout_witness :
  exists c', compile sizes (class false [native; x; y; v]) = Some (Success, c')
    /\ cl_psize c' = 48 + total (psize_of sizes) [native; x; y; v].
Proof.
  destruct (struct_layout sizes (class false [native; x; y; v])) as (c' & E & _ & P & _).
  - reflexivity.
  - repeat (constructor; [first [apply native_ok|apply x_ok|apply y_ok|apply v_ok]|]). constructor.
  - by vm_compute.
  - exists c'. split; [exact E|exact P].
Defined.

Lemma xy_ok : Forall (layable sizes) [native; x; y].
Proof. repeat (constructor; [first [apply native_ok|apply x_ok|apply y_ok]|]). constructor. Qed.

Lemma parent_compiles : exists p, compile sizes (class false [native; x; y]) = Some (Success, p).
Proof. eexists. apply compile_struct; [done|apply xy_ok|by vm_compute]. Qed.

Lemma inherited_places_witness :
  exists parent c, compile sizes (class false [native; x; y]) = Some (Success, parent)
    /\ setAttributes sizes (Some parent) [v] (class false [native]) = Some (Success, c).
Proof.
  destruct parent_compiles as [parent Hp]. exists parent.
  destruct (inherited_places sizes (class false [native; x; y]) parent (class false [native]) [x; y] [v]) as (c & E & _).
  - reflexivity.
  - reflexivity.
  - by constructor.
  - reflexivity.
  - constructor; [by right|]. constructor; [by right|]. constructor.
  - constructor; [apply x_ok|]. constructor; [apply y_ok|]. constructor.
  - constructor; [apply v_ok|]. constructor.
  - by vm_compute.
  - exact Hp.
  - exists c. split; [exact Hp|exact E].
Defined.

Lemma union_layout_witness :
  exists c', compile sizes (class true [x; y]) = Some (Success, c')
    /\ exists b, items c' !! 1%nat = Some b.
Proof.
  destruct (union_layout sizes (class true [x; y])) as (c' & E & H).
  - reflexivity.
  - constructor; [apply x_ok|]. constructor; [apply y_ok|]. constructor.
  - intros a Ha. apply elem_of_cons in Ha as [->|Ha]; [by vm_compute|].
    apply list_elem_of_singleton in Ha as ->. by vm_compute.
  - by vm_compute.
  - exists c'. split; [exact E|]. destruct (H 1%nat y eq_refl) as (b & Hb & _). by exists b.
Defined.

(** A collection of structures of two ints: 10 bytes each, and items of 9. *)
Lemma item_size_short_witness :
  exists c' n, compile sizes (class false [x; x]) = Some (Success, c') /\ get_item_size c' 1 = Some n
    /\ n < (cl_psize c' - 48) * 1.
Proof.
  destruct (item_size_short sizes (class false [x; x]) [x] x 1) as (c' & n & E & G & _ & L).
  - reflexivity.
  - reflexivity.
  - constructor; [apply x_ok|]. constructor; [apply x_ok|]. constructor.
  - by vm_compute.
  - reflexivity.
  - discriminate.
  - lia.
  - exists c', n. split; [exact E|]. split; [exact G|exact L].
Defined.

Example item_of_nine_bytes : (c ← compile sizes (class false [x; x]); get_item_size (snd c) 1) = Some 9.
Proof. by vm_compute. Qed.

Lemma bad_attribute_witness :
  exists s c', compile sizes (class false [x; w; y]) = Some (s, c') /\ s <> Success.
Proof.
  destruct (bad_attribute sizes (class false [x; w; y]) [x] w [y]) as (s & c' & E & H & _).
  - reflexivity.
  - reflexivity.
  - constructor; [apply x_ok|]. constructor.
  - by vm_compute.
  - reflexivity.
  - right. split; [reflexivity|]. split; [by left|reflexivity].
  - exists s, c'. split; [exact E|exact H].
Defined.

End Example.
