(* ===== verification/AttrValue.v ===== *)
(** * Attributes: values in objects

    The values of the attributes of basic and enum classes in the bytes of an object:
    [encode], [decode] and [cmp] of the basic classes (src/eyedb/Basic.cc,
    src/eyedb/Class.cc), EnumClass::setRawData and getRawData
    (src/eyedb/EnumClass.cc), and the accesses to direct attributes:
    Attribute::checkRange, setValue and getValue, AttrDirect::setValue and getValue
    (src/eyedb/Attribute.cc), over the layout of ClassLayout and the null bits of
    NullBits. [None] is an access out of the bytes of the object, or a failed
    assertion. Attributes whose values are objects are not modelled here. *)

From Stdlib Require Import Ascii String.
From S2P Require Import Prelude CString Codec NullBits Oid Attribute ClassLayout.

(** ** Pieces of memory *)

Definition slice {A} (p : nat) (n : nat) (d : list A) : list A := take n (drop p d).
Definition splice {A} (p : nat) (bs : list A) (d : list A) : list A := take p d ++ bs ++ drop (p + length bs) d.

(** Reading [n] bytes at [p], and writing bytes there. *)
Definition fetch (p : Z) (n : nat) (d : list Z) : option (list Z) :=
  if (0 <=? p) && (p + Z.of_nat n <=? Z.of_nat (length d)) then Some (slice (Z.to_nat p) n d) else None.
Definition write (p : Z) (bs : list Z) (d : list Z) : option (list Z) :=
  if (0 <=? p) && (p + Z.of_nat (length bs) <=? Z.of_nat (length d)) then Some (splice (Z.to_nat p) bs d) else None.

Section Values.
Context `{X : Xdr} {OI : Oids Oid}.

(** ** The values of the basic classes

    A float is its 64-bit pattern. *)
Inductive basic_class := CharClass | ByteClass | Int16Class | Int32Class | Int64Class | FloatClass | OidClass.
Inductive value := VNum (k : Z) | VOid (o : Oid).

#[export] Instance value_eq : EqDecision value.
Proof. solve_decision. Defined.

Definition class_size (c : basic_class) : nat :=
  match c with
  | CharClass | ByteClass => 1 | Int16Class => 2 | Int32Class => 4 | Int64Class | FloatClass => 8
  | OidClass => sizeof_Oid
  end.

(** One value by [encode] and [decode]; [None] for a value that is not of the class. *)
Definition encode1 (c : basic_class) (v : value) : option (list Z) :=
  match c, v with
  | CharClass, VNum k | ByteClass, VNum k => Some [k]
  | Int16Class, VNum k => Some (h2x_16 k)
  | Int32Class, VNum k => Some (h2x_32 k)
  | Int64Class, VNum k | FloatClass, VNum k => Some (h2x_64 k)
  | OidClass, VOid o => Some (h2x_oid o)
  | _, _ => None
  end.
Definition decode1 (c : basic_class) (bs : list Z) : value :=
  match c with
  | CharClass | ByteClass => VNum (hd 0 bs)
  | Int16Class => VNum (x2h_16 bs)
  | Int32Class => VNum (x2h_32 bs)
  | Int64Class => VNum (x2h_64 bs)
  | FloatClass => VNum (x2h_f64 bs)
  | OidClass => VOid (x2h_oid bs)
  end.

(** The loops on [nb] values, from the address [p]. *)
Fixpoint encode_values (c : basic_class) (p : Z) (vs : list value) (d : list Z) : option (list Z) :=
  match vs with
  | [] => Some d
  | v :: vs => bs ← encode1 c v; d ← write p bs d; encode_values c (p + Z.of_nat (class_size c)) vs d
  end.
Fixpoint decode_values (c : basic_class) (p : Z) (n : nat) (d : list Z) : option (list value) :=
  match n with
  | O => Some []
  | S n =>
      bs ← fetch p (class_size c) d;
      vs ← decode_values c (p + Z.of_nat (class_size c)) n d; Some (decode1 c bs :: vs)
  end.
(** [cmp], up to its sign: whether some value differs. *)
Fixpoint differ (c : basic_class) (p : Z) (vs : list value) (d : list Z) : option bool :=
  match vs with
  | [] => Some false
  | v :: vs =>
      bs ← fetch p (class_size c) d;
      if bool_decide (decode1 c bs = v) then differ c (p + Z.of_nat (class_size c)) vs d else Some true
  end.

(** CHECK_INCSIZE *)
Definition check_incsize (c : basic_class) (incsize : Z) : option unit :=
  if incsize =? Z.of_nat (class_size c) then Some tt else None.

Definition encode (c : basic_class) (p incsize : Z) (vs : list value) (d : list Z) : option (list Z) :=
  check_incsize c incsize ≫= fun _ => encode_values c p vs d.
Definition decode (c : basic_class) (p incsize : Z) (n : nat) (d : list Z) : option (list value) :=
  check_incsize c incsize ≫= fun _ => decode_values c p n d.
Definition cmp (c : basic_class) (p incsize : Z) (vs : list value) (d : list Z) : option bool :=
  check_incsize c incsize ≫= fun _ => differ c p vs d.

(** ** Enum classes *)

(** The values of the items, unsigned; [data] are the values given, as signed ints. *)
Definition getEnumItemFromVal (items : list Z) (val : Z) : bool := existsb (fun v => v =? u32 val) items.

(** Exceptions are named by what they report. *)
Inductive status := Success | NegativeOffset | OffsetTooLarge | RangeTooLarge | InvalidValue (val : Z).

#[export] Instance vstatus_eq : EqDecision status.
Proof. solve_decision. Defined.

(** EnumClass::setRawData: the status, the bytes and whether they were modified. *)
Fixpoint setRawData (items : list Z) (p : Z) (data : list Z) (check_value : bool) (d : list Z) (mod_ : bool)
  : option (status * list Z * bool) :=
  match data with
  | [] => Some (Success, d, mod_)
  | val :: data =>
      bs ← fetch p 4 d;
      if x2h_32 bs =? val then setRawData items (p + 4) data check_value d mod_
      else if check_value && negb (getEnumItemFromVal items val) then Some (InvalidValue val, d, mod_)
      else d ← write p (h2x_32 val) d; setRawData items (p + 4) data check_value d true
  end.

Definition getRawData (p : Z) (nb : nat) (d : list Z) : option (list value) := decode_values Int32Class p nb d.

(** ** Direct attributes *)

Inductive attr_class := Basic (c : basic_class) | Enum (items : list Z).
(** Which basic or enum class the class of the attribute is. *)
Variable class_of : option ClassRef -> attr_class.

Definition defaultSize : Z := -1.
Definition directAccess : Z := -2.

(** Attribute::checkRange: the error, or [nb] as it is set. *)
Definition checkRange (a : Attribute) (from nb : Z) : option (status * Z) :=
  let pd := pdims (typmod a) in
  if from <? 0 then Some (NegativeOffset, nb)
  else if pd <=? from then Some (OffsetTooLarge, nb)
  else if nb =? defaultSize then Some (Success, pd - from)
  else if nb =? directAccess then Some (Success, nb)
  else to ← int32 (from + nb); Some (if pd <? to then RangeTooLarge else Success, nb).

(** The null bits, from the address [p] on. *)
Definition is_null (p : Z) (nb from : Z) (d : list Z) : option bool := isNull (drop (Z.to_nat p) d) nb from.
Definition set_init (p : Z) (nb from : Z) (val : bool) (d : list Z) : option (list Z) :=
  ini ← setInit (drop (Z.to_nat p) d) nb from val; Some (take (Z.to_nat p) d ++ ini).

(** The values [data] points to: [nb] of them are read. *)
Definition given (nb : Z) (data : list value) : option (list value) :=
  if (0 <=? nb) && (nb <=? Z.of_nat (length data)) then Some (take (Z.to_nat nb) data) else None.
Fixpoint nums (l : list value) : option (list Z) :=
  match l with
  | [] => Some []
  | VNum k :: l => ks ← nums l; Some (k :: ks)
  | VOid _ :: _ => None
  end.

(** AttrDirect::setValue then Attribute::setValue, of an attribute of a basic or enum
    class: the status, the bytes of the object and whether it was touched. *)
Definition setValue (a : Attribute) (idr : list Z) (data : list value) (nb from : Z) (check_class : bool)
  : option (status * list Z * bool) :=
  '(s, nb) ← checkRange a from nb;
  match s with
  | Success =>
      let inidata := idr_poff a in
      let incsize := idr_item_psize a in
      let p := inidata + idr_inisize a + from * incsize in
      data ← given nb data;
      match class_of (cls a) with
      | Basic c =>
          diff ← cmp c p incsize data idr;
          upd ← (if diff : bool then Some true else is_null inidata nb from idr);
          idr ← (if upd : bool then encode c p incsize data idr else Some idr);
          idr ← set_init inidata nb from true idr;
          Some (Success, idr, upd)
      | Enum its =>
          ks ← nums data;
          '(s, idr, modify) ← setRawData its p ks check_class idr false;
          match s with
          | Success =>
              upd ← (if modify : bool then Some true else is_null inidata nb from idr);
              idr ← set_init inidata nb from true idr;
              Some (Success, idr, upd)
          | _ => Some (s, idr, false)
          end
      end
  | _ => Some (s, idr, false)
  end.

(** What getValue stores: the values, or for directAccess the address of the first. *)
Inductive got := Values (l : list value) | Address (p : Z).

(** AttrDirect::getValue then Attribute::getValue: the status, what is got and
    [isnull]. *)
Definition getValue (a : Attribute) (idr : list Z) (nb from : Z) : option (status * option (got * bool)) :=
  '(s, nb) ← checkRange a from nb;
  match s with
  | Success =>
      let inidata := idr_poff a in
      let incsize := idr_item_psize a in
      let p := inidata + idr_inisize a + from * incsize in
      match class_of (cls a) with
      | Basic c =>
          if nb =? directAccess then
            n ← is_null inidata (pdims (typmod a) - from) from idr;
            Some (Success, Some (Address p, n))
          else if nb <? 0 then None
          else
            vs ← decode c p incsize (Z.to_nat nb) idr;
            n ← is_null inidata nb from idr;
            Some (Success, Some (Values vs, n))
      | Enum _ =>
          if nb <? 0 then None
          else
            n ← is_null inidata nb from idr;
            vs ← getRawData p (Z.to_nat nb) idr;
            Some (Success, Some (Values vs, n))
      end
  | _ => Some (s, None)
  end.

End Values.

(** ** Slices and splices *)

Section Memory.
Context {A : Type}.
Implicit Types d bs : list A.

Lemma slice_lookup p n d i : slice p n d !! i = if decide (i < n)%nat then d !! (p + i)%nat else None.
Proof.
  unfold slice. case_decide; [by rewrite lookup_take_lt, lookup_drop by done|by apply lookup_take_ge; lia].
Qed.
Lemma slice_length p n d : (p + n <= length d)%nat -> length (slice p n d) = n.
Proof. intros H. unfold slice. rewrite length_take, length_drop. lia. Qed.
Lemma splice_length p bs d : (p + length bs <= length d)%nat -> length (splice p bs d) = length d.
Proof. intros H. unfold splice. rewrite !length_app, length_take, length_drop. lia. Qed.
Lemma splice_lookup p bs d i : (p + length bs <= length d)%nat ->
  splice p bs d !! i
  = if decide (i < p)%nat then d !! i else if decide (i < p + length bs)%nat then bs !! (i - p)%nat else d !! i.
Proof.
  intros H. unfold splice. case_decide as H1.
  { rewrite lookup_app_l by (rewrite length_take; lia). by rewrite lookup_take_lt. }
  rewrite lookup_app_r by (rewrite length_take; lia). rewrite length_take, Nat.min_l by lia. case_decide as H2.
  { by rewrite lookup_app_l by lia. }
  rewrite lookup_app_r by lia. rewrite lookup_drop. f_equal. lia.
Qed.

Lemma slice_splice_other p bs q n d : (p + length bs <= length d)%nat -> (q + n <= p \/ p + length bs <= q)%nat ->
  slice q n (splice p bs d) = slice q n d.
Proof.
  intros H Hq. apply list_eq. intros i. rewrite !slice_lookup. case_decide; [|done].
  rewrite splice_lookup by done. repeat case_decide; done || lia.
Qed.
Lemma slice_splice_inside p bs q n d : (p + length bs <= length d)%nat -> (p <= q)%nat -> (q + n <= p + length bs)%nat ->
  slice q n (splice p bs d) = slice (q - p) n bs.
Proof.
  intros H Hq Hn. apply list_eq. intros i. rewrite !slice_lookup. case_decide; [|done].
  rewrite splice_lookup by done. repeat case_decide; try lia. f_equal. lia.
Qed.
Lemma splice_app p bs bs' d : (p + length bs + length bs' <= length d)%nat ->
  splice (p + length bs) bs' (splice p bs d) = splice p (bs ++ bs') d.
Proof.
  intros H. apply list_eq. intros i. rewrite !splice_lookup by (rewrite ?splice_length, ?length_app; lia).
  rewrite length_app. repeat case_decide; try lia; try done; symmetry.
  - by rewrite lookup_app_l by lia.
  - rewrite lookup_app_r by lia. f_equal. lia.
Qed.
Lemma splice_nil p d : splice p [] d = d.
Proof. unfold splice. cbn. rewrite Nat.add_0_r. apply take_drop. Qed.
Lemma slice_app_l q n d d' : (q + n <= length d)%nat -> slice q n (d ++ d') = slice q n d.
Proof.
  intros H. unfold slice. rewrite drop_app_le by lia. rewrite take_app_le; [done|]. rewrite length_drop. lia.
Qed.

Lemma slice_app_r q n d d' : slice (length d + q) n (d ++ d') = slice q n d'.
Proof. unfold slice. by rewrite <- drop_drop, drop_app_length. Qed.

End Memory.

Lemma fetch_in p n d : 0 <= p -> p + Z.of_nat n <= Z.of_nat (length d) -> fetch p n d = Some (slice (Z.to_nat p) n d).
Proof.
  intros H1 H2. unfold fetch. by rewrite (proj2 (Z.leb_le _ _) H1), (proj2 (Z.leb_le _ _) H2).
Qed.
Lemma write_in p bs d : 0 <= p -> p + Z.of_nat (length bs) <= Z.of_nat (length d) ->
  write p bs d = Some (splice (Z.to_nat p) bs d).
Proof.
  intros H1 H2. unfold write. by rewrite (proj2 (Z.leb_le _ _) H1), (proj2 (Z.leb_le _ _) H2).
Qed.

(** ** Values in memory *)

Section Theory.
Context `{XL : XdrLaws} {OI : Oids Oid}.

Definition val_ok (c : basic_class) (v : value) : Prop :=
  match c, v with
  | CharClass, VNum k | ByteClass, VNum k => 0 <= k < 256
  | Int16Class, VNum k => in_s 16 k
  | Int32Class, VNum k => in_s 32 k
  | Int64Class, VNum k => in_s 64 k
  | FloatClass, VNum k => 0 <= k < 2 ^ 64
  | OidClass, VOid _ => True
  | _, _ => False
  end.

Lemma encode1_ok c v : val_ok c v ->
  exists bs, encode1 c v = Some bs /\ length bs = class_size c /\ decode1 c bs = v.
Proof.
  destruct c, v; cbn [val_ok]; try done; intros H; eexists; (split; [done|]); cbn.
  all: rewrite ?h2x_16_length, ?h2x_32_length, ?h2x_64_length, ?h2x_oid_length.
  all: by rewrite ?x2h_h2x_16, ?x2h_h2x_32, ?x2h_h2x_64, ?x2h_h2x_f64, ?x2h_h2x_oid.
Qed.

(** The values that [n] elements from [p] hold. *)
Definition elements (c : basic_class) (p n : nat) (d : list Z) : list value :=
  (fun k => decode1 c (slice (p + k * class_size c) (class_size c) d)) <$> seq 0 n.

Lemma elements_length c p n d : length (elements c p n d) = n.
Proof. unfold elements. by rewrite length_fmap, length_seq. Qed.
Lemma elements_lookup c p n d k : (k < n)%nat ->
  elements c p n d !! k = Some (decode1 c (slice (p + k * class_size c) (class_size c) d)).
Proof. intros H. unfold elements. rewrite list_lookup_fmap, lookup_seq_lt by done. done. Qed.
Lemma elements_S c p n d :
  elements c p (S n) d = decode1 c (slice p (class_size c) d) :: elements c (p + class_size c) n d.
Proof.
  unfold elements. rewrite <- cons_seq. cbn [fmap list_fmap]. f_equal; [by rewrite Nat.mul_0_l, Nat.add_0_r|].
  rewrite <- fmap_S_seq, <- list_fmap_compose. apply list_fmap_ext. intros i k _. unfold compose. do 2 f_equal. lia.
Qed.
Lemma elements_slice c p n d j m : (j + m <= n)%nat ->
  slice j m (elements c p n d) = elements c (p + j * class_size c) m d.
Proof.
  intros H. apply list_eq. intros i. rewrite slice_lookup. case_decide as Hi.
  - rewrite !elements_lookup by lia. do 3 f_equal. lia.
  - symmetry. apply lookup_ge_None. rewrite elements_length. lia.
Qed.

Lemma elements_app_r c n d d' : elements c (length d) n (d ++ d') = elements c 0 n d'.
Proof. unfold elements. apply list_fmap_ext. intros i k _. by rewrite slice_app_r. Qed.

Lemma decode_values_ok c n : forall p d, 0 <= p -> p + Z.of_nat n * Z.of_nat (class_size c) <= Z.of_nat (length d) ->
  decode_values c p n d = Some (elements c (Z.to_nat p) n d).
Proof.
  induction n as [|n IH]; intros p d Hp Hb; cbn [decode_values]; [done|].
  rewrite fetch_in by lia. cbn [mbind option_bind]. rewrite IH by lia. cbn [mbind option_bind].
  rewrite elements_S. do 3 f_equal. lia.
Qed.

Lemma encode_values_ok c vs : Forall (val_ok c) vs -> forall p d, 0 <= p ->
  p + Z.of_nat (length vs) * Z.of_nat (class_size c) <= Z.of_nat (length d) ->
  exists bs, encode_values c p vs d = Some (splice (Z.to_nat p) bs d)
    /\ length bs = (length vs * class_size c)%nat /\ elements c 0 (length vs) bs = vs.
Proof.
  induction 1 as [|v vs Hv Hvs IH]; intros p d Hp Hb; cbn [encode_values length].
  { exists []. by rewrite splice_nil. }
  cbn [length] in Hb. destruct (encode1_ok c v Hv) as (b & -> & Lb & Eb). cbn [mbind option_bind].
  rewrite write_in by lia. cbn [mbind option_bind].
  destruct (IH (p + Z.of_nat (class_size c)) (splice (Z.to_nat p) b d)) as (bs & -> & Lbs & Ebs);
    [lia|rewrite splice_length by lia; lia|].
  exists (b ++ bs). split.
  - rewrite <- splice_app by lia. do 2 f_equal. lia.
  - split; [rewrite length_app; lia|]. rewrite elements_S, slice_app_l by lia.
    f_equal; [rewrite <- Lb; unfold slice; by rewrite drop_0, take_ge by lia|].
    rewrite <- Ebs at 2. rewrite <- Lb. apply elements_app_r.
Qed.

(** Elements before, in and after a splice of whole elements. *)
Lemma elements_splice c p n d j bs m : length bs = (m * class_size c)%nat ->
  (p + n * class_size c <= length d)%nat -> (j + m <= n)%nat ->
  elements c p n (splice (p + j * class_size c) bs d) = splice j (elements c 0 m bs) (elements c p n d).
Proof.
  intros Hl Hd Hj. apply list_eq. intros i.
  rewrite splice_lookup by (rewrite !elements_length; lia). rewrite elements_length.
  destruct (decide (i < n)%nat) as [Hi|Hi].
  - rewrite elements_lookup by done. repeat case_decide; try lia.
    + rewrite elements_lookup by lia. do 2 f_equal. apply slice_splice_other; nia.
    + rewrite elements_lookup by lia. do 2 f_equal. rewrite slice_splice_inside by nia. f_equal. nia.
    + rewrite elements_lookup by lia. do 2 f_equal. apply slice_splice_other; nia.
  - repeat case_decide; try lia; rewrite !lookup_ge_None_2; rewrite ?elements_length; done || lia.
Qed.

Lemma elements_other c p n d q bs : (q + length bs <= length d)%nat ->
  (p + n * class_size c <= q \/ q + length bs <= p)%nat -> elements c p n (splice q bs d) = elements c p n d.
Proof.
  intros Hd Hq. apply list_eq. intros i. destruct (decide (i < n)%nat) as [Hi|Hi].
  - rewrite !elements_lookup by done. do 2 f_equal. apply slice_splice_other; nia.
  - by rewrite !lookup_ge_None_2 by (rewrite elements_length; lia).
Qed.

Lemma differ_ok c vs : forall p d, 0 <= p -> p + Z.of_nat (length vs) * Z.of_nat (class_size c) <= Z.of_nat (length d) ->
  differ c p vs d = Some (negb (bool_decide (elements c (Z.to_nat p) (length vs) d = vs))).
Proof.
  induction vs as [|v vs IH]; intros p d Hp Hb; cbn [differ length]; [by rewrite bool_decide_true|].
  cbn [length] in Hb. rewrite fetch_in by lia. cbn [mbind option_bind]. rewrite elements_S. case_bool_decide as E.
  - rewrite IH by lia. do 2 f_equal. replace (Z.to_nat (p + Z.of_nat (class_size c))) with (Z.to_nat p + class_size c)%nat by lia.
    apply bool_decide_ext. rewrite E. split; [by intros ->|by intros [=]].
  - f_equal. symmetry. apply negb_true_iff, bool_decide_eq_false. by intros [=].
Qed.

(** ** One attribute in an object *)

Variable class_of : option ClassRef -> attr_class.

(** A direct attribute at its place, its values being of class [c]. *)
Record slot (c : basic_class) (a : Attribute) (d : list Z) : Prop := {
  slot_poff : 0 <= idr_poff a;
  slot_item : idr_item_psize a = Z.of_nat (class_size c);
  slot_ini : idr_inisize a = iniSize (pdims (typmod a));
  slot_pdims : 1 <= pdims (typmod a) < 2 ^ 31;
  slot_in : idr_poff a + idr_inisize a + Z.of_nat (class_size c) * pdims (typmod a) <= Z.of_nat (length d);
  slot_bytes : bytes_ok (slice (Z.to_nat (idr_poff a)) (Z.to_nat (idr_inisize a)) d);
}.

(** Its null bits and its values. *)
Definition nulls (a : Attribute) (d : list Z) : list Z := slice (Z.to_nat (idr_poff a)) (Z.to_nat (idr_inisize a)) d.
Definition values (c : basic_class) (a : Attribute) (d : list Z) : list value :=
  elements c (Z.to_nat (idr_poff a + idr_inisize a)) (Z.to_nat (pdims (typmod a))) d.
Definition not_null (a : Attribute) (d : list Z) (k : Z) : bool := initialized (nulls a d) k.

Lemma slot_ini_bounds c a d : slot c a d -> 1 <= idr_inisize a /\ pdims (typmod a) <= 8 * idr_inisize a.
Proof.
  intros [_ _ -> [Hp _] _ _]. pose proof (iniSize_bounds _ Hp). rewrite iniSize_ceil in * by lia.
  Z.div_mod_to_equations. lia.
Qed.

Lemma nulls_length c a d : slot c a d -> length (nulls a d) = Z.to_nat (idr_inisize a).
Proof. intros Hs. pose proof (slot_ini_bounds c a d Hs). destruct Hs. apply slice_length. nia. Qed.

Lemma nulls_split c a d : slot c a d ->
  drop (Z.to_nat (idr_poff a)) d = nulls a d ++ drop (Z.to_nat (idr_poff a) + Z.to_nat (idr_inisize a)) d.
Proof. intros Hs. unfold nulls, slice. by rewrite <- drop_drop, take_drop. Qed.

Section OneSlot.
Context (c : basic_class) (a : Attribute) (from nb : Z).
Hypothesis Hfrom : 0 <= from.
Hypothesis Hnb : 0 < nb.
Hypothesis Hto : from + nb <= pdims (typmod a).

Lemma is_null_slot d : slot c a d -> is_null (idr_poff a) nb from d = isNull (nulls a d) nb from.
Proof.
  intros Hs. unfold is_null. rewrite (nulls_split c) by done. pose proof (slot_ini_bounds c a d Hs).
  apply isNull_app; [done|lia|]. rewrite (nulls_length c) by done. lia.
Qed.

Lemma set_init_slot d val : slot c a d ->
  exists ini, set_init (idr_poff a) nb from val d = Some (splice (Z.to_nat (idr_poff a)) ini d)
    /\ length ini = Z.to_nat (idr_inisize a) /\ bytes_ok ini
    /\ forall k, 0 <= k < 8 * idr_inisize a -> initialized ini k = if touched nb from k then val else not_null a d k.
Proof.
  intros Hs. pose proof (slot_ini_bounds c a d Hs) as Hi. pose proof (nulls_length c a d Hs) as Hl.
  unfold set_init. rewrite (nulls_split c) by done. rewrite setInit_app by (rewrite ?Hl; lia).
  destruct (setInit_bits (nulls a d) nb from val Hfrom) as (ini & E & L & B); [lia|rewrite Hl; lia|].
  rewrite E. cbn [fmap option_fmap option_map mbind option_bind]. exists ini. split.
  - unfold splice. do 3 f_equal. f_equal. lia.
  - split; [lia|]. split; [eapply setInit_ok, E; apply Hs|]. intros k Hk. rewrite B by (rewrite Hl; lia). done.
Qed.

Lemma checkRange_ok d : slot c a d -> checkRange a from nb = Some (Success, nb).
Proof.
  intros Hs. pose proof (slot_pdims c a d Hs). unfold checkRange, defaultSize, directAccess.
  destruct (Z.ltb_spec from 0); [lia|]. destruct (Z.leb_spec (pdims (typmod a)) from); [lia|].
  destruct (Z.eqb_spec nb (-1)); [lia|]. destruct (Z.eqb_spec nb (-2)); [lia|].
  rewrite int32_id by (unfold in_s; lia). cbn. by destruct (Z.ltb_spec (pdims (typmod a)) (from + nb)); [lia|].
Qed.

(** The elements of the range among those of the attribute. *)
Lemma elements_range d : slot c a d ->
  elements c (Z.to_nat (idr_poff a + idr_inisize a + from * idr_item_psize a)) (Z.to_nat nb) d
  = slice (Z.to_nat from) (Z.to_nat nb) (values c a d).
Proof.
  intros Hs. pose proof (slot_ini_bounds c a d Hs). destruct Hs as [Hp Hit _ _ _ _].
  unfold values. rewrite elements_slice by lia. f_equal. rewrite Hit. nia.
Qed.

(** After an update of the values of the range and of the null bits. *)
Definition updated (d d' : list Z) (vs : list value) : Prop :=
  length d' = length d /\ bytes_ok (nulls a d')
  /\ values c a d' = splice (Z.to_nat from) vs (values c a d)
  /\ (forall k, 0 <= k < pdims (typmod a) -> not_null a d' k = touched nb from k || not_null a d k)
  /\ forall i, (i < Z.to_nat (idr_poff a) \/ Z.to_nat (idr_poff a + idr_inisize a + Z.of_nat (class_size c) * pdims (typmod a)) <= i)%nat ->
       d' !! i = d !! i.

Lemma update_slot d bs vs : slot c a d -> length vs = Z.to_nat nb ->
  length bs = (length vs * class_size c)%nat -> elements c 0 (length vs) bs = vs ->
  exists d', set_init (idr_poff a) nb from true
      (splice (Z.to_nat (idr_poff a + idr_inisize a + from * idr_item_psize a)) bs d) = Some d'
    /\ updated d d' vs.
Proof.
  intros Hs Hl Hbs Hvs. pose proof (slot_ini_bounds c a d Hs) as Hi. pose proof Hs as [Hp Hit Hini Hpd Hin Hby].
  set (q := Z.to_nat (idr_poff a + idr_inisize a + from * idr_item_psize a)).
  assert (q = Z.to_nat (idr_poff a + idr_inisize a) + Z.to_nat from * class_size c)%nat as Hq by (unfold q; rewrite Hit; nia).
  assert (q + length bs <= length d)%nat as Hqd by (rewrite Hq, Hbs, Hl; nia).
  assert (nulls a (splice q bs d) = nulls a d) as Hn by (apply slice_splice_other; [done|rewrite Hq; lia]).
  assert (slot c a (splice q bs d)) as Hs'.
  { split; try done; [by rewrite splice_length|]. fold (nulls a (splice q bs d)). by rewrite Hn. }
  destruct (set_init_slot _ true Hs') as (ini & -> & Li & Bi & Ti). exists (splice (Z.to_nat (idr_poff a)) ini (splice q bs d)).
  split; [done|].
  assert (Z.to_nat (idr_poff a) + length ini <= length (splice q bs d))%nat as Hpi by (rewrite splice_length by done; nia).
  assert (nulls a (splice (Z.to_nat (idr_poff a)) ini (splice q bs d)) = ini) as Hn'.
  { unfold nulls. rewrite slice_splice_inside by lia. rewrite Nat.sub_diag. unfold slice. rewrite drop_0. by apply take_ge; lia. }
  split; [by rewrite !splice_length|]. split; [by rewrite Hn'|]. split; [|split].
  - unfold values. rewrite elements_other by (rewrite ?splice_length by done; lia).
    rewrite Hq, (elements_splice c _ _ _ _ _ (length vs)) by nia. by rewrite Hvs.
  - intros k Hk. unfold not_null at 1. rewrite Hn', Ti by lia. unfold not_null. rewrite Hn. by destruct (touched nb from k).
  - intros i Hout. rewrite !splice_lookup by done. repeat case_decide; try done; try lia. nia.
Qed.

Lemma splice_same {A} j (l l' : list A) : slice j (length l') l = l' -> (j + length l' <= length l)%nat -> splice j l' l = l.
Proof.
  intros E H. apply list_eq. intros i. rewrite splice_lookup by done. repeat case_decide; try done.
  rewrite <- E at 1. rewrite slice_lookup. rewrite decide_True by lia. f_equal. lia.
Qed.

Lemma set_basic d data chk : slot c a d -> class_of (cls a) = Basic c -> length data = Z.to_nat nb ->
  Forall (val_ok c) data ->
  exists d' t, setValue class_of a d data nb from chk = Some (Success, d', t) /\ updated d d' data.
Proof.
  intros Hs Hc Hl Hv. unfold setValue. rewrite (checkRange_ok d) by done. cbn [mbind option_bind].
  unfold given. replace ((0 <=? nb) && _) with true by (symmetry; apply andb_true_iff; lia). cbn [mbind option_bind].
  rewrite take_ge by lia. rewrite Hc. pose proof (slot_ini_bounds c a d Hs) as Hi. pose proof Hs as [Hp Hit Hini Hpd Hin Hby].
  set (q := idr_poff a + idr_inisize a + from * idr_item_psize a).
  assert (0 <= q) by (unfold q; rewrite Hit; nia).
  assert (q + Z.of_nat (length data) * Z.of_nat (class_size c) <= Z.of_nat (length d)) by (unfold q; rewrite Hit, Hl; nia).
  unfold cmp, encode, check_incsize. rewrite Hit, Z.eqb_refl. cbn [mbind option_bind].
  rewrite differ_ok by done. cbn [mbind option_bind]. unfold q. rewrite Hl, elements_range by done. fold q.
  destruct (encode_values_ok c data Hv q d) as (bs & Eb & Lb & Vb); [done|done|].
  destruct (update_slot d bs data Hs Hl Lb Vb) as (d1 & E1 & U1). fold q in E1.
  destruct (isNull_bits (nulls a d) nb from) as (r & En & _);
    [apply Hs|done|lia|rewrite (nulls_length c) by done; lia|].
  case_bool_decide as Ed; cbn [negb mbind option_bind].
  - rewrite is_null_slot, En by done. cbn [mbind option_bind]. destruct r; cbn [mbind option_bind].
    + rewrite Eb. cbn [mbind option_bind]. rewrite E1. by eexists _, _.
    + destruct (set_init_slot d true Hs) as (ini & E & Li & Bi & Ti). rewrite E. cbn [mbind option_bind]. eexists _, _. split; [done|].
      (* the bytes are not written again *)
      assert (Z.to_nat (idr_poff a) + length ini <= length d)%nat as Hpi by nia.
      assert (nulls a (splice (Z.to_nat (idr_poff a)) ini d) = ini) as Hn'.
      { unfold nulls. rewrite slice_splice_inside by lia. rewrite Nat.sub_diag. unfold slice. rewrite drop_0. by apply take_ge; lia. }
      split; [by rewrite splice_length|]. split; [by rewrite Hn'|]. split; [|split].
      * unfold values. rewrite elements_other by lia. symmetry. fold (values c a d). apply splice_same.
        { by rewrite Hl. } { rewrite Hl. unfold values. rewrite elements_length. lia. }
      * intros k Hk. unfold not_null at 1. rewrite Hn', Ti by lia. by destruct (touched nb from k).
      * intros i Hout. rewrite !splice_lookup by done. repeat case_decide; try done; try lia.
  - rewrite Eb. cbn [mbind option_bind]. rewrite E1. by eexists _, _.
Qed.

Lemma get_slot d : slot c a d -> (class_of (cls a) = Basic c \/ c = Int32Class /\ exists its, class_of (cls a) = Enum its) ->
  exists n, getValue class_of a d nb from
    = Some (Success, Some (Values (slice (Z.to_nat from) (Z.to_nat nb) (values c a d)), n))
    /\ (n = true <-> forall k, 0 <= k < 8 * idr_inisize a -> touched nb from k = true -> not_null a d k = false).
Proof.
  intros Hs Hc. unfold getValue. rewrite (checkRange_ok d) by done. cbn [mbind option_bind].
  pose proof (slot_ini_bounds c a d Hs) as Hi. pose proof Hs as [Hp Hit Hini Hpd Hin Hby].
  destruct (isNull_bits (nulls a d) nb from) as (r & En & Hr);
    [apply Hs|done|lia|rewrite (nulls_length c) by done; lia|].
  rewrite (nulls_length c) in Hr by done. rewrite Z2Nat.id in Hr by lia.
  assert (0 <= idr_poff a + idr_inisize a + from * idr_item_psize a) by (rewrite Hit; nia).
  assert (idr_poff a + idr_inisize a + from * idr_item_psize a + Z.of_nat (Z.to_nat nb) * Z.of_nat (class_size c) <= Z.of_nat (length d))
    by (rewrite Hit; nia).
  destruct Hc as [->|[Ec [its ->]]].
  - destruct (Z.eqb_spec nb directAccess) as [E|_]; [unfold directAccess in E; lia|]. destruct (Z.ltb_spec nb 0); [lia|].
    unfold decode, check_incsize. rewrite (proj2 (Z.eqb_eq _ _) Hit). cbn [mbind option_bind].
    rewrite decode_values_ok by done. rewrite elements_range by done. cbn [mbind option_bind].
    rewrite is_null_slot, En by done. by exists r.
  - destruct (Z.ltb_spec nb 0); [lia|]. rewrite is_null_slot, En by done. cbn [mbind option_bind]. unfold getRawData. rewrite <- Ec.
    rewrite decode_values_ok by done. rewrite elements_range by done. cbn [mbind option_bind]. by exists r.
Qed.

End OneSlot.

(** What is read depends on the bytes of the slot only. *)
Lemma slice_ext {A} q n (d d' : list A) : (forall i, (q <= i < q + n)%nat -> d' !! i = d !! i) -> slice q n d' = slice q n d.
Proof. intros H. apply list_eq. intros i. rewrite !slice_lookup. case_decide; [|done]. apply H. lia. Qed.

Lemma slot_frame c a d d' : slot c a d -> length d' = length d ->
  (forall i, (Z.to_nat (idr_poff a) <= i < Z.to_nat (idr_poff a + idr_inisize a + Z.of_nat (class_size c) * pdims (typmod a)))%nat ->
     d' !! i = d !! i) ->
  values c a d' = values c a d /\ nulls a d' = nulls a d.
Proof.
  intros Hs Hl H. pose proof (slot_ini_bounds c a d Hs). destruct Hs as [Hp Hit Hini Hpd Hin Hby]. split.
  - unfold values, elements. apply list_fmap_ext. intros i k Hk. apply lookup_seq in Hk as [-> Hk].
    f_equal. apply slice_ext. intros j Hj. apply H. nia.
  - unfold nulls. apply slice_ext. intros j Hj. apply H. nia.
Qed.

(** ** Enums *)

Lemma nums_VNum ks : nums (VNum <$> ks) = Some ks.
Proof. induction ks as [|k ks IH]; [done|]. cbn in *. by rewrite IH. Qed.

Lemma setRawData_ok its ks chk : Forall (in_s 32) ks -> forall p d m, 0 <= p ->
  p + Z.of_nat (length ks) * 4 <= Z.of_nat (length d) ->
  exists s j bs m', setRawData its p ks chk d m = Some (s, splice (Z.to_nat p) bs d, m')
    /\ (j <= length ks)%nat /\ length bs = (j * 4)%nat /\ elements Int32Class 0 j bs = VNum <$> take j ks
    /\ (forall i k, (i < j)%nat -> ks !! i = Some k -> chk = true -> getEnumItemFromVal its k = true
          \/ elements Int32Class (Z.to_nat p) (length ks) d !! i = Some (VNum k))
    /\ match s with
       | Success => j = length ks /\ m' = m || negb (bool_decide (elements Int32Class (Z.to_nat p) (length ks) d = VNum <$> ks))
       | InvalidValue v => ks !! j = Some v /\ chk = true /\ getEnumItemFromVal its v = false
           /\ elements Int32Class (Z.to_nat p) (length ks) d !! j <> Some (VNum v)
       | _ => False
       end.
Proof.
  induction 1 as [|k ks Hk Hks IH]; intros p d m Hp Hb; cbn [setRawData length].
  { exists Success, 0%nat, [], m. rewrite splice_nil. cbn. rewrite orb_false_r. split_and!; try done. }
  cbn [length] in Hb. rewrite fetch_in by lia. cbn [mbind option_bind]. rewrite elements_S. cbn [class_size decode1].
  replace (Z.to_nat p + 4)%nat with (Z.to_nat (p + 4)) by lia.
  destruct (Z.eqb_spec (x2h_32 (slice (Z.to_nat p) 4 d)) k) as [E|E].
  - destruct (IH (p + 4) d m) as (s & j & bs & m' & -> & Hj & Lb & Vb & Ha & Hs); [lia|lia|].
    exists s, (S j), (slice (Z.to_nat p) 4 d ++ bs), m'.
    assert (length (slice (Z.to_nat p) 4 d) = 4%nat) as L4 by (apply slice_length; lia).
    split.
    { rewrite <- splice_app by lia. rewrite L4. rewrite (splice_same (Z.to_nat p)) by (rewrite ?L4; lia || done). do 4 f_equal. lia. }
    split; [lia|]. split; [rewrite length_app; lia|]. split.
    { rewrite elements_S. cbn [take fmap list_fmap class_size decode1]. f_equal.
      - rewrite slice_app_l by lia. unfold slice at 1. rewrite drop_0, take_ge by lia. by rewrite E.
      - rewrite <- Vb. pose proof (elements_app_r Int32Class j (slice (Z.to_nat p) 4 d) bs) as Er. by rewrite L4 in Er. }
    split.
    { intros [|i] k' Hi Hk' Hc; [right; cbn in *; congruence|]. apply (Ha i); [lia|done|done]. }
    destruct s; try done.
    destruct Hs as [-> ->]. split; [done|]. do 2 f_equal. apply bool_decide_ext. cbn [fmap list_fmap].
      split; [intros H; f_equal; [by f_equal|exact H]|by intros [=]].
  - destruct (chk && negb (getEnumItemFromVal its k)) eqn:Ec.
    + apply andb_true_iff in Ec as [-> Ec%negb_true_iff]. exists (InvalidValue k), 0%nat, [], m.
      rewrite splice_nil. split; [done|]. split; [lia|]. split; [done|]. split; [done|]. split; [intros; lia|].
      split; [done|]. split; [done|]. split; [done|]. cbn. congruence.
    + rewrite write_in by (rewrite ?h2x_32_length; lia). cbn [mbind option_bind].
      assert (Z.to_nat p + length (h2x_32 k) <= length d)%nat as Hpd by (rewrite h2x_32_length; lia).
      destruct (IH (p + 4) (splice (Z.to_nat p) (h2x_32 k) d) true) as (s & j & bs & m' & -> & Hj & Lb & Vb & Ha & Hs);
        [lia|rewrite splice_length by done; lia|].
      exists s, (S j), (h2x_32 k ++ bs), m'. split.
      { rewrite <- splice_app by (rewrite h2x_32_length; lia). rewrite h2x_32_length. do 4 f_equal. lia. }
      split; [lia|]. split; [rewrite length_app, h2x_32_length; lia|]. split.
      { rewrite elements_S. cbn [take fmap list_fmap class_size decode1]. f_equal.
        - rewrite slice_app_l by (rewrite h2x_32_length; lia). unfold slice. rewrite drop_0, take_ge by (rewrite h2x_32_length; lia).
          by rewrite x2h_h2x_32.
        - rewrite <- Vb. pose proof (elements_app_r Int32Class j (h2x_32 k) bs) as Er. by rewrite h2x_32_length in Er. }
      assert (elements Int32Class (Z.to_nat (p + 4)) (length ks) (splice (Z.to_nat p) (h2x_32 k) d)
              = elements Int32Class (Z.to_nat (p + 4)) (length ks) d) as Eo
        by (apply elements_other; rewrite h2x_32_length; cbn; lia).
      rewrite Eo in Hs, Ha. split.
      { intros [|i] k' Hi Hk' Hc; [|by apply (Ha i); [lia|..]]. left. injection Hk' as <-. rewrite Hc in Ec.
        by destruct (getEnumItemFromVal its k). }
      destruct s; try done.
      destruct Hs as [-> ->]. split; [done|]. rewrite orb_true_l, bool_decide_false; [by rewrite orb_true_r|].
      cbn [fmap list_fmap]. intros [=]. congruence.
Qed.

Lemma given_ok nb (data : list value) : 0 <= nb -> length data = Z.to_nat nb -> given nb data = Some data.
Proof.
  intros H Hl. unfold given. replace ((0 <=? nb) && _) with true by (symmetry; apply andb_true_iff; lia).
  by rewrite take_ge by lia.
Qed.

(** setValue on an enum: all is written, or the values before the first one that is
    refused. *)
Lemma set_enum a d its ks nb from chk :
  0 <= from -> 0 < nb -> from + nb <= pdims (typmod a) -> slot Int32Class a d -> class_of (cls a) = Enum its ->
  length ks = Z.to_nat nb -> Forall (in_s 32) ks ->
  exists s d' t, setValue class_of a d (VNum <$> ks) nb from chk = Some (s, d', t)
    /\ match s with
       | Success => updated Int32Class a from nb d d' (VNum <$> ks)
           /\ (forall i k, ks !! i = Some k -> chk = true -> getEnumItemFromVal its k = true
                 \/ values Int32Class a d !! (Z.to_nat from + i)%nat = Some (VNum k))
       | InvalidValue v => exists j, (j < length ks)%nat /\ ks !! j = Some v /\ chk = true
           /\ (forall i k, (i < j)%nat -> ks !! i = Some k -> getEnumItemFromVal its k = true
                 \/ values Int32Class a d !! (Z.to_nat from + i)%nat = Some (VNum k))
           /\ getEnumItemFromVal its v = false
           /\ values Int32Class a d !! (Z.to_nat from + j)%nat <> Some (VNum v)
           /\ values Int32Class a d' = splice (Z.to_nat from) (VNum <$> take j ks) (values Int32Class a d)
           /\ nulls a d' = nulls a d /\ t = false
       | _ => False
       end.
Proof.
  intros Hf Hn Ht Hs Hc Hl Hk. unfold setValue. rewrite (checkRange_ok Int32Class a from nb Hf Hn Ht d) by done.
  cbn [mbind option_bind]. rewrite given_ok by (rewrite ?length_fmap; lia). cbn [mbind option_bind].
  rewrite Hc, nums_VNum. cbn [mbind option_bind].
  pose proof (slot_ini_bounds _ a d Hs) as Hi. pose proof Hs as [Hp Hit Hini Hpd Hin Hby]. cbn [class_size] in *.
  set (q := idr_poff a + idr_inisize a + from * idr_item_psize a).
  assert (0 <= q) by (unfold q; rewrite Hit; nia).
  assert (q + Z.of_nat (length ks) * 4 <= Z.of_nat (length d)) by (unfold q; rewrite Hit, Hl; nia).
  destruct (setRawData_ok its ks chk Hk q d false) as (s & j & bs & m' & E & Hj & Lb & Vb & Ha & Hcase); [done|done|].
  rewrite E. cbn [mbind option_bind].
  assert (Z.to_nat q = Z.to_nat (idr_poff a + idr_inisize a) + Z.to_nat from * class_size Int32Class)%nat as Hq
    by (unfold q; rewrite Hit; cbn [class_size]; nia).
  assert (forall i, (i < length ks)%nat -> elements Int32Class (Z.to_nat q) (length ks) d !! i
          = values Int32Class a d !! (Z.to_nat from + i)%nat) as Hval.
  { intros i Hi'. unfold values. rewrite !elements_lookup by lia. do 3 f_equal. rewrite Hq. cbn [class_size]. lia. }
  destruct s; try done.
  - destruct Hcase as [-> ->].
    assert (forall i k, ks !! i = Some k -> chk = true -> getEnumItemFromVal its k = true
                 \/ values Int32Class a d !! (Z.to_nat from + i)%nat = Some (VNum k)) as Hall.
    { intros i k Hik Hchk. pose proof (lookup_lt_Some _ _ _ Hik). rewrite <- Hval by done. by apply Ha. }
    assert (length (VNum <$> ks : list value) = Z.to_nat nb) as Hl' by (by rewrite length_fmap).
    destruct (update_slot Int32Class a from nb Hf Hn Ht d bs (VNum <$> ks) Hs) as (d1 & E1 & U1);
      [done|by rewrite length_fmap|rewrite length_fmap, Vb; by rewrite take_ge by lia|]. fold q in E1.
    assert (slot Int32Class a (splice (Z.to_nat q) bs d)) as Hs'.
    { assert (Z.to_nat q + length bs <= length d)%nat by lia.
      split; try done; [by rewrite splice_length by done|]. rewrite slice_splice_other; [done|done|]. rewrite Hq. cbn [class_size]. lia. }
    destruct (isNull_bits (nulls a (splice (Z.to_nat q) bs d)) nb from) as (r & En & _);
      [apply Hs'|done|lia|rewrite (nulls_length Int32Class) by done; lia|].
    rewrite (is_null_slot Int32Class a from nb Hf Hn Ht _ Hs'), En.
    destruct (negb _); cbn [orb mbind option_bind]; rewrite E1; by eexists _, _, _.
  - destruct Hcase as (Hkj & -> & Hv & Hne). eexists _, _, _. split; [done|]. exists j.
    pose proof (lookup_lt_Some _ _ _ Hkj) as Hlt. split; [done|]. split; [done|]. split; [done|].
    split; [intros i k Hik Hk'; rewrite <- Hval by lia; by apply Ha|]. split; [done|].
    split; [|split; [|split; [|done]]].
    + by rewrite <- Hval.
    + unfold values. rewrite Hq. rewrite (elements_splice Int32Class _ _ d _ bs j); cbn [class_size]; try lia. by rewrite Vb.
    + unfold nulls. apply slice_splice_other; [lia|]. rewrite Hq. lia.
Qed.

(** ** Properties *)

(** C8: setting a range of values of an attribute of a basic class in an object
    succeeds, changes these values and no other, marks them as not null, and leaves
    every byte out of the slot of the attribute; they are then read back, and are not
    null. *)
Theorem set_then_get c a d data nb from chk :
  0 <= from -> 0 < nb -> from + nb <= pdims (typmod a) -> slot c a d -> class_of (cls a) = Basic c ->
  length data = Z.to_nat nb -> Forall (val_ok c) data ->
  exists d' t, setValue class_of a d data nb from chk = Some (Success, d', t)
    /\ updated c a from nb d d' data
    /\ getValue class_of a d' nb from = Some (Success, Some (Values data, false)).
Proof.
  intros Hf Hn Ht Hs Hc Hl Hv. destruct (set_basic c a from nb Hf Hn Ht d data chk Hs Hc Hl Hv) as (d' & t & E & U).
  exists d', t. split; [done|]. split; [done|]. destruct U as (Ld & Bd & Vd & Nd & Od).
  pose proof (slot_ini_bounds c a d Hs). assert (slot c a d') as Hs' by (destruct Hs; split; done || lia).
  destruct (get_slot c a from nb Hf Hn Ht d' Hs' (or_introl Hc)) as (n & -> & Hnull). do 4 f_equal.
  - f_equal. rewrite Vd, slice_splice_inside; rewrite ?Hl; try lia.
    + rewrite Nat.sub_diag. unfold slice. rewrite drop_0. apply take_ge. lia.
    + unfold values. rewrite elements_length. lia.
  - destruct n; [|done]. destruct Hnull as [Hnull _]. specialize (Hnull eq_refl from ltac:(lia) (touched_from nb from Hn)).
    rewrite Nd, touched_from in Hnull by lia. done.
Qed.

(** C17: in a structure that AgregatClass::compile has laid out, setting values of
    an attribute changes in the objects no value and no null bit of another attribute,
    nor the header. *)
Theorem attributes_apart sizes c0 c' d i a c data nb from chk :
  asUnionClass c0 = false -> Forall (layable sizes) (items c0) ->
  IDB_OBJ_HEAD_SIZE + total (psize_of sizes) (items c0) + total vsize_of (items c0) < 2 ^ 31 ->
  compile sizes c0 = Some (ClassLayout.Success, c') -> items c' !! i = Some a ->
  isNative a = false -> idr_psize a = idr_inisize a + Z.of_nat (class_size c) * pdims (typmod a) ->
  0 <= from -> 0 < nb -> from + nb <= pdims (typmod a) -> slot c a d -> class_of (cls a) = Basic c ->
  length data = Z.to_nat nb -> Forall (val_ok c) data ->
  exists d' t, setValue class_of a d data nb from chk = Some (Success, d', t)
    /\ values c a d' = splice (Z.to_nat from) data (values c a d)
    /\ take (Z.to_nat IDB_OBJ_HEAD_SIZE) d' = take (Z.to_nat IDB_OBJ_HEAD_SIZE) d
    /\ forall j b k, items c' !! j = Some b -> j <> i -> isNative b = false -> slot k b d ->
         idr_psize b = idr_inisize b + Z.of_nat (class_size k) * pdims (typmod b) ->
         slot k b d' /\ values k b d' = values k b d /\ nulls b d' = nulls b d.
Proof.
  intros Hu Hla Hb Hc Hi Hna Hps Hf Hn Ht Hs Hcl Hl Hv.
  destruct (struct_slots sizes c0 Hu Hla Hb) as (c2 & Ec & _ & _ & _ & Hsl).
  rewrite Hc in Ec. injection Ec as <-.
  destruct (set_basic c a from nb Hf Hn Ht d data chk Hs Hcl Hl Hv) as (d' & t & E & Ld & Bd & Vd & Nd & Od).
  exists d', t. split; [done|]. split; [done|]. destruct (Hsl i a Hi Hna) as (H1 & H2 & H3 & _ & _ & _ & Ha). split.
  - apply list_eq. intros k. destruct (decide (k < Z.to_nat IDB_OBJ_HEAD_SIZE)%nat) as [Hk|Hk].
    + rewrite !lookup_take_lt by done. apply Od. lia.
    + by rewrite !lookup_take_ge by lia.
  - intros j b k Hj Hne Hnb Hsb Hpb. destruct (Hsl j b Hj Hnb) as (G1 & G2 & G3 & _ & _ & _ & Hbj).
    assert (values k b d' = values k b d /\ nulls b d' = nulls b d) as [Ev En].
    { apply (slot_frame k b d d' Hsb Ld). intros m Hm. apply Od. destruct Hsb as [? _ _ _ _ _], Hs as [? _ _ _ _ _].
      destruct (decide (i < j)%nat) as [Hij|Hij]; [destruct (Ha j b Hj Hnb Hij)|destruct (Hbj i a Hi Hna ltac:(lia))]; lia. }
    split; [|done]. destruct Hsb; split; try done; [lia|]. fold (nulls b d'). by rewrite En.
Qed.

(** Setting an array of enum values in which one is no item of the class (and
    is not already there) is refused, after the values before it have been written in
    the object, which is not marked as modified. *)
Theorem enum_written_before_refused a d its good v rest nb from :
  0 <= from -> 0 < nb -> from + nb <= pdims (typmod a) -> slot Int32Class a d -> class_of (cls a) = Enum its ->
  length (good ++ v :: rest) = Z.to_nat nb -> Forall (in_s 32) (good ++ v :: rest) ->
  Forall (fun k => getEnumItemFromVal its k = true) good -> getEnumItemFromVal its v = false ->
  values Int32Class a d !! (Z.to_nat from + length good)%nat <> Some (VNum v) ->
  exists d', setValue class_of a d (VNum <$> (good ++ v :: rest)) nb from true = Some (InvalidValue v, d', false)
    /\ values Int32Class a d' = splice (Z.to_nat from) (VNum <$> good) (values Int32Class a d)
    /\ nulls a d' = nulls a d.
Proof.
  intros Hf Hn Ht Hs Hc Hl Hk Hg Hv Hne.
  destruct (set_enum a d its _ nb from true Hf Hn Ht Hs Hc Hl Hk) as (s & d' & t & E & Hcase).
  assert ((good ++ v :: rest) !! length good = Some v) as Hmid by (by rewrite list_lookup_middle).
  destruct s; try done.
  - destruct Hcase as [_ Hall]. destruct (Hall _ _ Hmid eq_refl); congruence.
  - destruct Hcase as (j & Hj & Hkj & _ & Hall & Hbad & Hcur & Ev & En & ->).
    assert (j = length good) as ->.
    { destruct (Nat.lt_trichotomy j (length good)) as [Hlt|[?|Hgt]]; [|done|].
      - rewrite lookup_app_l in Hkj by done. pose proof (Forall_lookup_1 _ _ _ _ Hg Hkj). cbn in *. congruence.
      - destruct (Hall _ _ Hgt Hmid); congruence. }
    assert (val = v) as -> by congruence.
    exists d'. split; [done|]. by rewrite take_app_length in Ev.
Qed.

(** A range that starts before the attribute, that starts after it or that ends
    after it is refused by setValue, which changes nothing, and by getValue. *)
Theorem out_of_range a d data nb from chk :
  0 <= nb -> from + nb < 2 ^ 31 ->
  from < 0 \/ pdims (typmod a) <= from \/ pdims (typmod a) < from + nb ->
  exists s, s <> Success /\ setValue class_of a d data nb from chk = Some (s, d, false)
    /\ getValue class_of a d nb from = Some (s, None).
Proof.
  intros Hn Hb Hr. unfold setValue, getValue.
  assert (exists s, s <> Success /\ checkRange a from nb = Some (s, nb)) as (s & Hs & ->).
  { unfold checkRange, defaultSize, directAccess. destruct (Z.ltb_spec from 0); [by exists NegativeOffset|].
    destruct (Z.leb_spec (pdims (typmod a)) from); [by exists OffsetTooLarge|].
    destruct (Z.eqb_spec nb (-1)); [lia|]. destruct (Z.eqb_spec nb (-2)); [lia|].
    rewrite int32_id by (unfold in_s; lia). cbn [mbind option_bind].
    destruct (Z.ltb_spec (pdims (typmod a)) (from + nb)); [by exists RangeTooLarge|lia]. }
  exists s. split; [done|]. cbn [mbind option_bind]. by destruct s.
Qed.

End Theory.

Module Example.
Import (hints) BigEndian.
#[local] Existing Instance Attribute.Example.oids.
Import ClassLayout.Example.

(** Objects of struct { int x; int y[10]; }: x is at 48 and y at 53. *)
Definition c0 : AgregatClass := class false [native; x; y].
Definition x_at : Attribute := vplaced 95 (placed sizes 48 x).
Definition y_at : Attribute := vplaced 95 (placed sizes 53 y).
Definition object : list Z := replicate 95 0.
Definition ints (_ : option ClassRef) : attr_class := Basic Int32Class.
Definition colors (_ : option ClassRef) : attr_class := Enum [1; 2; 5].

Lemma zeros_ok p n m : bytes_ok (slice p n (replicate m 0)).
Proof.
  unfold slice. rewrite drop_replicate, take_replicate. apply Forall_replicate. lia.
Qed.
Lemma x_slot : slot Int32Class x_at object.
Proof. split; try (vm_compute; repeat split; discriminate || reflexivity). apply zeros_ok. Qed.
Lemma y_slot : slot Int32Class y_at object.
Proof. split; try (vm_compute; repeat split; discriminate || reflexivity). apply zeros_ok. Qed.

Definition nums3 : list value := [VNum 7; VNum (-1); VNum 12].
Lemma nums3_ok : Forall (val_ok Int32Class) nums3.
Proof. repeat (constructor; [vm_compute; repeat split; discriminate|]). constructor. Qed.

(** y[2], y[3] and y[4] are set: their byte of null bits says that the first eight
    elements of y are not null. *)
Example set_three :
  (fun r => slice 53 14 (snd (fst r))) <$> setValue ints y_at object nums3 3 2 true
  = Some [255; 0; 0;0;0;0; 0;0;0;0; 0;0;0;7].
Proof. by vm_compute. Qed.

(** The value 0, which the bytes of a new object are, is accepted although it is no
    item of the enum; 3 is refused. *)
Example enum_zero :
  (fun r => fst (fst r)) <$> setValue colors y_at object [VNum 0] 1 0 true = Some Success
  /\ (fun r => fst (fst r)) <$> setValue colors y_at object [VNum 3] 1 0 true = Some (InvalidValue 3).
Proof. by vm_compute. Qed.

Lemma set_then_get_witness :
  exists d' t, setValue ints y_at object nums3 3 2 true = Some (Success, d', t)
    /\ getValue ints y_at d' 3 2 = Some (Success, Some (Values nums3, false)).
Proof.
  destruct (set_then_get ints Int32Class y_at object nums3 3 2 true) as (d' & t & E & _ & G).
  - lia.
  - lia.
  - by vm_compute.
  - apply y_slot.
  - reflexivity.
  - reflexivity.
  - apply nums3_ok.
  - exists d', t. split; [exact E|exact G].
Defined.

Definition c1 : AgregatClass := mk_AgregatClass false
  (vplace_all 95 (place_all sizes IDB_OBJ_HEAD_SIZE (items c0))) 95 0 95
  (f_inisize (after_all false (psize_of sizes) (perst_inisize) (items c0) (mk_frame IDB_OBJ_HEAD_SIZE 0 None))).
Lemma c0_compiles : compile sizes c0 = Some (ClassLayout.Success, c1).
Proof. apply (compile_struct sizes c0); [done|apply xy_ok|by vm_compute]. Qed.

Lemma attributes_apart_witness :
  exists d' t, setValue ints y_at object nums3 3 2 true = Some (Success, d', t)
    /\ values Int32Class x_at d' = values Int32Class x_at object.
Proof.
  destruct (attributes_apart ints sizes c0 c1 object 2 y_at Int32Class nums3 3 2 true) as (d' & t & E & _ & _ & H).
  - reflexivity.
  - apply xy_ok.
  - by vm_compute.
  - apply c0_compiles.
  - reflexivity.
  - reflexivity.
  - reflexivity.
  - lia.
  - lia.
  - by vm_compute.
  - apply y_slot.
  - reflexivity.
  - reflexivity.
  - apply nums3_ok.
  - exists d', t. split; [exact E|].
    destruct (H 1%nat x_at Int32Class eq_refl) as (_ & V & _); [done|reflexivity|apply x_slot|reflexivity|exact V].
Defined.

Lemma enum_written_before_refused_witness :
  exists d', setValue colors y_at object (VNum <$> [1; 2; 3; 5]) 4 0 true = Some (InvalidValue 3, d', false)
    /\ values Int32Class y_at d' = splice 0 (VNum <$> [1; 2]) (values Int32Class y_at object).
Proof.
  destruct (enum_written_before_refused colors y_at object [1; 2; 5] [1; 2] 3 [5] 4 0) as (d' & E & V & _).
  - lia.
  - lia.
  - by vm_compute.
  - apply y_slot.
  - reflexivity.
  - reflexivity.
  - repeat (constructor; [vm_compute; repeat split; discriminate|]). constructor.
  - repeat (constructor; [reflexivity|]). constructor.
  - reflexivity.
  - intros H. apply (f_equal (fun o => match o with Some (VNum k) => k | _ => 99 end)) in H. vm_compute in H. discriminate H.
  - exists d'. split; [exact E|exact V].
Defined.

Lemma out_of_range_witness :
  exists s, s <> Success /\ setValue ints y_at object nums3 3 8 true = Some (s, object, false).
Proof.
  destruct (out_of_range ints y_at object nums3 3 8 true) as (s & N & E & _).
  - lia.
  - lia.
  - right. right. by vm_compute.
  - exists s. split; [exact N|exact E].
Defined.

End Example.
