(* ===== verification/AttrConvert.v ===== *)
(** * Schema evolution: converting the attributes of stored objects

    src/eyedb/ClassConversion.cc: when the class of a stored object has evolved, its
    bytes are changed in place, attribute by attribute, as the objects of class
    class_conversion tell ([ClassConversion] here: the fields that the conversions
    use). This file has one change: an attribute that is added or removed, and the
    conversions of an attribute of a basic class to another class or dimension. The
    memory is the block that [in_idr] points to; [None] is an access out of it, a
    conversion that C does not define or the call of a null pointer. The numbers are
    read as the machine has them ([ArgCodec.Host]), although the database stores them
    in the exchange format ([Codec.Xdr]): what is converted are the numbers of a stored
    object only where the two orders of bytes are the same ([same_order]). The functions
    of the storage manager are parameters; bytes that the code leaves as the allocator
    gave them are zero here. *)

From S2P Require Import Prelude NullBits ArgCodec AttrValue.

(** ** The conversions of the C language *)

Inductive ctype := int16 | int32 | int64 | float64 | uchar | char_.
#[export] Instance ctype_eq : EqDecision ctype.
Proof. solve_decision. Defined.

Definition sizeof (t : ctype) : nat :=
  match t with int16 => 2 | int32 => 4 | int64 | float64 => 8 | uchar | char_ => 1 end.
Definition bits (t : ctype) : Z := 8 * Z.of_nat (sizeof t).

(** A double is its 64-bit pattern. The double of an integer is the nearest, the
    even one of two. *)
Definition round_even (a s : Z) : Z :=
  let q := Z.shiftr a s in
  let r := a - Z.shiftl q s in
  let half := Z.shiftl 1 (s - 1) in
  if (half <? r) || ((r =? half) && Z.odd q) then q + 1 else q.
Definition double_of_int (k : Z) : Z :=
  if k =? 0 then 0
  else
    let a := Z.abs k in
    let l := Z.log2 a in
    let m := if l <=? 52 then Z.shiftl a (52 - l) else round_even a (l - 52) in
    (if k <? 0 then 2 ^ 63 else 0) + Z.shiftl (1023 + l) 52 + (m - 2 ^ 52).
(** The integer a double is truncated to; [None] for an infinity or not a number. *)
Definition int_of_double (d : Z) : option Z :=
  let e := Z.shiftr d 52 mod 2 ^ 11 in
  let f := d mod 2 ^ 52 in
  if e =? 2047 then None
  else
    let m := if e =? 0 then f else f + 2 ^ 52 in
    let a := Z.shiftl m (Z.max e 1 - 1075) in
    Some (if 2 ^ 63 <=? d then - a else a).

(** (DSTTYP)data_s. An integer is reduced modulo 2^w; a double out of range is not
    defined. *)
Definition in_range (t : ctype) (k : Z) : bool :=
  match t with
  | int16 | int32 | int64 | char_ => bool_decide (in_s (bits t) k)
  | float64 => true
  | uchar => (0 <=? k) && (k <? 256)
  end.
Definition wrap (t : ctype) (k : Z) : Z :=
  match t with int16 | int32 | int64 | char_ => wrap_s (bits t) k | float64 => k | uchar => wrap_u 8 k end.
Definition is_float (t : ctype) : bool := match t with float64 => true | _ => false end.
Definition cast (s d : ctype) (k : Z) : option Z :=
  match is_float s, is_float d with
  | true, true => Some k
  | false, true => Some (double_of_int k)
  | false, false => Some (wrap d k)
  | true, false => x ← int_of_double k; if in_range d x then Some x else None
  end.

(** ** The objects of class class_conversion *)

Inductive ClassUpdateType := ADD_ATTR | RMV_ATTR | CNV_ATTR | MIG_ATTR | RMV_CLASS.
Inductive AttributeConvertType :=
| INT16_TO_INT16 | INT16_TO_INT32 | INT16_TO_INT64 | INT16_TO_FLOAT | INT16_TO_BYTE | INT16_TO_CHAR | INT16_TO_ENUM
| INT32_TO_INT32 | INT32_TO_INT16 | INT32_TO_INT64 | INT32_TO_FLOAT | INT32_TO_BYTE | INT32_TO_CHAR | INT32_TO_ENUM
| INT64_TO_INT64 | INT64_TO_INT16 | INT64_TO_INT32 | INT64_TO_FLOAT | INT64_TO_BYTE | INT64_TO_CHAR | INT64_TO_ENUM
| FLOAT_TO_FLOAT | FLOAT_TO_INT16 | FLOAT_TO_INT32 | FLOAT_TO_INT64 | FLOAT_TO_BYTE | FLOAT_TO_CHAR | FLOAT_TO_ENUM
| CHAR_TO_CHAR | CHAR_TO_INT16 | CHAR_TO_INT32 | CHAR_TO_INT64 | CHAR_TO_FLOAT | CHAR_TO_BYTE | CHAR_TO_ENUM
| BYTE_TO_BYTE | BYTE_TO_INT16 | BYTE_TO_INT32 | BYTE_TO_INT64 | BYTE_TO_FLOAT | BYTE_TO_CHAR | BYTE_TO_ENUM
| ENUM_TO_ENUM | ENUM_TO_INT16 | ENUM_TO_INT32 | ENUM_TO_INT64 | ENUM_TO_FLOAT | ENUM_TO_CHAR | ENUM_TO_BYTE
| CHAR_TO_STRING | STRING_TO_CHAR | INT16_TO_STRING | STRING_TO_INT16 | INT32_TO_STRING | STRING_TO_INT32
| INT64_TO_STRING | STRING_TO_INT64 | FLOAT_TO_STRING | STRING_TO_FLOAT | BYTE_TO_STRING | STRING_TO_BYTE
| SET_TO_BAG | SET_TO_ARRAY | SET_TO_LIST | BAG_TO_SET | BAG_TO_ARRAY | BAG_TO_LIST
| ARRAY_TO_BAG | ARRAY_TO_SET | ARRAY_TO_LIST | LIST_TO_BAG | LIST_TO_ARRAY | LIST_TO_SET
| CLASS_TO_CLASS | USER_CNV | NIL_CNV.

#[export] Instance update_eq : EqDecision ClassUpdateType.
Proof. solve_decision. Defined.

(** The functions of the tables cnv_convert and cnv_computeSize, by the macro that
    makes them; [CNV_NULL] are the entries that ClassConversion::init does not set. *)
Inductive cnv_function := CNV_MAKE (s d : ctype) | CNV_MAKE_2STR (s : ctype) | CNV_MAKE_NYI | CNV_CLASS | CNV_NIL | CNV_NULL.

Definition cnv_convert (t : AttributeConvertType) : cnv_function :=
  match t with
  | INT16_TO_INT16 => CNV_MAKE int16 int16
  | INT16_TO_INT32 => CNV_MAKE int16 int32
  | INT16_TO_INT64 => CNV_MAKE int16 int64
  | INT16_TO_FLOAT => CNV_MAKE int16 float64
  | INT16_TO_BYTE => CNV_MAKE int16 uchar
  | INT16_TO_CHAR => CNV_MAKE int16 uchar
  | INT32_TO_INT32 => CNV_MAKE int32 int32
  | INT32_TO_INT16 => CNV_MAKE int32 int16
  | INT32_TO_INT64 => CNV_MAKE int32 int64
  | INT32_TO_FLOAT => CNV_MAKE int32 float64
  | INT32_TO_BYTE => CNV_MAKE int32 uchar
  | INT32_TO_CHAR => CNV_MAKE int32 uchar
  | INT64_TO_INT64 => CNV_MAKE int64 int64
  | INT64_TO_INT16 => CNV_MAKE int64 int16
  | INT64_TO_INT32 => CNV_MAKE int64 int32
  | INT64_TO_FLOAT => CNV_MAKE int64 float64
  | INT64_TO_BYTE => CNV_MAKE int64 uchar
  | INT64_TO_CHAR => CNV_MAKE int64 char_
  | FLOAT_TO_FLOAT => CNV_MAKE float64 float64
  | FLOAT_TO_INT16 => CNV_MAKE float64 int16
  | FLOAT_TO_INT32 => CNV_MAKE float64 int32
  | FLOAT_TO_INT64 => CNV_MAKE float64 int64
  | FLOAT_TO_BYTE => CNV_MAKE float64 uchar
  | FLOAT_TO_CHAR => CNV_MAKE float64 char_
  | CHAR_TO_CHAR => CNV_MAKE uchar uchar
  | CHAR_TO_INT16 => CNV_MAKE uchar int16
  | CHAR_TO_INT32 => CNV_MAKE uchar int32
  | CHAR_TO_INT64 => CNV_MAKE uchar int64
  | CHAR_TO_FLOAT => CNV_MAKE uchar float64
  | CHAR_TO_BYTE => CNV_MAKE uchar uchar
  | BYTE_TO_INT16 => CNV_MAKE uchar int16
  | BYTE_TO_INT32 => CNV_MAKE uchar int32
  | BYTE_TO_INT64 => CNV_MAKE uchar int64
  | BYTE_TO_FLOAT => CNV_MAKE uchar float64
  | BYTE_TO_CHAR => CNV_MAKE uchar uchar
  | CHAR_TO_STRING | BYTE_TO_STRING => CNV_MAKE_2STR uchar
  | INT16_TO_STRING => CNV_MAKE_2STR int16
  | INT32_TO_STRING => CNV_MAKE_2STR int32
  | INT64_TO_STRING => CNV_MAKE_2STR int64
  | FLOAT_TO_STRING => CNV_MAKE_2STR float64
  | CLASS_TO_CLASS => CNV_CLASS
  | NIL_CNV => CNV_NIL
  | STRING_TO_CHAR | STRING_TO_INT16 | STRING_TO_INT32 | STRING_TO_INT64 | STRING_TO_FLOAT | STRING_TO_BYTE => CNV_NULL
  | _ => CNV_MAKE_NYI
  end.

Section Conversion.
Context `{H : Host}.

Record ClassConversion := mk_ClassConversion {
  updtype : ClassUpdateType; cnvtype : AttributeConvertType; oid_n : Oid; roid_o : Oid;
  src_dim : Z; dest_dim : Z; offset_n : Z; size_o : Z; size_n : Z }.

(** The storage manager; an error is a number. *)
Variable files : Type.
Variable objectRead : files -> Z -> Oid -> Z + list Z.
Variable objectCreate : files -> list Z -> (Z + Oid) * files.
Variable objectSizeModify : files -> Z -> Oid -> option Z * files.
Variable objectWrite : files -> list Z -> Oid -> option Z * files.
(** Database::writeBackConvertedObjects *)
Variable writeBackConvertedObjects : bool.

Inductive Status := Success | SeError (e : Z) | ReadOnly | NotImplemented | UnknownUpdate | NotSupported | NoClass.

Implicit Types (c : ClassConversion) (buf : list Z) (fs : files).

(** ** Memory *)

Definition memmove (dst src n : Z) buf : option (list Z) :=
  if (0 <=? src) && (0 <=? n) && (src + n <=? Z.of_nat (length buf))
  then write dst (slice (Z.to_nat src) (Z.to_nat n) buf) buf else None.
Definition memset (dst n : Z) buf : option (list Z) :=
  if (0 <=? n) && (n <=? Z.of_nat (length buf)) then write dst (replicate (Z.to_nat n) 0) buf else None.

(** Numbers in memory, as the machine has them. *)
Definition load (t : ctype) (bs : list Z) : Z :=
  match t with
  | int16 => val_16 bs | int32 => val_32 bs | int64 => val_64 bs | float64 => val_double bs
  | uchar => hd 0 bs | char_ => wrap_s 8 (hd 0 bs)
  end.
Definition store (t : ctype) (k : Z) : list Z :=
  match t with
  | int16 => rep_16 k | int32 => rep_32 k | int64 => rep_64 k | float64 => rep_double k
  | uchar => [k] | char_ => [wrap_u 8 k]
  end.

(** The loops on [n] numbers, from the address [p]. *)
Fixpoint loads (t : ctype) (p : Z) (n : nat) buf : option (list Z) :=
  match n with
  | O => Some []
  | S n => bs ← fetch p (sizeof t) buf; ks ← loads t (p + Z.of_nat (sizeof t)) n buf; Some (load t bs :: ks)
  end.
Fixpoint stores (t : ctype) (p : Z) (ks : list Z) buf : option (list Z) :=
  match ks with
  | [] => Some buf
  | k :: ks => buf ← write p (store t k) buf; stores t (p + Z.of_nat (sizeof t)) ks buf
  end.
Fixpoint casts (s d : ctype) (ks : list Z) : option (list Z) :=
  match ks with [] => Some [] | k :: ks => x ← cast s d k; xs ← casts s d ks; Some (x :: xs) end.

Definition size_t : Z -> Z := wrap_u 64.
Definition sizeof_Size : Z := 4.
Definition sizeof_oid : Z := Z.of_nat sizeof_Oid.

(** ** Conversions between basic classes *)

Definition Sz (t : ctype) : Z := Z.of_nat (sizeof t).

(** BASIC_CONVERT, one value to one value. *)
Definition convert_one (s d : ctype) c buf (in_size : Z) : option (list Z * Z) :=
  let offset := u32 (offset_n c) in
  let start := offset + 1 in
  bs ← fetch start (sizeof s) buf;
  buf ← memmove (start + Sz d) (start + Sz s) (size_t (in_size - Sz s - offset - 1)) buf;
  data_d ← cast s d (load s bs);
  buf ← write start (store d data_d) buf;
  Some (buf, u32 (in_size + Sz d - Sz s)).

(** BASIC_CONVERT, a fixed dimension to a fixed dimension. *)
Definition convert_fixed (s d : ctype) c buf (in_size : Z) : option (list Z * Z) :=
  let dim_s := src_dim c in
  let dim_d := dest_dim c in
  let start := u32 (offset_n c) in
  let inisize_s := iniSize dim_s in
  let inisize_d := iniSize dim_d in
  let start_s := start + inisize_s in
  let start_d := start + inisize_d in
  pdata_s ← loads s start_s (Z.to_nat dim_s) buf;
  inidata_s ← fetch start (Z.to_nat inisize_s) buf;
  buf ← memmove (start_d + dim_d * Sz d) (start + inisize_s + dim_s * Sz s)
          (size_t (in_size - dim_s * Sz s - start - inisize_s)) buf;
  buf ← (if dim_d <? dim_s then write start inidata_s buf else Some buf);
  data_d ← casts s d (take (Z.to_nat (Z.min dim_s dim_d)) pdata_s);
  buf ← stores d start_d data_d buf;
  buf ← (if dim_s <? dim_d then
           buf ← memset (start + inisize_s) (inisize_d - inisize_s) buf;
           memset (start_d + Z.min dim_s dim_d * Sz d) ((dim_d - dim_s) * Sz d) buf
         else Some buf);
  Some (buf, u32 (in_size + inisize_d - inisize_s + dim_d * Sz d - dim_s * Sz s)).

(** CLEAN_SIZE *)
Definition CLEAN_SIZE (x : Z) : Z := Z.land x 0x3fffffff.

Definition se (r : option Z) : Status := match r with Some e => SeError e | None => Success end.

(** CNV_VD_SRC_DST: the values are in another object, that is rewritten. *)
Definition convert_vd_src_dst (s d : ctype) c fs buf : option (Status * files) :=
  let start := u32 (offset_n c) in
  bs ← fetch start 4 buf;
  let count := CLEAN_SIZE (u32 (val_32 bs)) in
  let inisize_s := iniSize count in
  let wpsize_s := u32 (Sz s * count * - src_dim c + inisize_s) in
  ob ← fetch (start + sizeof_Size) sizeof_Oid buf;
  let oid_s := val_oid ob in
  match objectRead fs wpsize_s oid_s with
  | inl e => Some (SeError e, fs)
  | inr pdata_s =>
      let wpsize_d := u32 (Sz d * count * - dest_dim c + inisize_s) in
      ini ← fetch 0 (Z.to_nat inisize_s) pdata_s;
      pdata_d ← write 0 ini (replicate (Z.to_nat wpsize_d) 0);
      ks ← loads s inisize_s (Z.to_nat count) pdata_s;
      ks ← casts s d ks;
      pdata_d ← stores d inisize_s ks pdata_d;
      let '(r, fs) := objectSizeModify fs wpsize_d oid_s in
      match r with
      | Some e => Some (SeError e, fs)
      | None =>
          if writeBackConvertedObjects then let '(r, fs) := objectWrite fs pdata_d oid_s in Some (se r, fs)
          else Some (ReadOnly, fs)
      end
  end.

(** get_top: the number of the last value that is set, from 1. *)
Fixpoint get_top (start : Z) (dim : nat) buf : option Z :=
  match dim with
  | O => Some 0
  | S d => n ← is_null start 1 (Z.of_nat d) buf; if n : bool then get_top start d buf else Some (Z.of_nat d + 1)
  end.

(** Oid::Oid: an oid that is not valid. *)
Variable nullOid : Oid.

(** CNV_VD_DST: the values become another object. *)
Definition convert_vd_dst (s d : ctype) c fs buf (in_size : Z) : option (Status * files * list Z * Z) :=
  let dim_s := src_dim c in
  let start := u32 (offset_n c) in
  let inisize_s := iniSize dim_s in
  let wpsize_s := u32 (Sz s * dim_s + inisize_s) in
  ndim_d ← get_top start (Z.to_nat dim_s) buf;
  '(r, fs) ← (if ndim_d =? 0 then Some (inr nullOid, fs)
              else
                let inisize_d := iniSize ndim_d in
                let wpsize_d := u32 (Sz d * ndim_d + inisize_d) in
                ini ← fetch start (Z.to_nat inisize_d) buf;
                pdata_d ← write 0 ini (replicate (Z.to_nat wpsize_d) 0);
                ks ← loads s (start + inisize_s) (Z.to_nat ndim_d) buf;
                ks ← casts s d ks;
                pdata_d ← stores d inisize_d ks pdata_d;
                Some (objectCreate fs pdata_d));
  match r with
  | inl e => Some (SeError e, fs, buf, in_size)
  | inr oid_d =>
      buf ← memmove (start + sizeof_Size + sizeof_oid) (start + wpsize_s) (u32 (in_size - start - wpsize_s)) buf;
      buf ← write start (rep_32 ndim_d) buf;
      buf ← write (start + sizeof_Size) (rep_oid oid_d) buf;
      Some (Success, fs, buf, u32 (in_size + sizeof_Size + sizeof_oid - wpsize_s))
  end.

(** BASIC_CONVERT *)
Definition basic_convert (s d : ctype) c fs buf (in_size : Z) : option (Status * files * list Z * Z) :=
  let dim_s := src_dim c in
  let dim_d := dest_dim c in
  if (dim_s =? 1) && (dim_d =? 1) then '(buf, n) ← convert_one s d c buf in_size; Some (Success, fs, buf, n)
  else if (dim_s <? 0) && (dim_d <? 0) then '(st, fs) ← convert_vd_src_dst s d c fs buf; Some (st, fs, buf, in_size)
  else if dim_d <? 0 then convert_vd_dst s d c fs buf in_size
  else if dim_s <? 0 then Some (Success, fs, buf, in_size)
  else '(buf, n) ← convert_fixed s d c buf in_size; Some (Success, fs, buf, n).

Definition basic_computeSize (s d : ctype) c (cur_size : Z) : Z :=
  let dim_s := src_dim c in
  let dim_d := dest_dim c in
  if (0 <? dim_d) && (0 <? dim_s) then
    u32 (cur_size + iniSize dim_d - iniSize dim_s + dim_d * Sz d - dim_s * Sz s)
  else if (dim_d <? 0) && (0 <? dim_s) then
    u32 (cur_size + sizeof_Size + sizeof_oid - iniSize dim_s - dim_s * Sz s)
  else cur_size.

(** ** Conversions to strings *)

Definition VARS_INISZ : Z := 3.
Definition VARS_SZ : Z := 24.
Definition VARS_TSZ : Z := VARS_INISZ + VARS_SZ.
Definition VARS_OFFSET : Z := sizeof_Size + sizeof_oid.

(** Whether a number is true: 0.0 and -0.0 are not. *)
Definition truth (t : ctype) (k : Z) : bool := if is_float t then negb (k mod 2 ^ 63 =? 0) else negb (k =? 0).

(** CNV_MAKE_2STR_CONVERT. A short string is in the object, a long one in an object
    of its own, that is created with the bytes of the array. *)
Definition convert_2str (s : ctype) c fs buf (in_size : Z) : option (Status * files * list Z * Z) :=
  let dim_s := src_dim c in
  let start := u32 (offset_n c) in
  let inisize_s := iniSize dim_s in
  let wpsize_s := u32 (Sz s * dim_s + inisize_s) in
  top ← get_top start (Z.to_nat dim_s) buf;
  '(r, fs, ndim_d, pdata_d) ←
     (if top =? 0 then Some (inr nullOid, fs, 0, Some (replicate (Z.to_nat VARS_TSZ) 0))
      else
        bs ← fetch (start + inisize_s + (top - 1) * Sz s) (sizeof s) buf;
        let ndim_d := if truth s (load s bs) then top + 1 else top in
        _ ← fetch (start + inisize_s + ndim_d) (sizeof s) buf;
        let inisize_d := iniSize ndim_d in
        let wpsize_d := if VARS_SZ <? ndim_d then ndim_d + inisize_d else VARS_TSZ in
        ini ← fetch start (Z.to_nat inisize_d) buf;
        pdata_d ← write 0 ini (replicate (Z.to_nat wpsize_d) 0);
        ks ← loads s (start + inisize_s) (Z.to_nat ndim_d) buf;
        ks ← casts s char_ ks;
        pdata_d ← stores char_ inisize_d ks pdata_d;
        if VARS_SZ <? ndim_d then
          bs ← fetch start (Z.to_nat wpsize_d) buf;
          let '(r, fs) := objectCreate fs bs in Some (r, fs, ndim_d, None)
        else Some (inr nullOid, fs, ndim_d, Some pdata_d));
  match r with
  | inl e => Some (SeError e, fs, buf, in_size)
  | inr oid_d =>
      buf ← memmove (start + VARS_OFFSET + VARS_TSZ) (start + wpsize_s) (u32 (in_size - start - wpsize_s)) buf;
      buf ← match pdata_d with Some pdata_d => write (start + VARS_OFFSET) pdata_d buf | None => Some buf end;
      buf ← write start (rep_32 ndim_d) buf;
      buf ← write (start + sizeof_Size) (rep_oid oid_d) buf;
      Some (Success, fs, buf, u32 (in_size + VARS_OFFSET + VARS_TSZ - wpsize_s))
  end.

Definition str_computeSize (s : ctype) c (cur_size : Z) : Z :=
  u32 (cur_size + VARS_OFFSET + VARS_TSZ - iniSize (src_dim c) - src_dim c * Sz s).

(** ** Attributes added and removed *)

Definition add_attribute c buf (in_size : Z) : option (list Z * Z) :=
  let start := u32 (offset_n c) in
  let size := u32 (size_n c) in
  buf ← memmove (start + size) start (u32 (in_size - start)) buf;
  buf ← memset start size buf;
  Some (buf, u32 (in_size + size)).

Definition remove_attribute c buf (in_size : Z) : option (list Z * Z) :=
  let start := u32 (offset_n c) in
  let size := u32 (size_n c) in
  buf ← memmove start (start + size) (u32 (in_size - size - start)) buf;
  Some (buf, u32 (in_size - size)).

End Conversion.

(** ** Lemmas on memory *)

Section Lemmas.
Context `{H : Host}.
Implicit Types (c : ClassConversion) (pre post slack : list Z).

#[local] Abbreviation len l := (Z.of_nat (length l)).

Lemma fetch_at pre bs rest n : length bs = n -> fetch (len pre) n (pre ++ bs ++ rest) = Some bs.
Proof.
  intros <-. rewrite fetch_in by (rewrite ?length_app; lia). f_equal. unfold slice.
  by rewrite Nat2Z.id, drop_app_length, take_app_length.
Qed.
Lemma write_at pre old bs rest : length old = length bs -> write (len pre) bs (pre ++ old ++ rest) = Some (pre ++ bs ++ rest).
Proof.
  intros E. rewrite write_in by (rewrite ?length_app; lia). f_equal. unfold splice.
  rewrite Nat2Z.id, take_app_length. do 2 f_equal. rewrite <- E, app_assoc, drop_app_length'; [done|]. by rewrite length_app.
Qed.
Lemma memset_at pre old rest n : n = len old -> memset (len pre) n (pre ++ old ++ rest) = Some (pre ++ replicate (length old) 0 ++ rest).
Proof.
  intros ->. unfold memset. rewrite !length_app. destruct (Z.leb_spec 0 (len old)); [|lia]. cbn.
  destruct (Z.leb_spec (len old) (Z.of_nat (length pre + (length old + length rest)))); [|lia]. rewrite Nat2Z.id.
  apply write_at. by rewrite length_replicate.
Qed.

(** The bytes after [a] are moved to [k] bytes after [pre]. *)
Lemma memmove_tail pre a post slack (k : nat) : (k + length post <= length (a ++ post ++ slack))%nat ->
  memmove (len pre + Z.of_nat k) (len pre + len a) (len post) (pre ++ a ++ post ++ slack)
  = Some (pre ++ take k (a ++ post ++ slack) ++ post ++ drop (k + length post) (a ++ post ++ slack)).
Proof.
  intros Hk. unfold memmove. rewrite !length_app in *.
  repeat (match goal with |- context [?x <=? ?y] => destruct (Z.leb_spec x y); [|lia] end; cbn).
  assert (slice (Z.to_nat (len pre + len a)) (Z.to_nat (len post)) (pre ++ a ++ post ++ slack) = post) as ->.
  { unfold slice. rewrite !app_assoc, <- (app_assoc _ post), drop_app_length' by (rewrite length_app; lia).
    rewrite Nat2Z.id. apply take_app_length. }
  rewrite write_in by (rewrite ?length_app; lia). f_equal. unfold splice.
  replace (Z.to_nat (len pre + Z.of_nat k)) with (length pre + k)%nat by lia.
  rewrite take_app_add, <- app_assoc. do 3 f_equal. rewrite <- Nat.add_assoc. apply drop_app_add.
Qed.

Fixpoint numbers (t : ctype) (n : nat) (data : list Z) : list Z :=
  match n with O => [] | S n => load t (take (sizeof t) data) :: numbers t n (drop (sizeof t) data) end.
Definition image (t : ctype) (ks : list Z) : list Z := ks ≫= store t.

Lemma numbers_length t n data : length (numbers t n data) = n.
Proof. revert data. induction n; intros; cbn; [done|]. by f_equal. Qed.

Lemma loads_at t n : forall pre data rest, length data = (n * sizeof t)%nat ->
  loads t (len pre) n (pre ++ data ++ rest) = Some (numbers t n data).
Proof.
  induction n as [|n IH]; intros pre data rest Hd; cbn; [done|]. cbn in Hd.
  assert (length (take (sizeof t) data) = sizeof t) as Ht by (rewrite length_take; lia).
  assert (data = take (sizeof t) data ++ drop (sizeof t) data) as E by (by rewrite take_drop).
  replace (pre ++ data ++ rest) with (pre ++ take (sizeof t) data ++ drop (sizeof t) data ++ rest) by (by rewrite (app_assoc (take _ _)), <- E).
  rewrite fetch_at by done. cbn.
  replace (len pre + Z.of_nat (sizeof t)) with (len (pre ++ take (sizeof t) data)) by (rewrite length_app; lia).
  rewrite (app_assoc pre), IH by (rewrite length_drop; lia). done.
Qed.

Lemma casts_length s d ks : forall xs, casts s d ks = Some xs -> length xs = length ks.
Proof.
  induction ks as [|k ks IH]; intros xs E; cbn in E; [by injection E as <-|].
  destruct (cast s d k); [|done]. cbn in E. destruct (casts s d ks); [|done]. injection E as <-. cbn. f_equal. by apply IH.
Qed.

Context `{HL : !HostLaws H}.

Lemma store_length t k : length (store t k) = sizeof t.
Proof. destruct t; cbn; [apply rep_16_length|apply rep_32_length|apply rep_64_length|apply rep_double_length|done|done]. Qed.
Lemma image_length t ks : length (image t ks) = (length ks * sizeof t)%nat.
Proof.
  induction ks as [|k ks IH]; [done|]. change (image t (k :: ks)) with (store t k ++ image t ks).
  rewrite length_app, store_length, IH. done.
Qed.

Lemma stores_at t ks : forall pre old rest, length old = (length ks * sizeof t)%nat ->
  stores t (len pre) ks (pre ++ old ++ rest) = Some (pre ++ image t ks ++ rest).
Proof.
  induction ks as [|k ks IH]; intros pre old rest Ho; cbn [length stores] in *; [by destruct old|].
  replace (pre ++ old ++ rest) with (pre ++ take (sizeof t) old ++ drop (sizeof t) old ++ rest) by (by rewrite (app_assoc (take _ _)), take_drop).
  rewrite (write_at _ _ (store t k)) by (rewrite store_length, length_take; lia). cbn [mbind option_bind].
  replace (len pre + Z.of_nat (sizeof t)) with (len (pre ++ store t k)) by (rewrite length_app, store_length; lia).
  rewrite (app_assoc pre), IH by (rewrite length_drop; lia). f_equal.
  change (image t (k :: ks)) with (store t k ++ image t ks). by rewrite <- !app_assoc.
Qed.

(** Sizes that fit their type. *)
#[local] Ltac in_32 :=
  repeat match goal with |- context [u32 ?x] => lazymatch x with context [u32 _] => fail | _ => rewrite (u32_id x) by lia end end.

(** ** What one change does

    The block holds the bytes [pre] before the attribute, those of the attribute, the
    bytes [post] after it up to the size of the object, and the rest of the block. *)

Definition rewrites (conv : list Z -> Z -> option (list Z * Z)) (off : Z) (b b' : list Z) : Prop :=
  forall pre post slack, len pre = off -> len b' <= len b + len slack -> len (pre ++ b ++ post ++ slack) < 2 ^ 31 ->
    exists slack', conv (pre ++ b ++ post ++ slack) (len (pre ++ b ++ post)) = Some (pre ++ b' ++ post ++ slack', len (pre ++ b' ++ post))
      /\ len b' + len slack' = len b + len slack.

Lemma add_rewrites c n : size_n c = Z.of_nat n -> rewrites (add_attribute c) (offset_n c) [] (replicate n 0).
Proof.
  intros En pre post slack Eo Hs Hb. rewrite !length_app, length_replicate in *. cbn [length app] in *.
  unfold add_attribute. cbv zeta. rewrite <- Eo, En. in_32.
  replace (len pre + len post) with (len pre + 0 + len post) by lia.
  replace (Z.of_nat (length pre + (0 + length post)) - len pre) with (len post) by lia.
  pose proof (memmove_tail pre [] post slack n) as M. cbn [length app] in M. rewrite Z.add_0_r in M.
  rewrite M by (rewrite length_app; lia). cbn [mbind option_bind].
  rewrite memset_at by (rewrite length_take, length_app; lia). cbn [mbind option_bind].
  rewrite length_take, length_app. replace (n `min` (length post + length slack))%nat with n by lia.
  eexists. split; [do 2 f_equal; lia|]. rewrite length_drop, length_app. lia.
Qed.

Lemma remove_rewrites c b : size_n c = len b -> rewrites (remove_attribute c) (offset_n c) b [].
Proof.
  intros En pre post slack Eo Hs Hb. rewrite !length_app in *. cbn [length app] in *.
  unfold remove_attribute. cbv zeta. rewrite <- Eo, En. in_32.
  replace (Z.of_nat (length pre + (length b + length post)) - len b - len pre) with (len post) by lia.
  pose proof (memmove_tail pre b post slack 0) as M. rewrite Z.add_0_r in M.
  rewrite M by (rewrite !length_app; lia). cbn [mbind option_bind take].
  eexists. split; [do 2 f_equal; lia|]. rewrite length_drop, !length_app. cbn. lia.
Qed.

(** One value: its null bit, then its bytes. *)
Lemma one_rewrites s d c bit data x : length data = sizeof s -> cast s d (load s data) = Some x ->
  rewrites (convert_one s d c) (offset_n c) (bit :: data) (bit :: store d x).
Proof.
  intros Ld Ex pre post slack Eo Hs Hb. pose proof (store_length d x) as Lx. rewrite !length_app in *. cbn [length app] in *.
  rewrite Ld, Lx in *. unfold convert_one, Sz. cbv zeta. rewrite <- Eo. in_32.
  replace (len pre + 1) with (len (pre ++ [bit])) by (rewrite length_app; cbn; lia).
  change (bit :: data ++ post ++ slack) with ([bit] ++ data ++ post ++ slack). rewrite (app_assoc pre [bit]).
  rewrite fetch_at by done. cbn [mbind option_bind]. unfold size_t, wrap_u. rewrite Z.mod_small by lia.
  replace (Z.of_nat (length pre + (S (sizeof s) + length post)) - Z.of_nat (sizeof s) - len pre - 1) with (len post) by lia.
  rewrite <- Ld. rewrite memmove_tail by (rewrite !length_app; lia). cbn [mbind option_bind]. rewrite Ex. cbn [mbind option_bind].
  rewrite write_at by (rewrite length_take, !length_app, Lx; lia). cbn [mbind option_bind].
  eexists. split; [rewrite <- app_assoc; cbn [app]; do 2 f_equal; lia|]. rewrite length_drop, !length_app. lia.
Qed.

(** The null bits of [n] values. *)
Definition ini_of (n : nat) : nat := Z.to_nat (iniSize (Z.of_nat n)).
Lemma ini_of_Z n : iniSize (Z.of_nat n) = Z.of_nat (ini_of n).
Proof.
  unfold ini_of. rewrite Z2Nat.id; [done|]. unfold iniSize. destruct (Z.eqb_spec (Z.of_nat n) 0); [done|].
  rewrite Z.shiftr_div_pow2 by lia. dlia.
Qed.
Lemma ini_of_mono n m : (n <= m)%nat -> (ini_of n <= ini_of m)%nat.
Proof.
  intros Hnm. apply Nat2Z.inj_le. rewrite <- !ini_of_Z. unfold iniSize.
  destruct (Z.eqb_spec (Z.of_nat n) 0), (Z.eqb_spec (Z.of_nat m) 0); try lia; rewrite !Z.shiftr_div_pow2 by lia; dlia.
Qed.

(** They are enough. *)
Lemma ini_of_holds n : Z.of_nat n <= 8 * Z.of_nat (ini_of n).
Proof. rewrite <- ini_of_Z, iniSize_ceil by lia. dlia. Qed.

(** The bytes of an array of [m] values made of one of [n] values: its null bits, the
    values converted [xs] and the new ones, that are null. *)
Definition fixed_image (d : ctype) (n m : nat) (ini xs : list Z) : list Z :=
  take (ini_of m) ini ++ replicate (ini_of m - length ini) 0 ++ image d xs ++ replicate ((m - n) * sizeof d) 0.

Lemma fixed_image_length d n m ini xs : length ini = ini_of n -> length xs = (n `min` m)%nat ->
  length (fixed_image d n m ini xs) = (ini_of m + m * sizeof d)%nat.
Proof.
  intros Li Lx. unfold fixed_image. rewrite !length_app, length_take, !length_replicate, image_length, Lx.
  pose proof (Nat.le_ge_cases n m). nia.
Qed.

(** The end of convert_fixed, once the bytes after the array are in their place. *)
Definition fixed_end (d : ctype) (n m : nat) (start : Z) (ini xs buf : list Z) : option (list Z) :=
  buf ← (if Z.of_nat m <? Z.of_nat n then write start ini buf else Some buf);
  buf ← stores d (start + Z.of_nat (ini_of m)) xs buf;
  if Z.of_nat n <? Z.of_nat m then
    buf ← memset (start + len ini) (Z.of_nat (ini_of m - ini_of n)) buf;
    memset (start + Z.of_nat (ini_of m) + Z.of_nat (n * sizeof d)) (Z.of_nat ((m - n) * sizeof d)) buf
  else Some buf.

(** [R] is the place that the memmove has left for the array; it shrinks, or keeps
    its dimension. *)
Lemma shrink_region d n m pre R rest ini xs : (m <= n)%nat -> length ini = ini_of n -> length xs = m ->
  length R = (ini_of m + m * sizeof d)%nat -> ((m < n)%nat -> (ini_of n <= length R)%nat) -> (n = m -> take (length ini) R = ini) ->
  fixed_end d n m (len pre) ini xs (pre ++ R ++ rest) = Some (pre ++ fixed_image d n m ini xs ++ rest).
Proof.
  intros Hmn Li Lx LR Hc He. pose proof (ini_of_mono m n Hmn). unfold fixed_end. rewrite (proj2 (Z.ltb_ge (Z.of_nat n) (Z.of_nat m))) by lia.
  assert (exists R1, (if Z.of_nat m <? Z.of_nat n then write (len pre) ini (pre ++ R ++ rest) else Some (pre ++ R ++ rest))
      = Some (pre ++ take (ini_of m) ini ++ R1 ++ rest) /\ length R1 = (m * sizeof d)%nat) as (R1 & -> & L1).
  { destruct (Z.ltb_spec (Z.of_nat m) (Z.of_nat n)).
    - exists (drop (ini_of m) ini ++ drop (length ini) R). split; [|rewrite length_app, !length_drop; lia].
      replace (pre ++ R ++ rest) with (pre ++ take (length ini) R ++ drop (length ini) R ++ rest) by (by rewrite (app_assoc (take _ _)), take_drop).
      rewrite write_at by (rewrite length_take; lia). f_equal. rewrite <- (take_drop (ini_of m) ini) at 1. by rewrite <- !app_assoc.
    - assert (n = m) as -> by lia. exists (drop (length ini) R). split; [|rewrite length_drop; lia].
      rewrite take_ge by lia. rewrite <- (He eq_refl) at 1. by rewrite (app_assoc (take _ _)), take_drop. }
  cbn [mbind option_bind]. replace (len pre + Z.of_nat (ini_of m)) with (len (pre ++ take (ini_of m) ini)) by (rewrite length_app, length_take; lia).
  rewrite (app_assoc pre), stores_at by lia. cbn [mbind option_bind]. f_equal. unfold fixed_image.
  replace (ini_of m - length ini)%nat with 0%nat by lia. replace ((m - n) * sizeof d)%nat with 0%nat by lia. cbn [replicate app].
  by rewrite app_nil_r, <- !app_assoc.
Qed.

(** It grows. *)
Lemma grow_region d n m pre R rest ini xs : (n < m)%nat -> length ini = ini_of n -> length xs = n ->
  length R = (ini_of m + m * sizeof d)%nat -> take (length ini) R = ini ->
  fixed_end d n m (len pre) ini xs (pre ++ R ++ rest) = Some (pre ++ fixed_image d n m ini xs ++ rest).
Proof.
  intros Hnm Li Lx LR He. pose proof (ini_of_mono n m ltac:(lia)). unfold fixed_end.
  rewrite (proj2 (Z.ltb_lt (Z.of_nat n) (Z.of_nat m))), (proj2 (Z.ltb_ge (Z.of_nat m) (Z.of_nat n))) by lia. cbn [mbind option_bind].
  set (B := drop (length ini) (take (ini_of m) R)). set (M := take (n * sizeof d) (drop (ini_of m) R)).
  set (D := drop (n * sizeof d) (drop (ini_of m) R)).
  assert (R = ini ++ B ++ M ++ D) as ER.
  { rewrite <- He at 1. unfold B, M, D. rewrite take_drop. rewrite app_assoc.
    replace (take (length ini) R) with (take (length ini) (take (ini_of m) R)) by (rewrite take_take; f_equal; lia). by rewrite !take_drop. }
  assert (length B = ini_of m - ini_of n)%nat as LB by (unfold B; rewrite length_drop, length_take; lia).
  assert (length M = n * sizeof d)%nat as LM by (unfold M; rewrite length_take, length_drop; nia).
  assert (length D = (m - n) * sizeof d)%nat as LD by (unfold D; rewrite !length_drop; nia).
  replace (len pre + Z.of_nat (ini_of m)) with (len (pre ++ ini ++ B)) by (rewrite !length_app; lia).
  replace (pre ++ R ++ rest) with ((pre ++ ini ++ B) ++ M ++ D ++ rest) by (by rewrite ER, <- !app_assoc).
  rewrite stores_at by lia. cbn [mbind option_bind].
  replace (len pre + len ini) with (len (pre ++ ini)) by (rewrite length_app; lia).
  replace ((pre ++ ini ++ B) ++ image d xs ++ D ++ rest) with ((pre ++ ini) ++ B ++ image d xs ++ D ++ rest) by (by rewrite <- !app_assoc).
  rewrite memset_at by lia. cbn [mbind option_bind].
  pose proof (image_length d xs) as LI. rewrite Lx in LI.
  replace (len (pre ++ ini ++ B) + Z.of_nat (n * sizeof d)) with (len ((pre ++ ini) ++ replicate (length B) 0 ++ image d xs))
    by (rewrite !length_app, length_replicate; lia).
  replace ((pre ++ ini) ++ replicate (length B) 0 ++ image d xs ++ D ++ rest)
    with (((pre ++ ini) ++ replicate (length B) 0 ++ image d xs) ++ D ++ rest) by (by rewrite <- !app_assoc).
  rewrite memset_at by lia. f_equal. unfold fixed_image. rewrite take_ge, LB, LD, Li by lia. by rewrite <- !app_assoc.
Qed.

(** The array shrinks so much that its null bits do not fit: they are put back over
    the bytes that follow it. *)
Lemma overwrite_region d n m pre R post rest ini xs : length ini = ini_of n -> length xs = m ->
  length R = (ini_of m + m * sizeof d)%nat -> (m < n)%nat -> (length R < ini_of n)%nat -> (ini_of n - length R <= length post)%nat ->
  fixed_end d n m (len pre) ini xs (pre ++ R ++ post ++ rest)
  = Some (pre ++ fixed_image d n m ini xs ++ (drop (length R) ini ++ drop (ini_of n - length R) post) ++ rest).
Proof.
  intros Li Lx LR Hmn Hc Hp. unfold fixed_end.
  rewrite (proj2 (Z.ltb_lt (Z.of_nat m) (Z.of_nat n))), (proj2 (Z.ltb_ge (Z.of_nat n) (Z.of_nat m))) by lia.
  set (j := (ini_of n - length R)%nat) in *.
  replace (pre ++ R ++ post ++ rest) with (pre ++ (R ++ take j post) ++ drop j post ++ rest) by (by rewrite <- (app_assoc R), (app_assoc (take j post)), take_drop).
  rewrite write_at by (rewrite length_app, length_take; lia). cbn [mbind option_bind].
  assert (ini = take (ini_of m) ini ++ take (m * sizeof d) (drop (ini_of m) ini) ++ drop (length R) ini) as Ei.
  { rewrite <- (take_drop (ini_of m) ini) at 1. f_equal. rewrite <- (take_drop (m * sizeof d) (drop (ini_of m) ini)) at 1. f_equal.
    by rewrite drop_drop, LR. }
  replace (pre ++ ini ++ drop j post ++ rest)
    with ((pre ++ take (ini_of m) ini) ++ take (m * sizeof d) (drop (ini_of m) ini) ++ drop (length R) ini ++ drop j post ++ rest)
    by (transitivity (pre ++ (take (ini_of m) ini ++ take (m * sizeof d) (drop (ini_of m) ini) ++ drop (length R) ini) ++ drop j post ++ rest);
      [by rewrite <- !app_assoc|by rewrite <- Ei]).
  replace (len pre + Z.of_nat (ini_of m)) with (len (pre ++ take (ini_of m) ini)) by (rewrite length_app, length_take; lia).
  rewrite stores_at by (rewrite length_take, length_drop, Lx; lia). cbn [mbind option_bind]. f_equal. unfold fixed_image.
  replace (ini_of m - length ini)%nat with 0%nat by lia. replace ((m - n) * sizeof d)%nat with 0%nat by lia. cbn [replicate app].
  by rewrite app_nil_r, <- !app_assoc.
Qed.

(** Up to its end, convert_fixed moves the bytes after the array, to leave the place
    [R] to the new one. *)
Lemma fixed_reduces s d c n m ini data xs pre post slack : src_dim c = Z.of_nat n -> dest_dim c = Z.of_nat m ->
  length ini = ini_of n -> length data = (n * sizeof s)%nat -> casts s d (take (n `min` m) (numbers s n data)) = Some xs ->
  len pre = offset_n c -> (ini_of m + m * sizeof d <= length ini + length data + length slack)%nat ->
  len (pre ++ (ini ++ data) ++ post ++ slack) < 2 ^ 31 ->
  exists R tl, convert_fixed s d c (pre ++ (ini ++ data) ++ post ++ slack) (len (pre ++ (ini ++ data) ++ post))
      = (buf ← fixed_end d n m (len pre) ini xs (pre ++ R ++ post ++ tl);
         Some (buf, len pre + Z.of_nat (ini_of m + m * sizeof d) + len post))
    /\ length R = (ini_of m + m * sizeof d)%nat /\ ((ini_of n <= length R)%nat -> take (length ini) R = ini)
    /\ length tl = (length ini + length data + length slack - length R)%nat.
Proof.
  intros En Em Li Ld Ex Eo Hs Hb. rewrite !length_app in *. rewrite Li, Ld in Hs, Hb |- *.
  unfold convert_fixed, Sz. cbv zeta. rewrite En, Em, <- Eo, !ini_of_Z, (u32_id (len pre)) by lia. rewrite !Nat2Z.id.
  replace (len pre + Z.of_nat (ini_of n)) with (len (pre ++ ini)) by (rewrite length_app; lia).
  replace (pre ++ (ini ++ data) ++ post ++ slack) with ((pre ++ ini) ++ data ++ post ++ slack) by (by rewrite <- !app_assoc).
  rewrite loads_at by done. cbn [mbind option_bind]. rewrite <- app_assoc, fetch_at by done. cbn [mbind option_bind].
  unfold size_t, wrap_u. rewrite Z.mod_small by nia.
  replace (len pre + Z.of_nat (ini_of m) + Z.of_nat m * Z.of_nat (sizeof d)) with (len pre + Z.of_nat (ini_of m + m * sizeof d)) by lia.
  replace (len (pre ++ ini) + Z.of_nat n * Z.of_nat (sizeof s)) with (len pre + len (ini ++ data)) by (rewrite !length_app; lia).
  replace (Z.of_nat (length pre + (ini_of n + n * sizeof s + length post)) - Z.of_nat n * Z.of_nat (sizeof s) - len pre - Z.of_nat (ini_of n))
    with (len post) by lia.
  rewrite (app_assoc ini), memmove_tail by (rewrite !length_app; lia). cbn [mbind option_bind].
  set (k := (ini_of m + m * sizeof d)%nat) in *. set (R := take k _). set (tl := drop _ _).
  replace (Z.to_nat (Z.of_nat n `min` Z.of_nat m)) with (n `min` m)%nat by lia. rewrite Ex. cbn [mbind option_bind].
  assert (length R = k) as LR by (unfold R; rewrite length_take, !length_app; lia).
  exists R, tl. split_and!; [|done| |unfold tl; rewrite length_drop, !length_app; lia].
  - unfold fixed_end. destruct (if Z.of_nat m <? Z.of_nat n then _ else _) as [b1|]; [|done]. cbn [mbind option_bind].
    destruct (stores _ _ _ b1) as [b2|]; [|done]. cbn [mbind option_bind].
    replace (len (pre ++ ini)) with (len pre + len ini) by (rewrite length_app; lia).
    destruct (Z.ltb_spec (Z.of_nat n) (Z.of_nat m)).
    + pose proof (ini_of_mono n m ltac:(lia)).
      replace (Z.of_nat (ini_of m) - Z.of_nat (ini_of n)) with (Z.of_nat (ini_of m - ini_of n)) by lia.
      replace (Z.of_nat n `min` Z.of_nat m * Z.of_nat (sizeof d)) with (Z.of_nat (n * sizeof d)) by lia.
      replace ((Z.of_nat m - Z.of_nat n) * Z.of_nat (sizeof d)) with (Z.of_nat ((m - n) * sizeof d)) by lia.
      destruct (memset _ _ b2) as [b3|]; [|done]. cbn [mbind option_bind]. destruct (memset _ _ b3); [|done]. cbn [mbind option_bind].
      do 2 f_equal. in_32. lia.
    + cbn [mbind option_bind]. do 2 f_equal. in_32. lia.
  - intros. unfold R. rewrite take_take, <- app_assoc, <- Li. replace (length ini `min` k)%nat with (length ini) by lia. apply take_app_length.
Qed.

Lemma converted_length s d n m data xs : casts s d (take (n `min` m) (numbers s n data)) = Some xs -> length xs = (n `min` m)%nat.
Proof. intros Ex. apply casts_length in Ex. rewrite Ex, length_take, numbers_length. lia. Qed.

(** An array of a fixed dimension. The condition on [ini_of n] is what the code needs
    to put the null bits back over the place of a smaller array. *)
Lemma fixed_rewrites s d c n m ini data xs : src_dim c = Z.of_nat n -> dest_dim c = Z.of_nat m ->
  length ini = ini_of n -> length data = (n * sizeof s)%nat ->
  casts s d (take (n `min` m) (numbers s n data)) = Some xs -> ((m < n)%nat -> (ini_of n <= ini_of m + m * sizeof d)%nat) ->
  rewrites (convert_fixed s d c) (offset_n c) (ini ++ data) (fixed_image d n m ini xs).
Proof.
  intros En Em Li Ld Ex Hc pre post slack Eo Hs Hb. pose proof (converted_length _ _ _ _ _ _ Ex) as Lx.
  pose proof (fixed_image_length d n m ini xs Li Lx) as LF. rewrite LF, length_app in Hs.
  destruct (fixed_reduces s d c n m ini data xs pre post slack) as (R & tl & -> & LR & HR & Lt); try done; [lia|].
  exists tl. rewrite !length_app, LF. split; [|lia].
  assert (fixed_end d n m (len pre) ini xs (pre ++ R ++ post ++ tl) = Some (pre ++ fixed_image d n m ini xs ++ post ++ tl)) as ->.
  { destruct (Nat.le_gt_cases m n) as [Hmn|Hmn].
    - apply shrink_region; try done; try lia. intros ->. apply HR. lia.
    - pose proof (ini_of_mono n m ltac:(lia)). apply grow_region; try done; try lia. apply HR. lia. }
  cbn [mbind option_bind]. do 2 f_equal. lia.
Qed.

(** computeSize follows the sizes. *)
Lemma fixed_computeSize s d c n m cur : src_dim c = Z.of_nat n -> dest_dim c = Z.of_nat m -> (0 < n)%nat -> (0 < m)%nat ->
  basic_computeSize s d c cur = u32 (cur + Z.of_nat (ini_of m + m * sizeof d) - Z.of_nat (ini_of n + n * sizeof s)).
Proof.
  intros En Em Hn Hm. unfold basic_computeSize, Sz. rewrite En, Em, !ini_of_Z.
  destruct (Z.ltb_spec 0 (Z.of_nat m)), (Z.ltb_spec 0 (Z.of_nat n)); try lia. cbn. f_equal. lia.
Qed.

(** ** Values *)

(** The values of a type; those of a double are its patterns. *)
Definition fits (t : ctype) (k : Z) : Prop := if is_float t then 0 <= k < 2 ^ 64 else in_range t k = true.

Lemma load_store t k rest : fits t k -> load t (take (sizeof t) (store t k ++ rest)) = k.
Proof.
  intros Hk. rewrite take_app_length' by (by rewrite store_length). destruct t; cbn in *.
  - apply val_rep_16. by apply bool_decide_eq_true in Hk.
  - apply val_rep_32. by apply bool_decide_eq_true in Hk.
  - apply val_rep_64. by apply bool_decide_eq_true in Hk.
  - by apply val_rep_double.
  - done.
  - apply bool_decide_eq_true in Hk. unfold in_s, wrap_s, wrap_u, bits, sizeof in *. cbn in *. dlia.
Qed.

Lemma numbers_image t ks : Forall (fits t) ks -> forall rest, numbers t (length ks) (image t ks ++ rest) = ks.
Proof.
  induction 1 as [|k ks Hk _ IH]; intros rest; [done|]. cbn [length numbers].
  change (image t (k :: ks)) with (store t k ++ image t ks). rewrite <- app_assoc, load_store by done. f_equal.
  rewrite drop_app_length' by (by rewrite store_length). apply IH.
Qed.

Lemma round_even_bounds a s : 0 < s -> 0 <= a -> Z.shiftr a s <= round_even a s <= Z.shiftr a s + 1.
Proof. intros. unfold round_even. destruct (_ || _); lia. Qed.

Lemma double_of_int_range k : in_s 64 k -> 0 <= double_of_int k < 2 ^ 64.
Proof.
  intros Hk. unfold double_of_int. destruct (Z.eqb_spec k 0); [lia|]. unfold in_s in Hk. cbn in Hk.
  set (a := Z.abs k). assert (0 < a <= 2 ^ 63) as Ha by (unfold a; lia). pose proof (Z.log2_spec a ltac:(lia)) as [L1 L2].
  assert (0 <= Z.log2 a <= 63) as Hl.
  { split; [apply Z.log2_nonneg|]. change 63 with (Z.log2 (2 ^ 63)). apply Z.log2_le_mono. lia. }
  set (l := Z.log2 a) in *. cbv zeta. set (m := if l <=? 52 then _ else _).
  assert (2 ^ 52 <= m <= 2 ^ 53) as Hm.
  { unfold m. destruct (Z.leb_spec l 52).
    - rewrite Z.shiftl_mul_pow2 by lia. replace (2 ^ 52) with (2 ^ l * 2 ^ (52 - l)) by (rewrite <- Z.pow_add_r by lia; f_equal; lia).
      replace (2 ^ 53) with (2 ^ Z.succ l * 2 ^ (52 - l)) by (rewrite <- Z.pow_add_r by lia; f_equal; lia). nia.
    - pose proof (round_even_bounds a (l - 52) ltac:(lia) ltac:(lia)) as B. rewrite Z.shiftr_div_pow2 in B by lia.
      assert (2 ^ 52 <= a / 2 ^ (l - 52) < 2 ^ 53); [|lia]. split.
      + apply Z.div_le_lower_bound; [lia|]. replace (2 ^ (l - 52) * 2 ^ 52) with (2 ^ l) by (rewrite <- Z.pow_add_r by lia; f_equal; lia). lia.
      + apply Z.div_lt_upper_bound; [lia|]. replace (2 ^ (l - 52) * 2 ^ 53) with (2 ^ Z.succ l) by (rewrite <- Z.pow_add_r by lia; f_equal; lia). lia. }
  rewrite Z.shiftl_mul_pow2 by lia. change (2 ^ 52) with 4503599627370496 in *. change (2 ^ 53) with 9007199254740992 in *.
  change (2 ^ 63) with 9223372036854775808. change (2 ^ 64) with 18446744073709551616. destruct (k <? 0); lia.
Qed.

(** Integers of at most 53 bits are exact as doubles. *)
Lemma double_exact k : Z.abs k < 2 ^ 53 -> int_of_double (double_of_int k) = Some k.
Proof.
  intros Hk. unfold double_of_int. destruct (Z.eqb_spec k 0) as [->|]; [done|].
  set (a := Z.abs k) in *. assert (0 < a) as Ha by (unfold a; lia). pose proof (Z.log2_spec a Ha) as [L1 L2].
  assert (0 <= Z.log2 a <= 52) as Hl.
  { split; [apply Z.log2_nonneg|]. apply Z.lt_succ_r. change (Z.succ 52) with 53. by apply Z.log2_lt_pow2. }
  set (l := Z.log2 a) in *. cbv zeta. rewrite (proj2 (Z.leb_le l 52)) by lia.
  set (m := Z.shiftl a (52 - l)). assert (2 ^ 52 <= m < 2 ^ 53) as Hm.
  { unfold m. rewrite Z.shiftl_mul_pow2 by lia. replace (2 ^ 52) with (2 ^ l * 2 ^ (52 - l)) by (rewrite <- Z.pow_add_r by lia; f_equal; lia).
    replace (2 ^ 53) with (2 ^ Z.succ l * 2 ^ (52 - l)) by (rewrite <- Z.pow_add_r by lia; f_equal; lia). nia. }
  assert (Z.shiftr m (52 - l) = a) as Hs by (unfold m; rewrite Z.shiftr_shiftl_l, Z.sub_diag by lia; apply Z.shiftl_0_r).
  rewrite Z.shiftl_mul_pow2 by lia. set (sg := if k <? 0 then 2 ^ 63 else 0). unfold int_of_double.
  assert (sg = 0 \/ sg = 2 ^ 63) as Hsg by (unfold sg; destruct (k <? 0); auto).
  assert (Z.shiftr (sg + (1023 + l) * 2 ^ 52 + (m - 2 ^ 52)) 52 mod 2 ^ 11 = 1023 + l) as ->.
  { rewrite Z.shiftr_div_pow2 by lia. destruct Hsg as [-> | ->]; dlia. }
  assert ((sg + (1023 + l) * 2 ^ 52 + (m - 2 ^ 52)) mod 2 ^ 52 = m - 2 ^ 52) as -> by (destruct Hsg as [-> | ->]; dlia).
  destruct (Z.eqb_spec (1023 + l) 2047), (Z.eqb_spec (1023 + l) 0); try lia. f_equal.
  replace (m - 2 ^ 52 + 2 ^ 52) with m by lia. replace (Z.max (1023 + l) 1 - 1075) with (- (52 - l)) by lia.
  change (Z.shiftl m (- (52 - l))) with (Z.shiftr m (52 - l)). rewrite Hs.
  change (2 ^ 52) with 4503599627370496 in *. change (2 ^ 53) with 9007199254740992 in *. change (2 ^ 63) with 9223372036854775808 in *.
  unfold sg, a in *. clear Hs Hsg. destruct (Z.ltb_spec k 0).
  - destruct (Z.leb_spec 9223372036854775808 (9223372036854775808 + (1023 + l) * 4503599627370496 + (m - 4503599627370496))); lia.
  - destruct (Z.leb_spec 9223372036854775808 (0 + (1023 + l) * 4503599627370496 + (m - 4503599627370496))); lia.
Qed.

(** The integer that a value is, a double being truncated. *)
Definition number (t : ctype) (k : Z) : option Z := if is_float t then int_of_double k else Some k.
(** The values that a conversion can keep, and what it is to keep one. *)
Definition convertible (s d : ctype) (k : Z) : Prop :=
  if is_float s && is_float d then True
  else exists x, number s k = Some x /\ if is_float d then Z.abs x < 2 ^ 53 else in_range d x = true.
Definition keeps (s d : ctype) (k k' : Z) : Prop := if is_float s && is_float d then k' = k else number d k' = number s k.

Lemma wrap_in_range t k : in_range t k = true -> wrap t k = k.
Proof.
  intros Hk. destruct t; cbn in *; try done; try (apply bool_decide_eq_true in Hk; apply wrap_s_id; [done|exact Hk]).
  apply andb_true_iff in Hk as [H1%Z.leb_le H2%Z.ltb_lt]. apply Z.mod_small. lia.
Qed.

Lemma cast_keeps s d k : fits s k -> convertible s d k -> exists k', cast s d k = Some k' /\ fits d k' /\ keeps s d k k'.
Proof.
  unfold convertible, cast, keeps, fits, number. destruct (is_float s) eqn:Es, (is_float d) eqn:Ed; cbn [andb]; intros Hk Hc.
  - by exists k.
  - destruct Hc as (x & Ex & Hr). rewrite Ex. cbn. rewrite Hr. by exists x.
  - destruct Hc as (x & [= ->] & Hr). eexists. split; [done|]. split; [|by apply double_exact].
    apply double_of_int_range. unfold in_s. lia.
  - destruct Hc as (x & [= ->] & Hr). eexists. split; [done|]. by rewrite wrap_in_range.
Qed.

Lemma casts_keep s d ks : Forall (fits s) ks -> Forall (convertible s d) ks ->
  exists ks', casts s d ks = Some ks' /\ Forall (fits d) ks' /\ Forall2 (keeps s d) ks ks'.
Proof.
  induction 1 as [|k ks Hk _ IH]; intros Hc; [by exists []|]. apply Forall_cons in Hc as [Hc Hcs].
  destruct (cast_keeps s d k Hk Hc) as (k' & E & F & K). destruct (IH Hcs) as (ks' & Es & Fs & Ks).
  exists (k' :: ks'). cbn. rewrite E. cbn. rewrite Es. cbn. split_and!; [done|by constructor|by constructor].
Qed.

Lemma initialized_app_l a b i : 0 <= i < 8 * len a -> initialized (a ++ b) i = initialized a i.
Proof. intros Hi. unfold initialized, byte_at. pose proof (in_bytes _ _ Hi). destruct (Z.leb_spec 0 (i / 8)); [|lia]. by rewrite lookup_app_l by lia. Qed.
Lemma initialized_zeros a n i : 8 * len a <= i -> initialized (a ++ replicate n 0) i = false.
Proof.
  intros Hi. unfold initialized, byte_at. pose proof (div_mod_8 i). destruct (Z.leb_spec 0 (i / 8)); [|lia].
  rewrite lookup_app_r by lia. destruct (replicate n 0 !! _) eqn:E; [|done]. apply lookup_replicate in E as [-> _]. apply Z.testbit_0_l.
Qed.

(** basic_convert does what the functions for a fixed dimension do; one value is an
    array of one. *)
Lemma basic_fixed files rd cr sm wr wb no s d c (f : files) n m ini data xs : src_dim c = Z.of_nat n -> dest_dim c = Z.of_nat m ->
  (0 < n)%nat -> (0 < m)%nat -> length ini = ini_of n -> length data = (n * sizeof s)%nat ->
  casts s d (take (n `min` m) (numbers s n data)) = Some xs -> ((m < n)%nat -> (ini_of n <= ini_of m + m * sizeof d)%nat) ->
  rewrites (fun buf k => '(_, _, buf, k) ← basic_convert files rd cr sm wr wb no s d c f buf k; Some (buf, k))
    (offset_n c) (ini ++ data) (fixed_image d n m ini xs)
  /\ forall buf k, basic_convert files rd cr sm wr wb no s d c f buf k
       = '(buf, k) ← (if decide (n = 1 /\ m = 1)%nat then convert_one s d c buf k else convert_fixed s d c buf k); Some (Success, f, buf, k).
Proof.
  intros En Em Hn Hm Li Ld Ex Hcl.
  assert (forall buf k, basic_convert files rd cr sm wr wb no s d c f buf k
    = '(buf, k) ← (if decide (n = 1 /\ m = 1)%nat then convert_one s d c buf k else convert_fixed s d c buf k); Some (Success, f, buf, k)) as E.
  { intros buf k. unfold basic_convert. rewrite En, Em. destruct (decide (n = 1 /\ m = 1)%nat) as [[-> ->]|Hne]; [done|].
    destruct (Z.eqb_spec (Z.of_nat n) 1), (Z.eqb_spec (Z.of_nat m) 1), (Z.ltb_spec (Z.of_nat n) 0), (Z.ltb_spec (Z.of_nat m) 0); done || lia. }
  split; [|done]. intros pre post slack Ho Hl Hb. cbv beta. rewrite E. destruct (decide _) as [[-> ->]|Hne].
  - destruct ini as [|bit [|? ?]]; [done| |done]. cbn in Ld, Ex. rewrite Nat.add_0_r in Ld. rewrite (take_ge data) in Ex by lia.
    destruct (cast s d (load s data)) as [x|] eqn:Ec; [|done]. injection Ex as <-.
    assert (fixed_image d 1 1 [bit] [x] = bit :: store d x) as EF by (unfold fixed_image, image; cbn; by rewrite !app_nil_r).
    rewrite EF in *. destruct (one_rewrites s d c bit data x Ld Ec pre post slack Ho Hl Hb) as (s1 & E1 & L). cbn [app] in *.
    rewrite E1. by exists s1.
  - destruct (fixed_rewrites s d c n m ini data xs En Em Li Ld Ex Hcl pre post slack Ho Hl Hb) as (s1 & -> & L). by exists s1.
Qed.

End Lemmas.

(** ** The bytes of numbers

    An object has its numbers as the machine does, or in the exchange format, as the
    database stores them. *)
Inductive byte_order := Machine | Exchange.

Section Orders.
Context `{H : Host} `{X : Codec.Xdr}.

Definition x_load (t : ctype) (bs : list Z) : Z :=
  match t with
  | int16 => Codec.x2h_16 bs | int32 => Codec.x2h_32 bs | int64 => Codec.x2h_64 bs | float64 => Codec.x2h_f64 bs
  | uchar => hd 0 bs | char_ => wrap_s 8 (hd 0 bs)
  end.
Definition x_store (t : ctype) (k : Z) : list Z :=
  match t with
  | int16 => Codec.h2x_16 k | int32 => Codec.h2x_32 k | int64 | float64 => Codec.h2x_64 k
  | uchar => [k] | char_ => [wrap_u 8 k]
  end.

(** The machine has the byte order of the exchange format. *)
Record same_order : Prop := {
  same_load t bs : x_load t bs = load t bs;
  same_store t k : x_store t k = store t k
}.
Definition convertible_order (r : byte_order) : Prop := r = Exchange -> same_order.

Fixpoint numbers_in (r : byte_order) (t : ctype) (n : nat) (data : list Z) : list Z :=
  match n with
  | O => []
  | S n => match r with Machine => load | Exchange => x_load end t (take (sizeof t) data) :: numbers_in r t n (drop (sizeof t) data)
  end.
Definition image_in (r : byte_order) (t : ctype) (ks : list Z) : list Z :=
  ks ≫= match r with Machine => store | Exchange => x_store end t.
Definition fixed_image_in (r : byte_order) (d : ctype) (n m : nat) (ini xs : list Z) : list Z :=
  take (ini_of m) ini ++ replicate (ini_of m - length ini) 0 ++ image_in r d xs ++ replicate ((m - n) * sizeof d) 0.

Lemma numbers_in_ok r t n data : convertible_order r -> numbers_in r t n data = numbers t n data.
Proof.
  intros Hr. revert data. induction n as [|n IH]; intros data; [done|]. cbn. rewrite IH. f_equal.
  destruct r; [done|]. by apply Hr.
Qed.
Lemma image_in_ok r t ks : convertible_order r -> image_in r t ks = image t ks.
Proof. intros Hr. apply list_bind_ext; [|done]. intros k. destruct r; [done|]. by apply Hr. Qed.
Lemma fixed_image_in_ok r d n m ini xs : convertible_order r -> fixed_image_in r d n m ini xs = fixed_image d n m ini xs.
Proof. intros Hr. unfold fixed_image_in. by rewrite image_in_ok. Qed.
End Orders.

Section Theorems.
Context `{H : Host} `{HL : !HostLaws H}.
Variable files : Type.
Variable objectRead : files -> Z -> Oid -> Z + list Z.
Variable objectCreate : files -> list Z -> (Z + Oid) * files.
Variable objectSizeModify : files -> Z -> Oid -> option Z * files.
Variable objectWrite : files -> list Z -> Oid -> option Z * files.
Variable writeBackConvertedObjects : bool.
Variable nullOid : Oid.
Implicit Types (c : ClassConversion) (pre post slack : list Z) (f : files).
#[local] Abbreviation len l := (Z.of_nat (length l)).
#[local] Abbreviation basic_convert := (basic_convert files objectRead objectCreate objectSizeModify objectWrite writeBackConvertedObjects nullOid).

Lemma array_converted_machine s d c f n m ini ks pre post slack :
  src_dim c = Z.of_nat n -> dest_dim c = Z.of_nat m -> (0 < n)%nat -> (0 < m)%nat ->
  length ini = ini_of n -> length ks = n -> Forall (fits s) ks -> Forall (convertible s d) (take m ks) ->
  (forall i, Z.of_nat n <= i < 8 * len ini -> initialized ini i = false) ->
  ((m < n)%nat -> (ini_of n <= ini_of m + m * sizeof d)%nat) ->
  len pre = offset_n c -> (ini_of m + m * sizeof d <= ini_of n + n * sizeof s + length slack)%nat ->
  len (pre ++ (ini ++ image s ks) ++ post ++ slack) < 2 ^ 31 ->
  exists ini' ks' slack' size',
    basic_convert s d c f (pre ++ (ini ++ image s ks) ++ post ++ slack) (len (pre ++ (ini ++ image s ks) ++ post))
      = Some (Success, f, pre ++ (ini' ++ image d ks' ++ replicate ((m - n) * sizeof d) 0) ++ post ++ slack', size')
    /\ size' = len (pre ++ (ini' ++ image d ks' ++ replicate ((m - n) * sizeof d) 0) ++ post)
    /\ basic_computeSize s d c (len (pre ++ (ini ++ image s ks) ++ post)) = size'
    /\ length ini' = ini_of m /\ Forall (fits d) ks' /\ Forall2 (keeps s d) (take m ks) ks'
    /\ forall i, 0 <= i < Z.of_nat m -> initialized ini' i = (i <? Z.of_nat n) && initialized ini i.
Proof.
  intros En Em Hn Hm Li Lk Fk Fc Hz Hcl Ho Hs Hb.
  pose proof (image_length s ks) as Ld. rewrite Lk in Ld.
  destruct (casts_keep s d (take m ks)) as (xs & Ex & Fx & Kx); [by apply Forall_take|done|].
  assert (casts s d (take (n `min` m) (numbers s n (image s ks))) = Some xs) as Ex'.
  { pose proof (numbers_image s ks Fk []) as N. rewrite app_nil_r, Lk in N. rewrite N.
    replace (n `min` m)%nat with (m `min` n)%nat by lia. rewrite <- take_take, (take_ge ks n) by lia. done. }
  destruct (basic_fixed files objectRead objectCreate objectSizeModify objectWrite writeBackConvertedObjects nullOid
    s d c f n m ini (image s ks) xs En Em Hn Hm Li Ld Ex' Hcl) as [R E].
  pose proof (converted_length _ _ _ _ _ _ Ex') as Lx. pose proof (fixed_image_length d n m ini xs Li Lx) as LF.
  destruct (R pre post slack Ho) as (s1 & E1 & L1); [rewrite LF, length_app, Li, Ld; lia|done|]. cbv beta in E1. rewrite E in E1. rewrite E.
  destruct (if decide _ then _ else _) as [[b1 k1]|]; [|done]. cbn [mbind option_bind] in E1 |- *. injection E1 as -> ->.
  unfold fixed_image in *. exists (take (ini_of m) ini ++ replicate (ini_of m - length ini) 0), xs, s1. eexists.
  rewrite <- !app_assoc. split; [done|]. split; [done|]. split; [|split_and!; try done].
  - rewrite (fixed_computeSize s d c n m) by done. rewrite u32_id by (rewrite !length_app, Ld, Li in *; lia).
    rewrite !length_app in *. rewrite Ld, Li in *. lia.
  - rewrite length_app, length_take, length_replicate. lia.
  - intros i Hi. rewrite !length_app in LF. destruct (Nat.le_gt_cases m n) as [Hmn|Hmn].
    + pose proof (ini_of_mono m n Hmn). replace (ini_of m - length ini)%nat with 0%nat by lia. cbn [replicate]. rewrite app_nil_r.
      rewrite (proj2 (Z.ltb_lt i (Z.of_nat n))) by lia. cbn [andb].
      rewrite <- (take_drop (ini_of m) ini) at 2. symmetry. apply initialized_app_l. rewrite length_take.
      pose proof (ini_of_holds m). lia.
    + pose proof (ini_of_mono n m ltac:(lia)). rewrite take_ge by lia. destruct (Z.ltb_spec i (8 * len ini)).
      * rewrite initialized_app_l by lia. destruct (Z.ltb_spec i (Z.of_nat n)); [done|]. apply Hz. lia.
      * pose proof (ini_of_holds n). rewrite initialized_zeros by lia. destruct (Z.ltb_spec i (Z.of_nat n)); [lia|done].
Qed.

(** C22: the conversion of an attribute of a basic class, from one fixed dimension to
    another, in a block with enough room, the null bits of the old dimension being no
    longer than the whole new array, and the numbers having the byte order of the
    machine, which is the one in which the database stores them ([Exchange]) only if
    that machine has the order of the exchange format: the values that both dimensions
    have are kept when the new class can hold them, with their null bits, the new ones
    are zero and null, the bytes before and after the attribute are the same, and the
    new size of the object is the one that computeSize has announced. *)
Theorem array_converted `{X : Codec.Xdr} r s d c f n m ini ks pre post slack :
  convertible_order r ->
  src_dim c = Z.of_nat n -> dest_dim c = Z.of_nat m -> (0 < n)%nat -> (0 < m)%nat ->
  length ini = ini_of n -> length ks = n -> Forall (fits s) ks -> Forall (convertible s d) (take m ks) ->
  (forall i, Z.of_nat n <= i < 8 * len ini -> initialized ini i = false) ->
  ((m < n)%nat -> (ini_of n <= ini_of m + m * sizeof d)%nat) ->
  len pre = offset_n c -> (ini_of m + m * sizeof d <= ini_of n + n * sizeof s + length slack)%nat ->
  len (pre ++ (ini ++ image_in r s ks) ++ post ++ slack) < 2 ^ 31 ->
  exists ini' ks' slack' size',
    basic_convert s d c f (pre ++ (ini ++ image_in r s ks) ++ post ++ slack) (len (pre ++ (ini ++ image_in r s ks) ++ post))
      = Some (Success, f, pre ++ (ini' ++ image_in r d ks' ++ replicate ((m - n) * sizeof d) 0) ++ post ++ slack', size')
    /\ size' = len (pre ++ (ini' ++ image_in r d ks' ++ replicate ((m - n) * sizeof d) 0) ++ post)
    /\ basic_computeSize s d c (len (pre ++ (ini ++ image_in r s ks) ++ post)) = size'
    /\ length ini' = ini_of m /\ Forall (fits d) ks' /\ Forall2 (keeps s d) (take m ks) ks'
    /\ forall i, 0 <= i < Z.of_nat m -> initialized ini' i = (i <? Z.of_nat n) && initialized ini i.
Proof.
  intros Hr. rewrite (image_in_ok r s ks Hr). intros En Em Hn Hm Li Lk Fk Fc Hz Hcl Ho Hs Hb.
  destruct (array_converted_machine s d c f n m ini ks pre post slack En Em Hn Hm Li Lk Fk Fc Hz Hcl Ho Hs Hb)
    as (ini' & ks' & slack' & size' & E). exists ini', ks', slack', size'. by rewrite (image_in_ok r d ks' Hr).
Qed.

(** When an array shrinks so much that the null bits of the old dimension are
    longer than the whole new array, the conversion puts them back over the bytes that
    follow the array: the next attribute begins with null bits of the old array. *)
Theorem shrunk_array_overwrites s d c f n m ini ks pre post slack :
  src_dim c = Z.of_nat n -> dest_dim c = Z.of_nat m -> (0 < m < n)%nat -> length ini = ini_of n -> length ks = n ->
  Forall (fits s) ks -> Forall (convertible s d) (take m ks) ->
  (ini_of m + m * sizeof d < ini_of n)%nat -> (ini_of n - (ini_of m + m * sizeof d) <= length post)%nat ->
  len pre = offset_n c -> (ini_of m + m * sizeof d <= ini_of n + n * sizeof s + length slack)%nat ->
  len (pre ++ (ini ++ image s ks) ++ post ++ slack) < 2 ^ 31 ->
  exists ks' slack', Forall2 (keeps s d) (take m ks) ks' /\
    basic_convert s d c f (pre ++ (ini ++ image s ks) ++ post ++ slack) (len (pre ++ (ini ++ image s ks) ++ post))
    = let k := (ini_of m + m * sizeof d)%nat in
      let post' := drop k ini ++ drop (ini_of n - k) post in
      Some (Success, f, pre ++ (take (ini_of m) ini ++ image d ks') ++ post' ++ slack',
        len (pre ++ (take (ini_of m) ini ++ image d ks') ++ post')).
Proof.
  intros En Em Hnm Li Lk Fk Fc Hover Hpost Ho Hs Hb.
  pose proof (image_length s ks) as Ld. rewrite Lk in Ld.
  destruct (casts_keep s d (take m ks)) as (xs & Ex & Fx & Kx); [by apply Forall_take|done|].
  pose proof (casts_length _ _ _ _ Ex) as Lx. rewrite length_take in Lx. replace (m `min` length ks)%nat with m in Lx by lia.
  assert (casts s d (take (n `min` m) (numbers s n (image s ks))) = Some xs) as Ex'.
  { pose proof (numbers_image s ks Fk []) as N. rewrite app_nil_r, Lk in N. rewrite N. by replace (n `min` m)%nat with m by lia. }
  destruct (fixed_reduces s d c n m ini (image s ks) xs pre post slack) as (R & tl & E & LR & _ & _); try done; [lia|].
  exists xs, tl. split; [done|]. cbv zeta. unfold AttrConvert.basic_convert. rewrite En, Em.
  rewrite (proj2 (Z.eqb_neq (Z.of_nat n) 1)), (proj2 (Z.ltb_ge (Z.of_nat n) 0)), (proj2 (Z.ltb_ge (Z.of_nat m) 0)) by lia. cbn [andb].
  rewrite E, (overwrite_region d n m) by (done || lia). cbn [mbind option_bind]. rewrite LR. unfold fixed_image.
  replace (ini_of m - length ini)%nat with 0%nat by lia. replace ((m - n) * sizeof d)%nat with 0%nat by lia. cbn [replicate app].
  rewrite app_nil_r. do 2 f_equal. pose proof (image_length d xs). rewrite !length_app, length_take, !length_drop. lia.
Qed.

End Theorems.

(** ** Examples *)

Module Example.
Import ArgCodec.LittleEndian.

Definition files : Type := list (list Z).
Definition objectRead (_ : files) (_ : Z) (_ : Oid) : Z + list Z := inl 1.
Definition objectCreate (f : files) (bs : list Z) : (Z + Oid) * files := (inr Codec.BigEndian.oid_a, bs :: f).
Definition objectSizeModify (f : files) (_ : Z) (_ : Oid) : option Z * files := (Some 2, f).
Definition objectWrite (f : files) (_ : list Z) (_ : Oid) : option Z * files := (Some 3, f).
Definition nullOid : Oid := Codec.BigEndian.oid_b.
#[local] Abbreviation run := (basic_convert files objectRead objectCreate objectSizeModify objectWrite true nullOid).

(** short a[2] becomes long a[3]. *)
Definition widen : ClassConversion := mk_ClassConversion CNV_ATTR INT16_TO_INT32 nullOid nullOid 2 3 1 2 4.
Example widen_bytes :
  run int16 int32 widen [] [9; 192; 5; 0; 253; 255; 7; 8; 0; 0; 0; 0; 0; 0; 0; 0; 0; 0] 8
  = Some (Success, [], [9; 192; 5; 0; 0; 0; 253; 255; 255; 255; 0; 0; 0; 0; 7; 8; 0; 0], 16).
Proof. reflexivity. Qed.
(** The database stores a short with its most significant byte first: the 5 that it
    stores is read as 1280 by a little-endian machine, and written as such. *)
Example xdr_not_read :
  run int16 int32 (mk_ClassConversion CNV_ATTR INT16_TO_INT32 nullOid nullOid 1 1 1 2 4) [] [9; 128; 0; 5; 7; 0; 0] 5
  = Some (Success, [], [9; 128; 0; 5; 0; 0; 7], 7).
Proof. reflexivity. Qed.

(** char a[100] becomes char a[4]. *)
Definition shrink : ClassConversion := mk_ClassConversion CNV_ATTR CHAR_TO_CHAR nullOid nullOid 100 4 1 100 4.
Lemma shrunk_array_overwrites_witness : exists ks' slack', Forall2 (keeps uchar uchar) (take 4 (replicate 100 65)) ks' /\
  run uchar uchar shrink [] ([9] ++ (replicate 13 255 ++ image uchar (replicate 100 65)) ++ replicate 10 7 ++ [])
    (Z.of_nat (length ([9] ++ (replicate 13 255 ++ image uchar (replicate 100 65)) ++ replicate 10 7)))
  = let k := (ini_of 4 + 4 * sizeof uchar)%nat in
    let post' := drop k (replicate 13 255) ++ drop (ini_of 100 - k) (replicate 10 7) in
    Some (Success, [], [9] ++ (take (ini_of 4) (replicate 13 255) ++ image uchar ks') ++ post' ++ slack',
      Z.of_nat (length ([9] ++ (take (ini_of 4) (replicate 13 255) ++ image uchar ks') ++ post'))).
Proof.
  apply (shrunk_array_overwrites files objectRead objectCreate objectSizeModify objectWrite true nullOid uchar uchar shrink [] 100 4
    (replicate 13 255) (replicate 100 65) [9] (replicate 10 7) []); try reflexivity; try (vm_compute; lia).
  - apply Forall_replicate. by cbn.
  - apply Forall_take, Forall_replicate. exists 65. by cbn.
Defined.
Example shrink_bytes :
  (fun '(_, _, buf, n) => (take 20 buf, n)) <$> run uchar uchar shrink [] ([9] ++ replicate 13 255 ++ replicate 100 65 ++ replicate 10 7) 124
  = Some ([9; 255; 65; 65; 65; 65; 255; 255; 255; 255; 255; 255; 255; 255; 7; 7; 65; 65; 65; 65], 16).
Proof. reflexivity. Qed.

(** A long string of chars: its object is created with the null bits of the array and
    then its values, as those of a short one are; the bytes of the array are not those
    that have been converted. *)
Example long_string :
  option_map (fun '(_, f, _, _) => map (take 8) f)
    (convert_2str files objectCreate nullOid int16 (mk_ClassConversion CNV_ATTR INT16_TO_STRING nullOid nullOid 30 (-1) 0 2 1) []
      (replicate 4 255 ++ concat (replicate 30 [65; 0]) ++ replicate 60 0) 64)
  = Some [[255; 255; 255; 255; 65; 0; 65; 0]].
Proof. reflexivity. Qed.

End Example.

(** A machine that has the byte order of the exchange format. *)
Module Stored.
Import ArgCodec.BigEndianHost.
#[local] Existing Instance Codec.BigEndian.big_endian.

Lemma big_endian_order : same_order (X := Codec.BigEndian.big_endian).
Proof. split; by intros []. Qed.

Definition objectRead (_ : Example.files) (_ : Z) (_ : Oid) : Z + list Z := inl 1.
Definition objectCreate (f : Example.files) (bs : list Z) : (Z + Oid) * Example.files := (inr Codec.BigEndian.oid_a, bs :: f).
Definition objectSizeModify (f : Example.files) (_ : Z) (_ : Oid) : option Z * Example.files := (Some 2, f).
Definition objectWrite (f : Example.files) (_ : list Z) (_ : Oid) : option Z * Example.files := (Some 3, f).
Definition nullOid : Oid := Codec.BigEndian.oid_b.
#[local] Abbreviation run := (basic_convert Example.files objectRead objectCreate objectSizeModify objectWrite true nullOid).

(** short a[2] becomes long a[3]. *)
Definition widen : ClassConversion := mk_ClassConversion CNV_ATTR INT16_TO_INT32 nullOid nullOid 2 3 1 2 4.
Lemma array_converted_witness : exists ini' ks' slack' size',
  run int16 int32 widen [] ([9] ++ ([192] ++ image_in Exchange int16 [5; -3]) ++ [7; 8] ++ replicate 10 0) (Z.of_nat (length ([9] ++ ([192] ++ image_in Exchange int16 [5; -3]) ++ [7; 8])))
    = Some (Success, [], [9] ++ (ini' ++ image_in Exchange int32 ks' ++ replicate ((3 - 2) * sizeof int32) 0) ++ [7; 8] ++ slack', size')
  /\ size' = Z.of_nat (length ([9] ++ (ini' ++ image_in Exchange int32 ks' ++ replicate ((3 - 2) * sizeof int32) 0) ++ [7; 8]))
  /\ basic_computeSize int16 int32 widen (Z.of_nat (length ([9] ++ ([192] ++ image_in Exchange int16 [5; -3]) ++ [7; 8]))) = size'
  /\ length ini' = ini_of 3 /\ Forall (fits int32) ks' /\ Forall2 (keeps int16 int32) (take 3 [5; -3]) ks'
  /\ forall i, 0 <= i < 3 -> initialized ini' i = (i <? 2) && initialized [192] i.
Proof.
  apply (array_converted Example.files objectRead objectCreate objectSizeModify objectWrite true nullOid Exchange int16 int32 widen [] 2 3 [192] [5; -3] [9] [7; 8] (replicate 10 0));
    try reflexivity; try lia.
  - intros _. apply big_endian_order.
  - repeat constructor.
  - constructor; [by exists 5|]. constructor; [by exists (-3)|constructor].
  - intros i Hi. cbn in Hi. assert (i = 2 \/ i = 3 \/ i = 4 \/ i = 5 \/ i = 6 \/ i = 7) as Hi' by lia.
    destruct Hi' as [-> | [-> | [-> | [-> | [-> | ->]]]]]; reflexivity.
  - vm_compute. lia.
Defined.
(** The 5 that the database stores is read. *)
Example xdr_read :
  run int16 int32 (mk_ClassConversion CNV_ATTR INT16_TO_INT32 nullOid nullOid 1 1 1 2 4) [] [9; 128; 0; 5; 7; 0; 0] 5
  = Some (Success, [], [9; 128; 0; 0; 0; 5; 7], 7).
Proof. reflexivity. Qed.
End Stored.
