(* ===== verification/ClassConversion.v ===== *)
(** * Schema evolution: converting stored objects

    src/eyedb/ClassConversion.cc, over [AttrConvert]: the conversions of a class are
    found in the database and sorted (getClass_, cmp, sort_array), the size of the
    block that a conversion needs is computed (computeSize), and the bytes of an
    object are converted from each version of its class to the next (convert), the
    objects embedded in it with the conversions of their own class (CLASS_TO_CLASS).
    The theorems show that this turns the bytes of an object of the old class into
    those of the new one, for any sequence of attributes kept, removed, added and
    converted, in a block of the computed size. *)

From stdpp Require Import sorting.
From Stdlib Require Import Ascii.
From S2P Require Import Prelude NullBits ArgCodec AttrValue AttrConvert.

#[local] Set Warnings "-register-all,-clear-no-such-hyp".

Section Evolution.
Context `{H : Host} `{!EqDecision Oid, !Countable Oid}.

Variable files : Type.
Variable objectRead : files -> Z -> Oid -> Z + list Z.
Variable objectCreate : files -> list Z -> (Z + Oid) * files.
Variable objectSizeModify : files -> Z -> Oid -> option Z * files.
Variable objectWrite : files -> list Z -> Oid -> option Z * files.
Variable writeBackConvertedObjects : bool.
Variable nullOid : Oid.
(** Schema::getClass: a class is known by its oid. *)
Variable getClass : Oid -> bool.
(** The query of the objects class_conversion whose oid_o is given. *)
Variable query : Oid -> Status + list ClassConversion.

(** kern_const.h *)
Definition IDB_OBJ_HEAD_SIZE : Z := 4 + 4 + 4 + 8 + 8 + 4 + sizeof_oid + sizeof_oid.

(** ** The order of the conversions *)

Definition cmp (c1 c2 : ClassConversion) : option Z :=
  match updtype c1, updtype c2 with
  | RMV_ATTR, (ADD_ATTR | CNV_ATTR) => Some (-1)
  | RMV_ATTR, RMV_ATTR => Some (offset_n c2 - offset_n c1)
  | (ADD_ATTR | CNV_ATTR), RMV_ATTR => Some 1
  | (ADD_ATTR | CNV_ATTR), (ADD_ATTR | CNV_ATTR) => Some (offset_n c1 - offset_n c2)
  | _, _ => None
  end.

Definition sortable (c : ClassConversion) : bool :=
  match updtype c with ADD_ATTR | RMV_ATTR | CNV_ATTR => true | _ => false end.
Definition cmp_le (c1 c2 : ClassConversion) : Prop := default 0 (cmp c1 c2) <= 0.
#[local] Instance cmp_le_dec : RelDecision cmp_le.
Proof. intros c1 c2. unfold cmp_le. apply _. Defined.

(** sort_array: qsort compares every object with another, when there are two. *)
Definition sort_array (l : list ClassConversion) : option (list ClassConversion) :=
  if bool_decide (length l <= 1)%nat || forallb sortable l then Some (merge_sort cmp_le l) else None.

(** ** Contexts *)

(** ClassConversion::Context *)
Inductive Context := mk_Context (cls : option Oid) (obj_arr : list ClassConversion) (next : option Context).

Fixpoint chain (ctx : Context) : list (list ClassConversion) :=
  match ctx with mk_Context _ l nx => l :: match nx with Some ctx => chain ctx | None => [] end end.

(** What a conversion reads and writes: the files of the storage manager and the
    cache of contexts. *)
Record env := mk_env { fs : files; conv_cache : gmap Oid Context }.
Definition set_fs (f : files) (e : env) : env := mk_env f (conv_cache e).
Definition set_cache (m : gmap Oid Context) (e : env) : env := mk_env (fs e) m.

(** ClassConversion::getClass_: the new class, when it is in the schema, and the
    context. [None] is the failed assertion of [cmp]. *)
Fixpoint getClass_ (fuel : nat) (ocloid : Oid) (class_to_class : bool) (e : env)
  : option (Status * option Oid * option Context * env) :=
  match fuel with
  | O => None
  | S fuel =>
      match conv_cache e !! ocloid with
      | Some (mk_Context (Some cls) l nx) => Some (Success, Some cls, Some (mk_Context (Some cls) l nx), e)
      | found =>
          match query ocloid with
          | inl s => Some (s, None, None, e)
          | inr [] => Some (NoClass, None, None, e)
          | inr l =>
              l ← sort_array l;
              let insert ctx e :=
                match found with None => set_cache (<[ocloid := ctx]> (conv_cache e)) e | Some _ => e end in
              let e := insert (mk_Context None l None) e in
              conv ← head l;
              let cls := if getClass (oid_n conv) then Some (oid_n conv) else None in
              let ctx := mk_Context cls l None in
              if bool_decide (is_Some cls) || class_to_class then Some (Success, cls, Some ctx, insert ctx e)
              else
                '(s, cls, nx, e) ← getClass_ fuel (oid_n conv) false e;
                match s with
                | Success => let ctx := mk_Context cls l nx in Some (Success, cls, Some ctx, insert ctx e)
                | _ => Some (s, cls, Some (mk_Context None l nx), e)
                end
          end
      end
  end.

(** ** Sizes *)

Definition class_computeSize (c : ClassConversion) (cur_size : Z) : Z :=
  let dim_s := src_dim c in
  let dim_d := dest_dim c in
  if (0 <? dim_s) && (0 <? dim_d) then u32 (cur_size + dim_d * size_n c - dim_s * size_o c)
  else if (dim_s <? 0) && (dim_d <? 0) then cur_size
  else if (0 <? dim_s) && (dim_d <? 0) then u32 (cur_size + sizeof_Size + sizeof_oid - dim_s * size_o c)
  else cur_size.

(** ClassConversion::computeSize of one conversion. *)
Definition computeSize1 (c : ClassConversion) (cur_size : Z) : option Z :=
  match updtype c with
  | ADD_ATTR => Some (u32 (cur_size + size_n c))
  | RMV_ATTR => Some (u32 (cur_size - size_n c))
  | CNV_ATTR =>
      match cnv_convert (cnvtype c) with
      | CNV_MAKE s d => Some (basic_computeSize s d c cur_size)
      | CNV_MAKE_2STR s => Some (str_computeSize s c cur_size)
      | CNV_CLASS => Some (class_computeSize c cur_size)
      | CNV_MAKE_NYI | CNV_NIL => Some cur_size
      | CNV_NULL => None
      end
  | _ => None
  end.

Fixpoint computeSizes (l : list ClassConversion) (cur_size max_size : Z) : option (Z * Z) :=
  match l with
  | [] => Some (cur_size, max_size)
  | c :: l => cur_size ← computeSize1 c cur_size; computeSizes l cur_size (Z.max cur_size max_size)
  end.
Fixpoint computeSize_chain (ls : list (list ClassConversion)) (cur_size max_size : Z) : option Z :=
  match ls with
  | [] => Some max_size
  | l :: ls => '(cur_size, max_size) ← computeSizes l cur_size max_size; computeSize_chain ls cur_size max_size
  end.
Definition computeSize (ls : list (list ClassConversion)) (start_size : Z) : option Z :=
  computeSize_chain ls start_size start_size.

(** ** Conversions *)

(** One loop of conversions, that an error stops. *)
Fixpoint convert_list (conv : ClassConversion -> env -> list Z -> Z -> option (Status * env * list Z * Z))
    (l : list ClassConversion) (e : env) (buf : list Z) (in_size : Z) : option (Status * env * list Z * Z) :=
  match l with
  | [] => Some (Success, e, buf, in_size)
  | c :: l =>
      '(s, e, buf, in_size) ← conv c e buf in_size;
      match s with Success => convert_list conv l e buf in_size | _ => Some (s, e, buf, in_size) end
  end.

Section Classes.
(** ClassConversion::convert of an embedded object. *)
Variable convert : list (list ClassConversion) -> env -> list Z -> Z -> option (Status * env * list Z).

(** The elements of an array, each copied after the place of a header in a block of
    its own and converted there: the blocks. *)
Fixpoint convert_elements (ls : list (list ClassConversion)) (osize nxsize : Z) (n : nat) (start_s : Z)
    (src : list Z) (e : env) : option (Status * env * list (list Z)) :=
  match n with
  | O => Some (Success, e, [])
  | S n =>
      bs ← fetch start_s (Z.to_nat osize) src;
      pdata ← write IDB_OBJ_HEAD_SIZE bs (replicate (Z.to_nat (nxsize + IDB_OBJ_HEAD_SIZE)) 0);
      '(s, e, pdata) ← convert ls e pdata (u32 (osize + IDB_OBJ_HEAD_SIZE));
      match s with
      | Success =>
          '(s, e, ps) ← convert_elements ls osize nxsize n (start_s + osize) src e;
          Some (s, e, pdata :: ps)
      | _ => Some (s, e, [])
      end
  end.
Fixpoint put_elements (nsize : Z) (start_d : Z) (ps : list (list Z)) (buf : list Z) : option (list Z) :=
  match ps with
  | [] => Some buf
  | p :: ps =>
      bs ← fetch IDB_OBJ_HEAD_SIZE (Z.to_nat nsize) p;
      buf ← write start_d bs buf; put_elements nsize (start_d + nsize) ps buf
  end.

(** A fixed dimension to a fixed dimension. *)
Definition CLASS_TO_CLASS_convert_1 (ls : list (list ClassConversion)) (c : ClassConversion) (e : env)
    (buf : list Z) (in_size : Z) : option (Status * env * list Z * Z) :=
  let dim_s := src_dim c in
  let dim_d := dest_dim c in
  let osize := u32 (size_o c) in
  let nsize := u32 (size_n c) in
  let start := u32 (offset_n c) in
  nxsize ← computeSize ls osize;
  let ndim_d := Z.min dim_s dim_d in
  '(s, e, ps) ← convert_elements ls osize nxsize (Z.to_nat ndim_d) start buf e;
  match s with
  | Success =>
      buf ← memmove (start + u32 (dim_d * nsize)) (start + u32 (dim_s * osize)) (u32 (in_size - dim_s * osize - start)) buf;
      buf ← put_elements nsize start ps buf;
      buf ← (if dim_s <? dim_d then memset (start + ndim_d * nsize) ((dim_d - dim_s) * nsize) buf else Some buf);
      Some (Success, e, buf, u32 (in_size + dim_d * nsize - dim_s * osize))
  | _ => Some (s, e, buf, in_size)
  end.

(** A variable dimension to a variable dimension: the elements are in another
    object, that is rewritten. *)
Definition CLASS_TO_CLASS_convert_2 (ls : list (list ClassConversion)) (c : ClassConversion) (e : env)
    (buf : list Z) (in_size : Z) : option (Status * env * list Z * Z) :=
  let dim_s := src_dim c in
  let dim_d := dest_dim c in
  let osize := u32 (size_o c) in
  let nsize := u32 (size_n c) in
  let start := u32 (offset_n c) in
  nxsize ← computeSize ls osize;
  bs ← fetch start 4 buf;
  let count := CLEAN_SIZE (u32 (val_32 bs)) in
  if count =? 0 then Some (Success, e, buf, in_size)
  else
    let wpsize_s := u32 (osize * count * - dim_s) in
    ob ← fetch (start + sizeof_Size) sizeof_Oid buf;
    let oid_s := val_oid ob in
    match objectRead (fs e) wpsize_s oid_s with
    | inl err => Some (SeError err, e, buf, in_size)
    | inr pdata_s =>
        '(s, e, ps) ← convert_elements ls osize nxsize (Z.to_nat count) 0 pdata_s e;
        match s with
        | Success =>
            let wpsize_d := u32 (nsize * count * - dim_d) in
            pdata_d ← put_elements nsize 0 ps (replicate (Z.to_nat wpsize_d) 0);
            pdata_d ← (if dim_s <? dim_d then memset (count * nsize) ((dim_d - dim_s) * nsize) pdata_d else Some pdata_d);
            if writeBackConvertedObjects then
              let '(r, f) := objectSizeModify (fs e) wpsize_d oid_s in
              match r with
              | Some err => Some (SeError err, set_fs f e, buf, in_size)
              | None => let '(r, f) := objectWrite f pdata_d oid_s in Some (se r, set_fs f e, buf, in_size)
              end
            else Some (ReadOnly, e, buf, in_size)
        | _ => Some (s, e, buf, in_size)
        end
    end.

(** A fixed dimension to a variable dimension: the elements become another object. *)
Definition CLASS_TO_CLASS_convert_3 (ls : list (list ClassConversion)) (c : ClassConversion) (e : env)
    (buf : list Z) (in_size : Z) : option (Status * env * list Z * Z) :=
  let dim_s := src_dim c in
  let osize := u32 (size_o c) in
  let nsize := u32 (size_n c) in
  let start := u32 (offset_n c) in
  nxsize ← computeSize ls osize;
  let wpsize_s := u32 (osize * dim_s) in
  '(s, e, ps) ← convert_elements ls osize nxsize (Z.to_nat dim_s) start buf e;
  match s with
  | Success =>
      pdata_d ← put_elements nsize 0 ps (replicate (Z.to_nat (u32 (nsize * dim_s))) 0);
      let '(r, f) := objectCreate (fs e) pdata_d in
      let e := set_fs f e in
      match r with
      | inl err => Some (SeError err, e, buf, in_size)
      | inr oid_d =>
          buf ← memmove (start + sizeof_Size + sizeof_oid) (start + wpsize_s) (u32 (in_size - start - wpsize_s)) buf;
          buf ← write start (rep_32 dim_s) buf;
          buf ← write (start + sizeof_Size) (rep_oid oid_d) buf;
          Some (Success, e, buf, u32 (in_size + sizeof_Size + sizeof_oid - dim_s * osize))
      end
  | _ => Some (s, e, buf, in_size)
  end.

Definition CLASS_TO_CLASS_convert (c : ClassConversion) (e : env) (buf : list Z) (in_size : Z)
  : option (Status * env * list Z * Z) :=
  '(s, _, ctx, e) ← getClass_ 1 (roid_o c) true e;
  match s with
  | Success =>
      ctx ← ctx;
      let dim_s := src_dim c in
      let dim_d := dest_dim c in
      if (0 <? dim_s) && (0 <? dim_d) then CLASS_TO_CLASS_convert_1 (chain ctx) c e buf in_size
      else if (dim_s <? 0) && (dim_d <? 0) then CLASS_TO_CLASS_convert_2 (chain ctx) c e buf in_size
      else if (0 <? dim_s) && (dim_d <? 0) then CLASS_TO_CLASS_convert_3 (chain ctx) c e buf in_size
      else Some (NotSupported, e, buf, in_size)
  | _ => Some (s, e, buf, in_size)
  end.

(** ClassConversion::convert, the instance method. *)
Definition convert1 (c : ClassConversion) (e : env) (buf : list Z) (in_size : Z) : option (Status * env * list Z * Z) :=
  match updtype c with
  | ADD_ATTR => '(buf, n) ← add_attribute c buf in_size; Some (Success, e, buf, n)
  | RMV_ATTR => '(buf, n) ← remove_attribute c buf in_size; Some (Success, e, buf, n)
  | CNV_ATTR =>
      match cnv_convert (cnvtype c) with
      | CNV_MAKE s d =>
          '(st, f, buf, n) ← basic_convert files objectRead objectCreate objectSizeModify objectWrite
                               writeBackConvertedObjects nullOid s d c (fs e) buf in_size;
          Some (st, set_fs f e, buf, n)
      | CNV_MAKE_2STR s =>
          '(st, f, buf, n) ← convert_2str files objectCreate nullOid s c (fs e) buf in_size;
          Some (st, set_fs f e, buf, n)
      | CNV_MAKE_NYI => Some (NotImplemented, e, buf, in_size)
      | CNV_CLASS => CLASS_TO_CLASS_convert c e buf in_size
      | CNV_NIL => Some (Success, e, buf, in_size)
      | CNV_NULL => None
      end
  | _ => Some (UnknownUpdate, e, buf, in_size)
  end.
End Classes.

(** ClassConversion::convert, the static method; the fuel bounds the nesting of
    embedded objects. *)
Fixpoint convert_chain (conv : ClassConversion -> env -> list Z -> Z -> option (Status * env * list Z * Z))
    (ls : list (list ClassConversion)) (e : env) (buf : list Z) (in_size : Z) : option (Status * env * list Z) :=
  match ls with
  | [] => Some (Success, e, buf)
  | l :: ls =>
      '(s, e, buf, in_size) ← convert_list conv l e buf in_size;
      match s with Success => convert_chain conv ls e buf in_size | _ => Some (s, e, buf) end
  end.
Fixpoint convert (fuel : nat) (ls : list (list ClassConversion)) (e : env) (buf : list Z) (in_size : Z)
  : option (Status * env * list Z) :=
  match fuel with
  | O => None
  | S fuel => convert_chain (convert1 (convert fuel)) ls e buf in_size
  end.

(** What one conversion does to the bytes of an attribute, whatever there is around
    it, in a block that is large enough ([AttrConvert.rewrites], with the state). *)
Definition env_rewrites (conv : env -> list Z -> Z -> option (Status * env * list Z * Z)) (e e' : env) (off : Z) (b b' : list Z) : Prop :=
  forall pre post slack, Z.of_nat (length pre) = off -> Z.of_nat (length b') <= Z.of_nat (length b) + Z.of_nat (length slack) ->
    Z.of_nat (length (pre ++ b ++ post ++ slack)) < 2 ^ 31 ->
    exists slack', conv e (pre ++ b ++ post ++ slack) (Z.of_nat (length (pre ++ b ++ post)))
        = Some (Success, e', pre ++ b' ++ post ++ slack', Z.of_nat (length (pre ++ b' ++ post)))
      /\ Z.of_nat (length b') + Z.of_nat (length slack') = Z.of_nat (length b) + Z.of_nat (length slack).

(** ** Changes of a class

    The old and the new version of a class are a sequence of attributes kept, removed,
    added and converted; the bytes of an object in the old and in the new version are
    those of its attributes. *)
#[local] Abbreviation len l := (Z.of_nat (length l)).

Inductive change :=
| Keep_ (b : list Z)
| Remove_ (c : ClassConversion) (b : list Z)
| Add_ (c : ClassConversion) (n : nat)
| Convert_ (c : ClassConversion) (b b' : list Z).

Definition old1 (x : change) : list Z := match x with Keep_ b | Remove_ _ b | Convert_ _ b _ => b | Add_ _ _ => [] end.
Definition new1 (x : change) : list Z := match x with Keep_ b | Convert_ _ _ b => b | Remove_ _ _ => [] | Add_ _ n => replicate n 0 end.
(** Once the attributes to remove are removed. *)
Definition mid1 (x : change) : list Z := match x with Remove_ _ _ => [] | x => old1 x end.
Definition old (l : list change) : list Z := l ≫= old1.
Definition new (l : list change) : list Z := l ≫= new1.
Definition mid (l : list change) : list Z := l ≫= mid1.

(** The conversions that the database has for the changes: they give the place of the
    attribute in the old version when it is removed, in the new one otherwise. *)
Definition placed1 (off_o off_n : Z) (x : change) : Prop :=
  match x with
  | Keep_ _ => True
  | Remove_ c b => updtype c = RMV_ATTR /\ offset_n c = off_o /\ size_n c = len b /\ b <> []
  | Add_ c n => updtype c = ADD_ATTR /\ offset_n c = off_n /\ size_n c = Z.of_nat n /\ 0 < Z.of_nat n < 2 ^ 31
  | Convert_ c _ b' => updtype c = CNV_ATTR /\ offset_n c = off_n /\ 0 < len b' < 2 ^ 31
  end.
Fixpoint placed (off_o off_n : Z) (l : list change) : Prop :=
  match l with
  | [] => True
  | x :: l => placed1 off_o off_n x /\ placed (off_o + len (old1 x)) (off_n + len (new1 x)) l
  end.
Definition removal (x : change) : list ClassConversion := match x with Remove_ c _ => [c] | _ => [] end.
Definition other (x : change) : list ClassConversion := match x with Add_ c _ | Convert_ c _ _ => [c] | _ => [] end.
Definition hints (l : list change) : list ClassConversion := l ≫= fun x => removal x ++ other x.
(** Their order: removals from the last attribute to the first, then the others. *)
Definition ordered (l : list change) : list ClassConversion := reverse (l ≫= removal) ++ (l ≫= other).

(** ** The order of the conversions, again *)

Definition key (c : ClassConversion) : Z := match updtype c with RMV_ATTR => - 1 - offset_n c | _ => offset_n c end.

Lemma cmp_key c1 c2 : sortable c1 = true -> sortable c2 = true -> 0 <= offset_n c1 -> 0 <= offset_n c2 ->
  cmp_le c1 c2 <-> key c1 <= key c2.
Proof. intros H1 H2 O1 O2. unfold cmp_le, cmp, sortable, key in *. destruct (updtype c1), (updtype c2); cbn; try done; lia. Qed.

#[local] Instance cmp_le_total : Total cmp_le.
Proof. intros c1 c2. unfold cmp_le, cmp. destruct (updtype c1), (updtype c2); cbn; lia. Qed.

Definition by_key (c1 c2 : ClassConversion) : Prop := key c1 <= key c2.
#[local] Instance by_key_trans : Transitive by_key.
Proof. intros c1 c2 c3. unfold by_key. lia. Qed.

Lemma Sorted_impl_in {A} (R R' : relation A) l : (forall x y, x ∈ l -> y ∈ l -> R x y -> R' x y) -> Sorted R l -> Sorted R' l.
Proof.
  intros HR. induction 1 as [|x l Hs IH Hh]; [constructor|]. constructor.
  - apply IH. intros. apply HR; [by right..|done].
  - destruct Hh as [|y l Hxy]; constructor. apply HR; [by left|by right; left|done].
Qed.

(** A sorted permutation of a list whose keys increase is that list. *)
Lemma sorted_by_key l l' : Sorted by_key l' -> l' ≡ₚ l -> StronglySorted (fun x y => key x < key y) l -> l' = l.
Proof.
  intros Hs Hp Hl. apply (StronglySorted_unique_strong by_key).
  - intros x y Hx Hy Hxy Hyx. rewrite Hp in Hx. apply list_elem_of_lookup in Hx as [i Hi], Hy as [j Hj].
    assert (key x = key y) as E by (unfold by_key in *; lia).
    clear - Hl Hi Hj E. revert i j Hi Hj. induction Hl as [|z l Hl IH Hz]; intros i j Hi Hj; [done|].
    rewrite Forall_forall in Hz. destruct i as [|i], j as [|j]; cbn in Hi, Hj.
    + congruence.
    + injection Hi as ->. apply list_elem_of_lookup_2, Hz in Hj. lia.
    + injection Hj as ->. apply list_elem_of_lookup_2, Hz in Hi. lia.
    + by eapply IH.
  - apply Sorted_StronglySorted; [|done]. apply by_key_trans.
  - clear - Hl. induction Hl as [|z l Hl IH Hz]; constructor; [done|]. eapply Forall_impl; [exact Hz|]. cbn. unfold by_key. lia.
  - done.
Qed.

(** The keys of the removals decrease, from [- 1 - off_o]; those of the others
    increase, from [off_n]. *)
Lemma hints_keys l : forall off_o off_n, placed off_o off_n l -> 0 <= off_o -> 0 <= off_n ->
  StronglySorted (fun x y => key y < key x) (l ≫= removal) /\ Forall (fun c => updtype c = RMV_ATTR /\ off_o <= offset_n c) (l ≫= removal)
  /\ StronglySorted (fun x y => key x < key y) (l ≫= other) /\ Forall (fun c => updtype c <> RMV_ATTR /\ sortable c = true /\ off_n <= offset_n c) (l ≫= other).
Proof.
  induction l as [|x l IH]; intros off_o off_n Hp Ho Hn; cbn; [repeat split; constructor|]. destruct Hp as [H1 Hp].
  assert (forall k, 0 < k -> forall c, offset_n c >= k -> 0 < offset_n c) by lia.
  destruct (IH _ _ Hp ltac:(lia) ltac:(lia)) as (S1 & F1 & S2 & F2). clear IH.
  assert (Forall (fun c => updtype c = RMV_ATTR /\ off_o <= offset_n c) (l ≫= removal)) as F1'
    by (eapply Forall_impl; [exact F1|]; cbn; intros c [? ?]; split; [done|lia]).
  assert (Forall (fun c => updtype c <> RMV_ATTR /\ sortable c = true /\ off_n <= offset_n c) (l ≫= other)) as F2'
    by (eapply Forall_impl; [exact F2|]; cbn; intros c (? & ? & ?); split_and!; [done..|lia]).
  destruct x as [b|c b|c n|c b b']; cbn [removal other app]; try done.
  - destruct H1 as (Hu & Ho' & _ & Hb). cbn [old1] in F1. assert (0 < len b) by (destruct b; [done|cbn; lia]). split_and!; try done.
    + constructor; [done|]. eapply Forall_impl; [exact F1|]. cbn. intros c' [Hu' ?]. unfold key. rewrite Hu, Hu'. lia.
    + constructor; [|done]. split; [done|lia].
  - destruct H1 as (Hu & Hn' & _ & Hb). cbn [new1] in F2. rewrite length_replicate in F2. split_and!; try done.
    + constructor; [done|]. eapply Forall_impl; [exact F2|]. cbn. intros c' (Hu' & _ & ?). unfold key. rewrite Hu. destruct (updtype c'); try done; lia.
    + constructor; [|done]. unfold sortable. rewrite Hu. split_and!; [done..|lia].
  - destruct H1 as (Hu & Hn' & Hb). cbn [new1] in F2. split_and!; try done.
    + constructor; [done|]. eapply Forall_impl; [exact F2|]. cbn. intros c' (Hu' & _ & ?). unfold key. rewrite Hu. destruct (updtype c'); try done; lia.
    + constructor; [|done]. unfold sortable. rewrite Hu. split_and!; [done..|lia].
Qed.

Lemma StronglySorted_app_intro {A} (R : relation A) l1 l2 : StronglySorted R l1 -> StronglySorted R l2 ->
  (forall x y, x ∈ l1 -> y ∈ l2 -> R x y) -> StronglySorted R (l1 ++ l2).
Proof.
  induction 1 as [|x l1 H1 IH Hx]; intros H2 HR; cbn; [done|]. constructor.
  - apply IH; [done|]. intros. apply HR; [by right|done].
  - apply Forall_app. split; [done|]. apply Forall_forall. intros y Hy. apply HR; [by left|done].
Qed.
Lemma StronglySorted_reverse {A} (R : relation A) l : StronglySorted R l -> StronglySorted (fun x y => R y x) (reverse l).
Proof.
  induction 1 as [|x l H1 IH Hx]; [constructor|]. rewrite reverse_cons. apply StronglySorted_app_intro; [done|repeat constructor|].
  intros a b Ha Hb%list_elem_of_singleton. rewrite Forall_forall in Hx. rewrite Hb. rewrite elem_of_reverse in Ha. exact (Hx a Ha).
Qed.

Lemma hints_ordered l : hints l ≡ₚ ordered l.
Proof.
  unfold hints, ordered. rewrite reverse_Permutation. induction l as [|x l IH]; cbn; [done|]. rewrite IH. solve_Permutation.
Qed.

Lemma sort_array_spec p l off : placed off off l -> 0 <= off -> p ≡ₚ hints l -> sort_array p = Some (ordered l).
Proof.
  intros Hpl Hoff Hp. destruct (hints_keys l off off Hpl Hoff Hoff) as (S1 & F1 & S2 & F2).
  assert (Forall (fun c => sortable c = true /\ 0 <= offset_n c) p) as Hg.
  { rewrite Hp, hints_ordered. unfold ordered. rewrite reverse_Permutation. apply Forall_app. split.
    - eapply Forall_impl; [exact F1|]. cbn. intros c [Hu ?]. unfold sortable. rewrite Hu. split; [done|lia].
    - eapply Forall_impl; [exact F2|]. cbn. intros c (_ & ? & ?). split; [done|lia]. }
  unfold sort_array. assert (forallb sortable p = true) as ->.
  { apply forallb_forall. intros c Hc%list_elem_of_In. rewrite Forall_forall in Hg. by apply Hg. }
  rewrite orb_true_r. f_equal. apply sorted_by_key.
  - eapply Sorted_impl_in, Sorted_merge_sort, _. intros x y Hx Hy. rewrite merge_sort_Permutation in Hx, Hy.
    rewrite Forall_forall in Hg. destruct (Hg x Hx), (Hg y Hy). by apply cmp_key.
  - by rewrite merge_sort_Permutation, Hp, hints_ordered.
  - unfold ordered. apply StronglySorted_app_intro; [|done|].
    + apply (StronglySorted_reverse _ _ S1).
    + intros x y Hx Hy. rewrite elem_of_reverse in Hx. rewrite Forall_forall in F1, F2. destruct (F1 x Hx) as [Hu ?], (F2 y Hy) as (Hu' & _ & ?).
      unfold key. rewrite Hu. destruct (updtype y); try done; lia.
Qed.

(** ** One version to the next *)

Section Step.
Variable conv : ClassConversion -> env -> list Z -> Z -> option (Status * env * list Z * Z).
Hypothesis conv_add : forall c e n, updtype c = ADD_ATTR -> size_n c = Z.of_nat n ->
  env_rewrites (conv c) e e (offset_n c) [] (replicate n 0).
Hypothesis conv_rmv : forall c e b, updtype c = RMV_ATTR -> size_n c = len b -> env_rewrites (conv c) e e (offset_n c) b [].

Lemma convert_list_app l l' e buf n e1 buf1 n1 : convert_list conv l e buf n = Some (Success, e1, buf1, n1) ->
  convert_list conv (l ++ l') e buf n = convert_list conv l' e1 buf1 n1.
Proof.
  revert e buf n. induction l as [|c l IH]; intros e buf n E; cbn in *; [by injection E as <- <- <-|].
  destruct (conv c e buf n) as [[[[s e2] buf2] n2]|]; [|done]. cbn in *. destruct s; try done. by apply IH.
Qed.

Lemma mid_le l : (length (mid l) <= length (old l))%nat.
Proof.
  induction l as [|x l IH]; cbn; [done|]. rewrite !length_app. fold (mid l) (old l).
  enough (length (mid1 x) <= length (old1 x))%nat by lia. destruct x; cbn; lia.
Qed.

(** The removals. *)
Lemma removals_spec l : forall h slack e off_n, placed (len h) off_n l -> len (h ++ old l ++ slack) < 2 ^ 31 ->
  exists slack', convert_list conv (reverse (l ≫= removal)) e (h ++ old l ++ slack) (len (h ++ old l))
      = Some (Success, e, h ++ mid l ++ slack', len (h ++ mid l)) /\ len (mid l ++ slack') = len (old l ++ slack).
Proof.
  induction l as [|x l IH]; intros h slack e off_n Hp Hb; [by exists slack|]. destruct Hp as [H1 Hp].
  change (old (x :: l)) with (old1 x ++ old l) in *. change (mid (x :: l)) with (mid1 x ++ mid l) in *.
  change ((x :: l) ≫= removal) with (removal x ++ (l ≫= removal)).
  destruct (IH (h ++ old1 x) slack e (off_n + len (new1 x))) as (s1 & E1 & L1).
  { by rewrite length_app, Nat2Z.inj_add. } { rewrite !length_app in *. lia. }
  rewrite <- !app_assoc in *. rewrite reverse_app. rewrite (convert_list_app _ _ _ _ _ _ _ _ E1).
  destruct x as [b|c b|c n|c b b']; cbn [removal mid1 old1 reverse] in *; try (exists s1; rewrite <- !app_assoc; split; [done|rewrite !length_app in *; lia]).
  destruct H1 as (Hu & Ho & Hs & _). destruct (conv_rmv c e b Hu Hs h (mid l) s1) as (s2 & E2 & L2); [done|cbn; lia| |].
  { rewrite !length_app in *. lia. }
  change (reverse [c]) with [c]. cbn [convert_list]. rewrite E2. cbn. exists s2. cbn [app] in *. split; [done|]. rewrite !length_app in *. cbn in L2. lia.
Qed.

(** What the other conversions do, with the size that is computed for each. *)
Fixpoint effects (e : env) (l : list change) (e' : env) : Prop :=
  match l with
  | [] => e' = e
  | Convert_ c b b' :: l => exists e1, env_rewrites (conv c) e e1 (offset_n c) b b'
      /\ (forall cur, 0 <= cur < 2 ^ 32 -> computeSize1 c cur = Some (u32 (cur + len b' - len b))) /\ effects e1 l e'
  | _ :: l => effects e l e'
  end.

Lemma computeSizes_app l l' cur mx : computeSizes (l ++ l') cur mx = ('(cur, mx) ← computeSizes l cur mx; computeSizes l' cur mx).
Proof. revert cur mx. induction l as [|c l IH]; intros; cbn; [done|]. destruct (computeSize1 c cur); cbn; [apply IH|done]. Qed.

Lemma computeSizes_max l : forall cur mx cur' mx', computeSizes l cur mx = Some (cur', mx') -> mx <= mx'.
Proof.
  induction l as [|c l IH]; intros cur mx cur' mx' E; cbn in E; [injection E as <- <-; lia|].
  destruct (computeSize1 c cur); [|done]. cbn in E. apply IH in E. lia.
Qed.

Lemma removals_size l : forall off_o off_n cur mx, placed off_o off_n l -> len (old l) <= cur < 2 ^ 31 ->
  exists mx', computeSizes (reverse (l ≫= removal)) cur mx = Some (cur - len (old l) + len (mid l), mx').
Proof.
  induction l as [|x l IH]; intros off_o off_n cur mx Hp Hc; [exists mx; cbn; do 2 f_equal; lia|]. destruct Hp as [H1 Hp].
  change (old (x :: l)) with (old1 x ++ old l) in *. change (mid (x :: l)) with (mid1 x ++ mid l) in *.
  change ((x :: l) ≫= removal) with (removal x ++ (l ≫= removal)). rewrite !length_app in *.
  destruct (IH _ _ cur mx Hp ltac:(lia)) as (mx' & E). rewrite reverse_app, computeSizes_app, E. cbn [mbind option_bind].
  destruct x as [b|c b|c n|c b b']; cbn [removal mid1 old1] in *; try (exists mx'; cbn; do 2 f_equal; lia).
  destruct H1 as (Hu & _ & Hs & _). change (reverse [c]) with [c]. cbn [computeSizes]. unfold computeSize1. rewrite Hu. cbn [mbind option_bind].
  pose proof (mid_le l). cbn [length] in *. rewrite Hs, u32_id by lia. eexists. do 2 f_equal. lia.
Qed.

(** The other conversions, in a block that holds every size that is computed, [k]
    bytes being left out of the computation. *)
Lemma others_spec l : forall h slack e e' off_o k mx cur' mx', placed off_o (len h) l -> effects e l e' -> 0 <= k <= len h ->
  computeSizes (l ≫= other) (len (h ++ mid l) - k) mx = Some (cur', mx') -> mx' + k <= len (h ++ mid l ++ slack) ->
  len (h ++ mid l ++ slack) < 2 ^ 31 ->
  exists slack', convert_list conv (l ≫= other) e (h ++ mid l ++ slack) (len (h ++ mid l))
      = Some (Success, e', h ++ new l ++ slack', len (h ++ new l))
    /\ len (new l ++ slack') = len (mid l ++ slack) /\ cur' = len (h ++ new l) - k.
Proof.
  induction l as [|x l IH]; intros h slack e e' off_o k mx cur' mx' Hp He Hk Hs Hcap Hb.
  { cbn in He, Hs. subst e'. injection Hs as <- <-. by exists slack. }
  destruct Hp as [H1 Hp]. change (mid (x :: l)) with (mid1 x ++ mid l) in *. change (new (x :: l)) with (new1 x ++ new l) in *.
  change ((x :: l) ≫= other) with (other x ++ (l ≫= other)) in *.
  (* The place [h] grows by the new bytes of [x], the others being those of [l]. *)
  assert (forall e1 s1 mx1, effects e1 l e' -> computeSizes (l ≫= other) (len ((h ++ new1 x) ++ mid l) - k) mx1 = Some (cur', mx') ->
    len (new1 x) + len s1 = len (mid1 x) + len slack ->
    exists slack', convert_list conv (l ≫= other) e1 (h ++ new1 x ++ mid l ++ s1) (len (h ++ new1 x ++ mid l))
        = Some (Success, e', h ++ (new1 x ++ new l) ++ slack', len (h ++ new1 x ++ new l))
      /\ len ((new1 x ++ new l) ++ slack') = len ((mid1 x ++ mid l) ++ slack) /\ cur' = len (h ++ new1 x ++ new l) - k) as Next.
  { intros e1 s1 mx1 He1 Hs1 HL. destruct (IH (h ++ new1 x) s1 e1 e' (off_o + len (old1 x)) k mx1 cur' mx') as (s2 & E2 & L2 & C2); try done.
    { by rewrite length_app, Nat2Z.inj_add. } { rewrite length_app. lia. } { rewrite !length_app in *. lia. } { rewrite !length_app in *. lia. }
    exists s2. rewrite <- !app_assoc in *. split; [done|]. split; [rewrite !length_app in *; lia|]. done. }
  destruct x as [b|c b|c n|c b b']; cbn [other mid1 old1 new1 app effects] in *.
  - rewrite <- !app_assoc in *. by apply (Next e slack mx).
  - rewrite app_nil_r in Next. by apply (Next e slack mx).
  - destruct H1 as (Hu & Ho & Hn & Hn'). cbn [computeSizes convert_list] in *. unfold computeSize1 in Hs. rewrite Hu, Hn in Hs. cbn [mbind option_bind] in Hs.
    pose proof (computeSizes_max _ _ _ _ _ Hs) as Hm. rewrite u32_id in Hs, Hm by (rewrite !length_app in *; lia).
    destruct (conv_add c e n Hu Hn h (mid l) slack) as (s1 & E1 & L1); [done| |done|].
    { rewrite length_replicate. rewrite !length_app in *. cbn. lia. }
    cbn [app] in E1. rewrite E1. cbn [mbind option_bind]. eapply Next; [done| |done].
    rewrite <- Hs. f_equal. rewrite !length_app, length_replicate. lia.
  - destruct H1 as (Hu & Ho & Hn). destruct He as (e1 & Hc & Hcs & He). cbn [computeSizes convert_list] in *. rewrite Hcs in Hs by (rewrite !length_app in *; lia). cbn [mbind option_bind] in Hs.
    pose proof (computeSizes_max _ _ _ _ _ Hs) as Hm. rewrite u32_id in Hs, Hm by (rewrite !length_app in *; lia).
    rewrite <- !app_assoc in *. destruct (Hc h (mid l) slack) as (s1 & E1 & L1); [done| |done|].
    { rewrite !length_app in *. lia. }
    rewrite E1. cbn [mbind option_bind]. eapply Next; [done| |done].
    rewrite <- Hs. f_equal. rewrite !length_app. lia.
Qed.

Lemma step_spec l h slack e e' k mx cur' mx' : placed (len h) (len h) l -> effects e l e' -> 0 <= k <= len h ->
  computeSizes (ordered l) (len (h ++ old l) - k) mx = Some (cur', mx') -> mx' + k <= len (h ++ old l ++ slack) ->
  len (h ++ old l ++ slack) < 2 ^ 31 ->
  exists slack', convert_list conv (ordered l) e (h ++ old l ++ slack) (len (h ++ old l))
      = Some (Success, e', h ++ new l ++ slack', len (h ++ new l))
    /\ len (new l ++ slack') = len (old l ++ slack) /\ cur' = len (h ++ new l) - k.
Proof.
  intros Hp He Hk Hs Hcap Hb. unfold ordered in *. rewrite computeSizes_app in Hs.
  destruct (removals_size l _ _ (len (h ++ old l) - k) mx Hp) as (mx1 & E1); [rewrite !length_app in *; lia|].
  rewrite E1 in Hs. cbn [mbind option_bind] in Hs. destruct (removals_spec l h slack e _ Hp Hb) as (s1 & E2 & L1).
  rewrite (convert_list_app _ _ _ _ _ _ _ _ E2).
  destruct (others_spec l h s1 e e' (len h) k mx1 cur' mx') as (s2 & E3 & L2 & C2); try done.
  - rewrite <- Hs. f_equal. rewrite !length_app. lia.
  - rewrite !length_app in *. lia.
  - rewrite !length_app in *. lia.
  - exists s2. split; [done|]. split; [lia|done].
Qed.

End Step.

(** ** Conversions of the attributes *)

Definition HEAD : nat := Z.to_nat IDB_OBJ_HEAD_SIZE.
Lemma HEAD_Z : IDB_OBJ_HEAD_SIZE = Z.of_nat HEAD.
Proof. unfold HEAD. rewrite Z2Nat.id; [done|]. unfold IDB_OBJ_HEAD_SIZE, sizeof_oid. lia. Qed.

(** An array of embedded objects. *)
Fixpoint elements (ev : env -> list Z -> env -> list Z -> Prop) (e : env) (olds : list (list Z)) (e' : env) (news : list (list Z)) : Prop :=
  match olds, news with
  | [], [] => e' = e
  | o :: olds, n :: news => exists e1, ev e o e1 n /\ elements ev e1 olds e' news
  | _, _ => False
  end.

(** The numbers of the objects have the byte order [r]. *)
Context {X : Codec.Xdr} (r : byte_order).

(** What the conversion of an attribute makes of its bytes, [ev] being what the
    conversions of a class make of the bytes of an embedded object. *)
Definition converts (ev : list (list ClassConversion) -> env -> list Z -> env -> list Z -> Prop)
    (c : ClassConversion) (e : env) (b : list Z) (e' : env) (b' : list Z) : Prop :=
  exists n m, src_dim c = Z.of_nat n /\ dest_dim c = Z.of_nat m /\ (0 < n)%nat /\ (0 < m)%nat /\
  match cnv_convert (cnvtype c) with
  | CNV_MAKE s d => exists ini data xs, b = ini ++ data /\ length ini = ini_of n /\ length data = (n * sizeof s)%nat
      /\ casts s d (take (n `min` m) (numbers_in r s n data)) = Some xs /\ b' = fixed_image_in r d n m ini xs /\ e' = e
      /\ ((m < n)%nat -> (ini_of n <= ini_of m + m * sizeof d)%nat)
  | CNV_NIL => b' = b /\ e' = e
  | CNV_CLASS => exists cl ctx e0 olds news osize nsize nxsize, getClass_ 1 (roid_o c) true e = Some (Success, cl, Some ctx, e0)
      /\ size_o c = Z.of_nat osize /\ size_n c = Z.of_nat nsize /\ b = mjoin olds /\ length olds = n
      /\ Forall (fun o => length o = osize) olds /\ Forall (fun o => length o = nsize) news
      /\ elements (ev (chain ctx)) e0 (take (n `min` m) olds) e' news
      /\ computeSize (chain ctx) (Z.of_nat osize) = Some nxsize /\ nxsize + IDB_OBJ_HEAD_SIZE < 2 ^ 31
      /\ b' = mjoin news ++ replicate ((m - n) * nsize) 0
  | _ => False
  end.

Fixpoint changes (cv : ClassConversion -> env -> list Z -> env -> list Z -> Prop) (e : env) (l : list change) (e' : env) : Prop :=
  match l with
  | [] => e' = e
  | Convert_ c b b' :: l => exists e1, cv c e b e1 b' /\ changes cv e1 l e'
  | _ :: l => changes cv e l e'
  end.

(** The versions of a class, one after the other, the attributes being from [off] on. *)
Inductive evolves_by (cv : ClassConversion -> env -> list Z -> env -> list Z -> Prop) (off : Z)
  : list (list ClassConversion) -> env -> list Z -> env -> list Z -> Prop :=
| ev_nil e b : evolves_by cv off [] e b e b
| ev_step l ls e e1 e' b' : placed off off l -> changes cv e l e1 -> evolves_by cv off ls e1 (new l) e' b' ->
    evolves_by cv off (ordered l :: ls) e (old l) e' b'.

(** The nesting of embedded objects is less than [depth]. *)
Fixpoint evolves (depth : nat) (off : Z) (ls : list (list ClassConversion)) (e : env) (b : list Z) (e' : env) (b' : list Z) : Prop :=
  match depth with
  | O => False
  | S depth => evolves_by (converts (evolves depth IDB_OBJ_HEAD_SIZE)) off ls e b e' b'
  end.

Section Attributes.
Context `{HL : !HostLaws H} (Hr : convertible_order r).
Variable convert_ : list (list ClassConversion) -> env -> list Z -> Z -> option (Status * env * list Z).

Lemma env_of (conv : list Z -> Z -> option (list Z * Z)) cv e off b b' : rewrites conv off b b' ->
  (forall buf n, cv e buf n = '(buf, n) ← conv buf n; Some (Success, e, buf, n)) -> env_rewrites cv e e off b b'.
Proof.
  intros R E pre post slack Ho Hl Hb. destruct (R pre post slack Ho Hl Hb) as (s' & E' & L). rewrite E, E'. by exists s'.
Qed.

Lemma convert1_add c e n : updtype c = ADD_ATTR -> size_n c = Z.of_nat n ->
  env_rewrites (convert1 convert_ c) e e (offset_n c) [] (replicate n 0).
Proof. intros Hu Hn. eapply env_of; [by apply add_rewrites|]. intros. unfold convert1. by rewrite Hu. Qed.
Lemma convert1_rmv c e b : updtype c = RMV_ATTR -> size_n c = len b ->
  env_rewrites (convert1 convert_ c) e e (offset_n c) b [].
Proof. intros Hu Hn. eapply env_of; [by apply remove_rewrites|]. intros. unfold convert1. by rewrite Hu. Qed.

Lemma set_fs_id e : set_fs (fs e) e = e.
Proof. by destruct e. Qed.

(** One value is an array of one. *)
Lemma one_image d bit x : fixed_image d 1 1 [bit] [x] = bit :: store d x.
Proof. unfold fixed_image, image. cbn. by rewrite !app_nil_r. Qed.

Lemma convert1_basic c e s d n m ini data xs : updtype c = CNV_ATTR -> cnv_convert (cnvtype c) = CNV_MAKE s d ->
  src_dim c = Z.of_nat n -> dest_dim c = Z.of_nat m -> (0 < n)%nat -> (0 < m)%nat -> length ini = ini_of n -> length data = (n * sizeof s)%nat ->
  casts s d (take (n `min` m) (numbers s n data)) = Some xs -> ((m < n)%nat -> (ini_of n <= ini_of m + m * sizeof d)%nat) ->
  env_rewrites (convert1 convert_ c) e e (offset_n c) (ini ++ data) (fixed_image d n m ini xs).
Proof.
  intros Hu Hc En Em Hn Hm Li Ld Ex Hcl. destruct (decide (n = 1 /\ m = 1)%nat) as [[-> ->]|Hne].
  - destruct ini as [|bit [|? ?]]; [done| |done]. cbn in Ld, Ex. rewrite Nat.add_0_r in Ld. rewrite (take_ge data) in Ex by lia.
    destruct (cast s d (load s data)) as [x|] eqn:Ec; [|done]. injection Ex as <-.
    rewrite one_image. eapply env_of; [by apply (one_rewrites s d)|]. intros buf k. unfold convert1, basic_convert. rewrite Hu, Hc, En, Em. cbn.
    destruct (convert_one s d c buf k) as [[? ?]|]; [|done]. cbn. by destruct e.
  - eapply env_of; [by apply (fixed_rewrites s d c n m)|]. intros buf k. unfold convert1, basic_convert. rewrite Hu, Hc, En, Em.
    destruct (Z.eqb_spec (Z.of_nat n) 1), (Z.eqb_spec (Z.of_nat m) 1), (Z.ltb_spec (Z.of_nat n) 0), (Z.ltb_spec (Z.of_nat m) 0); try lia; cbn;
      (destruct (convert_fixed s d c buf k) as [[? ?]|]; [|done]; cbn; by destruct e).
Qed.

Lemma computeSize1_basic c s d n m ini xs data cur : updtype c = CNV_ATTR -> cnv_convert (cnvtype c) = CNV_MAKE s d ->
  src_dim c = Z.of_nat n -> dest_dim c = Z.of_nat m -> (0 < n)%nat -> (0 < m)%nat -> length ini = ini_of n -> length data = (n * sizeof s)%nat ->
  length xs = (n `min` m)%nat ->
  computeSize1 c cur = Some (u32 (cur + len (fixed_image d n m ini xs) - len (ini ++ data))).
Proof.
  intros Hu Hc En Em Hn Hm Li Ld Lx. unfold computeSize1. rewrite Hu, Hc, (fixed_computeSize s d c n m) by done.
  by rewrite fixed_image_length, length_app, Li, Ld.
Qed.

(** *** Embedded objects *)

Lemma computeSize_chain_max ls : forall cur mx n, computeSize_chain ls cur mx = Some n -> mx <= n.
Proof.
  induction ls as [|l ls IH]; intros cur mx n E; cbn in E; [injection E as <-; lia|].
  destruct (computeSizes l cur mx) as [[c1 m1]|] eqn:E1; [|done]. cbn in E. apply IH in E. apply computeSizes_max in E1. lia.
Qed.

Variable ev : list (list ClassConversion) -> env -> list Z -> env -> list Z -> Prop.
(** [convert_] does what [ev] says to an object of its own. *)
Hypothesis convert_object : forall ls e b e' b' h slack nx, ev ls e b e' b' -> length h = HEAD -> computeSize ls (len b) = Some nx ->
  nx + IDB_OBJ_HEAD_SIZE <= len (h ++ b ++ slack) -> len (h ++ b ++ slack) < 2 ^ 31 ->
  exists slack', convert_ ls e (h ++ b ++ slack) (len (h ++ b)) = Some (Success, e', h ++ b' ++ slack')
    /\ len (b' ++ slack') = len (b ++ slack).

Lemma convert_elements_spec ls osize nx olds : forall e e' news pre rest, elements (ev ls) e olds e' news ->
  Forall (fun o => length o = osize) olds -> computeSize ls (Z.of_nat osize) = Some nx -> nx + IDB_OBJ_HEAD_SIZE < 2 ^ 31 ->
  exists ps, convert_elements convert_ ls (Z.of_nat osize) nx (length olds) (len pre) (pre ++ mjoin olds ++ rest) e = Some (Success, e', ps)
    /\ Forall2 (fun p n => exists h t, length h = HEAD /\ p = h ++ n ++ t) ps news.
Proof.
  induction olds as [|o olds IH]; intros e e' news pre rest He Ho Hs Hb; destruct news as [|n news]; try done.
  { cbn in *. subst e'. exists []. by split. }
  destruct He as (e1 & H1 & He). apply Forall_cons in Ho as [Lo Ho]. pose proof (computeSize_chain_max _ _ _ _ Hs) as Hx.
  cbn [convert_elements length]. rewrite Nat2Z.id. change (mjoin (o :: olds)) with (o ++ mjoin olds). rewrite <- app_assoc.
  rewrite fetch_at by done. cbn [mbind option_bind]. pose proof HEAD_Z as HZ. rewrite HZ in *.
  assert (write (Z.of_nat HEAD) o (replicate (Z.to_nat (nx + Z.of_nat HEAD)) 0) = Some (replicate HEAD 0 ++ o ++ replicate (Z.to_nat nx - osize) 0)) as ->.
  { replace (Z.to_nat (nx + Z.of_nat HEAD)) with (HEAD + (osize + (Z.to_nat nx - osize)))%nat by lia. rewrite !replicate_add.
    rewrite <- (length_replicate HEAD 0) at 1. apply write_at. by rewrite length_replicate. }
  cbn [mbind option_bind]. rewrite u32_id by lia.
  destruct (convert_object ls e o e1 n (replicate HEAD 0) (replicate (Z.to_nat nx - osize) 0) nx H1) as (s' & Ec & Lc).
  { apply length_replicate. } { by rewrite Lo. }
  { rewrite !length_app, !length_replicate. lia. } { rewrite !length_app, !length_replicate. lia. }
  replace (Z.of_nat osize + Z.of_nat HEAD) with (len (replicate HEAD 0 ++ o)) by (rewrite length_app, length_replicate; lia).
  rewrite Ec. cbn [mbind option_bind]. replace (len pre + Z.of_nat osize) with (len (pre ++ o)) by (rewrite length_app; lia).
  rewrite (app_assoc pre). destruct (IH e1 e' news (pre ++ o) rest He Ho Hs Hb) as (ps & -> & F). cbn [mbind option_bind].
  eexists. split; [done|]. constructor; [|done]. exists (replicate HEAD 0), s'. split; [apply length_replicate|done].
Qed.

Lemma put_elements_spec nsize ps : forall news pre region rest, Forall2 (fun p n => exists h t, length h = HEAD /\ p = h ++ n ++ t) ps news ->
  Forall (fun o => length o = nsize) news -> length region = (length news * nsize)%nat ->
  put_elements (Z.of_nat nsize) (len pre) ps (pre ++ region ++ rest) = Some (pre ++ mjoin news ++ rest).
Proof.
  induction ps as [|p ps IH]; intros news pre region rest F Hn Lr.
  { apply Forall2_nil_inv_l in F as ->. by destruct region. }
  apply Forall2_cons_inv_l in F as (n & news' & (h & t & Lh & ->) & F & ->). apply Forall_cons in Hn as [Ln Hn]. cbn [length] in Lr.
  cbn [put_elements]. rewrite HEAD_Z, <- Lh, Nat2Z.id, fetch_at by done. cbn [mbind option_bind].
  replace (pre ++ region ++ rest) with (pre ++ take nsize region ++ drop nsize region ++ rest) by (by rewrite (app_assoc (take _ _)), take_drop).
  rewrite write_at by (rewrite length_take; lia). cbn [mbind option_bind].
  replace (len pre + Z.of_nat nsize) with (len (pre ++ n)) by (rewrite length_app; lia).
  rewrite (app_assoc pre), IH with (news := news') by (try done; rewrite length_drop; lia).
  change (mjoin (n :: news')) with (n ++ mjoin news'). by rewrite <- !app_assoc.
Qed.

Lemma mjoin_length {A} (ls : list (list A)) k : Forall (fun o => length o = k) ls -> length (mjoin ls) = (length ls * k)%nat.
Proof. induction 1 as [|l ls Hl _ IH]; [done|]. change (mjoin (l :: ls)) with (l ++ mjoin ls). rewrite length_app, IH, Hl. done. Qed.
Lemma converted_elements_length e olds e' news ls : elements (ev ls) e olds e' news -> length news = length olds.
Proof.
  revert e news. induction olds as [|o olds IH]; intros e [|n news]; cbn; try done. intros (e1 & _ & He). f_equal. by eapply IH.
Qed.

Lemma class_rewrites c e e0 e' ctx cl olds news n m osize nsize nx : getClass_ 1 (roid_o c) true e = Some (Success, cl, Some ctx, e0) ->
  src_dim c = Z.of_nat n -> dest_dim c = Z.of_nat m -> (0 < n)%nat -> (0 < m)%nat -> size_o c = Z.of_nat osize -> size_n c = Z.of_nat nsize ->
  length olds = n -> Forall (fun o => length o = osize) olds -> Forall (fun o => length o = nsize) news ->
  elements (ev (chain ctx)) e0 (take (n `min` m) olds) e' news -> computeSize (chain ctx) (Z.of_nat osize) = Some nx -> nx + IDB_OBJ_HEAD_SIZE < 2 ^ 31 ->
  0 < Z.of_nat nsize < 2 ^ 31 ->
  env_rewrites (CLASS_TO_CLASS_convert convert_ c) e e' (offset_n c) (mjoin olds) (mjoin news ++ replicate ((m - n) * nsize) 0).
Proof.
  intros Hg En Em Hn Hm Eo Enz Ln Fo Fn He Hs Hb Hnz pre post slack Ep Hl Hbuf.
  pose proof (converted_elements_length _ _ _ _ _ He) as LN. rewrite length_take in LN. pose proof (computeSize_chain_max _ _ _ _ Hs) as Hx.
  assert (0 <= IDB_OBJ_HEAD_SIZE) by (rewrite HEAD_Z; lia).
  pose proof (mjoin_length _ _ Fo) as Lo. pose proof (mjoin_length _ _ Fn) as Lnew. rewrite Ln in Lo. rewrite LN, Ln in Lnew.
  assert (length (mjoin news ++ replicate ((m - n) * nsize) 0) = (m * nsize)%nat) as LB.
  { rewrite length_app, length_replicate, Lnew. pose proof (Nat.le_ge_cases n m). nia. }
  rewrite LB in Hl. rewrite !length_app, Lo in *.
  unfold CLASS_TO_CLASS_convert. rewrite Hg. cbn [mbind option_bind]. rewrite En, Em.
  rewrite (proj2 (Z.ltb_lt 0 (Z.of_nat n))), (proj2 (Z.ltb_lt 0 (Z.of_nat m))) by lia. cbn [andb].
  unfold CLASS_TO_CLASS_convert_1. rewrite En, Em, Eo, Enz, <- Ep, (u32_id (Z.of_nat osize)), (u32_id (Z.of_nat nsize)), (u32_id (len pre)), Hs by lia.
  cbn [mbind option_bind]. replace (Z.to_nat (Z.of_nat n `min` Z.of_nat m)) with (length (take (n `min` m) olds)) by (rewrite length_take; lia).
  destruct (convert_elements_spec (chain ctx) osize nx (take (n `min` m) olds) e0 e' news pre (mjoin (drop (n `min` m) olds) ++ post ++ slack) He)
    as (ps & E & F); [by apply Forall_take|done..|].
  replace (mjoin (take (n `min` m) olds) ++ mjoin (drop (n `min` m) olds) ++ post ++ slack) with (mjoin olds ++ post ++ slack) in E
    by (by rewrite (app_assoc (mjoin (take _ _))), <- join_app, take_drop).
  rewrite E. cbn [mbind option_bind]. rewrite !(u32_id (Z.of_nat _ * Z.of_nat _)) by nia. rewrite u32_id by nia.
  replace (Z.of_nat (length pre + (n * osize + length post)) - Z.of_nat n * Z.of_nat osize - len pre) with (len post) by lia.
  rewrite (u32_id (len post)) by lia. replace (Z.of_nat m * Z.of_nat nsize) with (Z.of_nat (m * nsize)) by lia.
  replace (len pre + Z.of_nat n * Z.of_nat osize) with (len pre + len (mjoin olds)) by lia.
  rewrite memmove_tail by (rewrite !length_app; lia). cbn [mbind option_bind].
  set (k := (m * nsize)%nat) in *. set (R := take k _). set (tl := drop _ _).
  assert (length R = k) as LR by (unfold R; rewrite length_take, !length_app; lia).
  assert (length tl = n * osize + length slack - k)%nat as Lt by (unfold tl; rewrite length_drop, !length_app; lia).
  replace (R ++ post ++ tl) with (take (n `min` m * nsize) R ++ drop (n `min` m * nsize) R ++ post ++ tl) by (by rewrite (app_assoc (take _ _)), take_drop).
  rewrite (put_elements_spec nsize ps news) by (try done; rewrite length_take, LN; nia). cbn [mbind option_bind].
  exists tl. assert (length (drop (n `min` m * nsize) R) = (m - n) * nsize)%nat as LD by (rewrite length_drop; pose proof (Nat.le_ge_cases n m); nia).
  split; [|lia]. rewrite <- app_assoc. destruct (Z.ltb_spec (Z.of_nat n) (Z.of_nat m)).
  - replace (len pre + Z.of_nat n `min` Z.of_nat m * Z.of_nat nsize) with (len (pre ++ mjoin news)) by (rewrite length_app, Lnew; lia).
    rewrite (app_assoc pre), memset_at by nia. cbn [mbind option_bind]. rewrite LD, <- app_assoc. do 2 f_equal. unfold k. rewrite ?length_app, ?length_replicate, ?Lnew. nia.
  - replace (m - n)%nat with 0%nat in * by lia. destruct (drop _ R); [|done]. cbn [mbind option_bind replicate app Nat.mul].
    do 2 f_equal. unfold k. rewrite ?length_app, ?length_replicate, ?Lnew. nia.
Qed.

Lemma converts_rewrites c e b e' b' : updtype c = CNV_ATTR -> 0 < len b' < 2 ^ 31 -> converts ev c e b e' b' ->
  env_rewrites (convert1 convert_ c) e e' (offset_n c) b b'.
Proof.
  intros Hu Hb' (n & m & En & Em & Hn & Hm & Hc). destruct (cnv_convert (cnvtype c)) as [s d|s| | | |] eqn:Ec; try done.
  - destruct Hc as (ini & data & xs & -> & Li & Ld & Ex & -> & -> & Hcl).
    rewrite numbers_in_ok in Ex by exact Hr. rewrite fixed_image_in_ok by exact Hr. by apply (convert1_basic c e s d).
  - destruct Hc as (cl & ctx & e0 & olds & news & osize & nsize & nx & Hg & Eo & Enz & -> & Ln & Fo & Fn & He & Hs & Hb & ->).
    assert (0 < Z.of_nat nsize < 2 ^ 31) as Hnz.
    { pose proof (mjoin_length _ _ Fn) as L. pose proof (converted_elements_length _ _ _ _ _ He) as LN. rewrite length_take in LN.
      rewrite length_app, length_replicate, L, LN, Ln in Hb'. pose proof (Nat.le_ge_cases n m). nia. }
    pose proof (class_rewrites c e e0 e' ctx cl olds news n m osize nsize nx Hg En Em Hn Hm Eo Enz Ln Fo Fn He Hs Hb Hnz) as R.
    intros pre post slack Hp Hl Hbuf. unfold convert1. rewrite Hu, Ec. by apply R.
  - destruct Hc as [-> ->]. intros pre post slack Hp Hl Hbuf. unfold convert1. rewrite Hu, Ec. by exists slack.
Qed.

Lemma converts_size c e b e' b' cur : updtype c = CNV_ATTR -> converts ev c e b e' b' -> 0 <= cur < 2 ^ 32 ->
  computeSize1 c cur = Some (u32 (cur + len b' - len b)).
Proof.
  intros Hu (n & m & En & Em & Hn & Hm & Hc) Hcur. destruct (cnv_convert (cnvtype c)) as [s d|s| | | |] eqn:Ec; try done.
  - destruct Hc as (ini & data & xs & -> & Li & Ld & Ex & -> & -> & Hcl).
    rewrite numbers_in_ok in Ex by exact Hr. rewrite fixed_image_in_ok by exact Hr. apply (computeSize1_basic c s d n m); try done.
    apply casts_length in Ex. rewrite Ex, length_take, numbers_length. lia.
  - destruct Hc as (cl & ctx & e0 & olds & news & osize & nsize & nx & Hg & Eo & Enz & -> & Ln & Fo & Fn & He & Hs & Hb & ->).
    pose proof (converted_elements_length _ _ _ _ _ He) as LN. rewrite length_take in LN.
    unfold computeSize1, class_computeSize. rewrite Hu, Ec, En, Em, Eo, Enz.
    rewrite (proj2 (Z.ltb_lt 0 (Z.of_nat n))), (proj2 (Z.ltb_lt 0 (Z.of_nat m))) by lia. cbn [andb].
    rewrite length_app, length_replicate, (mjoin_length _ _ Fn), (mjoin_length _ _ Fo), LN, Ln. do 2 f_equal.
    pose proof (Nat.le_ge_cases n m). nia.
  - destruct Hc as [-> ->]. unfold computeSize1. rewrite Hu, Ec. f_equal. rewrite u32_id; lia.
Qed.
End Attributes.

Section Chain.
Context `{HL : !HostLaws H} (Hr : convertible_order r).
Variable convert_ : list (list ClassConversion) -> env -> list Z -> Z -> option (Status * env * list Z).
Variable ev : list (list ClassConversion) -> env -> list Z -> env -> list Z -> Prop.
Hypothesis convert_object : forall ls e b e' b' h slack nx, ev ls e b e' b' -> length h = HEAD -> computeSize ls (len b) = Some nx ->
  nx + IDB_OBJ_HEAD_SIZE <= len (h ++ b ++ slack) -> len (h ++ b ++ slack) < 2 ^ 31 ->
  exists slack', convert_ ls e (h ++ b ++ slack) (len (h ++ b)) = Some (Success, e', h ++ b' ++ slack')
    /\ len (b' ++ slack') = len (b ++ slack).

Lemma changes_effects l : forall e e' off_o off_n, placed off_o off_n l -> changes (converts ev) e l e' -> effects (convert1 convert_) e l e'.
Proof.
  induction l as [|x l IH]; intros e e' off_o off_n Hp Hc; [done|]. destruct Hp as [H1 Hp].
  destruct x as [b|c b|c n|c b b']; cbn [changes effects] in *; try by eapply IH.
  destruct Hc as (e1 & Hc & Hl). destruct H1 as (Hu & Ho & Hb). exists e1. split; [|split; [|by eapply IH]].
  - by apply (converts_rewrites Hr convert_ ev convert_object).
  - intros cur Hcur. by apply (converts_size Hr ev c e b e1 b').
Qed.

Lemma chain_spec ls : forall h slack e b e' b' k cur mx nx, evolves_by (converts ev) (len h) ls e b e' b' -> 0 <= k <= len h -> cur = len (h ++ b) - k ->
  computeSize_chain ls cur mx = Some nx -> nx + k <= len (h ++ b ++ slack) -> len (h ++ b ++ slack) < 2 ^ 31 ->
  exists slack', convert_chain (convert1 convert_) ls e (h ++ b ++ slack) (len (h ++ b)) = Some (Success, e', h ++ b' ++ slack')
    /\ len (b' ++ slack') = len (b ++ slack).
Proof.
  induction ls as [|hs ls IH]; intros h slack e b e' b' k cur mx nx Hev Hk -> Hs Hcap Hb; inversion Hev; subst; [by exists slack|].
  cbn [computeSize_chain convert_chain] in *. destruct (computeSizes _ _ _) as [[c1 m1]|] eqn:E1 in Hs; [|done]. cbn [mbind option_bind] in Hs.
  pose proof (computeSize_chain_max _ _ _ _ Hs).
  destruct (step_spec (convert1 convert_) (convert1_add convert_) (convert1_rmv convert_) l h slack e e1 k mx c1 m1) as (s1 & -> & L1 & ->); try done.
  { by eapply changes_effects. } { lia. }
  cbn [mbind option_bind].
  assert (len (h ++ new l ++ s1) = len (h ++ old l ++ slack)) as L by (rewrite !length_app in *; lia).
  destruct (IH h s1 e1 (new l) e' b' k (len (h ++ new l) - k) m1 nx) as (s2 & E2 & L2); [done|done|reflexivity|exact Hs|lia|lia|].
  exists s2. split; [done|lia].
Qed.
End Chain.

(** An object, with the nesting of its embedded objects. *)
Lemma convert_spec `{!HostLaws H} (Hr : convertible_order r) depth : forall ls e b e' b' h slack k nx, evolves depth (len h) ls e b e' b' -> 0 <= k <= len h ->
  computeSize ls (len (h ++ b) - k) = Some nx -> nx + k <= len (h ++ b ++ slack) -> len (h ++ b ++ slack) < 2 ^ 31 ->
  exists slack', convert depth ls e (h ++ b ++ slack) (len (h ++ b)) = Some (Success, e', h ++ b' ++ slack')
    /\ len (b' ++ slack') = len (b ++ slack).
Proof.
  induction depth as [|depth IH]; intros ls e b e' b' h slack k nx Hev Hk Hs Hcap Hb; [done|]. cbn [evolves convert] in *.
  eapply (chain_spec Hr); [|done|done|reflexivity|exact Hs|done|done]. clear - IH. intros ls e b e' b' h slack nx Hev Lh Hs Hcap Hb.
  assert (IDB_OBJ_HEAD_SIZE = len h) as EH by (rewrite HEAD_Z; lia). rewrite EH in *.
  apply (IH ls e b e' b' h slack (len h) nx); [done|lia| |done|done]. rewrite <- Hs. f_equal. rewrite length_app. lia.
Qed.

(** ** The versions of a class in the database *)

(** The conversions that lead from the class [o] to the class [cls] of the schema. *)
Inductive resolves : Oid -> Oid -> list (list ClassConversion) -> Prop :=
| resolves_last o p l c : query o = inr p -> p <> [] -> sort_array p = Some l -> head l = Some c -> getClass (oid_n c) = true ->
    resolves o (oid_n c) [l]
| resolves_next o p l c cls ls : query o = inr p -> p <> [] -> sort_array p = Some l -> head l = Some c -> getClass (oid_n c) = false ->
    resolves (oid_n c) cls ls -> resolves o cls (l :: ls).

(** The contexts of the cache that have a class are those of the database. *)
Definition coherent (e : env) : Prop :=
  forall o cls l nx, conv_cache e !! o = Some (mk_Context (Some cls) l nx) -> resolves o cls (chain (mk_Context (Some cls) l nx)).

Lemma resolves_unique o cls ls cls' ls' : resolves o cls ls -> resolves o cls' ls' -> cls' = cls /\ ls' = ls.
Proof.
  intros R. revert cls' ls'. induction R as [o p l c Hq Hp Hs Hc Hg|o p l c cls ls Hq Hp Hs Hc Hg R IH]; intros cls' ls' R'; 
    inversion R' as [o' p' l' c' Hq' Hp' Hs' Hc' Hg'|o' p' l' c' cls2 ls2 Hq' Hp' Hs' Hc' Hg' R2]; subst;
    rewrite Hq in Hq'; injection Hq' as <-; rewrite Hs in Hs'; injection Hs' as <-; rewrite Hc in Hc'; injection Hc' as <-;
    try (split; congruence). by destruct (IH _ _ R2) as [-> ->].
Qed.

Lemma coherent_insert e o cls l nx : coherent e -> (forall c, cls = Some c -> resolves o c (chain (mk_Context cls l nx))) ->
  coherent (set_cache (<[o := mk_Context cls l nx]> (conv_cache e)) e).
Proof.
  intros He Hn o' cls' l' nx'. cbn. intros [[-> E] | [_ E]]%lookup_insert_Some; [|by apply He].
  injection E as -> -> ->. by apply Hn.
Qed.

Lemma getClass_spec o cls ls : resolves o cls ls -> forall fuel e, coherent e -> (length ls <= fuel)%nat ->
  exists ctx e', getClass_ fuel o false e = Some (Success, Some cls, Some ctx, e') /\ chain ctx = ls /\ fs e' = fs e /\ coherent e'.
Proof.
  induction 1 as [o p l c Hq Hp Hs Hc Hg|o p l c cls ls Hq Hp Hs Hc Hg R IH]; intros [|fuel] e He Hf; cbn in Hf; try lia; cbn [getClass_].
  - assert (resolves o (oid_n c) [l]) as R0 by by eapply resolves_last.
    destruct (conv_cache e !! o) as [[[cls'|] l' nx']|] eqn:Ec; [destruct (resolves_unique _ _ _ _ _ R0 (He _ _ _ _ Ec)) as [-> E]; eexists _, e; split; [done|]; split; [exact E|done]| |];
      rewrite Hq; destruct p as [|c0 p]; try done; rewrite Hs; cbn [mbind option_bind]; rewrite Hc; cbn [mbind option_bind]; rewrite Hg; cbn;
      eexists _, _; (split; [done|]); (split; [done|]); (split; [done|]); [done|].
    apply coherent_insert; [by apply coherent_insert|]. intros ? [= <-]. done.
  - assert (resolves o cls (l :: ls)) as R0 by by eapply resolves_next.
    destruct (conv_cache e !! o) as [[[cls'|] l' nx']|] eqn:Ec; [destruct (resolves_unique _ _ _ _ _ R0 (He _ _ _ _ Ec)) as [-> E]; eexists _, e; split; [done|]; split; [exact E|done]| |];
      rewrite Hq; destruct p as [|c0 p]; try done; rewrite Hs; cbn [mbind option_bind]; rewrite Hc; cbn [mbind option_bind]; rewrite Hg; cbn.
    + destruct (IH fuel e He ltac:(lia)) as (ctx & e1 & -> & <- & Hfs & He1). cbn. eexists _, _. split; [done|]. by split.
    + destruct (IH fuel (set_cache (<[o := mk_Context None l None]> (conv_cache e)) e)) as (ctx & e1 & -> & <- & Hfs & He1); [by apply coherent_insert|lia|].
      cbn. eexists _, _. split; [done|]. split; [done|]. split; [done|]. apply coherent_insert; [done|]. intros ? [= <-]. done.
Qed.

(** The changes from a class to its next versions: the database has their conversions,
    in any order. *)
Definition describes (o n : Oid) (l : list change) : Prop :=
  exists p off, placed off off l /\ 0 <= off /\ query o = inr p /\ p <> [] /\ p ≡ₚ hints l /\ Forall (fun c => oid_n c = n) p.
Fixpoint versions (o cls : Oid) (ls : list (list change)) : Prop :=
  match ls with
  | [] => False
  | [l] => describes o cls l /\ getClass cls = true
  | l :: ls => exists n, describes o n l /\ getClass n = false /\ versions n cls ls
  end.

Lemma describes_head o n l : describes o n l -> exists p c, query o = inr p /\ p <> [] /\ sort_array p = Some (ordered l) /\ head (ordered l) = Some c /\ oid_n c = n.
Proof.
  intros (p & off & Hpl & Hoff & Hq & Hp & HP & Hn). pose proof (sort_array_spec p l off Hpl Hoff HP) as Hs.
  rewrite hints_ordered in HP. rewrite HP in Hn. destruct (ordered l) as [|c rest] eqn:E.
  { by apply Permutation_nil_r in HP. }
  exists p, c. by apply Forall_cons in Hn as [Hn _].
Qed.

Lemma versions_resolves ls : forall o cls, versions o cls ls -> resolves o cls (map ordered ls).
Proof.
  induction ls as [|l ls IH]; intros o cls Hv; [done|]. destruct ls as [|l2 ls].
  - destruct Hv as [Hd Hg]. destruct (describes_head _ _ _ Hd) as (p & c & Hq & Hp & Hs & Hc & <-). by eapply resolves_last.
  - destruct Hv as (n & Hd & Hg & Hv). destruct (describes_head _ _ _ Hd) as (p & c & Hq & Hp & Hs & Hc & <-).
    eapply resolves_next; [done..|]. by apply IH.
Qed.

(** ** Properties *)

(** C16: the class of an object that has evolved is found: whatever the order in
    which the database gives the conversions of each version, the context has those
    of every version up to the class of the schema, sorted (the removals from the
    last attribute to the first, then the other changes from the first to the last),
    and the cache keeps telling what the database does. *)
Theorem class_found ls o cls fuel e : versions o cls ls -> coherent e -> (length ls <= fuel)%nat ->
  exists ctx e', getClass_ fuel o false e = Some (Success, Some cls, Some ctx, e')
    /\ chain ctx = map ordered ls /\ fs e' = fs e /\ coherent e'.
Proof. intros Hv He Hf. apply getClass_spec; [by apply versions_resolves|done|by rewrite length_map]. Qed.

(** C7: an object is converted: for any changes from one version of its class to the
    next (attributes kept, removed, added with null values and converted, and embedded
    objects converted in the same way up to the depth [depth]), a block that has the
    size computed by computeSize is enough, and the bytes of the object in the first
    version become those of the last one, after the same header. The conversions are
    those of [converts]: between basic classes of fixed dimensions, no array being
    shrunk to less than its old null bits, and by the conversions that getClass_ finds
    for an embedded class, which have to give it its new size; no strings and no
    variable dimensions. The numbers have the byte order of the machine, which is the
    one in which the database stores them ([Exchange]) only if that machine has the
    order of the exchange format. *)
Theorem object_converted `{!HostLaws H} depth ls e b e' b' h slack nx : convertible_order r ->
  evolves depth (Z.of_nat (length h)) ls e b e' b' -> computeSize ls (Z.of_nat (length (h ++ b))) = Some nx ->
  nx <= Z.of_nat (length (h ++ b ++ slack)) < 2 ^ 31 ->
  exists slack', convert depth ls e (h ++ b ++ slack) (Z.of_nat (length (h ++ b))) = Some (Success, e', h ++ b' ++ slack')
    /\ length (b' ++ slack') = length (b ++ slack).
Proof.
  intros Hr Hev Hs [Hn Hb]. destruct (convert_spec Hr depth ls e b e' b' h slack 0 nx Hev) as (s' & E & L); [lia|by rewrite Z.sub_0_r|lia|done|].
  exists s'. split; [done|lia].
Qed.

End Evolution.

(** ** Examples *)

Module Example.
Import ArgCodec.BigEndianHost AttrConvert.Stored.
#[local] Existing Instance Codec.BigEndian.big_endian.
Definition files : Type := AttrConvert.Example.files.

#[export] Instance Oid_eq : EqDecision Oid.
Proof. unfold Oid. cbn. unfold Codec.BigEndian.oid8. apply _. Defined.
#[export] Instance Oid_countable : Countable Oid.
Proof. unfold Oid. cbn. unfold Codec.BigEndian.oid8. apply _. Defined.

Definition oid_a : Oid := Codec.BigEndian.oid_a.
Definition oid_b : Oid := Codec.BigEndian.oid_b.

(** class A { short a; char b[2]; char c; } becomes class A { long a; char b[2]; char d[24]; }. *)
Definition cnv_a := mk_ClassConversion CNV_ATTR INT16_TO_INT32 oid_b oid_a 1 1 48 2 4.
Definition rmv_c := mk_ClassConversion RMV_ATTR NIL_CNV oid_b oid_a 1 1 54 2 2.
Definition add_d := mk_ClassConversion ADD_ATTR NIL_CNV oid_b oid_a 1 24 56 0 27.
Definition evolution : list change :=
  [Convert_ cnv_a [128; 0; 5] [128; 0; 0; 0; 5]; Keep_ [192; 65; 66]; Remove_ rmv_c [128; 67]; Add_ add_d 27].
Definition query (o : Oid) : Status + list ClassConversion := if decide (o = oid_a) then inr [add_d; cnv_a; rmv_c] else inr [].
Definition getClass (o : Oid) : bool := bool_decide (o = oid_b).
Definition empty : env files := mk_env files [] ∅.

Lemma class_found_witness : exists ctx e',
  getClass_ files getClass query 1 oid_a false empty = Some (Success, Some oid_b, Some ctx, e')
    /\ chain ctx = map ordered [evolution] /\ fs files e' = [] /\ coherent files getClass query e'.
Proof.
  apply (class_found files getClass query [evolution] oid_a oid_b 1 empty).
  - split; [|reflexivity]. exists [add_d; cnv_a; rmv_c], 48. split; [cbn; repeat split; lia || done|].
    split; [lia|]. split; [reflexivity|]. split; [done|]. split; [unfold hints; cbn; solve_Permutation|]. repeat constructor.
  - intros o cls l nx E. unfold empty in E. cbn [conv_cache] in E. by rewrite lookup_empty in E.
  - cbn. lia.
Defined.
Definition header : list Z := replicate 48 1.
Abbreviation run := (convert files objectRead objectCreate objectSizeModify objectWrite true nullOid getClass query).
Abbreviation evolution_of := (evolves files getClass query Exchange).

Lemma evolution_evolves : evolution_of 1 48 [ordered evolution] empty [128; 0; 5; 192; 65; 66; 128; 67] empty ([128; 0; 0; 0; 5; 192; 65; 66] ++ replicate 27 0).
Proof.
  cbn [evolves]. change [128; 0; 5; 192; 65; 66; 128; 67] with (old evolution).
  eapply ev_step; [cbn; repeat split; lia || done| |constructor].
  exists empty. split; [|done]. exists 1%nat, 1%nat. repeat (split; [reflexivity || lia|]). cbn [cnv_a cnvtype cnv_convert].
  exists [128], [0; 5], [5]. repeat (split; [reflexivity|]). lia.
Qed.
Lemma object_converted_witness : exists slack',
  run 1 [ordered evolution] empty (header ++ [128; 0; 5; 192; 65; 66; 128; 67] ++ replicate 29 0) 56
    = Some (Success, empty, header ++ ([128; 0; 0; 0; 5; 192; 65; 66] ++ replicate 27 0) ++ slack')
  /\ length (([128; 0; 0; 0; 5; 192; 65; 66] ++ replicate 27 0) ++ slack') = 37%nat.
Proof.
  apply (object_converted files objectRead objectCreate objectSizeModify objectWrite true nullOid getClass query Exchange 1 [ordered evolution] empty
    [128; 0; 5; 192; 65; 66; 128; 67] empty ([128; 0; 0; 0; 5; 192; 65; 66] ++ replicate 27 0) header (replicate 29 0) 83);
    [intros _; apply big_endian_order|apply evolution_evolves|reflexivity|split; [vm_compute; done|reflexivity]].
Defined.

(** class B { A x; char y; }, whose conversion is that of A in place; here A has two
    new versions, and the database has the classes of B that use each. When the
    objects of A have been converted before, the context of A in the cache goes to its
    last version: the first conversion of B already does the work of the second. *)
Definition oid_c : Oid := (("c", "0", "0", "0"), ("0", "0", "0", "0"))%char.
Definition oid_x : Oid := (("x", "0", "0", "0"), ("0", "0", "0", "0"))%char.
Definition oid_y : Oid := (("y", "0", "0", "0"), ("0", "0", "0", "0"))%char.
Definition oid_z : Oid := (("z", "0", "0", "0"), ("0", "0", "0", "0"))%char.
Definition add_1 := mk_ClassConversion ADD_ATTR NIL_CNV oid_b oid_a 1 1 48 0 2.
Definition add_2 := mk_ClassConversion ADD_ATTR NIL_CNV oid_c oid_b 1 1 50 0 2.
Definition cnv_1 := mk_ClassConversion CNV_ATTR CLASS_TO_CLASS oid_y oid_a 1 1 48 3 5.
Definition cnv_2 := mk_ClassConversion CNV_ATTR CLASS_TO_CLASS oid_z oid_b 1 1 48 5 7.
Definition query2 (o : Oid) : Status + list ClassConversion :=
  if decide (o = oid_a) then inr [add_1] else if decide (o = oid_b) then inr [add_2]
  else if decide (o = oid_x) then inr [cnv_1] else if decide (o = oid_y) then inr [cnv_2] else inr [].
Definition getClass2 (o : Oid) : bool := bool_decide (o = oid_c) || bool_decide (o = oid_z).
(** The bytes of an object of B, converted after the class of it is found, with and
    without a conversion of an object of A before. *)
Definition load_B (warm : bool) : option (list Z) :=
  '(_, _, _, e) ← (if warm then getClass_ files getClass2 query2 2 oid_a false empty else Some (Success, None, None, empty));
  '(_, _, ctx, e) ← getClass_ files getClass2 query2 2 oid_x false e;
  ctx ← ctx;
  n ← computeSize (chain ctx) 52;
  '(_, _, buf) ← convert files objectRead objectCreate objectSizeModify objectWrite true nullOid getClass2 query2 3 (chain ctx) e
    (header ++ [128; 0; 5; 192] ++ replicate (Z.to_nat (n - 52)) 0) 52;
  Some (drop 48 buf).
Example cold_cache : load_B false = Some [0; 0; 0; 0; 128; 0; 5; 192].
Proof. vm_compute. reflexivity. Qed.
(** The value 5 is lost. *)
Example warm_cache : load_B true = Some [0; 0; 0; 0; 0; 0; 128; 192].
Proof. vm_compute. reflexivity. Qed.
End Example.
