(* ===== verification/ObjCache.v ===== *)
(** * The object cache

    src/eyedb/ObjCache.cc: the cache of the objects a transaction or a session
    has in memory, a hash table from oids to counted pointers that doubles when
    it is loaded. A pointer is a number, 0 when null; [None] is a failed
    assertion, an access out of the array of links or an exhausted fuel. *)

From S2P Require Import Prelude Oid.

#[local] Set Warnings "-register-all".

Definition COEF : Z := 50.
Definition RESCALE_COEF : Z := 2.
Definition MAX_LINKS_CNT : Z := 16384.

Section ObjCache.
Context {Oid : Type} `{OI : Oids Oid}.

(** [next] is the rest of the chain. *)
Record ObjCacheLink := mk_link { oid : Oid; o : Z; tstamp : Z; refcnt : Z }.

Record ObjCache := mk_cache {
  key : Z; links_cnt : Z; links : list (list ObjCacheLink);
  obj_cnt : Z; cache_tstamp : Z; rescaling : bool }.

Implicit Types (c : ObjCache) (l : ObjCacheLink).

Definition new_link (id : Oid) (p ts : Z) : ObjCacheLink := mk_link id p ts 1.

Definition new_ObjCache (n : Z) : ObjCache :=
  let key := u32 (n - 1) in
  let links_cnt := u32 (key + 1) in
  mk_cache key links_cnt (replicate (Z.to_nat links_cnt) []) 0 0 false.

Definition getIndex c (id : Oid) : Z := Z.land (getNX id) (key c).

Definition chain c (id : Oid) : option (list ObjCacheLink) := links c !! Z.to_nat (getIndex c id).
Definition set_chain c (id : Oid) (b : list ObjCacheLink) : ObjCache :=
  mk_cache (key c) (links_cnt c) (<[Z.to_nat (getIndex c id) := b]> (links c))
    (obj_cnt c) (cache_tstamp c) (rescaling c).
Definition set_obj_cnt c n : ObjCache :=
  mk_cache (key c) (links_cnt c) (links c) n (cache_tstamp c) (rescaling c).
Definition set_rescaling c b : ObjCache :=
  mk_cache (key c) (links_cnt c) (links c) (obj_cnt c) (cache_tstamp c) b.

(** The loop of getObject, [link->refcnt++] included. *)
Fixpoint scan_get (id : Oid) (incr : bool) (b : list ObjCacheLink) : list ObjCacheLink * Z :=
  match b with
  | [] => ([], 0)
  | l :: b =>
      if compare id (oid l) then
        ((if incr then mk_link (oid l) (o l) (tstamp l) (u32 (refcnt l + 1)) else l) :: b, o l)
      else let '(b, p) := scan_get id incr b in (l :: b, p)
  end.

Definition getObject c (id : Oid) (incr : bool) : option (ObjCache * Z) :=
  b ← chain c id;
  let '(b, p) := scan_get id incr b in
  Some (set_chain c id b, p).

(** The loop of deleteObject: the chain and, when the oid is there, whether the
    link was deleted. *)
Fixpoint scan_delete (id : Oid) (force : bool) (b : list ObjCacheLink) :
    option (list ObjCacheLink * option bool) :=
  match b with
  | [] => Some ([], None)
  | l :: b =>
      if compare id (oid l) then
        if 0 <? refcnt l then
          let l' := mk_link (oid l) (o l) (tstamp l) (refcnt l - 1) in
          if negb force && (0 <? refcnt l') then Some (l' :: b, Some false)
          else Some (b, Some true)
        else None
      else '(b, r) ← scan_delete id force b; Some (l :: b, r)
  end.

Definition deleteObject c (id : Oid) (force : bool) : option (ObjCache * bool) :=
  b ← chain c id;
  '(b, r) ← scan_delete id force b;
  let c := set_chain c id b in
  match r with
  | None => Some (c, false)
  | Some false => Some (c, true)
  | Some true => Some (set_obj_cnt c (u32 (obj_cnt c - 1)), true)
  end.

(** The chains of rescale: each link is inserted in the new cache. *)
Fixpoint reinsert (insert : ObjCache -> Oid -> Z -> Z -> option (ObjCache * bool))
    (ls : list ObjCacheLink) (obj_cache : ObjCache) : option ObjCache :=
  match ls with
  | [] => Some obj_cache
  | l :: ls =>
      '(obj_cache, _) ← insert obj_cache (oid l) (o l) (refcnt l);
      reinsert insert ls obj_cache
  end.
Fixpoint reinsert_all (insert : ObjCache -> Oid -> Z -> Z -> option (ObjCache * bool))
    (bs : list (list ObjCacheLink)) (obj_cache : ObjCache) : option ObjCache :=
  match bs with
  | [] => Some obj_cache
  | b :: bs => obj_cache ← reinsert insert b obj_cache; reinsert_all insert bs obj_cache
  end.

Definition rescale (insert : ObjCache -> Oid -> Z -> Z -> option (ObjCache * bool)) c : option ObjCache :=
  if rescaling c then Some c
  else
    obj_cache ← reinsert_all insert (links c) (new_ObjCache (u32 (links_cnt c * RESCALE_COEF)));
    Some (mk_cache (key obj_cache) (links_cnt obj_cache) (links obj_cache)
            (obj_cnt obj_cache) (cache_tstamp obj_cache) false).

(** [fuel] bounds the nesting of rescale. *)
Fixpoint insertObject (fuel : nat) c (id : Oid) (p refcnt_ : Z) : option (ObjCache * bool) :=
  match fuel with
  | O => None
  | S fuel =>
      '(c, found) ← if refcnt_ =? 0 then '(c, q) ← getObject c id false; Some (c, negb (q =? 0))
                    else Some (c, false);
      if found : bool then Some (c, false)
      else
        c ← if (links_cnt c <? MAX_LINKS_CNT) && (u32 (COEF * links_cnt c) <? obj_cnt c)
            then rescale (insertObject fuel) c
            else Some c;
        let ts := u32 (cache_tstamp c + 1) in
        let ol := new_link id p ts in
        let ol := if refcnt_ =? 0 then ol else mk_link id p ts refcnt_ in
        link ← chain c id;
        let c := set_chain c id (ol :: link) in
        Some (mk_cache (key c) (links_cnt c) (links c) (u32 (obj_cnt c + 1)) ts (rescaling c), true)
  end.

Definition getObjects c : list Z := o <$> concat (links c).

Definition empty c : ObjCache :=
  mk_cache (key c) (links_cnt c) (replicate (length (links c)) []) 0 0 (rescaling c).

Definition getObjectCount c : Z := obj_cnt c.

(** ** The map a cache holds *)

Definition entry l : Oid * (Z * Z) := (oid l, (o l, refcnt l)).

Record represents c (m : gmap Oid (Z * Z)) : Prop := {
  rep_entries : entry <$> concat (links c) ≡ₚ map_to_list m;
  rep_index i b l : links c !! i = Some b -> l ∈ b -> Z.to_nat (getIndex c (oid l)) = i;
  rep_length : Z.of_nat (length (links c)) = links_cnt c;
  rep_key : key c = links_cnt c - 1;
  rep_cnt : obj_cnt c = Z.of_nat (size m);
  rep_links : 0 < links_cnt c < 2 ^ 32;
  rep_values id p r : m !! id = Some (p, r) -> p <> 0 /\ 0 < r < 2 ^ 32;
  rep_idle : rescaling c = false
}.

(** At most [COEF] objects by chain on average, and the one that makes the cache
    grow, until the cache has [MAX_LINKS_CNT] chains. *)
Definition loaded c : Prop := obj_cnt c <= COEF * links_cnt c + 1 \/ MAX_LINKS_CNT <= links_cnt c.

Lemma new_cache_represents n : 0 < n < 2 ^ 32 -> represents (new_ObjCache n) ∅ /\ loaded (new_ObjCache n).
Proof.
  intros Hn. unfold new_ObjCache, loaded. rewrite (u32_id (n - 1)) by lia.
  replace (n - 1 + 1) with n by lia. rewrite u32_id by lia.
  split; [|left; unfold COEF; cbn; lia]. split; cbn [links links_cnt key obj_cnt rescaling].
  - rewrite map_to_list_empty. by induction (Z.to_nat n).
  - intros i b l Hb Hl. apply lookup_replicate in Hb as [-> _]. by apply not_elem_of_nil in Hl.
  - rewrite length_replicate. lia.
  - done.
  - by rewrite map_size_empty.
  - lia.
  - intros id p r Hm. by rewrite lookup_empty in Hm.
  - done.
Qed.

Lemma land_bound a k : 0 <= k -> 0 <= Z.land a k <= k.
Proof.
  intros Hk. split; [apply Z.land_nonneg; lia|].
  pose proof (Z.sub_nocarry_ldiff k (Z.land a k)) as H.
  rewrite <- (Z.lor_ldiff_and k a) at 2. rewrite (Z.land_comm k a).
  rewrite <- Z.add_nocarry_lor.
  - pose proof (proj2 (Z.ldiff_nonneg k a) (or_introl Hk)). lia.
  - apply Z.bits_inj'. intros n Hn. rewrite !Z.land_spec, Z.ldiff_spec, Z.bits_0.
    by destruct (Z.testbit k n), (Z.testbit a n).
Qed.

Lemma chain_Some c m id : represents c m -> exists b, chain c id = Some b.
Proof.
  intros R. destruct R as [_ _ Hl Hk _ Hn _ _]. apply lookup_lt_is_Some_2.
  unfold getIndex. pose proof (land_bound (getNX id) (key c)). lia.
Qed.

(** The links that are not in the chain of an oid. *)
Lemma flat_split c id b :
  chain c id = Some b ->
  exists rest, concat (links c) ≡ₚ b ++ rest
    /\ forall b', concat (links (set_chain c id b')) ≡ₚ b' ++ rest.
Proof.
  unfold chain. cbn. generalize (Z.to_nat (getIndex c id)) as i. generalize (links c) as ls.
  induction ls as [|b0 ls IH]; intros i; [done|]. destruct i as [|i]; cbn.
  - intros [= ->]. by exists (concat ls).
  - intros (rest & E & E')%IH. exists (b0 ++ rest). split.
    + rewrite E, !app_assoc. f_equiv. apply Permutation_app_comm.
    + intros b'. rewrite E', !app_assoc. f_equiv. apply Permutation_app_comm.
Qed.

(** Where the chain of an oid has it. *)
Lemma chain_lookup c m id b :
  represents c m -> chain c id = Some b ->
  (m !! id = None /\ Forall (fun l => oid l <> id) b)
  \/ exists b1 l b2, b = b1 ++ l :: b2 /\ oid l = id /\ Forall (fun l => oid l <> id) b1
       /\ Forall (fun l => oid l <> id) b2 /\ m !! id = Some (o l, refcnt l).
Proof.
  intros R Hb. destruct (flat_split c id b Hb) as (rest & E & _).
  pose proof (rep_entries _ _ R) as Hm. rewrite E in Hm.
  assert (NoDup (oid <$> b)) as Hnd.
  { pose proof (NoDup_fst_map_to_list m) as H. rewrite <- Hm, fmap_app, fmap_app in H.
    apply NoDup_app in H as [H _]. by rewrite <- list_fmap_compose in H. }
  destruct (decide (Exists (fun l => oid l = id) b)) as [H|H].
  - right. apply Exists_exists in H as (l & Hl & Hid). apply list_elem_of_split in Hl as (b1 & b2 & ->).
    exists b1, l, b2. split; [done|]. split; [done|].
    rewrite fmap_app, fmap_cons in Hnd. apply NoDup_app in Hnd as (_ & H1 & H2).
    apply NoDup_cons in H2 as [H2 _]. split; [|split].
    + apply Forall_forall. intros k Hk Ek. apply (H1 (oid k)); [by apply list_elem_of_fmap_2|].
      rewrite Ek, <- Hid. by left.
    + apply Forall_forall. intros k Hk Ek. apply H2. apply list_elem_of_fmap. exists k. by rewrite Ek, Hid.
    + apply elem_of_map_to_list. rewrite <- Hm, <- Hid. apply list_elem_of_fmap.
      exists l. split; [done|]. apply elem_of_app. left. apply elem_of_app. right. by left.
  - left. assert (Forall (fun l => oid l <> id) b) as Hf.
    { apply Forall_forall. intros l Hl El. apply H, Exists_exists. by exists l. }
    split; [|done]. destruct (m !! id) as [v|] eqn:Ev; [exfalso|done].
    apply elem_of_map_to_list in Ev. rewrite <- Hm, <- E in Ev.
    apply list_elem_of_fmap in Ev as (l & [= Hid Hv] & Hl).
    apply list_elem_of_In, in_concat in Hl as (b' & Hb'%list_elem_of_In & Hl%list_elem_of_In).
    apply list_elem_of_lookup in Hb' as [i Hi].
    pose proof (rep_index _ _ R _ _ _ Hi Hl) as Hx. rewrite <- Hid, <- Hx in *.
    unfold chain in Hb. rewrite Hi in Hb. injection Hb as ->.
    rewrite Forall_forall in Hf. by apply (Hf l Hl).
Qed.

(** Replacing the chain of an oid. *)
Lemma represents_chain c m id b b' c' m' :
  represents c m -> chain c id = Some b ->
  (forall l, l ∈ b' -> oid l = id \/ exists k, k ∈ b /\ oid k = oid l) ->
  (forall rest, entry <$> b ++ rest ≡ₚ map_to_list m -> entry <$> b' ++ rest ≡ₚ map_to_list m') ->
  (forall k p r, m' !! k = Some (p, r) -> p <> 0 /\ 0 < r < 2 ^ 32) ->
  links c' = links (set_chain c id b') -> key c' = key c -> links_cnt c' = links_cnt c ->
  obj_cnt c' = Z.of_nat (size m') -> rescaling c' = false ->
  represents c' m'.
Proof.
  intros R Hb Hi Hm Hv El Ek En Ec Er. destruct (flat_split c id b Hb) as (rest & E & E').
  split; try done.
  - rewrite El, E'. apply Hm. rewrite <- E. apply (rep_entries _ _ R).
  - intros i x l. rewrite El. unfold getIndex. rewrite Ek. cbn.
    intros Hx Hl. apply list_lookup_insert_Some in Hx as [(<- & <- & _)|[_ Hx]].
    + destruct (Hi l Hl) as [->|(k & Hk & <-)]; [done|]. apply (rep_index _ _ R _ _ _ Hb Hk).
    + apply (rep_index _ _ R _ _ _ Hx Hl).
  - rewrite El, En. cbn. rewrite length_insert. apply (rep_length _ _ R).
  - rewrite Ek, En. apply (rep_key _ _ R).
  - rewrite En. apply (rep_links _ _ R).
Qed.

(** ** The operations on maps *)

Abbreviation cache := (gmap Oid (Z * Z)).

Definition map_get (m : cache) (id : Oid) (incr : bool) : cache * Z :=
  match m !! id with
  | None => (m, 0)
  | Some (p, r) => (if incr then <[id := (p, r + 1)]> m else m, p)
  end.

Definition map_insert (m : cache) (id : Oid) (p : Z) : cache * bool :=
  match m !! id with None => (<[id := (p, 1)]> m, true) | Some _ => (m, false) end.

Definition map_delete (m : cache) (id : Oid) (force : bool) : cache * bool :=
  match m !! id with
  | None => (m, false)
  | Some (p, r) => (if force || (r =? 1) then delete id m else <[id := (p, r - 1)]> m, true)
  end.

Lemma scan_get_none id incr b :
  Forall (fun l => oid l <> id) b -> scan_get id incr b = (b, 0).
Proof.
  induction 1 as [|l b Hl _ IH]; [done|]. cbn. rewrite compare_false by congruence. by rewrite IH.
Qed.

Lemma scan_get_some id incr b1 l b2 :
  Forall (fun l => oid l <> id) b1 -> oid l = id ->
  scan_get id incr (b1 ++ l :: b2)
  = (b1 ++ (if incr then mk_link (oid l) (o l) (tstamp l) (u32 (refcnt l + 1)) else l) :: b2, o l).
Proof.
  intros H1 Hl. induction H1 as [|k b1 Hk _ IH]; cbn.
  - by rewrite compare_true.
  - rewrite compare_false by congruence. by rewrite IH.
Qed.

Lemma scan_delete_none id force b :
  Forall (fun l => oid l <> id) b -> scan_delete id force b = Some (b, None).
Proof.
  induction 1 as [|l b Hl _ IH]; [done|]. cbn. rewrite compare_false by congruence. by rewrite IH.
Qed.

Lemma scan_delete_some id force b1 l b2 :
  Forall (fun l => oid l <> id) b1 -> oid l = id -> 0 < refcnt l ->
  scan_delete id force (b1 ++ l :: b2)
  = Some (if force || (refcnt l =? 1) then (b1 ++ b2, Some true)
          else (b1 ++ mk_link (oid l) (o l) (tstamp l) (refcnt l - 1) :: b2, Some false)).
Proof.
  intros H1 Hl Hr. induction H1 as [|k b1 Hk _ IH]; cbn.
  - rewrite compare_true by done. rewrite (proj2 (Z.ltb_lt _ _) Hr).
    destruct force; cbn; [done|].
    destruct (Z.eqb_spec (refcnt l) 1), (Z.ltb_spec 0 (refcnt l - 1)); done || lia.
  - rewrite compare_false by congruence. rewrite IH. by destruct (force || _).
Qed.

(** The counts of a link change in place. *)
Lemma represents_update c m id b1 l b2 p r c' :
  represents c m -> chain c id = Some (b1 ++ l :: b2) -> oid l = id ->
  m !! id = Some (o l, refcnt l) -> p <> 0 -> 0 < r < 2 ^ 32 ->
  links c' = links (set_chain c id (b1 ++ mk_link id p (tstamp l) r :: b2)) ->
  key c' = key c -> links_cnt c' = links_cnt c -> obj_cnt c' = obj_cnt c -> rescaling c' = false ->
  represents c' (<[id := (p, r)]> m).
Proof.
  intros R Hb Hl Hm Hp Hr El Ek En Ec Er. eapply (represents_chain c m id); try done.
  - intros k [Hk|[->|Hk]%elem_of_cons]%elem_of_app; [|by left|].
    + right. exists k. split; [|done]. apply elem_of_app; by left.
    + right. exists k. split; [|done]. apply elem_of_app; right; by right.
  - intros rest E. rewrite <- insert_delete_eq, map_to_list_insert by apply lookup_delete_eq.
    rewrite <- (insert_delete_id m id (o l, refcnt l)) in E by done.
    rewrite map_to_list_insert in E by apply lookup_delete_eq.
    rewrite <- app_assoc in E |- *. cbn [app] in *.
    rewrite fmap_app, fmap_cons in E |- *. rewrite <- Permutation_middle in E |- *.
    unfold entry in E at 1 |- * at 1. cbn [oid o refcnt] in *. rewrite Hl in E.
    f_equiv. by apply Permutation_cons_inv in E.
  - intros k q s. rewrite lookup_insert. case_decide.
    + intros [= <- <-]. by split.
    + apply (rep_values _ _ R).
  - rewrite Ec, (rep_cnt _ _ R). by rewrite map_size_insert_Some by eauto.
Qed.

Lemma represents_same c m id b c' :
  represents c m -> chain c id = Some b ->
  links c' = links (set_chain c id b) ->
  key c' = key c -> links_cnt c' = links_cnt c -> obj_cnt c' = obj_cnt c -> rescaling c' = false ->
  represents c' m.
Proof.
  intros R Hb El Ek En Ec Er. eapply (represents_chain c m id); try done.
  - intros l Hl. right. by exists l.
  - apply (rep_values _ _ R).
  - rewrite Ec. apply (rep_cnt _ _ R).
Qed.

Lemma cache_get_spec c m id incr :
  represents c m -> (incr = true -> forall p r, m !! id = Some (p, r) -> r < 2 ^ 32 - 1) ->
  exists c', getObject c id incr = Some (c', snd (map_get m id incr))
    /\ represents c' (fst (map_get m id incr)) /\ links_cnt c' = links_cnt c /\ obj_cnt c' = obj_cnt c.
Proof.
  intros R Hr. destruct (chain_Some c m id R) as [b Hb]. unfold getObject, map_get.
  rewrite Hb. cbn [mbind option_bind].
  destruct (chain_lookup c m id b R Hb) as [[Hm Hf]|(b1 & l & b2 & -> & Hl & H1 & H2 & Hm)].
  - rewrite scan_get_none by done. rewrite Hm. eexists; split; [done|]. split; [|done].
    by eapply represents_same; try apply (rep_idle _ _ R).
  - rewrite scan_get_some by done. rewrite Hm. cbn [fst snd].
    pose proof (rep_values _ _ R _ _ _ Hm) as [Hp Hc].
    eexists; split; [done|]. split; [|done]. destruct incr.
    + specialize (Hr eq_refl _ _ Hm). rewrite u32_id by lia. eapply represents_update; try done; [lia|by rewrite Hl|apply (rep_idle _ _ R)].
    + by eapply represents_same; try apply (rep_idle _ _ R).
Qed.

Lemma map_size_pos (m : cache) id v : m !! id = Some v -> (size (delete id m) + 1 = size m)%nat.
Proof.
  intros H. rewrite <- (insert_delete_id m id v H) at 2.
  rewrite map_size_insert_None by apply lookup_delete_eq. lia.
Qed.

Lemma deleteObject_spec c m id force :
  represents c m -> Z.of_nat (size m) < 2 ^ 32 ->
  exists c', deleteObject c id force = Some (c', snd (map_delete m id force))
    /\ represents c' (fst (map_delete m id force)) /\ links_cnt c' = links_cnt c /\ obj_cnt c' <= obj_cnt c.
Proof.
  intros R Hs. destruct (chain_Some c m id R) as [b Hb]. unfold deleteObject, map_delete.
  rewrite Hb. cbn [mbind option_bind].
  destruct (chain_lookup c m id b R Hb) as [[Hm Hf]|(b1 & l & b2 & -> & Hl & H1 & H2 & Hm)].
  - rewrite scan_delete_none by done. rewrite Hm. eexists; split; [done|]. split; [|done].
    by eapply represents_same; try apply (rep_idle _ _ R).
  - pose proof (rep_values _ _ R _ _ _ Hm) as [Hp Hc]. rewrite scan_delete_some by (done || lia).
    rewrite Hm. cbn [mbind option_bind fst snd]. pose proof (rep_cnt _ _ R) as Hn.
    pose proof (map_size_pos m id _ Hm) as Hd.
    destruct (force || (refcnt l =? 1)) eqn:Ef; cbn [fst snd]; (eexists; split; [done|]).
    + cbn. rewrite (u32_id (_ - 1)) by lia. split; [|split; [done|lia]].
      eapply (represents_chain c m id); try done.
      * intros k Hk. right. exists k. split; [|done]. apply elem_of_app in Hk as [Hk|Hk].
        -- apply elem_of_app; by left.
        -- apply elem_of_app; right; by right.
      * intros rest E. rewrite <- (insert_delete_id m id (o l, refcnt l)) in E by done.
        rewrite map_to_list_insert in E by apply lookup_delete_eq.
        rewrite <- app_assoc in E |- *. cbn [app] in E.
        rewrite fmap_app, fmap_cons in E. rewrite <- Permutation_middle in E.
        unfold entry in E at 1. rewrite Hl in E. rewrite fmap_app. by apply Permutation_cons_inv in E.
      * intros k q r Hk. apply lookup_delete_Some in Hk as [_ Hk]. by apply (rep_values _ _ R _ _ _ Hk).
      * cbn. lia.
      * apply (rep_idle _ _ R).
    + split; [|split; [done|cbn; lia]]. apply orb_false_iff in Ef as [_ Er%Z.eqb_neq].
      eapply represents_update; try done; [lia|by rewrite Hl|apply (rep_idle _ _ R)].
Qed.

(** ** Insertion *)

(** What insertObject does once the cache is large enough. *)
Definition insert_link c (id : Oid) (p r : Z) : option (ObjCache * bool) :=
  let ts := u32 (cache_tstamp c + 1) in
  link ← chain c id;
  let c := set_chain c id (mk_link id p ts r :: link) in
  Some (mk_cache (key c) (links_cnt c) (links c) (u32 (obj_cnt c + 1)) ts (rescaling c), true).

Lemma insert_link_spec c m id p r :
  represents c m -> m !! id = None -> p <> 0 -> 0 < r < 2 ^ 32 -> Z.of_nat (size m) < 2 ^ 32 - 1 ->
  exists c', insert_link c id p r = Some (c', true)
    /\ represents c' (<[id := (p, r)]> m) /\ links_cnt c' = links_cnt c /\ obj_cnt c' = obj_cnt c + 1.
Proof.
  intros R Hm Hp Hr Hs. destruct (chain_Some c m id R) as [b Hb]. unfold insert_link. rewrite Hb.
  cbn [mbind option_bind]. eexists; split; [done|]. pose proof (rep_cnt _ _ R) as Hn.
  cbn. rewrite (u32_id (obj_cnt c + 1)) by lia. split; [|done].
  eapply (represents_chain c m id _ (mk_link id p (u32 (cache_tstamp c + 1)) r :: b)); try done.
  - intros k [->|Hk]%elem_of_cons; [by left|]. right. by exists k.
  - intros rest E. rewrite map_to_list_insert by done. cbn [app fmap list_fmap].
    unfold entry at 1. cbn [oid o refcnt]. by f_equiv.
  - intros k q s. rewrite lookup_insert. case_decide.
    + intros [= <- <-]. by split.
    + apply (rep_values _ _ R).
  - cbn. rewrite map_size_insert_None by done. lia.
  - apply (rep_idle _ _ R).
Qed.

(** A cache that need not grow inserts the links of another one as they are. *)
Lemma insertObject_enough fuel c id p r :
  r <> 0 -> links_cnt c < 2 ^ 26 ->  obj_cnt c <= COEF * links_cnt c \/ MAX_LINKS_CNT <= links_cnt c ->
  0 < links_cnt c -> insertObject (S fuel) c id p r = insert_link c id p r.
Proof.
  intros Hr Hn Hl Hp. cbn [insertObject]. rewrite (proj2 (Z.eqb_neq _ _) Hr).
  cbn [mbind option_bind]. rewrite u32_id by (unfold COEF in *; lia).
  destruct (Z.ltb_spec (links_cnt c) MAX_LINKS_CNT), (Z.ltb_spec (COEF * links_cnt c) (obj_cnt c)); done || lia.
Qed.

Lemma reinsert_spec fuel ls c m :
  represents c m -> NoDup (oid <$> ls) -> (forall l, l ∈ ls -> m !! oid l = None) ->
  (forall l, l ∈ ls -> o l <> 0 /\ 0 < refcnt l < 2 ^ 32) -> links_cnt c < 2 ^ 26 ->
  obj_cnt c + Z.of_nat (length ls) <= COEF * links_cnt c ->
  exists c' m', reinsert (insertObject (S fuel)) ls c = Some c' /\ represents c' m'
    /\ map_to_list m' ≡ₚ (entry <$> ls) ++ map_to_list m /\ links_cnt c' = links_cnt c.
Proof.
  revert c m. induction ls as [|l ls IH]; intros c m R Hnd Hm Hv Hn Hl; [by exists c, m|].
  cbn [length] in Hl. apply NoDup_cons in Hnd as [Hni Hnd]. pose proof (rep_links _ _ R) as Hp.
  pose proof (rep_cnt _ _ R) as Hc. destruct (Hv l) as [H1 H2]; [by left|].
  pose proof (Hm l ltac:(by left)) as Hml. cbn [reinsert].
  rewrite insertObject_enough by (done || lia).
  destruct (insert_link_spec c m (oid l) (o l) (refcnt l)) as (c1 & -> & R1 & En & Ec);
    [done..|unfold COEF in *; lia|].
  cbn [mbind option_bind].
  destruct (IH c1 (<[oid l := (o l, refcnt l)]> m)) as (c' & m' & E & R' & Em & En'); try done.
  - intros k Hk. rewrite lookup_insert_ne; [apply Hm; by right|].
    intros Ek. apply Hni. rewrite Ek. by apply list_elem_of_fmap_2.
  - intros k Hk. apply Hv. by right.
  - lia.
  - lia.
  - exists c', m'. split; [done|]. split; [done|]. split; [|congruence].
    rewrite Em, map_to_list_insert by done. cbn [fmap list_fmap app].
    by rewrite Permutation_middle.
Qed.

Lemma reinsert_concat f bs c : reinsert_all f bs c = reinsert f (concat bs) c.
Proof.
  revert c. induction bs as [|b bs IH]; intros c; [done|]. cbn [reinsert_all concat].
  revert c. induction b as [|l b IHb]; intros c; cbn [reinsert app mbind option_bind]; [apply IH|].
  destruct (f c (oid l) (o l) (refcnt l)) as [[c1 ?]|]; [|done]. cbn [mbind option_bind]. apply IHb.
Qed.

Lemma rescale_spec fuel c m :
  represents c m -> links_cnt c < MAX_LINKS_CNT -> obj_cnt c <= 2 * COEF * links_cnt c ->
  exists c', rescale (insertObject (S fuel)) c = Some c' /\ represents c' m
    /\ links_cnt c' = 2 * links_cnt c /\ obj_cnt c' = obj_cnt c.
Proof.
  intros R Hn Hl. unfold MAX_LINKS_CNT in Hn. pose proof (rep_links _ _ R) as Hp. pose proof (rep_cnt _ _ R) as Hc.
  pose proof (rep_entries _ _ R) as He. unfold rescale. rewrite (rep_idle _ _ R).
  rewrite reinsert_concat, u32_id by (unfold RESCALE_COEF; lia).
  destruct (new_cache_represents (links_cnt c * RESCALE_COEF)) as [R0 _]; [unfold RESCALE_COEF; lia|].
  assert (links_cnt (new_ObjCache (links_cnt c * RESCALE_COEF)) = 2 * links_cnt c) as E0.
  { unfold new_ObjCache. cbn. unfold RESCALE_COEF. rewrite (u32_id (_ - 1)), u32_id; lia. }
  assert (length (concat (links c)) = size m) as Hlen.
  { rewrite <- length_map_to_list, <- He. by rewrite length_fmap. }
  destruct (reinsert_spec fuel (concat (links c)) (new_ObjCache (links_cnt c * RESCALE_COEF)) ∅ R0)
    as (c' & m' & -> & R' & Em & En).
  - pose proof (NoDup_fst_map_to_list m) as H. rewrite <- He in H. by rewrite <- list_fmap_compose in H.
  - intros l _. apply lookup_empty.
  - intros l Hin. apply (rep_values _ _ R (oid l)). apply elem_of_map_to_list. rewrite <- He.
    change (oid l, (o l, refcnt l)) with (entry l). by apply list_elem_of_fmap_2.
  - rewrite E0. lia.
  - rewrite E0, Hlen. change (obj_cnt (new_ObjCache _)) with 0. unfold COEF in *. lia.
  - rewrite map_to_list_empty, app_nil_r, He in Em. apply map_to_list_inj in Em as ->.
    cbn [mbind option_bind]. eexists; split; [done|]. split; [|cbn; split; [congruence|]].
    + destruct R'. by split.
    + rewrite (rep_cnt _ _ R'). lia.
Qed.

Lemma insertObject_spec fuel c m id p :
  represents c m -> loaded c -> p <> 0 -> Z.of_nat (size m) < 2 ^ 32 - 1 ->
  exists c', insertObject (S (S fuel)) c id p 0 = Some (c', snd (map_insert m id p))
    /\ represents c' (fst (map_insert m id p)) /\ loaded c'.
Proof.
  intros R L Hp Hs. remember (S fuel) as f eqn:Ef. cbn [insertObject].
  change (0 =? 0) with true. cbn iota.
  destruct (cache_get_spec c m id false R) as (c1 & -> & R1 & En & Ec); [done|]. cbn [mbind option_bind].
  unfold map_insert, map_get, loaded in *. destruct (m !! id) as [[q r]|] eqn:Em.
  - pose proof (rep_values _ _ R _ _ _ Em) as [Hq _]. cbn [fst snd] in *. rewrite (proj2 (Z.eqb_neq _ _) Hq). cbn.
    exists c1. split; [done|]. split; [done|]. by rewrite En, Ec.
  - cbn [fst snd] in *. change (negb (0 =? 0)) with false. cbn iota. rewrite <- En, <- Ec in L. clear c R En Ec.
    pose proof (rep_links _ _ R1) as Hl. pose proof (rep_cnt _ _ R1) as Hc.
    destruct (Z.ltb_spec (links_cnt c1) MAX_LINKS_CNT) as [HM|HM]; cbn [andb mbind option_bind].
    + unfold MAX_LINKS_CNT, COEF in *. rewrite (u32_id (50 * _)) by lia.
      destruct (Z.ltb_spec (50 * links_cnt c1) (obj_cnt c1)) as [HL|HL].
      * subst f. destruct (rescale_spec fuel c1 m R1) as (c2 & -> & R2 & En2 & Ec2);
          [done|unfold COEF; lia|]. cbn [mbind option_bind].
        destruct (insert_link_spec c2 m id p 1 R2) as (c3 & E3 & R3 & En3 & Ec3); [done..|lia|].
        unfold insert_link in E3. exists c3. split; [exact E3|]. split; [done|]. left. lia.
      * destruct (insert_link_spec c1 m id p 1 R1) as (c3 & E3 & R3 & En3 & Ec3); [done..|lia|].
        exists c3. split; [exact E3|]. split; [done|]. left. lia.
    + destruct (insert_link_spec c1 m id p 1 R1) as (c3 & E3 & R3 & En3 & Ec3); [done..|lia|].
      exists c3. split; [exact E3|]. split; [done|]. right. lia.
Qed.

(** ** Sequences of operations *)

Inductive op :=
| Insert (id : Oid) (p : Z) | Delete (id : Oid) (force : bool) | Get (id : Oid) (incr : bool)
| Objects | Count | Empty.
Inductive result := RBool (b : bool) | RPtr (p : Z) | RList (l : list Z) | RCount (n : Z).

Definition run_op (fuel : nat) c (x : op) : option (ObjCache * result) :=
  match x with
  | Insert id p => '(c, r) ← insertObject fuel c id p 0; Some (c, RBool r)
  | Delete id force => '(c, r) ← deleteObject c id force; Some (c, RBool r)
  | Get id incr => '(c, p) ← getObject c id incr; Some (c, RPtr p)
  | Objects => Some (c, RList (getObjects c))
  | Count => Some (c, RCount (getObjectCount c))
  | Empty => Some (empty c, RCount 0)
  end.
Fixpoint run (fuel : nat) c (xs : list op) : option (ObjCache * list result) :=
  match xs with
  | [] => Some (c, [])
  | x :: xs => '(c, r) ← run_op fuel c x; '(c, rs) ← run fuel c xs; Some (c, r :: rs)
  end.

Definition spec_op (m : cache) (x : op) : cache * result :=
  match x with
  | Insert id p => let '(m, r) := map_insert m id p in (m, RBool r)
  | Delete id force => let '(m, r) := map_delete m id force in (m, RBool r)
  | Get id incr => let '(m, p) := map_get m id incr in (m, RPtr p)
  | Objects => (m, RList ((fun e => fst (snd e)) <$> map_to_list m))
  | Count => (m, RCount (Z.of_nat (size m)))
  | Empty => (∅, RCount 0)
  end.
Fixpoint spec (m : cache) (xs : list op) : cache * list result :=
  match xs with
  | [] => (m, [])
  | x :: xs => let '(m, r) := spec_op m x in let '(m, rs) := spec m xs in (m, r :: rs)
  end.

(** The objects are listed in any order. *)
Definition same_result (r r' : result) : Prop :=
  match r, r' with RList l, RList l' => l ≡ₚ l' | _, _ => r = r' end.

Definition not_null (x : op) : Prop := match x with Insert _ p => p <> 0 | _ => True end.

(** After [k] operations. *)
Definition counted (k : Z) (m : cache) : Prop :=
  Z.of_nat (size m) <= k /\ forall id p r, m !! id = Some (p, r) -> r <= k.

Lemma counted_insert k m id p r : counted k m -> r <= k + 1 -> counted (k + 1) (<[id := (p, r)]> m).
Proof.
  intros [H1 H2] Hr. split.
  - rewrite map_size_insert. destruct (m !! id); cbn; lia.
  - intros id' p' r' H. rewrite lookup_insert in H. case_decide; [by injection H as <- <-|].
    specialize (H2 _ _ _ H). lia.
Qed.

Lemma counted_weaken k m : counted k m -> counted (k + 1) m.
Proof. intros [H1 H2]. split; [lia|]. intros id p r H. specialize (H2 _ _ _ H). lia. Qed.

Lemma spec_op_counted k m x : 0 <= k -> counted k m -> counted (k + 1) (fst (spec_op m x)).
Proof.
  intros Hk H. pose proof H as [H1 H2]. pose proof (counted_weaken _ _ H) as Hw.
  destruct x as [id p|id force|id incr| | |]; cbn [spec_op fst]; try done.
  - unfold map_insert. destruct (m !! id); cbn; [done|]. apply counted_insert; [done|lia].
  - unfold map_delete. destruct (m !! id) as [[p r]|] eqn:E; cbn; [|done]. specialize (H2 _ _ _ E).
    destruct (_ || _); [|apply counted_insert; [done|lia]]. destruct Hw as [Hw1 Hw2]. split.
    + pose proof (map_size_pos m id _ E). lia.
    + intros id' p' r' [_ Hd]%lookup_delete_Some. by apply (Hw2 _ _ _ Hd).
  - unfold map_get. destruct (m !! id) as [[p r]|] eqn:E; cbn; [|done]. specialize (H2 _ _ _ E).
    destruct incr; [|done]. apply counted_insert; [done|lia].
  - split; [rewrite map_size_empty; lia|]. intros id p r Hm. by rewrite lookup_empty in Hm.
Qed.

Lemma getObjects_spec c m :
  represents c m -> getObjects c ≡ₚ (fun e : Oid * (Z * Z) => fst (snd e)) <$> map_to_list m.
Proof. intros R. rewrite <- (rep_entries _ _ R). by rewrite <- list_fmap_compose. Qed.

Lemma empty_cache_spec c m : represents c m -> represents (empty c) ∅ /\ loaded (empty c).
Proof.
  intros R. pose proof (rep_links _ _ R) as Hl. split; [|left; cbn; unfold COEF; lia].
  split; cbn [empty links key links_cnt obj_cnt rescaling].
  - rewrite map_to_list_empty. by induction (length (links c)).
  - intros i b l Hb Hl'. apply lookup_replicate in Hb as [-> _]. by apply not_elem_of_nil in Hl'.
  - rewrite length_replicate. apply (rep_length _ _ R).
  - apply (rep_key _ _ R).
  - by rewrite map_size_empty.
  - done.
  - intros id p r Hm. by rewrite lookup_empty in Hm.
  - apply (rep_idle _ _ R).
Qed.

Lemma cache_op_refines k c m x :
  represents c m -> loaded c -> counted k m -> k < 2 ^ 32 - 1 -> not_null x ->
  exists c' r, run_op 2 c x = Some (c', r) /\ same_result r (snd (spec_op m x))
    /\ represents c' (fst (spec_op m x)) /\ loaded c'.
Proof.
  intros R L [H1 H2] Hk Hx. unfold loaded in *.
  destruct x as [id p|id force|id incr| | |]; cbn [run_op spec_op].
  - destruct (insertObject_spec 0 c m id p) as (c' & -> & R' & L'); [done..|lia|].
    cbn [mbind option_bind]. exists c', (RBool (snd (map_insert m id p))). by destruct (map_insert m id p).
  - destruct (deleteObject_spec c m id force) as (c' & -> & R' & En & Ec); [done|lia|].
    cbn [mbind option_bind]. exists c', (RBool (snd (map_delete m id force))).
    destruct (map_delete m id force). repeat (split; [done|]). rewrite En. lia.
  - destruct (cache_get_spec c m id incr) as (c' & -> & R' & En & Ec).
    + done.
    + intros _ p r E. specialize (H2 _ _ _ E). lia.
    + cbn [mbind option_bind]. exists c', (RPtr (snd (map_get m id incr))).
      destruct (map_get m id incr). repeat (split; [done|]). by rewrite En, Ec.
  - exists c, (RList (getObjects c)). split; [done|]. split; [by apply getObjects_spec|]. done.
  - exists c, (RCount (getObjectCount c)). split; [done|]. split; [|done].
    cbn. unfold getObjectCount. by rewrite (rep_cnt _ _ R).
  - exists (empty c), (RCount 0). split; [done|]. split; [done|]. by apply (empty_cache_spec c m).
Qed.

Lemma run_ops_refine xs : forall k c m,
  represents c m -> loaded c -> counted k m -> 0 <= k -> k + Z.of_nat (length xs) < 2 ^ 32 ->
  Forall not_null xs ->
  exists c' rs, run 2 c xs = Some (c', rs) /\ Forall2 same_result rs (snd (spec m xs))
    /\ represents c' (fst (spec m xs)) /\ loaded c'.
Proof.
  induction xs as [|x xs IH]; intros k c m R L Hc Hk Hl Hx; cbn [run spec length] in *.
  - exists c, []. split; [done|]. split; [constructor|done].
  - apply Forall_cons in Hx as [Hx Hxs].
    destruct (cache_op_refines k c m x) as (c1 & r & -> & Hr & R1 & L1); [done..|lia|done|].
    cbn [mbind option_bind]. pose proof (spec_op_counted k m x Hk Hc) as Hc1.
    destruct (spec_op m x) as [m1 r1]. cbn [fst snd] in *.
    destruct (IH (k + 1) c1 m1) as (c' & rs & -> & Hrs & R' & L'); [done..|lia|lia|done|].
    cbn [mbind option_bind]. exists c', (r :: rs). destruct (spec m1 xs) as [m2 r2].
    split; [done|]. split; [by constructor|]. done.
Qed.

(** C30: any sequence of operations on a new cache of any size answers as a
    finite map from oids to pointers with a count of users (a second insertion
    refused, a deletion that removes the object when its last user deletes it or
    when it is forced), no assertion fails, no chain is missing, one level of
    rescaling is enough, and the chains hold at most [COEF] objects on average,
    up to the [MAX_LINKS_CNT] chains a cache grows to. *)
Theorem obj_cache_refines n xs :
  0 < n < 2 ^ 32 -> Z.of_nat (length xs) < 2 ^ 32 -> Forall not_null xs ->
  exists c rs, run 2 (new_ObjCache n) xs = Some (c, rs)
    /\ Forall2 same_result rs (snd (spec ∅ xs)) /\ represents c (fst (spec ∅ xs)) /\ loaded c.
Proof.
  intros Hn Hl Hx. destruct (new_cache_represents n Hn) as [R L].
  by apply (run_ops_refine xs 0 (new_ObjCache n) ∅).
Qed.

End ObjCache.

Module Example.

(** Oids with their number only. *)
#[local] Instance numbers : Oids Z := {| getNX := fun id => id |}.

Definition ops : list op := [Insert 1 10; Insert 9 90; Get 1 true; Delete 1 false; Delete 1 false; Get 1 false].

Lemma obj_cache_refines_witness :
  exists c, run 2 (new_ObjCache 8) ops
    = Some (c, [RBool true; RBool true; RPtr 10; RBool true; RBool true; RPtr 0]) /\ loaded c.
Proof.
  destruct (obj_cache_refines 8 ops) as (c & rs & E & _ & _ & L); [done|done|by repeat constructor|].
  exists c. split; [|done]. rewrite E. vm_compute in E. by injection E as _ <-.
Defined.

(** A null pointer is stored, and not found: it can be stored twice. *)
Example null_twice :
  (fun '(c, _) => length (concat (links c))) <$> run 2 (new_ObjCache 8) [Insert 1 0; Insert 1 0] = Some 2%nat.
Proof. reflexivity. Qed.

(** 51 objects in one chain: the next insertion doubles the cache. *)
Example grows :
  (fun '(c, _) => (links_cnt c, obj_cnt c)) <$>
    run 2 (new_ObjCache 1) (map (fun i => Insert i 1) (seqZ 1 52)) = Some (2, 52).
Proof. vm_compute. reflexivity. Qed.

End Example.
