(* ===== verification/Value.v ===== *)
(** * Values and their order

    The comparison operators of src/eyedb/Value.cc, which make [Value] a key of
    the maps of the collection caches. Pointers are numbers; a string is the list
    of its bytes, the values of its [unsigned char]s; a double is a float of the
    Standard Library. [None] is an access through a null object pointer. *)

From Stdlib Require Import SpecFloat.
From S2P Require Import Prelude Oid.

#[local] Set Warnings "-register-all".

#[local] Instance spec_float_dec : EqDecision spec_float.
Proof. solve_decision. Defined.

Section Value.
Context {Oid : Type} `{OI : Oids Oid}.

(** What the comparisons read of an object: its address, its oid, its bytes. *)
Record Object := mk_Object { addr : Z; getOid : Oid; getIDR : list Z }.

Inductive Value :=
| tNil | tNull
| tBool (b : bool) | tByte (by_ : Z) | tChar (c : Z) | tShort (s : Z) | tInt (i : Z) | tLong (l : Z)
| tDouble (d : spec_float)
| tIdent (str : list Z) | tString (str : list Z)
| tData (data : Z) (bytes : list Z)
| tOid (oid : Oid)
| tObject (o : option Object) | tObjectPtr (o : option Object)
| tPobj (idx : Z)
| tList (list_ cnt : Z) | tSet (list_ cnt : Z) | tArray (list_ cnt : Z) | tBag (list_ cnt : Z)
| tStruct (attrs : list (list Z * Value)).

(** [(int)type] *)
Definition type (v : Value) : Z :=
  match v with
  | tNil => 0 | tNull => 1 | tBool _ => 2 | tByte _ => 3 | tChar _ => 4 | tShort _ => 5
  | tInt _ => 6 | tLong _ => 7 | tDouble _ => 8 | tIdent _ => 9 | tString _ => 10
  | tData _ _ => 11 | tOid _ => 12 | tObject _ => 13 | tObjectPtr _ => 14 | tPobj _ => 15
  | tList _ _ => 16 | tSet _ _ => 17 | tArray _ _ => 18 | tBag _ _ => 19 | tStruct _ => 20
  end.

(** strcmp; memcmp of the first [n] bytes. *)
Fixpoint strcmp (a b : list Z) : comparison :=
  match a, b with
  | [], [] => Eq
  | [], _ => Lt
  | _, [] => Gt
  | x :: a, y :: b => match x ?= y with Eq => strcmp a b | r => r end
  end.
Definition memcmp (a b : list Z) (n : nat) : comparison := strcmp (take n a) (take n b).

Definition is_lt (r : comparison) : bool := match r with Lt => true | _ => false end.
Definition is_eq (r : comparison) : bool := match r with Eq => true | _ => false end.

(** The address of an object pointer, 0 when null. *)
Definition address (o : option Object) : Z := match o with Some o => addr o | None => 0 end.

(** operator==, and that of [Value::Struct] in it, where the code exchanges the
    operands at each level ([equal_sym]). *)
Fixpoint equal (v w : Value) {struct v} : bool :=
  match v, w with
  | tNil, tNil | tNull, tNull => true
  | tBool b, tBool b' => Bool.eqb b' b
  | tByte a, tByte b | tChar a, tChar b | tShort a, tShort b | tInt a, tInt b | tLong a, tLong b =>
      b =? a
  | tDouble d, tDouble d' => SFeqb d' d
  | tIdent s, tIdent s' | tString s, tString s' => is_eq (strcmp s' s)
  | tData p d, tData p' d' => (p' =? p) && (length d' =? length d)%nat
  | tOid o, tOid o' => compare o' o
  | tObject o, tObject o' | tObjectPtr o, tObjectPtr o' => address o' =? address o
  | tPobj i, tPobj i' => i' =? i
  | tList l n, tList l' n' | tSet l n, tSet l' n' | tArray l n, tArray l' n' | tBag l n, tBag l' n' =>
      (n =? n') && (l' =? l)
  | tStruct ats, tStruct ats' =>
      (length ats' =? length ats)%nat &&
      (fix go (ats ats' : list (list Z * Value)) : bool :=
         match ats, ats' with
         | (n, v) :: ats, (n', w) :: ats' => is_eq (strcmp n' n) && equal v w && go ats ats'
         | _, _ => true
         end) ats ats'
  | _, _ => false
  end.

Definition cmp_objects (o val_o : option Object) : option bool :=
  o ← o; val_o ← val_o;
  if isValid (getOid o) && isValid (getOid val_o) then Some (getNX (getOid o) <? getNX (getOid val_o))
  else
    let size := Nat.min (length (getIDR o)) (length (getIDR val_o)) in
    match memcmp (getIDR o) (getIDR val_o) size with
    | Lt => Some true
    | Gt => Some false
    | Eq => Some (addr o <? addr val_o)
    end.

(** operator< *)
Definition less (v w : Value) : option bool :=
  if negb (type v =? type w) then Some (type v <? type w)
  else
    match v, w with
    | tNil, _ | tNull, _ => Some false
    | tBool b, tBool b' => Some (negb b && b')
    | tByte a, tByte b | tChar a, tChar b | tShort a, tShort b | tInt a, tInt b | tLong a, tLong b =>
        Some (a <? b)
    | tDouble d, tDouble d' => Some (SFltb d d')
    | tIdent s, tIdent s' | tString s, tString s' => Some (is_lt (strcmp s s'))
    | tData _ d, tData _ d' => Some (is_lt (memcmp d d' (Nat.min (length d) (length d'))))
    | tOid o, tOid o' => Some (getNX o <? getNX o')
    | tObject o, tObject o' | tObjectPtr o, tObjectPtr o' => cmp_objects o o'
    | _, _ => Some (negb (equal v w))
    end.

(** ** Lists of integers in lexicographic order *)

Lemma strcmp_eq a b : strcmp a b = Eq <-> a = b.
Proof.
  revert b. induction a as [|x a IH]; intros [|y b]; cbn; try done.
  destruct (Z.compare_spec x y) as [->|H|H].
  - rewrite IH. split; congruence.
  - split; [done|]. intros [= ->]. lia.
  - split; [done|]. intros [= ->]. lia.
Qed.

Lemma is_lt_true r : is_lt r = true -> r = Lt.
Proof. by destruct r. Qed.

Lemma strcmp_antisym a b : strcmp b a = CompOpp (strcmp a b).
Proof.
  revert b. induction a as [|x a IH]; intros [|y b]; cbn; try done.
  rewrite (Z.compare_antisym x y). destruct (x ?= y); cbn; done || apply IH.
Qed.

Lemma strcmp_trans a b c : strcmp a b = Lt -> strcmp b c = Lt -> strcmp a c = Lt.
Proof.
  revert b c. induction a as [|x a IH]; intros [|y b] [|z c]; cbn; try done.
  destruct (Z.compare_spec x y) as [->|H1|H1]; try done.
  - destruct (Z.compare_spec y z) as [->|H2|H2]; try done. apply IH.
  - intros _. destruct (Z.compare_spec y z) as [->|H2|H2]; try done; intros _.
    + by rewrite (proj2 (Z.compare_lt_iff _ _) H1).
    + by rewrite (proj2 (Z.compare_lt_iff x z)) by lia.
Qed.

(** ** The order on plain values *)

(** A list of integers for each double, in the order of doubles. *)
Definition double_key (d : spec_float) : list Z :=
  match d with
  | S754_infinity true => [-2]
  | S754_finite true m e => [-1; -e; Z.neg m]
  | S754_zero _ => [0]
  | S754_finite false m e => [1; e; Z.pos m]
  | S754_infinity false => [2]
  | S754_nan => [3]
  end.

Lemma double_compare d d' :
  d <> S754_nan -> d' <> S754_nan -> SFcompare d d' = Some (strcmp (double_key d) (double_key d')).
Proof.
  intros H H'. destruct d as [[]|[]| |[] m e], d' as [[]|[]| |[] m' e']; try done; cbn; f_equal.
  - rewrite Z.compare_opp, Z.compare_antisym. destruct (e' ?= e); cbn; try done.
    unfold Pos.compare. by destruct (Pos.compare_cont Eq m m').
  - destruct (e ?= e'); try done. unfold Pos.compare. by destruct (Pos.compare_cont Eq m m').
Qed.

Definition obj_key (o : option Object) : list Z := [default 0 (getNX ∘ getOid <$> o)].

Definition key (v : Value) : list Z :=
  type v ::
  match v with
  | tBool b => [Z.b2z b]
  | tByte a | tChar a | tShort a | tInt a | tLong a => [a]
  | tDouble d => double_key d
  | tIdent s | tString s => s
  | tData _ d => d
  | tOid o => [getNX o]
  | tObject o | tObjectPtr o => obj_key o
  | _ => []
  end.

(** The values but NaN, data not of the item size [n], persistent objects,
    collections, structs and objects that are null or without an oid. *)
Definition plain (n : nat) (v : Value) : bool :=
  match v with
  | tDouble d => match d with S754_nan => false | _ => true end
  | tObject o | tObjectPtr o => match o with Some o => isValid (getOid o) | None => false end
  | tData _ d => (length d =? n)%nat
  | tPobj _ | tList _ _ | tSet _ _ | tArray _ _ | tBag _ _ | tStruct _ => false
  | _ => true
  end.

(** Oids of one database, with one object in memory for each; data at one
    address when they are the same. *)
Definition same_base (v w : Value) : Prop :=
  match v, w with
  | tData p d, tData p' d' => p = p' <-> d = d'
  | tOid a, tOid b => getNX a = getNX b -> a = b
  | tObject a, tObject b | tObjectPtr a, tObjectPtr b => obj_key a = obj_key b <-> address a = address b
  | _, _ => True
  end.

Lemma strcmp_one a b : strcmp [a] [b] = (a ?= b).
Proof. cbn. by destruct (a ?= b). Qed.

Lemma is_lt_one a b : is_lt (strcmp [a] [b]) = (a <? b).
Proof. rewrite strcmp_one. unfold Z.ltb. by destruct (a ?= b). Qed.

Lemma double_less d d' :
  d <> S754_nan -> d' <> S754_nan -> SFltb d d' = is_lt (strcmp (double_key d) (double_key d')).
Proof. intros H H'. unfold SFltb. rewrite double_compare by done. by destruct (strcmp _ _). Qed.

Lemma plain_double n d : plain n (tDouble d) = true -> d <> S754_nan.
Proof. by intros H ->. Qed.

Lemma obj_less n o o' :
  plain n (tObject o) = true -> plain n (tObject o') = true ->
  cmp_objects o o' = Some (is_lt (strcmp (obj_key o) (obj_key o'))).
Proof.
  destruct o as [o|], o' as [o'|]; cbn [plain]; try done. intros H H'. cbn [cmp_objects mbind option_bind].
  rewrite H, H'. unfold obj_key. by rewrite is_lt_one.
Qed.

(** operator< on plain values compares their keys. *)
Lemma less_key n v w :
  plain n v = true -> plain n w = true -> less v w = Some (is_lt (strcmp (key v) (key w))).
Proof.
  intros Hv Hw. unfold less, key. cbn [strcmp].
  destruct (Z.eqb_spec (type v) (type w)) as [E|E]; cbn [negb].
  2:{ unfold Z.ltb. destruct (Z.compare_spec (type v) (type w)); done. }
  rewrite E, Z.compare_refl.
  destruct v, w; try done; cbn in Hv, Hw; rewrite ?is_lt_one; try done.
  - by destruct b, b0.
  - rewrite double_less by (by apply (plain_double n)). done.
  - apply Nat.eqb_eq in Hv, Hw. unfold memcmp. rewrite !take_ge by lia. done.
  - by apply (obj_less n).
  - by apply (obj_less n).
Qed.

Lemma key_double d d' :
  d <> S754_nan -> d' <> S754_nan -> SFeqb d' d = true <-> double_key d = double_key d'.
Proof.
  intros H H'. unfold SFeqb. rewrite double_compare by done. rewrite <- (strcmp_eq (double_key d)).
  rewrite strcmp_antisym. by destruct (strcmp _ _).
Qed.

Lemma equal_type v w : equal v w = true -> type v = type w.
Proof. by destruct v, w. Qed.

(** operator== on plain values of one database compares their keys. *)
Lemma equal_key n v w :
  plain n v = true -> plain n w = true -> same_base v w -> equal v w = true <-> key v = key w.
Proof.
  intros Hv Hw Hb. unfold key. split.
  - intros E. rewrite (equal_type _ _ E). f_equal.
    destruct v, w; try done; cbn in E.
    all: try by rewrite (proj1 (Z.eqb_eq _ _) E).
    + by destruct b, b0.
    + apply key_double; [by apply (plain_double n)..|done].
    + symmetry. apply strcmp_eq. by destruct (strcmp _ _).
    + symmetry. apply strcmp_eq. by destruct (strcmp _ _).
    + apply andb_true_iff in E as [E%Z.eqb_eq _]. by apply Hb.
    + by apply bool_decide_eq_true in E as ->.
    + apply Hb. by apply Z.eqb_eq in E.
    + apply Hb. by apply Z.eqb_eq in E.
  - intros [= E K]. destruct v, w; try done; cbn in *.
    all: try by (injection K as ->; apply Z.eqb_refl).
    + by destruct b, b0.
    + apply key_double; [by apply (plain_double n)..|done].
    + subst. by rewrite (proj2 (strcmp_eq _ _)).
    + subst. by rewrite (proj2 (strcmp_eq _ _)).
    + apply andb_true_iff. subst. split; [|apply Nat.eqb_refl]. apply Z.eqb_eq. symmetry. by apply Hb.
    + injection K as K. apply Hb in K. apply bool_decide_eq_true. done.
    + apply Z.eqb_eq. symmetry. by apply Hb.
    + apply Z.eqb_eq. symmetry. by apply Hb.
Qed.

Definition Value_rect_struct (P : Value -> Prop)
    (Hstruct : forall ats, Forall (fun a => P (snd a)) ats -> P (tStruct ats))
    (Hother : forall v, (forall ats, v <> tStruct ats) -> P v) : forall v, P v :=
  fix go v :=
    match v return P v with
    | tStruct ats =>
        Hstruct ats ((fix all ats : Forall (fun a => P (snd a)) ats :=
                        match ats with
                        | [] => List.Forall_nil _
                        | a :: ats => List.Forall_cons _ a ats (go (snd a)) (all ats)
                        end) ats)
    | v => Hother v ltac:(done)
    end.

Lemma SFeqb_sym d d' : SFeqb d d' = SFeqb d' d.
Proof.
  destruct (decide (d = S754_nan)) as [->|H]; [by destruct d' as [[]|[]| |[]]|].
  destruct (decide (d' = S754_nan)) as [->|H']; [by destruct d as [[]|[]| |[]]|].
  unfold SFeqb. rewrite !double_compare, (strcmp_antisym (double_key d')) by done. by destruct (strcmp _ _).
Qed.

Lemma is_eq_sym a b : is_eq (strcmp a b) = is_eq (strcmp b a).
Proof. rewrite (strcmp_antisym b a). by destruct (strcmp b a). Qed.

Lemma equal_sym v w : equal v w = equal w v.
Proof.
  revert w. induction v as [ats IH|v Hv] using Value_rect_struct; intros w.
  - destruct w as [| | | | | | | | | | | | | | | | | | | |ats']; try done. cbn [equal].
    rewrite Nat.eqb_sym. f_equal. revert ats'.
    induction IH as [|[n v] ats Hv _ IH]; intros [|[n' w] ats']; try done.
    cbn [snd] in Hv. by rewrite is_eq_sym, Hv, IH.
  - destruct v; [..|by destruct (Hv attrs)]; destruct w; try done; cbn [equal];
      rewrite ?(Z.eqb_sym cnt), ?(Nat.eqb_sym (length bytes)); try (by rewrite Z.eqb_sym);
      try (by rewrite is_eq_sym); try (by rewrite SFeqb_sym).
    + by destruct b, b0.
    + apply bool_decide_ext. split; congruence.
    + by rewrite (Z.eqb_sym list_).
    + by rewrite (Z.eqb_sym list_).
    + by rewrite (Z.eqb_sym list_).
    + by rewrite (Z.eqb_sym list_).
Qed.

(** On the values that are numbers but NaN, strings, data of one size, oids
    or objects in memory that are persistent, operator< is a strict order, and two such values
    of one database, with one object in memory for each oid, are equal for
    operator== exactly when neither is less than the other: a map keyed by values
    finds the key that is equal. *)
Theorem value_order n :
  (forall v, plain n v = true -> less v v = Some false)
  /\ (forall u v w, plain n u = true -> plain n v = true -> plain n w = true ->
       less u v = Some true -> less v w = Some true -> less u w = Some true)
  /\ (forall v w, plain n v = true -> plain n w = true -> same_base v w ->
       less v w = Some false /\ less w v = Some false <-> equal v w = true).
Proof.
  split; [|split].
  - intros v Hv. rewrite (less_key n) by done. by rewrite (proj2 (strcmp_eq _ _)).
  - intros u v w Hu Hv Hw. rewrite !(less_key n) by done. intros [= H1] [= H2]. do 2 f_equal.
    by rewrite (strcmp_trans (key u) (key v)) by (by apply is_lt_true).
  - intros v w Hv Hw Hb. rewrite (equal_key n), !(less_key n) by done.
    rewrite (strcmp_antisym (key v)), <- strcmp_eq. split.
    + destruct (strcmp (key v) (key w)); [done|by intros [? _]|by intros [_ ?]].
    + by intros ->.
Qed.

Lemma memcmp_prefix a b : memcmp a (a ++ b) (Nat.min (length a) (length (a ++ b))) = Eq.
Proof.
  unfold memcmp. rewrite length_app, Nat.min_l by lia. rewrite take_app_length, take_ge by lia.
  by apply strcmp_eq.
Qed.

(** The other values are no keys of a map: data of which one is a prefix of
    the other and oids of two databases with the same number are found for each
    other although operator== tells them apart, and of two lists each is less than
    the other. *)
Theorem not_map_keys :
  (forall p p' a b, b <> [] ->
     let v := tData p a in let w := tData p' (a ++ b) in
     less v w = Some false /\ less w v = Some false /\ equal v w = false)
  /\ (forall o o', getNX o = getNX o' -> o <> o' ->
     less (tOid o) (tOid o') = Some false /\ less (tOid o') (tOid o) = Some false
     /\ equal (tOid o) (tOid o') = false)
  /\ (forall l n l' n', l <> l' ->
     less (tList l n) (tList l' n') = Some true /\ less (tList l' n') (tList l n) = Some true).
Proof.
  split; [|split].
  - intros p p' a b Hb v w. subst v w. pose proof (memcmp_prefix a b) as E.
    split; [by cbn; rewrite E|]. split; [|].
    + cbn. rewrite Nat.min_comm. unfold memcmp in *. by rewrite strcmp_antisym, E.
    + cbn. rewrite length_app. destruct b; [done|]. cbn [length].
      rewrite (proj2 (Nat.eqb_neq _ _)) by lia. apply andb_false_r.
  - intros o o' E Hne. split; [|split].
    + cbn. by rewrite E, Z.ltb_irrefl.
    + cbn. by rewrite E, Z.ltb_irrefl.
    + apply bool_decide_eq_false. congruence.
  - intros l n l' n' Hl. cbn. rewrite (proj2 (Z.eqb_neq l l')), (proj2 (Z.eqb_neq l' l)) by congruence.
    by rewrite !andb_false_r.
Qed.

End Value.
