(* ===== verification/ValueCache.v ===== *)
(** * The cache of a collection

    src/eyedb/ValueCache.cc: the items inserted in a collection or suppressed from
    it since it was loaded, found by value and by index. An item is shared by two
    maps and counts them. [None] is a failed assertion, an undefined behaviour or
    an access to a null object. An item that is deleted leaves the memory, so that
    reading it afterwards, as suppress does, is undefined. *)

From S2P Require Import Prelude Oid Value.

#[local] Set Warnings "-register-all".

Abbreviation loc := positive.

(** Collection::State *)
Definition coherent : Z := 1.
Definition added : Z := 2.
Definition removed : Z := 3.

(** [~0] in an unsigned 32-bit id. *)
Definition DefaultItemID : Z := 2 ^ 32 - 1.

Section ValueCache.
Context {Oid : Type} `{OI : Oids Oid}.
Abbreviation Value := (Value.Value (Oid := Oid)).

Record ValueItem := mk_item { value : Value; id : Z; state : Z; refcnt : Z }.

(** [refs] are the references the items hold on objects, by address; [touched]
    and [unvalid] record that the container was told it has changed, and, when it
    is a collection, that its read cache is out of date. *)
Record ValueCache := mk_vcache {
  items : gmap loc ValueItem; fresh : loc;
  val_map : list (Value * loc); id_map : gmap Z loc; current_id : Z;
  refs : gmap Z Z; is_coll : bool; touched : bool; unvalid : bool }.

Implicit Types (c : ValueCache) (it : ValueItem) (v : Value) (l : loc).

Definition new_ValueCache (is_coll : bool) : ValueCache :=
  mk_vcache ∅ 1%positive [] ∅ 0 ∅ is_coll false false.

Definition set_items c h : ValueCache :=
  mk_vcache h (fresh c) (val_map c) (id_map c) (current_id c) (refs c) (is_coll c) (touched c) (unvalid c).
Definition set_val_map c m : ValueCache :=
  mk_vcache (items c) (fresh c) m (id_map c) (current_id c) (refs c) (is_coll c) (touched c) (unvalid c).
Definition set_id_map c m : ValueCache :=
  mk_vcache (items c) (fresh c) (val_map c) m (current_id c) (refs c) (is_coll c) (touched c) (unvalid c).
Definition set_current_id c n : ValueCache :=
  mk_vcache (items c) (fresh c) (val_map c) (id_map c) n (refs c) (is_coll c) (touched c) (unvalid c).
Definition set_refs c r : ValueCache :=
  mk_vcache (items c) (fresh c) (val_map c) (id_map c) (current_id c) r (is_coll c) (touched c) (unvalid c).

(** [if (o->asCollection()) o->asCollection()->unvalidReadCache(); o->touch();] *)
Definition changed c : ValueCache :=
  mk_vcache (items c) (fresh c) (val_map c) (id_map c) (current_id c) (refs c) (is_coll c)
    true (is_coll c || unvalid c).

(** The object a value holds a reference on. *)
Definition held v : option (option Object) := match v with tObject o => Some o | _ => None end.

Definition add_ref (r : gmap Z Z) (a n : Z) : gmap Z Z := <[a := default 0 (r !! a) + n]> r.

(** The constructor of ValueItem. *)
Definition new_ValueItem c v (i st : Z) : option (ValueCache * loc) :=
  c ← match held v with
      | Some o => o ← o; Some (set_refs c (add_ref (refs c) (addr o) 1))
      | None => Some c
      end;
  let l := fresh c in
  let c := set_items c (<[l := mk_item v i st 1]> (items c)) in
  Some (mk_vcache (items c) (Pos.succ l) (val_map c) (id_map c) (current_id c) (refs c) (is_coll c)
          (touched c) (unvalid c), l).

Definition incRef c l : option ValueCache :=
  it ← items c !! l;
  Some (set_items c (<[l := mk_item (value it) (id it) (state it) (u32 (refcnt it + 1))]> (items c))).

(** ValueItem::release: the last reference deletes the item. *)
Definition release c l : option ValueCache :=
  it ← items c !! l;
  let n := u32 (refcnt it - 1) in
  if n =? 0 then
    let c := set_items c (delete l (items c)) in
    match held (value it) with
    | Some o => o ← o; Some (set_refs c (add_ref (refs c) (addr o) (-1)))
    | None => Some c
    end
  else Some (set_items c (<[l := mk_item (value it) (id it) (state it) n]> (items c))).

(** A read of an item. *)
Definition read c l : option ValueItem := items c !! l.

Definition item_setState c l (st : Z) : option ValueCache :=
  it ← read c l;
  if state it =? st then Some c
  else Some (changed (set_items c (<[l := mk_item (value it) (id it) st (refcnt it)]> (items c)))).

(** ** std::map<Value, ValueItem *> : a key is found when neither is less. *)

Fixpoint val_find v (m : list (Value * loc)) : option (option loc) :=
  match m with
  | [] => Some None
  | (k, l) :: m =>
      lt ← less k v; gt ← less v k;
      if lt || gt : bool then val_find v m else Some (Some l)
  end.

Fixpoint val_set v l (m : list (Value * loc)) : option (list (Value * loc)) :=
  match m with
  | [] => Some [(v, l)]
  | (k, l') :: m =>
      lt ← less k v; gt ← less v k;
      if lt || gt : bool then m ← val_set v l m; Some ((k, l') :: m) else Some ((k, l) :: m)
  end.

Fixpoint val_erase v (m : list (Value * loc)) : option (list (Value * loc)) :=
  match m with
  | [] => Some []
  | (k, l) :: m =>
      lt ← less k v; gt ← less v k;
      if lt || gt : bool then m ← val_erase v m; Some ((k, l) :: m) else Some m
  end.

(** ** The operations *)

Definition release_some c (r : option loc) : option ValueCache :=
  match r with Some l => release c l | None => Some c end.

Definition insert c v (i st : Z) : option ValueCache :=
  let '(i, c) := if i =? DefaultItemID then (current_id c, set_current_id c (u32 (current_id c + 1)))
                 else (i, c) in
  '(c, l) ← new_ValueItem c v i st;
  c ← incRef c l;
  r ← val_find v (val_map c);
  c ← release_some c r;
  m ← val_set v l (val_map c);
  let c := set_val_map c m in
  c ← release_some c (id_map c !! i);
  let c := set_id_map c (<[i := l]> (id_map c)) in
  Some (changed c).

(** [item] is read again after each release, the last one included. *)
Definition suppress c (item : loc) : option ValueCache :=
  it ← read c item;
  r ← val_find (value it) (val_map c);
  match r with
  | None => None
  | Some l =>
      c ← release c l;
      it ← read c item;
      m ← val_erase (value it) (val_map c);
      let c := set_val_map c m in
      it ← read c item;
      match id_map c !! id it with
      | None => None
      | Some l =>
          c ← release c l;
          it ← read c item;
          Some (changed (set_id_map c (delete (id it) (id_map c))))
      end
  end.

Definition get_id c (i : Z) : option loc := id_map c !! i.
Definition get c v : option (option loc) := val_find v (val_map c).

Definition size_ c : Z := Z.of_nat (length (val_map c)).

Fixpoint release_all c (ls : list loc) : option ValueCache :=
  match ls with [] => Some c | l :: ls => c ← release c l; release_all c ls end.

Definition empty c : option ValueCache :=
  c ← release_all c (snd <$> val_map c);
  let c := set_val_map c [] in
  c ← release_all c (snd <$> map_to_list (id_map c));
  Some (set_id_map c ∅).

(** An item that was added and is now removed is erased from the map through the
    iterator the loop goes on with: undefined. *)
Fixpoint setState_loop c (ls : list loc) (st : Z) : option ValueCache :=
  match ls with
  | [] => Some c
  | l :: ls =>
      it ← items c !! l;
      if (st =? removed) && (state it =? added) then None
      else c ← item_setState c l st; setState_loop c ls st
  end.
Definition setState c (st : Z) : option ValueCache :=
  setState_loop c (snd <$> map_to_list (id_map c)) st.

(** ** The map of values as a map of keys *)

Definition key_of (e : Value * loc) : list Z := key (fst e).
Definition keys (m : list (Value * loc)) : gmap (list Z) loc :=
  list_to_map ((fun e => (key_of e, snd e)) <$> m).

#[local] Arguments keys : simpl never.
#[local] Arguments filter : simpl never.

(** [n] is the size of the items of a collection of data. *)
Context (n : nat).

Record good (m : list (Value * loc)) : Prop := {
  good_plain : Forall (fun e => plain n (fst e) = true) m;
  good_nodup : NoDup (key_of <$> m)
}.

Lemma equiv_key k v :
  plain n k = true -> plain n v = true ->
  exists lt gt, less k v = Some lt /\ less v k = Some gt /\ lt || gt = negb (bool_decide (key k = key v)).
Proof.
  intros Hk Hv. rewrite !(less_key n) by done. do 2 eexists. split; [done|]. split; [done|].
  rewrite (strcmp_antisym (key k) (key v)). destruct (strcmp (key k) (key v)) eqn:E.
  - rewrite bool_decide_true; [done|]. by apply strcmp_eq.
  - rewrite bool_decide_false; [done|]. intros H. apply strcmp_eq in H. congruence.
  - rewrite bool_decide_false; [done|]. intros H. apply strcmp_eq in H. congruence.
Qed.

Lemma good_cons e m :
  good (e :: m) -> plain n (fst e) = true /\ (key_of e ∉ (key_of <$> m)) /\ good m.
Proof.
  intros [H1 H2]. apply Forall_cons in H1 as [? ?]. rewrite fmap_cons in H2.
  apply NoDup_cons in H2 as [? ?]. done.
Qed.

Lemma keys_cons e m : keys (e :: m) = <[key_of e := snd e]> (keys m).
Proof. done. Qed.

Lemma keys_None k m : (k ∉ (key_of <$> m)) <-> keys m !! k = None.
Proof.
  unfold keys. rewrite <- not_elem_of_list_to_map, <- list_fmap_compose. done.
Qed.

Lemma val_find_spec v m :
  good m -> plain n v = true -> val_find v m = Some (keys m !! key v).
Proof.
  intros Hm Hv. induction m as [|[k l] m IH]; [done|].
  apply good_cons in Hm as (Hk & _ & Hm). cbn [val_find fst] in *.
  destruct (equiv_key k v Hk Hv) as (lt & gt & -> & -> & E). cbn [mbind option_bind].
  rewrite E, IH, keys_cons by done. unfold key_of; cbn [fst snd].
  case_bool_decide as H; cbn [negb].
  - rewrite <- H. by rewrite lookup_insert_eq.
  - by rewrite lookup_insert_ne.
Qed.

Lemma val_set_spec v l m :
  good m -> plain n v = true ->
  exists m', val_set v l m = Some m' /\ good m' /\ keys m' = <[key v := l]> (keys m)
    /\ (keys m !! key v = None -> length m' = S (length m)).
Proof.
  intros Hm Hv. induction m as [|[k l'] m IH].
  - exists [(v, l)]. split; [done|]. split; [|done]. split; [by repeat constructor|].
    cbn. constructor; [apply not_elem_of_nil|constructor].
  - pose proof (good_cons _ _ Hm) as (Hk & Hn & Hm'). cbn [val_set fst] in *.
    destruct (equiv_key k v Hk Hv) as (lt & gt & -> & -> & E). cbn [mbind option_bind].
    rewrite E, keys_cons. unfold key_of in *; cbn [fst snd] in *. case_bool_decide as H; cbn [negb].
    + exists ((k, l) :: m). split; [done|]. split.
      * destruct Hm as [H1 H2]. split; [|done]. apply Forall_cons in H1 as [? ?]. by constructor.
      * rewrite keys_cons. unfold key_of; cbn [fst snd]. rewrite H, insert_insert_eq. split; [done|].
        by rewrite lookup_insert_eq.
    + destruct (IH Hm') as (m' & -> & Hg & Ek & El). cbn [mbind option_bind].
      exists ((k, l') :: m'). split; [done|]. split.
      * destruct Hg as [H1 H2]. split; [by constructor|]. rewrite fmap_cons. constructor; [|done].
        apply keys_None. rewrite Ek, lookup_insert_ne by done. by apply keys_None.
      * rewrite keys_cons, Ek. unfold key_of; cbn [fst snd]. rewrite insert_insert_ne by done. split; [done|].
        rewrite lookup_insert_ne by done. intros Hx. cbn. by rewrite El.
Qed.

Lemma val_erase_spec v m :
  good m -> plain n v = true ->
  exists m', val_erase v m = Some m' /\ good m' /\ keys m' = delete (key v) (keys m).
Proof.
  intros Hm Hv. induction m as [|[k l] m IH].
  - exists []. split; [done|]. split; [done|]. symmetry. apply delete_empty.
  - pose proof (good_cons _ _ Hm) as (Hk & Hn & Hm'). cbn [val_erase fst] in *.
    destruct (equiv_key k v Hk Hv) as (lt & gt & -> & -> & E). cbn [mbind option_bind].
    rewrite E, keys_cons. unfold key_of in *; cbn [fst snd] in *. case_bool_decide as H; cbn [negb].
    + exists m. split; [done|]. split; [done|]. rewrite <- H, delete_insert_id; [done|].
      by apply keys_None.
    + destruct (IH Hm') as (m' & -> & Hg & Ek). cbn [mbind option_bind].
      exists ((k, l) :: m'). split; [done|]. split.
      * destruct Hg as [H1 H2]. split; [by constructor|]. rewrite fmap_cons. constructor; [|done].
        apply keys_None. rewrite Ek, lookup_delete_ne by done. by apply keys_None.
      * rewrite keys_cons, Ek. unfold key_of; cbn [fst snd]. by rewrite delete_insert_ne.
Qed.

(** ** Caches whose items are in both maps *)

(** The entries of a cache by the key of their value: value, index, state. *)
Abbreviation entries := (gmap (list Z) (Value * Z * Z)).
Implicit Types m : entries.

Definition held_at (a : Z) v : bool :=
  match v with tObject (Some o) => addr o =? a | _ => false end.
Definition holds (a : Z) (e : list Z * (Value * Z * Z)) : Prop := held_at a (snd e).1.1 = true.
#[local] Instance holds_dec a e : Decision (holds a e).
Proof. unfold holds. apply _. Defined.

Record paired c m : Prop := {
  p_good : good (val_map c);
  p_entry k v i st : m !! k = Some (v, i, st) ->
    key v = k /\ plain n v = true /\ 0 <= i < DefaultItemID
    /\ exists l, keys (val_map c) !! k = Some l /\ id_map c !! i = Some l
        /\ items c !! l = Some (mk_item v i st 2);
  p_val k l : keys (val_map c) !! k = Some l -> is_Some (m !! k);
  p_id i l : id_map c !! i = Some l -> exists k v st, m !! k = Some (v, i, st);
  p_fresh l : is_Some (items c !! l) -> (l < fresh c)%positive;
  p_refs a : default 0 (refs c !! a) = Z.of_nat (size (filter (holds a) m))
}.

Definition fresh_id m (i : Z) : Prop := forall k v st, m !! k <> Some (v, i, st).

Lemma new_paired b : paired (new_ValueCache b) ∅.
Proof.
  split; cbn.
  - split; constructor.
  - intros k v i st H. by rewrite lookup_empty in H.
  - done.
  - done.
  - intros l [? H]. by rewrite lookup_empty in H.
  - intros a. by rewrite map_filter_empty, map_size_empty.
Qed.

Lemma paired_none c m k : paired c m -> m !! k = None -> keys (val_map c) !! k = None.
Proof.
  intros P H. destruct (keys _ !! k) as [l|] eqn:E; [|done]. apply (p_val _ _ P) in E as [? ?]. congruence.
Qed.

Lemma paired_fresh_id c m i : paired c m -> fresh_id m i -> id_map c !! i = None.
Proof.
  intros P H. destruct (id_map c !! i) as [l|] eqn:E; [|done].
  apply (p_id _ _ P) in E as (k & v & st & E). by destruct (H k v st).
Qed.

(** An item is the one of one value and of one index. *)
Lemma paired_inj c m k v i st k' v' i' st' l :
  paired c m -> m !! k = Some (v, i, st) -> m !! k' = Some (v', i', st') ->
  items c !! l = Some (mk_item v i st 2) ->
  (keys (val_map c) !! k' = Some l \/ id_map c !! i' = Some l) -> k' = k.
Proof.
  intros P H H' Hl Hk. destruct (p_entry _ _ P _ _ _ _ H) as (<- & _).
  destruct (p_entry _ _ P _ _ _ _ H') as (<- & _ & _ & l' & E1 & E2 & E3).
  assert (l' = l) as -> by (destruct Hk; congruence). congruence.
Qed.

Lemma paired_id_inj c m k v i st k' v' st' :
  paired c m -> m !! k = Some (v, i, st) -> m !! k' = Some (v', i, st') -> k' = k.
Proof.
  intros P H H'. destruct (p_entry _ _ P _ _ _ _ H) as (_ & _ & _ & l & _ & E2 & E3).
  by apply (paired_inj _ _ _ _ _ _ _ _ _ _ l P H H' E3); right.
Qed.

Lemma add_ref_held r v m a k i st :
  m !! k = None -> (forall a, default 0 (r !! a) = Z.of_nat (size (filter (holds a) m))) ->
  default 0 (match held v with Some (Some o) => add_ref r (addr o) 1 | _ => r end !! a)
  = Z.of_nat (size (filter (holds a) (<[k := (v, i, st)]> m))).
Proof.
  intros Hk Hr. destruct (decide (holds a (k, (v, i, st)))) as [H|H].
  - rewrite map_filter_insert_True by done. rewrite map_size_insert_None by (apply map_lookup_filter_None; by left).
    unfold holds, held_at in H. cbn in H. destruct v as [| | | | | | | | | | | | |[o|]| | | | | | |]; try done.
    apply Z.eqb_eq in H as <-. cbn. unfold add_ref. rewrite lookup_insert_eq. cbn. rewrite Hr. lia.
  - rewrite map_filter_insert_False by done. rewrite delete_id by done. rewrite <- Hr.
    unfold holds, held_at in H. cbn in H. destruct v as [| | | | | | | | | | | | |[o|]| | | | | | |]; try done.
    cbn. unfold add_ref. rewrite lookup_insert_ne; [done|]. intros E. by apply H, Z.eqb_eq.
Qed.

Lemma new_item_spec c v i st :
  plain n v = true ->
  new_ValueItem c v i st
  = Some (mk_vcache (<[fresh c := mk_item v i st 1]> (items c)) (Pos.succ (fresh c)) (val_map c)
            (id_map c) (current_id c)
            (match held v with Some (Some o) => add_ref (refs c) (addr o) 1 | _ => refs c end)
            (is_coll c) (touched c) (unvalid c), fresh c).
Proof. intros Hv. unfold new_ValueItem. destruct v as [| | | | | | | | | | | | |[o|]| | | | | | |]; done. Qed.

(** What insert makes of a cache that has neither the value nor the index. *)
Definition inserted c v (i st : Z) (vm : list (Value * loc)) : ValueCache :=
  changed (mk_vcache (<[fresh c := mk_item v i st 2]> (items c)) (Pos.succ (fresh c)) vm
    (<[i := fresh c]> (id_map c)) (current_id c)
    (match held v with Some (Some o) => add_ref (refs c) (addr o) 1 | _ => refs c end)
    (is_coll c) (touched c) (unvalid c)).

Lemma insert_new c v i st :
  good (val_map c) -> plain n v = true -> 0 <= i < DefaultItemID ->
  keys (val_map c) !! key v = None -> id_map c !! i = None ->
  exists vm, insert c v i st = Some (inserted c v i st vm) /\ good vm /\ keys vm = <[key v := fresh c]> (keys (val_map c)).
Proof.
  intros Hg Hv Hi Hk Hf. unfold insert. rewrite (proj2 (Z.eqb_neq _ _)) by lia.
  rewrite new_item_spec by done. cbn [mbind option_bind]. unfold incRef. cbn [items].
  rewrite lookup_insert_eq. cbn [mbind option_bind value id state refcnt].
  unfold set_items. cbn. rewrite insert_insert_eq.
  rewrite (val_find_spec v (val_map c)), Hk by done. cbn.
  destruct (val_set_spec v (fresh c) (val_map c) Hg Hv) as (vm & -> & Hg' & Ek & _). cbn.
  rewrite Hf. cbn. by exists vm.
Qed.

Lemma insert_spec c m v i st :
  paired c m -> plain n v = true -> 0 <= i < DefaultItemID -> m !! key v = None -> fresh_id m i ->
  exists c', insert c v i st = Some c' /\ paired c' (<[key v := (v, i, st)]> m)
    /\ current_id c' = current_id c /\ touched c' = true.
Proof.
  intros P Hv Hi Hk Hf.
  destruct (insert_new c v i st (p_good _ _ P) Hv Hi (paired_none _ _ _ P Hk) (paired_fresh_id _ _ _ P Hf))
    as (vm & -> & Hg & Ek). exists (inserted c v i st vm). split; [done|]. split; [|done].
  assert (forall l, is_Some (items c !! l) -> l <> fresh c) as Hne.
  { intros l Hl%(p_fresh _ _ P) ->. lia. }
  split; cbn.
  - done.
  - intros k v' i' st' H. rewrite lookup_insert in H. rewrite Ek. case_decide as Hkey.
    + injection H as <- <- <-. subst k. split; [done|]. split; [done|]. split; [done|].
      exists (fresh c). by rewrite !lookup_insert_eq.
    + destruct (p_entry _ _ P _ _ _ _ H) as (? & ? & ? & l & ? & ? & El). repeat (split; [done|]).
      exists l. rewrite lookup_insert_ne by done. split; [done|].
      rewrite !lookup_insert_ne; [done|..].
      * intros E. by apply (Hne l ltac:(eauto)).
      * intros E. subst i'. by apply (Hf _ _ _ H).
  - intros k l. rewrite Ek, !lookup_insert. case_decide; [by eauto|]. apply (p_val _ _ P).
  - intros i' l. rewrite lookup_insert. case_decide as Hii; [subst i'|].
    + intros _. exists (key v), v, st. by rewrite lookup_insert_eq.
    + intros H. destruct (p_id _ _ P _ _ H) as (k & v' & st' & E). exists k, v', st'.
      rewrite lookup_insert_ne; [done|]. intros <-. congruence.
  - intros l. rewrite lookup_insert. case_decide; [subst; lia|]. intros Hx%(p_fresh _ _ P). lia.
  - intros a. apply add_ref_held; [done|]. apply (p_refs _ _ P).
Qed.

(** The index ~0 takes the next index of the cache. *)
Lemma insert_default c v st :
  0 <= current_id c < DefaultItemID ->
  insert c v DefaultItemID st = insert (set_current_id c (current_id c + 1)) v (current_id c) st.
Proof.
  intros H. unfold insert. rewrite Z.eqb_refl, (proj2 (Z.eqb_neq (current_id c) _)) by lia.
  by rewrite u32_id by (unfold DefaultItemID in H; lia).
Qed.

Lemma paired_current c m j : paired c m -> paired (set_current_id c j) m.
Proof. intros []. by split. Qed.

Lemma drop_ref_held r v m a k i st :
  m !! k = Some (v, i, st) -> (forall a, default 0 (r !! a) = Z.of_nat (size (filter (holds a) m))) ->
  default 0 (match held v with Some (Some o) => add_ref r (addr o) (-1) | _ => r end !! a)
  = Z.of_nat (size (filter (holds a) (delete k m))).
Proof.
  intros Hk Hr. rewrite map_filter_delete. destruct (decide (holds a (k, (v, i, st)))) as [H|H].
  - rewrite map_size_delete_Some by (exists (v, i, st); by apply map_lookup_filter_Some).
    assert (size (filter (holds a) m) <> 0)%nat as Hs.
    { intros E%map_size_empty_iff. assert (filter (holds a) m !! k = Some (v, i, st)) as Hx
        by (by apply map_lookup_filter_Some). rewrite E in Hx. by rewrite lookup_empty in Hx. }
    unfold holds, held_at in H. cbn in H. destruct v as [| | | | | | | | | | | | |[o|]| | | | | | |]; try done.
    apply Z.eqb_eq in H as <-. cbn. unfold add_ref. rewrite lookup_insert_eq. cbn. rewrite Hr. lia.
  - rewrite delete_id.
    + rewrite <- Hr. unfold holds, held_at in H. cbn in H.
      destruct v as [| | | | | | | | | | | | |[o|]| | | | | | |]; try done.
      cbn. unfold add_ref. rewrite lookup_insert_ne; [done|]. intros E. by apply H, Z.eqb_eq.
    + apply map_lookup_filter_None. right. intros x Hx. by rewrite Hk in Hx; injection Hx as <-.
Qed.

(** The first reference of an item, in the map of values. *)
Lemma release_first c l v i st :
  items c !! l = Some (mk_item v i st 2) ->
  release c l = Some (set_items c (<[l := mk_item v i st 1]> (items c))).
Proof. intros H. unfold release. rewrite H. done. Qed.

(** The last one. *)
Lemma release_last c l v i st :
  plain n v = true -> items c !! l = Some (mk_item v i st 1) ->
  release c l = Some (set_refs (set_items c (delete l (items c)))
                        (match held v with Some (Some o) => add_ref (refs c) (addr o) (-1) | _ => refs c end)).
Proof.
  intros Hv H. unfold release. rewrite H. cbn.
  destruct v as [| | | | | | | | | | | | |[o|]| | | | | | |]; by destruct c.
Qed.

(** Suppressing an item of both maps deletes it and then reads its index. *)
Lemma suppress_undefined c m k v i st l :
  paired c m -> m !! k = Some (v, i, st) -> keys (val_map c) !! k = Some l -> suppress c l = None.
Proof.
  intros P Hm Hk. destruct (p_entry _ _ P _ _ _ _ Hm) as (<- & Hv & _ & l' & Ek & Ei & El).
  assert (l' = l) as -> by congruence.
  destruct (val_erase_spec v (val_map c) (p_good _ _ P) Hv) as (vm & Em & _).
  unfold suppress, read. rewrite El. cbn. rewrite val_find_spec, Hk by (done || apply P). cbn.
  rewrite (release_first _ _ _ _ _ El). cbn. rewrite lookup_insert_eq. cbn. rewrite Em. cbn.
  rewrite Ei. cbn.
  rewrite (release_last _ l v i st) by (done || apply lookup_insert_eq). cbn. by rewrite lookup_delete_eq.
Qed.

Lemma item_setState_spec c m k v i st st' l :
  paired c m -> m !! k = Some (v, i, st) -> keys (val_map c) !! k = Some l ->
  exists c', item_setState c l st' = Some c' /\ paired c' (<[k := (v, i, st')]> m)
    /\ current_id c' = current_id c.
Proof.
  intros P Hm Hk. destruct (p_entry _ _ P _ _ _ _ Hm) as (<- & Hv & Hi & l' & Ek & Ei & El).
  assert (l' = l) as -> by congruence.
  unfold item_setState, read. rewrite El. cbn.
  destruct (Z.eqb_spec st st') as [<-|Hst].
  - exists c. split; [done|]. split; [|done]. by rewrite insert_id.
  - eexists. split; [done|]. split; [|done]. split; cbn.
    + apply P.
    + intros k' v' i' s H. rewrite lookup_insert in H. case_decide as Hkk.
      * injection H as <- <- <-. subst k'. repeat (split; [done|]). exists l. by rewrite lookup_insert_eq.
      * destruct (p_entry _ _ P _ _ _ _ H) as (? & ? & ? & l' & Ek' & Ei' & El').
        repeat (split; [done|]). exists l'. rewrite lookup_insert_ne; [done|].
        intros <-. apply Hkk. symmetry. by apply (paired_inj _ _ _ _ _ _ _ _ _ _ l P Hm H El); left.
    + intros k' l'. rewrite lookup_insert. case_decide; [by eauto|]. apply (p_val _ _ P).
    + intros i' l' H. destruct (p_id _ _ P _ _ H) as (k' & v' & s & E).
      destruct (decide (k' = key v)) as [->|Hne].
      * rewrite Hm in E. injection E as <- <- <-. exists (key v), v, st'. by rewrite lookup_insert_eq.
      * exists k', v', s. by rewrite lookup_insert_ne.
    + intros l'. rewrite lookup_insert. case_decide; [|apply (p_fresh _ _ P)].
      intros _. subst l'. apply (p_fresh _ _ P). by eexists.
    + intros a. rewrite (p_refs _ _ P).
      rewrite <- (insert_id m (key v) (v, i, st)) by done.
      rewrite insert_insert_eq. f_equal.
      destruct (held_at a v) eqn:Ha.
      * rewrite !map_filter_insert_True by done. by rewrite !map_size_insert.
      * rewrite !map_filter_insert_False by (unfold holds; cbn; by rewrite Ha). done.
Qed.

(** ** Emptying a cache *)

Lemma val_map_key vm e : good vm -> e ∈ vm -> keys vm !! key_of e = Some (snd e).
Proof.
  intros Hg He. unfold keys. apply elem_of_list_to_map_1.
  - rewrite <- list_fmap_compose. apply (good_nodup _ Hg).
  - apply list_elem_of_fmap. by exists e.
Qed.

(** The items of both maps, by their places and by the entries. *)
Lemma val_items c m e : paired c m -> e ∈ val_map c ->
  exists v i st, m !! key v = Some (v, i, st) /\ key v = key_of e /\ id_map c !! i = Some (snd e) /\ items c !! snd e = Some (mk_item v i st 2).
Proof.
  intros P He. pose proof (val_map_key _ _ (p_good _ _ P) He) as Ek. destruct (p_val _ _ P _ _ Ek) as [[[v i] st] Hm].
  destruct (p_entry _ _ P _ _ _ _ Hm) as (Hk & _ & _ & l & Ek' & Ei & El). exists v, i, st.
  assert (l = snd e) as -> by congruence. by rewrite Hk.
Qed.
Lemma val_items_nodup c m : paired c m -> NoDup (snd <$> val_map c).
Proof.
  intros P. pose proof (good_nodup _ (p_good _ _ P)) as Hnd. apply NoDup_fmap_1 in Hnd as Hnd'. apply NoDup_fmap_2_strong; [|done].
  intros e e' He He' E. destruct (val_items _ _ _ P He) as (v & i & st & _ & Hk & _ & El), (val_items _ _ _ P He') as (v' & i' & st' & _ & Hk' & _ & El').
  assert (key_of e = key_of e') as Eke by congruence. apply list_elem_of_lookup in He as [a Ha], He' as [b Hb].
  assert (a = b) as ->; [|congruence]. eapply NoDup_lookup; [exact Hnd| |]; rewrite list_lookup_fmap; [by rewrite Ha|by rewrite Hb, Eke].
Qed.
Lemma id_items c m i l : paired c m -> id_map c !! i = Some l ->
  exists v st, m !! key v = Some (v, i, st) /\ keys (val_map c) !! key v = Some l /\ items c !! l = Some (mk_item v i st 2).
Proof.
  intros P Hi. destruct (p_id _ _ P _ _ Hi) as (k & v & st & Hm). destruct (p_entry _ _ P _ _ _ _ Hm) as (<- & _ & _ & l' & Ek & Ei & El).
  exists v, st. by assert (l' = l) as -> by congruence.
Qed.
Lemma id_items_nodup c m : paired c m -> NoDup (snd <$> map_to_list (id_map c)).
Proof.
  intros P. apply NoDup_fmap_2_strong; [|apply NoDup_map_to_list]. intros [i l] [i' l'] Hi%elem_of_map_to_list Hi'%elem_of_map_to_list E. cbn in E. subst l'.
  destruct (id_items _ _ _ _ P Hi) as (v & st & _ & _ & El), (id_items _ _ _ _ P Hi') as (v' & st' & _ & _ & El'). congruence.
Qed.

(** The references of the map of values. *)
Lemma release_all_first ls : forall c, NoDup ls -> (forall l, l ∈ ls -> exists v i st, items c !! l = Some (mk_item v i st 2)) ->
  exists h, release_all c ls = Some (set_items c h)
    /\ (forall l v i st, l ∈ ls -> items c !! l = Some (mk_item v i st 2) -> h !! l = Some (mk_item v i st 1))
    /\ (forall l, (l ∉ ls) -> h !! l = items c !! l).
Proof.
  induction ls as [|l ls IH]; intros c Hnd Hl; [exists (items c); split; [by destruct c|split; [set_solver|done]]|].
  apply NoDup_cons in Hnd as [Hn Hnd]. destruct (Hl l) as (v & i & st & El); [set_solver|]. cbn [release_all]. rewrite (release_first _ _ _ _ _ El). cbn [mbind option_bind].
  assert (forall l', l' ∈ ls -> items (set_items c (<[l := mk_item v i st 1]> (items c))) !! l' = items c !! l') as Hs
    by (intros l' Hl'; cbn; rewrite lookup_insert_ne; [done|by intros ->]).
  destruct (IH (set_items c (<[l := mk_item v i st 1]> (items c))) Hnd) as (h & E & H1 & H2).
  { intros l' Hl'. rewrite (Hs _ Hl'). apply Hl. set_solver. }
  exists h. split; [by rewrite E|]. split.
  - intros l' v' i' st' [->|Hl']%elem_of_cons El'.
    + rewrite H2 by done. cbn. rewrite lookup_insert_eq. congruence.
    + apply H1; [done|]. by rewrite (Hs _ Hl').
  - intros l' Hl'. rewrite H2 by set_solver. cbn. rewrite lookup_insert_ne; [done|set_solver].
Qed.

(** The entries of which the item has one reference left, that of the map of indexes. *)
Record halved (im : gmap Z loc) c m (ls : list loc) : Prop := {
  hv_item l : l ∈ ls -> exists v i st, m !! key v = Some (v, i, st) /\ plain n v = true /\ im !! i = Some l /\ items c !! l = Some (mk_item v i st 1);
  hv_entry k : is_Some (m !! k) -> exists l v i st, l ∈ ls /\ k = key v /\ items c !! l = Some (mk_item v i st 1);
  hv_fresh l : is_Some (items c !! l) -> (l < fresh c)%positive;
  hv_refs a : default 0 (refs c !! a) = Z.of_nat (size (filter (holds a) m)) }.
Lemma release_all_last im ls : forall c m, NoDup ls -> halved im c m ls ->
  exists c', release_all c ls = Some c' /\ halved im c' ∅ [] /\ val_map c' = val_map c /\ current_id c' = current_id c.
Proof.
  induction ls as [|l ls IH]; intros c m Hnd Hh.
  - exists c. split; [done|]. split; [|done]. assert (m = ∅) as ->; [|done]. apply map_empty. intros k.
    destruct (m !! k) eqn:E; [|done]. destruct (hv_entry _ _ _ _ Hh k) as (l & ? & ? & ? & Hl & _); [by eexists|]. by apply not_elem_of_nil in Hl.
  - apply NoDup_cons in Hnd as [Hn Hnd]. destruct (hv_item _ _ _ _ Hh l) as (v & i & st & Hm & Hv & Hi & El); [set_solver|].
    cbn [release_all]. rewrite (release_last _ _ _ _ _ Hv El). cbn [mbind option_bind]. set (c1 := set_refs _ _).
    assert (forall l', l' ∈ ls -> items c1 !! l' = items c !! l') as Hs by (intros l' Hl'; cbn; rewrite lookup_delete_ne; [done|by intros ->]).
    destruct (IH c1 (delete (key v) m) Hnd) as (c' & E & Hh' & Ev & Ec); [|exists c'; by rewrite E]. split.
    + intros l' Hl'. destruct (hv_item _ _ _ _ Hh l') as (v' & i' & st' & Hm' & Hv' & Hi' & El'); [set_solver|]. exists v', i', st'.
      rewrite (Hs _ Hl'), lookup_delete_ne; [done|]. intros Ek. assert (i' = i) as -> by (rewrite Ek in Hm; congruence). assert (l' = l) as -> by congruence. done.
    + intros k [x Hk]. apply lookup_delete_Some in Hk as [Hne Hk]. destruct (hv_entry _ _ _ _ Hh k) as (l' & v' & i' & st' & Hl' & -> & El'); [by eexists|].
      apply elem_of_cons in Hl' as [->|Hl']; [congruence|]. exists l', v', i', st'. by rewrite (Hs _ Hl').
    + intros l' [it Hit]. cbn in Hit. apply lookup_delete_Some in Hit as [_ Hit]. apply (hv_fresh _ _ _ _ Hh). by eexists.
    + intros a. apply (drop_ref_held _ _ _ _ _ _ _ Hm). apply (hv_refs _ _ _ _ Hh).
Qed.

Lemma emptied_spec c m : paired c m -> exists c', empty c = Some c' /\ paired c' ∅ /\ current_id c' = current_id c.
Proof.
  intros P. unfold empty. destruct (release_all_first (snd <$> val_map c) c (val_items_nodup _ _ P)) as (h & -> & H1 & H2).
  { intros l (e & -> & He)%list_elem_of_fmap. destruct (val_items _ _ _ P He) as (v & i & st & _ & _ & _ & El). by exists v, i, st. }
  cbn [mbind option_bind]. change (id_map (set_val_map _ _)) with (id_map c). set (c1 := set_val_map _ _).
  assert (forall k l, keys (val_map c) !! k = Some l -> l ∈ (snd <$> val_map c)) as Hin.
  { intros k l Hk. unfold keys in Hk. apply elem_of_list_to_map_2 in Hk. apply list_elem_of_fmap in Hk as (e & [= -> ->] & He). apply list_elem_of_fmap. by exists e. }
  destruct (release_all_last (id_map c) (snd <$> map_to_list (id_map c)) c1 m (id_items_nodup _ _ P)) as (c2 & -> & Hh & Ev & Ec).
  - split.
    + intros l ([i l'] & -> & Hi%elem_of_map_to_list)%list_elem_of_fmap. destruct (id_items _ _ _ _ P Hi) as (v & st & Hm & Hk & El).
      destruct (p_entry _ _ P _ _ _ _ Hm) as (_ & Hv & _). exists v, i, st. split; [done|]. split; [done|]. split; [done|]. cbn. apply H1; [by eapply Hin|done].
    + intros k [[[v i] st] Hm]. destruct (p_entry _ _ P _ _ _ _ Hm) as (<- & Hv & _ & l & Hk & Hi & El). exists l, v, i, st.
      split; [apply list_elem_of_fmap; exists (i, l); split; [done|by apply elem_of_map_to_list]|]. split; [done|]. cbn. apply H1; [by eapply Hin|done].
    + intros l [it Hl]. cbn in *. apply (p_fresh _ _ P). destruct (decide (l ∈ snd <$> val_map c)) as [Hd|Hd]; [|rewrite <- H2 by done; by eexists].
      apply list_elem_of_fmap in Hd as (e & -> & He). destruct (val_items _ _ _ P He) as (? & ? & ? & _ & _ & _ & El). by eexists.
    + apply (p_refs _ _ P).
  - cbn [mbind option_bind]. exists (set_id_map c2 ∅). split; [done|]. split; [|done]. split; cbn.
    + rewrite Ev. split; constructor.
    + intros k v i st. by rewrite lookup_empty.
    + intros k l. by rewrite Ev.
    + intros i l. by rewrite lookup_empty.
    + apply (hv_fresh _ _ _ _ Hh).
    + apply (hv_refs _ _ _ _ Hh).
Qed.

(** ** Sequences of operations *)

(** An item is taken by its value or by its index. *)
Inductive op :=
| Insert v (i st : Z)
| Get v | GetAt (i : Z)
| Suppress v | SuppressAt (i : Z)
| SetState v (st : Z)
| Empty.

(** The item of a pointer, when it is not null. *)
Definition item_of c (r : option loc) : option (option (Value * Z * Z)) :=
  match r with
  | None => Some None
  | Some l => it ← read c l; Some (Some (value it, id it, state it))
  end.

Definition run_op c (x : op) : option (ValueCache * option (Value * Z * Z)) :=
  match x with
  | Insert v i st => c ← insert c v i st; Some (c, None)
  | Get v => r ← get c v; r ← item_of c r; Some (c, r)
  | GetAt i => r ← item_of c (get_id c i); Some (c, r)
  | Suppress v => r ← get c v; l ← r; c ← suppress c l; Some (c, None)
  | SuppressAt i => l ← get_id c i; c ← suppress c l; Some (c, None)
  | SetState v st => r ← get c v; l ← r; c ← item_setState c l st; Some (c, None)
  | Empty => c ← empty c; Some (c, None)
  end.
Fixpoint run c (xs : list op) : option (ValueCache * list (option (Value * Z * Z))) :=
  match xs with
  | [] => Some (c, [])
  | x :: xs => '(c, r) ← run_op c x; '(c, rs) ← run c xs; Some (c, r :: rs)
  end.

(** The same on a map of entries and the next index; [None] is undefined. *)
Definition at_id m (i : Z) : option (list Z) :=
  fst <$> head (filter (fun e => (snd e).1.2 = i) (map_to_list m)).

Definition spec_op m (j : Z) (x : op) : option (entries * Z * option (Value * Z * Z)) :=
  match x with
  | Insert v i st =>
      Some (if i =? DefaultItemID then (<[key v := (v, j, st)]> m, j + 1, None) else (<[key v := (v, i, st)]> m, j, None))
  | Get v => Some (m, j, m !! key v)
  | GetAt i => Some (m, j, at_id m i ≫= (m !!.))
  | Suppress _ | SuppressAt _ => None
  | SetState v st => Some (alter (fun e => (e.1, st)) (key v) m, j, None)
  | Empty => Some (∅, j, None)
  end.
Fixpoint spec m (j : Z) (xs : list op) : option (entries * list (option (Value * Z * Z))) :=
  match xs with
  | [] => Some (m, [])
  | x :: xs => '(m, j, r) ← spec_op m j x; '(m, rs) ← spec m j xs; Some (m, r :: rs)
  end.

(** A new value gets a new index; what is suppressed or set is there. *)
Definition legal_op m (j : Z) (x : op) : Prop :=
  match x with
  | Insert v i st =>
      plain n v = true /\ m !! key v = None
      /\ (i = DefaultItemID /\ 0 <= j < DefaultItemID /\ fresh_id m j
          \/ 0 <= i < DefaultItemID /\ fresh_id m i)
  | Get v => plain n v = true
  | GetAt _ => True
  | Suppress v | SetState v _ => plain n v = true /\ is_Some (m !! key v)
  | SuppressAt i => exists k v st, m !! k = Some (v, i, st)
  | Empty => True
  end.
Fixpoint legal m (j : Z) (xs : list op) : Prop :=
  match xs with
  | [] => True
  | x :: xs => legal_op m j x /\ match spec_op m j x with Some (m, j, _) => legal m j xs | None => True end
  end.

Lemma at_id_spec m i :
  match at_id m i with Some k => exists v st, m !! k = Some (v, i, st) | None => fresh_id m i end.
Proof.
  unfold at_id. assert (forall k v i' st,
    (k, (v, i', st)) ∈ filter (fun e : list Z * (Value * Z * Z) => (snd e).1.2 = i) (map_to_list m)
    <-> i' = i /\ m !! k = Some (v, i', st)) as Hin.
  { intros. rewrite list_elem_of_filter, elem_of_map_to_list. done. }
  destruct (filter _ _) as [|[k [[v i'] st]] l].
  - intros k v st H. by apply (not_elem_of_nil (k, (v, i, st))), Hin.
  - destruct (proj1 (Hin k v i' st)) as [-> ?]; [by left|]. cbn. eauto.
Qed.

Lemma at_id_Some c m k v i st : paired c m -> m !! k = Some (v, i, st) -> at_id m i = Some k.
Proof.
  intros P H. pose proof (at_id_spec m i) as E. destruct (at_id m i) as [k'|]; [|by destruct (E k v st)].
  destruct E as (v' & st' & E). f_equal. by apply (paired_id_inj _ _ _ _ _ _ _ _ _ P H E).
Qed.

Lemma get_paired c m v :
  paired c m -> plain n v = true -> get c v = Some (keys (val_map c) !! key v).
Proof. intros P Hv. apply val_find_spec; [apply P|done]. Qed.

Lemma item_paired c m k v i st l :
  paired c m -> m !! k = Some (v, i, st) -> keys (val_map c) !! k = Some l \/ id_map c !! i = Some l ->
  item_of c (Some l) = Some (Some (v, i, st)) /\ keys (val_map c) !! k = Some l.
Proof.
  intros P H Hk. destruct (p_entry _ _ P _ _ _ _ H) as (_ & _ & _ & l' & Ek & Ei & El).
  assert (l' = l) as -> by (destruct Hk; congruence). cbn. unfold read. by rewrite El.
Qed.

Lemma run_op_paired c m x :
  paired c m -> legal_op m (current_id c) x ->
  match spec_op m (current_id c) x with
  | Some (m', j, r) => exists c', run_op c x = Some (c', r) /\ paired c' m' /\ current_id c' = j
  | None => run_op c x = None
  end.
Proof.
  intros P. destruct x as [v i st|v|i|v|i|v st|]; cbn [run_op spec_op legal_op].
  - intros (Hv & Hk & [(-> & Hj & Hf)|(Hi & Hf)]).
    + rewrite insert_default by done. rewrite Z.eqb_refl.
      destruct (insert_spec _ m v (current_id c) st (paired_current c m (current_id c + 1) P))
        as (c' & -> & P' & E & _); [done..|]. cbn. by exists c'.
    + rewrite (proj2 (Z.eqb_neq _ _)) by lia.
      destruct (insert_spec c m v i st) as (c' & -> & P' & E & _); [done..|]. cbn. by exists c'.
  - intros Hv. rewrite (get_paired c m v) by done. cbn [mbind option_bind]. exists c.
    split; [|done]. destruct (m !! key v) as [[[w i] st]|] eqn:E.
    + destruct (p_entry _ _ P _ _ _ _ E) as (_ & _ & _ & l & Ek & _). rewrite Ek.
      destruct (item_paired _ _ _ _ _ _ l P E) as [-> _]; [by left|]. done.
    + by rewrite (paired_none _ _ _ P E).
  - intros _. exists c. split; [|done]. unfold get_id. pose proof (at_id_spec m i) as E.
    destruct (at_id m i) as [k|].
    + destruct E as (v & st & E). cbn [mbind option_bind]. rewrite E.
      destruct (p_entry _ _ P _ _ _ _ E) as (_ & _ & _ & l & _ & Ei & _). rewrite Ei.
      destruct (item_paired _ _ _ _ _ _ l P E) as [-> _]; [by right|]. done.
    + by rewrite (paired_fresh_id _ _ _ P E).
  - intros [Hv [[[w i] st] E]]. rewrite (get_paired c m v) by done. cbn [mbind option_bind].
    destruct (p_entry _ _ P _ _ _ _ E) as (_ & _ & _ & l & Ek & _). rewrite Ek. cbn [mbind option_bind].
    by rewrite (suppress_undefined _ _ _ _ _ _ l P E Ek).
  - intros (k & v & st & E). destruct (p_entry _ _ P _ _ _ _ E) as (_ & _ & _ & l & Ek & Ei & _). unfold get_id. rewrite Ei.
    cbn [mbind option_bind]. by rewrite (suppress_undefined _ _ _ _ _ _ l P E Ek).
  - intros [Hv [[[w i] s] E]]. rewrite (get_paired c m v) by done. cbn [mbind option_bind].
    destruct (p_entry _ _ P _ _ _ _ E) as (_ & _ & _ & l & Ek & _). rewrite Ek. cbn [mbind option_bind].
    destruct (item_setState_spec _ _ _ _ _ _ st l P E Ek) as (c' & -> & P' & Ec). cbn. exists c'.
    split; [done|]. split; [|done]. replace (alter _ (key v) m) with (<[key v := (w, i, st)]> m); [done|].
    apply map_eq. intros k. rewrite lookup_insert, lookup_alter.
    case_decide as Hk; [by subst k; rewrite E|done].
  - intros _. destruct (emptied_spec _ _ P) as (c' & -> & P' & Ec). by exists c'.
Qed.

Lemma run_ops_paired xs : forall c m,
  paired c m -> legal m (current_id c) xs ->
  match spec m (current_id c) xs with
  | Some (m', rs) => exists c', run c xs = Some (c', rs) /\ paired c' m'
  | None => run c xs = None
  end.
Proof.
  induction xs as [|x xs IH]; intros c m P; cbn [run spec legal].
  - intros _. by exists c.
  - intros [Hx Hxs]. pose proof (run_op_paired c m x P Hx) as H1.
    destruct (spec_op m (current_id c) x) as [[[m1 j1] r]|]; [|by rewrite H1].
    destruct H1 as (c1 & -> & P1 & E1). cbn [mbind option_bind]. rewrite <- E1 in *. specialize (IH c1 m1 P1 Hxs).
    destruct (spec m1 (current_id c1) xs) as [[m' rs]|]; cbn [mbind option_bind].
    + destruct IH as (c' & -> & P'). by exists c'.
    + by rewrite IH.
Qed.


End ValueCache.

Module Example.

#[local] Instance numbers : Oids Z := {| getNX := fun i => i |}.

Definition v1 : Value.Value (Oid := Z) := tOid 1.
Definition v2 : Value.Value (Oid := Z) := tString [97; 98].
Definition ops : list op :=
  [Insert v1 DefaultItemID added; Insert v2 DefaultItemID added; SetState v1 removed; Get v1; GetAt 1; Empty; Get v1].

Lemma legal_ops : legal 0 ∅ 0 ops.
Proof.
  split; [|split; [|split; [|by repeat split]]].
  - split; [done|]. split; [done|]. left. split; [done|]. split; [done|].
    intros k v st. by rewrite lookup_empty.
  - split; [done|]. split; [done|]. left. split; [done|]. split; [done|].
    change (fresh_id (<[key v1 := (v1, 0, added)]> ∅) 1).
    intros k v st. rewrite lookup_insert. case_decide; [congruence|]. by rewrite lookup_empty.
  - split; [done|]. eexists. vm_compute. reflexivity.
Qed.


(** A suppression reads the index of the item that it has deleted. *)
Example suppress_reads_deleted : run (new_ValueCache true) [Insert v1 0 added; Suppress v1] = None
  /\ run (new_ValueCache true) [Insert v1 0 added; SuppressAt 0] = None.
Proof. by vm_compute. Qed.

(** A value under two indexes: the map of values has the last item only. *)
Example value_twice :
  (fun '(c, rs) => (length (val_map c), rs)) <$>
    run (new_ValueCache true) [Insert v1 0 added; Insert v1 1 removed; GetAt 0; GetAt 1; Get v1]
  = Some (1%nat, [None; None; Some (v1, 0, added); Some (v1, 1, removed); Some (v1, 1, removed)]).
Proof. vm_compute. reflexivity. Qed.

(** Data of which one is a prefix of the other: the second replaces the first. *)
Example prefix_replaces :
  (fun '(c, _) => length (val_map c)) <$>
    run (new_ValueCache true) [Insert (tData 1 [5]) 0 added; Insert (tData 2 [5; 6]) 1 added] = Some 1%nat.
Proof. vm_compute. reflexivity. Qed.

End Example.
