(* ===== verification/Collection.v ===== *)
(** * Collections of objects, on the client side

    The insertions, suppressions and searches of oids in src/eyedb/Collection.cc,
    CollSet.cc, CollBag.cc and CollArray.cc: what a collection that is loaded
    answers from its [ValueCache] and from what the back end has stored. The
    calls to the back end, the test of the class of an item and the conversion of
    oids are parameters. [None] is a crash or an undefined behaviour: to suppress an
    item of the cache is one, since [ValueCache] reads the item it has deleted. *)

From S2P Require Import Prelude Oid Value ValueCache.

#[local] Set Warnings "-register-all,-clear-no-such-hyp".

Inductive Error :=
| IDB_COLLECTION_LOCKED | IDB_COLLECTION_INSERT_ERROR | IDB_COLLECTION_DUPLICATE_INSERT_ERROR
| IDB_COLLECTION_SUPPRESS_ERROR | IDB_COLLECTION_IS_IN_ERROR | IDB_COLLECTION_ERROR | IDB_ERROR.
Inductive Status := Success | Exception (err : Error).

(** An answer of the back end. *)
Inductive RPCStatus (A : Type) := RPCFailure | RPCSuccess (a : A).
Arguments RPCFailure {A}.
Arguments RPCSuccess {A} a.

Section Collection.
Context {Oid : Type} `{OI : Oids Oid}.

(** The collection: whether it is locked and stored, the class of its items, its
    contents in the back end, by value and by index, and what [decode] makes of
    the bytes of an oid. *)
Class Backend := {
  status : Status;
  locked : bool;
  oid_valid : bool;
  check_class : Oid -> Error -> Status;
  collectionGetByOid : Oid -> RPCStatus (option Z);
  collectionGetByInd : Z -> RPCStatus (option Oid);
  nullOid : Oid;
  decode : Oid -> Oid
}.
Context `{BE : Backend}.

Record Collection := mk_coll {
  cache : option (ValueCache (Oid := Oid)); v_items_cnt : Z; bottom : Z; top : Z; modify : bool }.

Implicit Types (c : Collection) (vc : ValueCache (Oid := Oid)) (o : Oid).

Definition set_cache c vc : Collection := mk_coll (Some vc) (v_items_cnt c) (bottom c) (top c) (modify c).
Definition set_cnt c n : Collection := mk_coll (cache c) (s32 n) (bottom c) (top c) (modify c).
Definition set_top c t : Collection := mk_coll (cache c) (v_items_cnt c) (bottom c) t (modify c).
Definition touch c : Collection := mk_coll (cache c) (v_items_cnt c) (bottom c) (top c) true.

Definition create_cache c : ValueCache (Oid := Oid) := default (new_ValueCache true) (cache c).

(** [check] of an oid in a collection of references. *)
Definition check o (err : Error) : Status :=
  match status with Success => check_class o err | _ => Exception err end.

(** [cache && (item = cache->get(item_oid))], with the state of the item. *)
Definition find_item c o : option (option (ValueCache (Oid := Oid) * loc * Z)) :=
  match cache c with
  | None => Some None
  | Some vc =>
      r ← get vc (tOid o);
      match r with
      | None => Some None
      | Some l => it ← read vc l; Some (Some (vc, l, state it))
      end
  end.

(** [create_cache(); cache->insert(item_oid, id, state)] *)
Definition cache_insert c o (i st : Z) : option Collection :=
  vc ← insert (create_cache c) (tOid o) i st; Some (set_cache c vc).

(** ** Sets *)

Definition CollSet_insert o (noDup : bool) c : option (Status * Collection) :=
  match status with
  | Exception _ => Some (status, c)
  | Success =>
      if locked then Some (Exception IDB_COLLECTION_LOCKED, c)
      else match check o IDB_COLLECTION_INSERT_ERROR with
      | Exception err => Some (Exception err, c)
      | Success =>
          let c := touch c in
          let dup := if noDup then Success else Exception IDB_COLLECTION_DUPLICATE_INSERT_ERROR in
          r ← find_item c o;
          match r with
          | Some (vc, l, st) =>
              if negb (st =? removed) then Some (dup, set_cache c vc)
              else
                vc ← item_setState vc l added;
                Some (Success, set_cnt (set_cache c vc) (v_items_cnt c + 1))
          | None =>
              match (if oid_valid then collectionGetByOid o else RPCSuccess None) with
              | RPCFailure => Some (Exception IDB_COLLECTION_INSERT_ERROR, c)
              | RPCSuccess (Some _) => Some (dup, c)
              | RPCSuccess None =>
                  c ← cache_insert c o DefaultItemID added;
                  Some (Success, set_cnt c (v_items_cnt c + 1))
              end
          end
      end
  end.

(** suppress_p of sets and bags. *)
Definition suppress o (checkFirst : bool) c : option (Status * Collection) :=
  if locked then Some (Exception IDB_COLLECTION_LOCKED, c)
  else match status with
  | Exception _ => Some (Exception IDB_COLLECTION_SUPPRESS_ERROR, c)
  | Success =>
      let c := touch c in
      let missing := if checkFirst then Success else Exception IDB_COLLECTION_SUPPRESS_ERROR in
      r ← find_item c o;
      match r with
      | Some (vc, l, st) =>
          if st =? removed then Some (missing, set_cache c vc)
          else
            vc ← if st =? coherent then item_setState vc l removed
                 else if st =? added then ValueCache.suppress vc l
                 else Some vc;
            Some (Success, set_cnt (set_cache c vc) (v_items_cnt c - 1))
      | None =>
          if negb oid_valid then Some (Exception IDB_COLLECTION_SUPPRESS_ERROR, c)
          else match collectionGetByOid o with
          | RPCFailure => Some (Exception IDB_COLLECTION_SUPPRESS_ERROR, c)
          | RPCSuccess None => Some (missing, c)
          | RPCSuccess (Some _) =>
              c ← cache_insert c o DefaultItemID removed;
              Some (Success, set_cnt c (v_items_cnt c - 1))
          end
      end
  end.

(** isIn_p, with the index where the back end has the item. *)
Definition isIn_p o c : option (Status * bool * option Z * Collection) :=
  r ← find_item c o;
  match r with
  | Some (vc, _, st) => Some (Success, negb (st =? removed), None, set_cache c vc)
  | None =>
      if negb oid_valid then Some (Success, false, None, c)
      else match collectionGetByOid o with
      | RPCFailure => Some (Exception IDB_COLLECTION_IS_IN_ERROR, false, None, c)
      | RPCSuccess r => Some (Success, bool_decide (is_Some r), r, c)
      end
  end.
Definition isIn o c : option (Status * bool * option Z * Collection) :=
  match check o IDB_COLLECTION_ERROR with
  | Success => isIn_p o c
  | s => Some (s, false, None, c)
  end.

Definition getCount c : Z := v_items_cnt c.
Definition isEmpty c : bool := v_items_cnt c =? 0.

(** ** Bags *)

Definition CollBag_insert o (noDup : bool) c : option (Status * Collection) :=
  match status with
  | Exception _ => Some (status, c)
  | Success =>
      if locked then Some (Exception IDB_COLLECTION_LOCKED, c)
      else match check o IDB_COLLECTION_INSERT_ERROR with
      | Exception err => Some (Exception err, c)
      | Success =>
          let c := touch c in
          '(s, is_in, _, c) ← if noDup then isIn o c else Some (Success, false, None, c);
          match s, is_in with
          | Success, false =>
              c ← cache_insert c o DefaultItemID added;
              Some (Success, set_cnt c (v_items_cnt c + 1))
          | _, _ => Some (s, c)
          end
      end
  end.

(** ** Arrays *)

Definition isValid_check o : Status :=
  if isValid o then check o IDB_COLLECTION_INSERT_ERROR else Success.

Definition CollArray_insertAt (i : Z) o c : option (Status * Collection) :=
  match status with
  | Exception _ => Some (status, c)
  | Success =>
      if locked then Some (Exception IDB_COLLECTION_LOCKED, c)
      else match isValid_check o with
      | Exception err => Some (Exception err, c)
      | Success =>
          let c := touch c in
          let vc := create_cache c in
          c ← match get_id vc i with
              | Some item => vc ← ValueCache.suppress vc item; Some (set_cache c vc)
              | None => Some (set_cnt (set_cache c vc) (v_items_cnt c + 1))
              end;
          c ← cache_insert c o i added;
          Some (Success, if top c <=? i then set_top c (s32 (i + 1)) else c)
      end
  end.

Definition CollArray_suppressAt (i : Z) c : option (Status * Collection) :=
  match status with
  | Exception _ => Some (status, c)
  | Success =>
      let c := touch c in
      match cache c ≫= fun vc => get_id vc i with
      | Some item =>
          vc ← cache c;
          it ← read vc item;
          if state it =? removed then Some (Exception IDB_COLLECTION_SUPPRESS_ERROR, set_cache c vc)
          else
            vc ← if state it =? coherent then item_setState vc item removed
                 else if state it =? added then
                   (* suppressOid, then suppressObject *)
                   vc ← ValueCache.suppress vc item; ValueCache.suppress vc item
                 else Some vc;
            let c := set_cnt (set_cache c vc) (v_items_cnt c - 1) in
            Some (Success, if top c =? i + 1 then set_top c (s32 (top c - 1)) else c)
      | None =>
          match (if oid_valid then collectionGetByInd i else RPCSuccess None) with
          | RPCFailure => Some (Exception IDB_ERROR, c)
          | RPCSuccess None => Some (Exception IDB_COLLECTION_SUPPRESS_ERROR, c)
          | RPCSuccess (Some item_oid) =>
              c ← cache_insert c item_oid i removed;
              Some (Success, set_cnt c (v_items_cnt c - 1))
          end
      end
  end.

(** suppress_p of arrays: [where] is not set when the item is in the cache. *)
Definition CollArray_suppress o (checkFirst : bool) c : option (Status * Collection) :=
  match status with
  | Exception _ => Some (status, c)
  | Success =>
      '(s, found, where_, c) ← isIn o c;
      match s with
      | Exception _ => Some (s, c)
      | Success =>
          if negb found && checkFirst then Some (Success, c)
          else i ← where_; CollArray_suppressAt i c
      end
  end.

(** append_p; the status of the search is not looked at. *)
Definition CollArray_append o (noDup : bool) c : option (Status * Collection) :=
  match status with
  | Exception _ => Some (status, c)
  | Success =>
      if negb noDup then CollArray_insertAt (top c) o c
      else
        '(_, found, _, c) ← isIn_p o c;
        if found : bool then Some (Success, c) else CollArray_insertAt (top c) o c
  end.

(** The oid at an index, null out of the bounds of the array; an item of the cache is decoded too. *)
Definition CollArray_retrieveAt (i : Z) c : option (Status * Oid * Collection) :=
  match status with
  | Exception _ => Some (status, nullOid, c)
  | Success =>
      if (i <? bottom c) || (top c <=? i) then Some (Success, nullOid, c)
      else match cache c ≫= fun vc => get_id vc i with
      | Some item =>
          vc ← cache c;
          it ← read vc item;
          o ← if state it =? added then
                match value it with
                | tOid o => Some o
                | tObject p | tObjectPtr p => p ← p; Some (getOid p)
                | _ => Some nullOid
                end
              else Some nullOid;
          Some (Success, decode o, set_cache c vc)
      | None =>
          if negb oid_valid then Some (Success, nullOid, c)
          else match collectionGetByInd i with
          | RPCFailure => Some (Exception IDB_ERROR, nullOid, c)
          | RPCSuccess (Some o) => Some (Success, decode o, c)
          | RPCSuccess None => Some (Success, nullOid, c)
          end
      end
  end.

(** ** A set of oids *)

(** A collection that can be written, in which any oid can be inserted, and whose
    contents in the back end are [stored]; oids are those of one database. *)
Class Serves (stored : gset Oid) : Prop := {
  sv_status : status = Success;
  sv_unlocked : locked = false;
  sv_class o err : check_class o err = Success;
  sv_stored o : oid_valid = true ->
    exists r, collectionGetByOid o = RPCSuccess r /\ (is_Some r <-> o ∈ stored);
  sv_new : oid_valid = false -> stored = ∅;
  sv_base : Inj (=) (=) (getNX (Oid := Oid))
}.

Section Set_.
Context (stored : gset Oid) `{SV : !Serves stored}.
Abbreviation entries := (gmap (list Z) (Value.Value (Oid := Oid) * Z * Z)).
Implicit Types (X T : gset Oid) (m : entries).

Definition oid_key o : list Z := key (tOid o).

Lemma oid_key_inj o o' : oid_key o = oid_key o' -> o = o'.
Proof. intros [= E]. by apply sv_base. Qed.

Definition next_id c : Z := match cache c with Some vc => current_id vc | None => 0 end.

(** [m] are the entries of the cache. *)
Record caches c m : Prop := {
  ca_paired : paired 0 (create_cache c) m;
  ca_none : cache c = None -> m = ∅;
  ca_next : 0 <= next_id c;
  ca_entry k v i st : m !! k = Some (v, i, st) ->
    (exists o, v = tOid o) /\ 0 <= i < next_id c /\ (st = added \/ st = removed)
}.

(** [X] are the items of the set and [T] those that have an entry in the cache. *)
Record represents c m X T : Prop := {
  re_caches : caches c m;
  re_elem o : o ∈ X <-> match m !! oid_key o with Some (_, _, st) => st = added | None => o ∈ stored end;
  re_entry o : o ∈ T <-> is_Some (m !! oid_key o);
  re_removed o v i : m !! oid_key o = Some (v, i, removed) -> o ∈ stored;
  re_cnt : v_items_cnt c = Z.of_nat (size X)
}.

Lemma find_item_spec c m o :
  caches c m ->
  match m !! oid_key o with
  | Some (v, i, st) => exists vc l, cache c = Some vc /\ keys (val_map vc) !! oid_key o = Some l
      /\ find_item c o = Some (Some (vc, l, st))
  | None => find_item c o = Some None
  end.
Proof.
  intros [P Hn _ _]. unfold find_item. destruct (cache c) as [vc|] eqn:E.
  - assert (create_cache c = vc) as Ev by (by unfold create_cache; rewrite E). rewrite Ev in P.
    rewrite (get_paired 0 _ m (tOid o)) by done. fold (oid_key o). cbn [mbind option_bind].
    destruct (m !! oid_key o) as [[[v i] st]|] eqn:Em.
    + destruct (p_entry _ _ _ P _ _ _ _ Em) as (_ & _ & _ & l & Ek & _ & El). rewrite Ek.
      exists vc, l. split; [done|]. split; [done|]. unfold read. by rewrite El.
    + by rewrite (paired_none _ _ _ _ P Em).
  - rewrite (Hn eq_refl). done.
Qed.

Lemma current_id_create c : current_id (create_cache c) = next_id c.
Proof. unfold create_cache, next_id. by destruct (cache c). Qed.

Lemma cache_insert_spec c m o st :
  caches c m -> next_id c < DefaultItemID -> m !! oid_key o = None -> st = added \/ st = removed ->
  exists c', cache_insert c o DefaultItemID st = Some c'
    /\ caches c' (<[oid_key o := (tOid o, next_id c, st)]> m) /\ next_id c' = next_id c + 1
    /\ v_items_cnt c' = v_items_cnt c.
Proof.
  intros [P Hn Hp He] Hi Hm Hst. unfold cache_insert.
  pose proof (current_id_create c) as Hc. rewrite insert_default by lia. rewrite Hc.
  destruct (insert_spec 0 (set_current_id (create_cache c) (next_id c + 1)) m (tOid o) (next_id c) st)
    as (vc & -> & P' & Ec & _); [by apply paired_current|done|lia|done| |].
  { intros k v s Hk. destruct (He _ _ _ _ Hk) as (_ & ? & _). lia. }
  cbn [mbind option_bind]. exists (set_cache c vc). split; [done|].
  assert (next_id (set_cache c vc) = next_id c + 1) as Hx by done. split; [|done].
  split; [done|done|rewrite Hx; lia|]. intros k v i s Hk. rewrite Hx. rewrite lookup_insert in Hk.
  case_decide.
  - injection Hk as <- <- <-. split; [by exists o|]. split; [lia|done].
  - destruct (He _ _ _ _ Hk) as (? & ? & ?). split; [done|]. split; [lia|done].
Qed.


Lemma caches_ext c c' m : cache c' = cache c -> caches c m -> caches c' m.
Proof.
  intros E [P Hn Hp He]. unfold create_cache, next_id in *.
  split; unfold create_cache, next_id; by rewrite E.
Qed.

Lemma represents_ext c c' m X T :
  cache c' = cache c -> v_items_cnt c' = v_items_cnt c -> represents c m X T -> represents c' m X T.
Proof. intros E1 E2 [H1 H2 H3 H4 H5]. split; [by apply (caches_ext c)|done..|congruence]. Qed.

(** The item of an entry of the cache: suppressing it and changing its state. *)
Lemma caches_suppress c vc m o e l :
  caches c m -> cache c = Some vc -> m !! oid_key o = Some e -> keys (val_map vc) !! oid_key o = Some l ->
  ValueCache.suppress vc l = None.
Proof.
  intros [P _ _ _] Ec Hm Hk. unfold create_cache in P. rewrite Ec in P. destruct e as [[v i] st].
  exact (suppress_undefined 0 vc m _ _ _ _ l P Hm Hk).
Qed.

Lemma caches_setState c vc m o v i st st' l :
  caches c m -> cache c = Some vc -> m !! oid_key o = Some (v, i, st) ->
  keys (val_map vc) !! oid_key o = Some l -> st' = added \/ st' = removed ->
  exists vc', item_setState vc l st' = Some vc' /\ caches (set_cache c vc') (<[oid_key o := (v, i, st')]> m)
    /\ next_id (set_cache c vc') = next_id c.
Proof.
  intros [P Hn Hp He] Ec Hm Hk Hst. unfold create_cache, next_id in *. rewrite Ec in *.
  destruct (item_setState_spec 0 vc m _ _ _ _ st' l P Hm Hk) as (vc' & E & P' & Ei).
  exists vc'. split; [done|]. split; [|done]. split; [done|done|cbn; lia|].
  intros k w j s Hx. unfold next_id. cbn. rewrite Ei. rewrite lookup_insert in Hx. case_decide.
  - injection Hx as <- <- <-. destruct (He _ _ _ _ Hm) as (? & ? & _). done.
  - by apply (He k).
Qed.

(** A new state of an oid, in an entry that is there or not, and what it makes of
    the set. *)
Lemma represents_insert c c' m X T o v i st :
  represents c m X T -> caches c' (<[oid_key o := (v, i, st)]> m) ->
  (st = added /\ v_items_cnt c' = v_items_cnt c + 1 /\ (o ∉ X)
   \/ st = removed /\ (o ∈ stored) /\ v_items_cnt c' = v_items_cnt c - 1 /\ (o ∈ X)) ->
  represents c' (<[oid_key o := (v, i, st)]> m) (if st =? added then {[o]} ∪ X else X ∖ {[o]}) ({[o]} ∪ T).
Proof.
  intros [_ H2 H3 H4 H5] Hc Hst. split; [done|..].
  - intros o'. destruct (decide (o' = o)) as [->|Hne].
    + rewrite lookup_insert_eq. destruct Hst as [(-> & _)|(-> & _)]; cbn; set_solver.
    + rewrite lookup_insert_ne by (intros E%oid_key_inj; congruence). rewrite <- H2.
      destruct Hst as [(-> & _)|(-> & _)]; cbn; set_solver.
  - intros o'. destruct (decide (o' = o)) as [->|Hne].
    + rewrite lookup_insert_eq. set_solver.
    + rewrite lookup_insert_ne by (intros E%oid_key_inj; congruence). rewrite <- H3. set_solver.
  - intros o' w j. destruct (decide (o' = o)) as [->|Hne].
    + rewrite lookup_insert_eq. intros [= -> -> ->]. by destruct Hst as [(? & _)|(_ & ? & _)].
    + rewrite lookup_insert_ne by (intros E%oid_key_inj; congruence). apply H4.
  - destruct Hst as [(-> & -> & Ho)|(-> & _ & -> & Ho)]; cbn.
    + rewrite size_union by set_solver. rewrite size_singleton. lia.
    + rewrite size_difference by set_solver. rewrite size_singleton.
      assert (size X <> 0)%nat by (intros E%size_empty_inv; set_solver). lia.
Qed.

(** ** Its operations *)

Inductive op := Insert o (noDup : bool) | Suppress o (checkFirst : bool) | IsIn o | Count.
Inductive result := RStatus (s : Status) | RIn (s : Status) (found : bool) | RCount (n : Z).

Definition run_op c (x : op) : option (Collection * result) :=
  match x with
  | Insert o noDup => '(s, c) ← CollSet_insert o noDup c; Some (c, RStatus s)
  | Suppress o checkFirst => '(s, c) ← suppress o checkFirst c; Some (c, RStatus s)
  | IsIn o => '(s, found, _, c) ← isIn o c; Some (c, RIn s found)
  | Count => Some (c, RCount (getCount c))
  end.
Fixpoint run c (xs : list op) : option (Collection * list result) :=
  match xs with
  | [] => Some (c, [])
  | x :: xs => '(c, r) ← run_op c x; '(c, rs) ← run c xs; Some (c, r :: rs)
  end.

(** On the items of the set and those of the cache; [None] is undefined. *)
Definition spec_op X T (x : op) : option (gset Oid * gset Oid * result) :=
  match x with
  | Insert o noDup =>
      Some (if decide (o ∈ X)
            then (X, T, RStatus (if noDup then Success else Exception IDB_COLLECTION_DUPLICATE_INSERT_ERROR))
            else ({[o]} ∪ X, {[o]} ∪ T, RStatus Success))
  | Suppress o checkFirst =>
      if decide (o ∈ X) then
        if decide (o ∈ T) then None else Some (X ∖ {[o]}, {[o]} ∪ T, RStatus Success)
      else Some (X, T, RStatus (if checkFirst && oid_valid then Success else Exception IDB_COLLECTION_SUPPRESS_ERROR))
  | IsIn o => Some (X, T, RIn Success (bool_decide (o ∈ X)))
  | Count => Some (X, T, RCount (Z.of_nat (size X)))
  end.
Fixpoint spec X T (xs : list op) : option (gset Oid * gset Oid * list result) :=
  match xs with
  | [] => Some (X, T, [])
  | x :: xs => '(X, T, r) ← spec_op X T x; '(X, T, rs) ← spec X T xs; Some (X, T, r :: rs)
  end.

(** After [k] operations. *)
Definition counted (k : Z) c X : Prop := next_id c <= k /\ Z.of_nat (size X) <= Z.of_nat (size stored) + k.

Lemma check_ok o err : check o err = Success.
Proof. unfold check. rewrite sv_status. apply sv_class. Qed.

Lemma backend_spec o :
  exists r, (if oid_valid then collectionGetByOid o else RPCSuccess None) = RPCSuccess r
    /\ (is_Some r <-> o ∈ stored).
Proof.
  destruct oid_valid eqn:E; [by apply sv_stored|]. exists None. split; [done|].
  rewrite (sv_new E). split; [by intros [? ?]|set_solver].
Qed.

(** An operation does what its specification says. *)
Definition does c (y : option (Collection * result)) (z : option (gset Oid * gset Oid * result)) : Prop :=
  match z with
  | Some (X, T, r) => exists c' m, y = Some (c', r) /\ represents c' m X T /\ next_id c' <= next_id c + 1
  | None => y = None
  end.

Lemma insert_op_spec k c m X T o noDup :
  represents c m X T -> counted k c X -> k + Z.of_nat (size stored) < 2 ^ 31 - 1 ->
  does c (run_op c (Insert o noDup)) (spec_op X T (Insert o noDup)).
Proof.
  intros R [Hk1 Hk2] Hb. pose proof (re_caches _ _ _ _ R) as C. cbn [run_op]. unfold CollSet_insert.
  rewrite sv_status, sv_unlocked, check_ok.
  assert (caches (touch c) m) as C1 by (by apply (caches_ext c)).
  assert (represents (touch c) m X T) as R1 by (by apply (represents_ext c)).
  pose proof (find_item_spec (touch c) m o C1) as Hf. pose proof (re_elem _ _ _ _ R o) as He.
  pose proof (re_cnt _ _ _ _ R) as Hc.
  cbn [spec_op does]. destruct (m !! oid_key o) as [[[v i] st]|] eqn:Em.
  - destruct Hf as (vc & l & Ec & Ek & ->). cbn [mbind option_bind].
    destruct (ca_entry _ _ C _ _ _ _ Em) as (_ & _ & [-> | ->]).
    + change (negb (added =? removed)) with true. cbn iota. rewrite decide_True by (by apply He).
      exists (set_cache (touch c) vc), m. split; [by destruct noDup|].
      split; [by apply (represents_ext (touch c))|]. unfold next_id. cbn in *. rewrite Ec. lia.
    + change (negb (removed =? removed)) with false. cbn iota. rewrite decide_False by (by rewrite He).
      destruct (caches_setState _ vc m o v i removed added l C1 Ec Em Ek) as (vc1 & -> & C2 & Hi); [by left|].
      cbn [mbind option_bind]. eexists _, _. split; [done|]. split; [|unfold next_id in *; cbn in *; lia].
      apply (represents_insert c _ m X T o v i added R); [by apply (caches_ext (set_cache (touch c) vc1))|].
      left. split; [done|]. split; [|by rewrite He]. cbn. rewrite Hc. apply s32_id. lia.
  - rewrite Hf. cbn [mbind option_bind]. destruct (backend_spec o) as ([r|] & -> & Hr).
    + rewrite decide_True by (apply He, Hr; by eexists). exists (touch c), m.
      split; [by destruct noDup|]. split; [done|]. unfold next_id. cbn. lia.
    + rewrite decide_False by (rewrite He; by intros [? ?]%Hr).
      destruct (cache_insert_spec (touch c) m o added C1) as (c' & -> & C' & Ei & Ev);
        [unfold next_id, DefaultItemID in *; cbn; lia|done|by left|].
      cbn [mbind option_bind]. eexists _, _. split; [done|]. split; [|unfold next_id in *; cbn in *; lia].
      apply (represents_insert c _ m X T o (tOid o) (next_id (touch c)) added R); [by apply (caches_ext c')|].
      left. split; [done|]. split; [|rewrite He; by intros [? ?]%Hr].
      cbn [set_cnt v_items_cnt touch] in *. rewrite Ev, Hc. apply s32_id. lia.
Qed.

Lemma suppress_op_spec k c m X T o checkFirst :
  represents c m X T -> counted k c X -> k + Z.of_nat (size stored) < 2 ^ 31 - 1 ->
  does c (run_op c (Suppress o checkFirst)) (spec_op X T (Suppress o checkFirst)).
Proof.
  intros R [Hk1 Hk2] Hb. pose proof (re_caches _ _ _ _ R) as C. cbn [run_op]. unfold suppress.
  rewrite sv_status, sv_unlocked.
  assert (caches (touch c) m) as C1 by (by apply (caches_ext c)).
  assert (represents (touch c) m X T) as R1 by (by apply (represents_ext c)).
  pose proof (find_item_spec (touch c) m o C1) as Hf. pose proof (re_elem _ _ _ _ R o) as He.
  pose proof (re_entry _ _ _ _ R o) as Ht. destruct (backend_spec o) as (r & Hback & Hr).
  cbn [spec_op]. destruct (m !! oid_key o) as [[[v i] st]|] eqn:Em.
  - destruct Hf as (vc & l & Ec & Ek & ->). cbn [mbind option_bind].
    destruct (ca_entry _ _ C _ _ _ _ Em) as (_ & _ & [-> | ->]).
    + rewrite decide_True by (by apply He). rewrite decide_True by (apply Ht; by eexists).
      change (added =? removed) with false. change (added =? coherent) with false.
      change (added =? added) with true. cbn iota.
      by rewrite (caches_suppress _ vc m o _ l C1 Ec Em Ek).
    + assert (o ∈ stored) as Hs by (by apply (re_removed _ _ _ _ R o v i)).
      change (removed =? removed) with true. cbn iota.
      rewrite decide_False by (by rewrite He). exists (set_cache (touch c) vc), m. split.
      * destruct oid_valid eqn:Eo; [by destruct checkFirst|]. rewrite (sv_new Eo) in Hs. set_solver.
      * split; [by apply (represents_ext (touch c))|]. unfold next_id. cbn in *. rewrite Ec. lia.
  - rewrite Hf. cbn [mbind option_bind]. destruct oid_valid eqn:Eo; cbn [negb].
    + rewrite Hback. destruct r as [r|].
      * assert (o ∈ stored) as Hs by (apply Hr; by eexists). rewrite decide_True by (by apply He).
        rewrite decide_False by (rewrite Ht; by intros [? ?]).
        destruct (cache_insert_spec (touch c) m o removed C1) as (c' & -> & C' & Ei & Ev);
          [unfold next_id, DefaultItemID in *; cbn; lia|done|by right|].
        cbn [mbind option_bind]. eexists _, _. split; [done|]. split; [|unfold next_id in *; cbn in *; lia].
        apply (represents_insert c _ m X T o (tOid o) (next_id (touch c)) removed R); [by apply (caches_ext c')|].
        right. split; [done|]. split; [done|]. split; [|by apply He].
        cbn [set_cnt v_items_cnt touch] in *. rewrite Ev, (re_cnt _ _ _ _ R). apply s32_id. lia.
      * rewrite decide_False by (rewrite He; by intros [? ?]%Hr). exists (touch c), m.
        split; [by destruct checkFirst|]. split; [done|]. unfold next_id. cbn. lia.
    + rewrite decide_False by (rewrite He, (sv_new Eo); set_solver). exists (touch c), m.
      split; [by rewrite andb_false_r|]. split; [done|]. unfold next_id. cbn. lia.
Qed.

Lemma isIn_op_spec c m X T o :
  represents c m X T ->
  exists c' w, isIn o c = Some (Success, bool_decide (o ∈ X), w, c') /\ represents c' m X T /\ next_id c' = next_id c.
Proof.
  intros R. pose proof (re_caches _ _ _ _ R) as C. unfold isIn. rewrite check_ok. unfold isIn_p.
  pose proof (find_item_spec c m o C) as Hf. pose proof (re_elem _ _ _ _ R o) as He.
  destruct (backend_spec o) as (r & Hback & Hr).
  destruct (m !! oid_key o) as [[[v i] st]|] eqn:Em.
  - destruct Hf as (vc & l & Ec & Ek & ->). cbn [mbind option_bind].
    destruct (ca_entry _ _ C _ _ _ _ Em) as (_ & _ & Hst). exists (set_cache c vc), None. split.
    + do 4 f_equal. destruct Hst as [-> | ->].
      * by rewrite bool_decide_true by (by apply He).
      * by rewrite bool_decide_false by (by rewrite He).
    + split; [by apply (represents_ext c)|]. unfold next_id. cbn. by rewrite Ec.
  - rewrite Hf. cbn [mbind option_bind]. destruct oid_valid eqn:Eo; cbn [negb].
    + rewrite Hback. exists c, r. split; [|done]. do 4 f_equal. apply bool_decide_ext. by rewrite He.
    + exists c, None. split; [|done]. do 4 f_equal. symmetry. apply bool_decide_false.
      rewrite He, (sv_new Eo). set_solver.
Qed.

Lemma run_op_spec k c m X T x :
  represents c m X T -> counted k c X -> k + Z.of_nat (size stored) < 2 ^ 31 - 1 ->
  does c (run_op c x) (spec_op X T x).
Proof.
  intros R Hc Hb. destruct x as [o noDup|o checkFirst|o|].
  - by apply (insert_op_spec k c m).
  - by apply (suppress_op_spec k c m).
  - cbn [run_op spec_op does]. destruct (isIn_op_spec c m X T o R) as (c' & w & -> & R' & Hi). cbn [mbind option_bind].
    exists c', m. split; [done|]. split; [done|]. lia.
  - exists c, m. split; [cbn; unfold getCount; by rewrite (re_cnt _ _ _ _ R)|]. split; [done|]. lia.
Qed.

Lemma size_insert_le X o : (size ({[o]} ∪ X) <= size X + 1)%nat.
Proof. rewrite size_union_alt, size_singleton. pose proof (subseteq_size (X ∖ {[o]}) X). set_solver by lia. Qed.

Lemma set_op_counted k c c' X T x X' T' r :
  counted k c X -> 0 <= k -> next_id c' <= next_id c + 1 -> spec_op X T x = Some (X', T', r) -> counted (k + 1) c' X'.
Proof.
  intros [H1 H2] Hk Hi E. split; [lia|]. destruct x as [o noDup|o checkFirst|o|]; cbn [spec_op] in E; simplify_eq; try lia.
  - pose proof (size_insert_le X o). case_decide; simplify_eq; lia.
  - pose proof (subseteq_size (X ∖ {[o]}) X ltac:(set_solver)). repeat case_decide; simplify_eq; lia.
Qed.

Lemma run_spec xs : forall k c m X T,
  represents c m X T -> counted k c X -> 0 <= k ->
  k + Z.of_nat (length xs) + Z.of_nat (size stored) < 2 ^ 31 - 1 ->
  match spec X T xs with
  | Some (X', T', rs) => exists c' m', run c xs = Some (c', rs) /\ represents c' m' X' T'
  | None => run c xs = None
  end.
Proof.
  induction xs as [|x xs IH]; intros k c m X T R Hc Hk Hb; cbn [run spec length] in *.
  - by exists c, m.
  - pose proof (run_op_spec k c m X T x R Hc ltac:(lia)) as Hx. unfold does in Hx.
    destruct (spec_op X T x) as [[[X1 T1] r]|] eqn:E; [|by rewrite Hx].
    destruct Hx as (c1 & m1 & -> & R1 & Hi). cbn [mbind option_bind].
    pose proof (set_op_counted k c c1 X T x X1 T1 r Hc Hk Hi E) as Hc1.
    specialize (IH (k + 1) c1 m1 X1 T1 R1 Hc1 ltac:(lia) ltac:(lia)).
    destruct (spec X1 T1 xs) as [[[X2 T2] rs]|]; cbn [mbind option_bind].
    + destruct IH as (c' & m' & -> & R'). by exists c', m'.
    + by rewrite IH.
Qed.

(** The collection as it is loaded. *)
Definition loaded : Collection := mk_coll None (Z.of_nat (size stored)) 0 0 false.

Lemma loaded_represents : represents loaded ∅ stored ∅.
Proof.
  split; [split|..].
  - apply new_paired.
  - done.
  - done.
  - intros k v i st H. by rewrite lookup_empty in H.
  - intros o. by rewrite lookup_empty.
  - intros o. rewrite lookup_empty. split; [set_solver|by intros [? ?]].
  - intros o v i H. by rewrite lookup_empty in H.
  - done.
Qed.

(** C31: a set of oids, new or loaded from the back end, answers any sequence of
    insertions, suppressions, searches and counts as a mathematical set, with the
    error codes of each case, the items that were suppressed and inserted again
    included, as long as no item is suppressed that is in the set and has an entry
    in its cache because it was inserted since the set was loaded: to suppress such
    an item is undefined. *)
Theorem coll_set_refines xs :
  Z.of_nat (length xs) + Z.of_nat (size stored) < 2 ^ 31 - 1 ->
  match spec stored ∅ xs with
  | Some (X, T, rs) => exists c m, run loaded xs = Some (c, rs) /\ represents c m X T
  | None => run loaded xs = None
  end.
Proof.
  intros Hb. apply (run_spec xs 0 loaded ∅); try done; [apply loaded_represents|].
  split; [done|]. lia.
Qed.

End Set_.

(** ** Bags and arrays of oids, before they are stored *)

Section New.
Context `{SV : !Serves ∅} (Hnew : oid_valid = false).

Definition new_coll : Collection := mk_coll None 0 0 0 false.

Lemma new_caches : caches new_coll ∅.
Proof. by apply (caches_ext (loaded ∅)), (re_caches _ _ _ _ _ (loaded_represents ∅)). Qed.

Definition bag_op c (x : op) : option (Collection * result) :=
  match x with
  | Insert o noDup => '(s, c) ← CollBag_insert o noDup c; Some (c, RStatus s)
  | x => run_op c x
  end.
Fixpoint bag_run c (xs : list op) : option (Collection * list result) :=
  match xs with
  | [] => Some (c, [])
  | x :: xs => '(c, r) ← bag_op c x; '(c, rs) ← bag_run c xs; Some (c, r :: rs)
  end.

(** ** Arrays *)

Inductive aop := InsertAt (i : Z) o | Append o (noDup : bool) | SuppressAt (i : Z) | RetrieveAt (i : Z) | ACount.
Inductive aresult := AStatus (s : Status) | AOid (s : Status) (r : Oid) | ANum (n : Z).

Definition arr_op c (x : aop) : option (Collection * aresult) :=
  match x with
  | InsertAt i o => '(s, c) ← CollArray_insertAt i o c; Some (c, AStatus s)
  | Append o noDup => '(s, c) ← CollArray_append o noDup c; Some (c, AStatus s)
  | SuppressAt i => '(s, c) ← CollArray_suppressAt i c; Some (c, AStatus s)
  | RetrieveAt i => '(s, o, c) ← CollArray_retrieveAt i c; Some (c, AOid s o)
  | ACount => Some (c, ANum (getCount c))
  end.
Fixpoint arr_run c (xs : list aop) : option (Collection * list aresult) :=
  match xs with
  | [] => Some (c, [])
  | x :: xs => '(c, r) ← arr_op c x; '(c, rs) ← arr_run c xs; Some (c, r :: rs)
  end.

(** The items by index, with the index after the last one. *)
Definition in_array (A : gmap Z Oid) o : Prop := Exists (fun e => snd e = o) (map_to_list A).
#[export] Instance in_array_dec A o : Decision (in_array A o).
Proof. unfold in_array. apply _. Defined.

(** [None] is undefined. *)
Definition arr_spec_op (A : gmap Z Oid) (t : Z) (x : aop) : option (gmap Z Oid * Z * aresult) :=
  match x with
  | InsertAt i o =>
      match A !! i with
      | Some _ => None
      | None => Some (<[i := o]> A, Z.max t (i + 1), AStatus Success)
      end
  | Append o noDup =>
      Some (if noDup && bool_decide (in_array A o) then (A, t, AStatus Success)
            else (<[t := o]> A, t + 1, AStatus Success))
  | SuppressAt i =>
      match A !! i with
      | Some _ => None
      | None => Some (A, t, AStatus (Exception IDB_COLLECTION_SUPPRESS_ERROR))
      end
  | RetrieveAt i =>
      Some (A, t, AOid Success (match A !! i with Some o => decode o | None => nullOid end))
  | ACount => Some (A, t, ANum (Z.of_nat (size A)))
  end.
Fixpoint arr_spec (A : gmap Z Oid) (t : Z) (xs : list aop) : option (gmap Z Oid * Z * list aresult) :=
  match xs with
  | [] => Some (A, t, [])
  | x :: xs => '(A, t, r) ← arr_spec_op A t x; '(A, t, rs) ← arr_spec A t xs; Some (A, t, r :: rs)
  end.

(** An item is in one place of the array. *)
Definition arr_legal_op (A : gmap Z Oid) (t : Z) (x : aop) : Prop :=
  match x with
  | InsertAt i o => 0 <= i < 2 ^ 31 - 1 /\ forall j, A !! j = Some o -> j = i
  | Append o noDup => t < 2 ^ 31 - 1 /\ (noDup = true \/ forall j, A !! j <> Some o)
  | _ => True
  end.
Fixpoint arr_legal (A : gmap Z Oid) (t : Z) (xs : list aop) : Prop :=
  match xs with
  | [] => True
  | x :: xs => arr_legal_op A t x
      /\ match arr_spec_op A t x with Some (A, t, _) => arr_legal A t xs | None => True end
  end.

Record holds_array c m (A : gmap Z Oid) (t : Z) : Prop := {
  ha_paired : paired 0 (create_cache c) m;
  ha_none : cache c = None -> A = ∅;
  ha_entry k v i st : m !! k = Some (v, i, st) <->
    exists o, k = oid_key o /\ v = tOid o /\ st = added /\ A !! i = Some o;
  ha_range i o : A !! i = Some o -> 0 <= i < t;
  ha_cnt : v_items_cnt c = Z.of_nat (size A);
  ha_bounds : bottom c = 0 /\ top c = t /\ 0 <= t
}.

Lemma holds_array_id c m A t i :
  holds_array c m A t ->
  match A !! i with
  | Some o => exists l, id_map (create_cache c) !! i = Some l /\ keys (val_map (create_cache c)) !! oid_key o = Some l
      /\ m !! oid_key o = Some (tOid o, i, added)
      /\ items (create_cache c) !! l = Some (mk_item (tOid o) i added 2)
  | None => fresh_id m i /\ id_map (create_cache c) !! i = None
  end.
Proof.
  intros H. pose proof (ha_paired _ _ _ _ H) as P. destruct (A !! i) as [o|] eqn:E.
  - assert (m !! oid_key o = Some (tOid o, i, added)) as Hm by (apply (ha_entry _ _ _ _ H); by exists o).
    destruct (p_entry _ _ _ P _ _ _ _ Hm) as (_ & _ & _ & l & ? & ? & ?). by exists l.
  - assert (fresh_id m i) as Hf.
    { intros k v st Hm. apply (ha_entry _ _ _ _ H) in Hm as (o & _ & _ & _ & ?). congruence. }
    split; [done|]. by apply (paired_fresh_id _ _ _ _ P).
Qed.

Lemma insertAt_ok i o c :
  CollArray_insertAt i o c
  = (let c := touch c in
     c ← match get_id (create_cache c) i with
         | Some item => vc ← ValueCache.suppress (create_cache c) item; Some (set_cache c vc)
         | None => Some (set_cnt (set_cache c (create_cache c)) (v_items_cnt c + 1))
         end;
     c ← cache_insert c o i added;
     Some (Success, if top c <=? i then set_top c (s32 (i + 1)) else c)).
Proof.
  unfold CollArray_insertAt, isValid_check. rewrite sv_status, sv_unlocked, (check_ok ∅).
  by destruct (isValid o).
Qed.

Lemma holds_array_touch c m A t : holds_array c m A t -> holds_array (touch c) m A t.
Proof. intros []. by split. Qed.

(** To suppress an item of the array is undefined. *)
Lemma array_suppress c m A t i o l :
  holds_array c m A t -> A !! i = Some o -> id_map (create_cache c) !! i = Some l ->
  ValueCache.suppress (create_cache c) l = None.
Proof.
  intros H E El. pose proof (holds_array_id _ _ _ _ i H) as Hi. rewrite E in Hi.
  destruct Hi as (l' & El' & Hk & Hm & _). assert (l' = l) as -> by congruence.
  exact (suppress_undefined 0 _ m _ _ _ _ l (ha_paired _ _ _ _ H) Hm Hk).
Qed.

Lemma insertAt_occupied c m A t i o o' :
  holds_array c m A t -> A !! i = Some o' -> CollArray_insertAt i o c = None.
Proof.
  intros H%holds_array_touch E. rewrite insertAt_ok. cbv zeta.
  pose proof (holds_array_id _ _ _ _ i H) as Hi. rewrite E in Hi. destruct Hi as (l & El & _).
  unfold get_id. rewrite El, (array_suppress _ _ _ _ _ _ _ H E El). done.
Qed.

Lemma insertAt_spec c m A t i o :
  holds_array c m A t -> Z.of_nat (size A) < 2 ^ 31 - 1 -> arr_legal_op A t (InsertAt i o) -> A !! i = None ->
  exists c' m', CollArray_insertAt i o c = Some (Success, c')
    /\ holds_array c' m' (<[i := o]> A) (Z.max t (i + 1)).
Proof.
  intros H0 Hs [Hi Ho] Hn. apply holds_array_touch in H0 as H. rewrite insertAt_ok. cbv zeta.
  pose proof (holds_array_id _ _ _ _ i H) as Hid. rewrite Hn in Hid. destruct Hid as [Hf Hid].
  unfold get_id. rewrite Hid. cbn [mbind option_bind].
  unfold cache_insert. change (create_cache (set_cnt _ _)) with (create_cache (touch c)).
  assert (m !! oid_key o = None) as Hk.
  { destruct (m !! oid_key o) as [[[v j] st]|] eqn:E; [|done].
    apply (ha_entry _ _ _ _ H) in E as (o' & Eo%(oid_key_inj ∅) & _ & _ & E). subst o'. apply Ho in E as Ej. congruence. }
  destruct (insert_spec 0 _ m (tOid o) i added (ha_paired _ _ _ _ H)) as (vc' & E & P' & _); [done| |done|done|].
  { unfold DefaultItemID. lia. }
  rewrite E. cbn [mbind option_bind].
  eexists _, _. split; [done|]. destruct (ha_bounds _ _ _ _ H) as (Hb & Ht & Ht0).
  assert (forall c', cache c' = Some vc' -> v_items_cnt c' = Z.of_nat (size (<[i := o]> A)) ->
    bottom c' = 0 -> top c' = Z.max t (i + 1) ->
    holds_array c' (<[key (tOid o) := (tOid o, i, added)]> m) (<[i := o]> A) (Z.max t (i + 1))) as Hgen.
  { intros c' Ec En Eb Et. split; [by unfold create_cache; rewrite Ec|congruence| | |done|split; [done|split; [done|lia]]].
    - intros k v j st. rewrite lookup_insert. case_decide as Hkk.
      + split.
        * intros [= <- <- <-]. exists o. by rewrite lookup_insert_eq.
        * intros (o' & -> & -> & -> & Hx). apply (oid_key_inj ∅) in Hkk as <-. rewrite lookup_insert in Hx.
          case_decide as Hij; [by subst j|]. by destruct Hij; symmetry; apply Ho.
      + rewrite (ha_entry _ _ _ _ H). split.
        * intros (o' & -> & -> & -> & Hx). exists o'. rewrite lookup_insert_ne; [done|]. intros ->. congruence.
        * intros (o' & -> & -> & -> & Hx). rewrite lookup_insert in Hx. case_decide as Hij.
          -- by injection Hx as ->.
          -- by exists o'.
    - intros j o'. rewrite lookup_insert. case_decide; [intros _; subst j; lia|].
      intros Hx%(ha_range _ _ _ _ H). lia. }
  assert (s32 (v_items_cnt c + 1) = Z.of_nat (size (<[i := o]> A))) as En.
  { rewrite map_size_insert, Hn. rewrite (ha_cnt _ _ _ _ H0). cbn. rewrite s32_id; lia. }
  cbn in Ht, Hb |- *. destruct (Z.leb_spec (top c) i) as [Hle|Hle]; apply Hgen; cbn; try done.
  - rewrite s32_id by lia. lia.
  - lia.
Qed.

Lemma suppressAt_spec c m A t i :
  holds_array c m A t ->
  match A !! i with
  | Some _ => CollArray_suppressAt i c = None
  | None => CollArray_suppressAt i c = Some (Exception IDB_COLLECTION_SUPPRESS_ERROR, touch c)
  end.
Proof.
  intros H. unfold CollArray_suppressAt. rewrite sv_status. cbv zeta.
  pose proof (holds_array_id _ _ _ _ i H) as Hi. pose proof (ha_none _ _ _ _ H) as Hn.
  destruct (A !! i) as [o|] eqn:E.
  - destruct Hi as (l & El & Hk & _ & Hl). pose proof (array_suppress _ _ _ _ _ _ _ H E El) as Hs.
    unfold create_cache in *. cbn [touch cache]. destruct (cache c) as [vc|] eqn:Ec.
    + cbn in El, Hl, Hs |- *. unfold get_id, read. rewrite El. cbn. rewrite Hl. cbn. by rewrite Hs.
    + by rewrite (Hn eq_refl), lookup_empty in E.
  - destruct Hi as [_ El]. assert (cache (touch c) ≫= (fun vc => get_id vc i) = None) as ->.
    { unfold create_cache in El. cbn. destruct (cache c); [done|done]. }
    by rewrite Hnew.
Qed.

Lemma retrieveAt_spec c m A t i :
  holds_array c m A t ->
  exists c', CollArray_retrieveAt i c
    = Some (Success, match A !! i with Some o => decode o | None => nullOid end, c')
    /\ holds_array c' m A t.
Proof.
  intros H. unfold CollArray_retrieveAt. rewrite sv_status. destruct (ha_bounds _ _ _ _ H) as (-> & -> & _).
  destruct ((i <? 0) || (t <=? i)) eqn:Er.
  { exists c. split; [|done]. destruct (A !! i) as [o|] eqn:E; [|done].
    apply (ha_range _ _ _ _ H) in E. apply orb_true_iff in Er as [?%Z.ltb_lt|?%Z.leb_le]; lia. }
  pose proof (holds_array_id _ _ _ _ i H) as Hi.
  pose proof (ha_none _ _ _ _ H) as Hn. unfold create_cache in Hi. destruct (cache c) as [vc|] eqn:Ec.
  - change (default (new_ValueCache true) (Some vc)) with vc in Hi. cbn [mbind option_bind].
    unfold get_id. destruct (A !! i) as [o|] eqn:Ei.
    + destruct Hi as (l & -> & _ & _ & Hl). unfold read. rewrite Hl. cbn.
      exists (set_cache c vc). split; [done|]. destruct H. split; try done. by unfold create_cache in *; rewrite Ec in *.
    + destruct Hi as [_ ->]. rewrite Hnew. by exists c.
  - rewrite (Hn eq_refl), lookup_empty. cbn [mbind option_bind]. rewrite Hnew. cbn. exists c.
    rewrite <- (Hn eq_refl). done.
Qed.

Lemma in_array_spec A o : in_array A o <-> exists i, A !! i = Some o.
Proof.
  unfold in_array. rewrite Exists_exists. split.
  - intros ([i o'] & H%elem_of_map_to_list & <-). by exists i.
  - intros [i H%elem_of_map_to_list]. by exists (i, o).
Qed.

Lemma set_cache_id c vc : cache c = Some vc -> set_cache c vc = c.
Proof. destruct c. cbn. by intros ->. Qed.

Lemma array_isIn c m A t o :
  holds_array c m A t ->
  exists c' w, isIn_p o c = Some (Success, bool_decide (in_array A o), w, c') /\ holds_array c' m A t.
Proof.
  intros H. unfold isIn_p, find_item. pose proof (ha_paired _ _ _ _ H) as P.
  pose proof (ha_none _ _ _ _ H) as Hn. unfold create_cache in P.
  assert (in_array A o <-> is_Some (m !! oid_key o)) as Hin.
  { rewrite in_array_spec. split.
    - intros [i E]. exists (tOid o, i, added). apply (ha_entry _ _ _ _ H). by exists o.
    - intros [[[v i] st] E]. apply (ha_entry _ _ _ _ H) in E as (o' & Eo%(oid_key_inj ∅) & _ & _ & E).
      subst o'. by exists i. }
  destruct (cache c) as [vc|] eqn:Ec.
  - change (default (new_ValueCache true) (Some vc)) with vc in P.
    rewrite (get_paired 0 vc m (tOid o) P eq_refl). cbn [mbind option_bind]. fold (oid_key o).
    destruct (m !! oid_key o) as [[[v i] st]|] eqn:Em.
    + destruct (p_entry _ _ _ P _ _ _ _ Em) as (_ & _ & _ & l & Ek & _ & El). rewrite Ek. cbn [mbind option_bind].
      unfold read. rewrite El. cbn [mbind option_bind state].
      apply (ha_entry _ _ _ _ H) in Em as (_ & _ & _ & -> & _). exists (set_cache c vc), None.
      rewrite bool_decide_true by (apply Hin; by eexists). split; [done|].
      rewrite (set_cache_id c vc Ec). done.
    + rewrite (paired_none _ _ _ _ P Em). cbn [mbind option_bind]. rewrite Hnew. cbn [negb].
      exists c, None. split; [|done]. rewrite bool_decide_false; [done|]. rewrite Hin. by intros [? ?].
  - cbn [mbind option_bind]. rewrite Hnew. exists c, None. split; [|done].
    rewrite bool_decide_false; [done|]. rewrite in_array_spec, (Hn eq_refl). by intros [i ?].
Qed.

(** An operation does what its specification says. *)
Definition adoes (y : option (Collection * aresult)) (z : option (gmap Z Oid * Z * aresult)) : Prop :=
  match z with
  | Some (A, t, r) => exists c m, y = Some (c, r) /\ holds_array c m A t
  | None => y = None
  end.

Lemma insertAt_does c m A t i o :
  holds_array c m A t -> Z.of_nat (size A) < 2 ^ 31 - 1 -> arr_legal_op A t (InsertAt i o) ->
  adoes (arr_op c (InsertAt i o)) (arr_spec_op A t (InsertAt i o)).
Proof.
  intros H Hs Hl. cbn [arr_op arr_spec_op]. destruct (A !! i) as [o'|] eqn:E; cbn [adoes].
  - by rewrite (insertAt_occupied c m A t i o o' H E).
  - destruct (insertAt_spec c m A t i o H Hs Hl E) as (c' & m' & -> & H'). by exists c', m'.
Qed.

Lemma append_does c m A t o noDup :
  holds_array c m A t -> Z.of_nat (size A) < 2 ^ 31 - 1 -> arr_legal_op A t (Append o noDup) ->
  adoes (arr_op c (Append o noDup)) (arr_spec_op A t (Append o noDup)).
Proof.
  intros H Hs [Ht Hl]. cbn [arr_op arr_spec_op adoes]. unfold CollArray_append. rewrite sv_status.
  assert (A !! t = None) as Hno.
  { destruct (A !! t) as [o'|] eqn:E; [|done]. apply (ha_range _ _ _ _ H) in E. lia. }
  assert (forall c', holds_array c' m A t -> (forall j, A !! j <> Some o) ->
    exists c'' m', CollArray_insertAt (top c') o c' = Some (Success, c'') /\ holds_array c'' m' (<[t := o]> A) (t + 1))
    as Hins.
  { intros c' H' Hj. destruct (ha_bounds _ _ _ _ H') as (_ & -> & ?).
    destruct (insertAt_spec c' m A t t o H' Hs) as (c'' & m' & E & H''); [split; [lia|by intros j ?%Hj]|done|].
    exists c'', m'. split; [done|]. by rewrite Z.max_r in H'' by lia. }
  destruct noDup; cbn [negb andb].
  - destruct (array_isIn c m A t o H) as (c' & w & -> & H'). cbn [mbind option_bind].
    case_bool_decide as Hin; [by exists c', m|].
    destruct (Hins c' H') as (c'' & m' & -> & H''); [|by exists c'', m'].
    intros j E. apply Hin, in_array_spec. by exists j.
  - destruct Hl as [Hl|Hl]; [done|]. destruct (Hins c H Hl) as (c'' & m' & -> & H''). by exists c'', m'.
Qed.

Lemma arr_op_spec c m A t x :
  holds_array c m A t -> Z.of_nat (size A) < 2 ^ 31 - 1 -> arr_legal_op A t x ->
  adoes (arr_op c x) (arr_spec_op A t x).
Proof.
  intros H Hs Hl. destruct x as [i o|o noDup|i|i|].
  - by apply (insertAt_does c m).
  - by apply (append_does c m).
  - cbn [arr_op arr_spec_op]. pose proof (suppressAt_spec c m A t i H) as E.
    destruct (A !! i); cbn [adoes]; rewrite E; [done|]. exists (touch c), m. split; [done|]. by apply holds_array_touch.
  - cbn [arr_op arr_spec_op adoes]. destruct (retrieveAt_spec c m A t i H) as (c' & -> & H'). by exists c', m.
  - exists c, m. split; [|done]. cbn. unfold getCount. by rewrite (ha_cnt _ _ _ _ H).
Qed.

Lemma arr_size A t x A' t' r : arr_spec_op A t x = Some (A', t', r) -> (size A' <= S (size A))%nat.
Proof.
  destruct x as [i o|o noDup|i|i|]; cbn.
  - destruct (A !! i) eqn:E; intros [=]; subst. rewrite map_size_insert, E. done.
  - destruct (_ && _); intros [=]; subst; [lia|]. rewrite map_size_insert. destruct (A !! t); cbn; lia.
  - destruct (A !! i); intros [=]; subst. lia.
  - intros [=]; subst. lia.
  - intros [=]; subst. lia.
Qed.

Lemma arr_run_spec xs : forall c m A t,
  holds_array c m A t -> Z.of_nat (size A) + Z.of_nat (length xs) < 2 ^ 31 - 1 -> arr_legal A t xs ->
  match arr_spec A t xs with
  | Some (A', t', rs) => exists c' m', arr_run c xs = Some (c', rs) /\ holds_array c' m' A' t'
  | None => arr_run c xs = None
  end.
Proof.
  induction xs as [|x xs IH]; intros c m A t H Hs; cbn [arr_run arr_spec arr_legal length] in *.
  - intros _. by exists c, m.
  - intros [Hx Hxs]. pose proof (arr_op_spec c m A t x H ltac:(lia) Hx) as Hd. unfold adoes in Hd.
    destruct (arr_spec_op A t x) as [[[A1 t1] r]|] eqn:E; [|by rewrite Hd].
    destruct Hd as (c1 & m1 & -> & H1). apply arr_size in E. cbn [mbind option_bind].
    specialize (IH c1 m1 A1 t1 H1 ltac:(lia) Hxs).
    destruct (arr_spec A1 t1 xs) as [[[A2 t2] rs]|]; cbn [mbind option_bind].
    + destruct IH as (c' & m' & -> & H'). by exists c', m'.
    + by rewrite IH.
Qed.

Lemma new_array : holds_array new_coll ∅ ∅ 0.
Proof.
  split; try done.
  - apply new_caches.
  - intros k v i st. rewrite lookup_empty. split; [done|]. intros (o & _ & _ & _ & E). by rewrite lookup_empty in E.
Qed.

(** A new array of oids in which no item is in two places answers insertions
    at an index, appends, reads and counts as a map from indexes, the reads of an
    empty place, in the bounds of the array or not, giving the null oid, until an
    item is inserted at the index of another one or suppressed: that is undefined. *)
Theorem coll_array_refines xs :
  Z.of_nat (length xs) < 2 ^ 31 - 1 -> arr_legal ∅ 0 xs ->
  match arr_spec ∅ 0 xs with
  | Some (A, t, rs) => exists c m, arr_run new_coll xs = Some (c, rs) /\ holds_array c m A t
  | None => arr_run new_coll xs = None
  end.
Proof. intros Hn Hl. by apply (arr_run_spec xs new_coll ∅ ∅ 0 new_array). Qed.

End New.

End Collection.

Module Example.

#[local] Instance numbers : Oids Z := {| getNX := fun i => i |}.

(** A collection that is stored with these items, or not stored when it has none. *)
Definition backend (st : list Z) : Backend (Oid := Z) := {|
  status := Success; locked := false; oid_valid := bool_decide (st <> []);
  check_class := fun _ _ => Success;
  collectionGetByOid := fun o => RPCSuccess (if decide (o ∈ st) then Some 0 else None);
  collectionGetByInd := fun _ => RPCSuccess None;
  nullOid := 0; decode := fun o => o |}.

Lemma backend_serves st : Serves (BE := backend st) (list_to_set st).
Proof.
  split; try done.
  - intros o _. cbn. eexists. split; [done|]. rewrite elem_of_list_to_set.
    case_decide; (split; [done || by intros [? ?]|by eauto]).
  - cbn. by intros ->%bool_decide_eq_false%dec_stable.
  - by intros a b.
Qed.

Section Stored.
#[local] Instance stored_backend : Backend := backend [5].
#[local] Instance stored_serves : Serves {[5]}.
Proof. pose proof (backend_serves [5]) as H. cbn in H. by rewrite union_empty_r_L in H. Qed.

(** An item of the back end is suppressed, inserted again and found. *)
Definition ops : list (op (Oid := Z)) :=
  [Insert 7 false; Suppress 5 false; IsIn 5; Insert 5 false; IsIn 5; Insert 7 false; Count].

Lemma coll_set_refines_witness :
  exists c, run (loaded {[5]}) ops
    = Some (c, [RStatus Success; RStatus Success; RIn Success false; RStatus Success; RIn Success true;
                RStatus (Exception IDB_COLLECTION_DUPLICATE_INSERT_ERROR); RCount 2]).
Proof.
  assert (Z.of_nat (length ops) + Z.of_nat (size ({[5]} : gset Z)) < 2 ^ 31 - 1) as Hb by done.
  pose proof (coll_set_refines {[5]} ops Hb) as H.
  destruct (spec {[5]} ∅ ops) as [[[X T] rs]|] eqn:E; [|exfalso; revert E; by vm_compute].
  destruct H as (c & m & Er & _). exists c. rewrite Er. revert E. vm_compute. by intros [= _ _ <-].
Defined.

(** To suppress an item that was inserted in this session is undefined: a new item,
    an item of the back end that was suppressed and inserted again. *)
Example suppress_inserted :
  run (loaded {[5]}) [Insert 7 false; Suppress 7 false] = None
  /\ run (loaded {[5]}) [Suppress 5 false; Insert 5 false; Suppress 5 false] = None.
Proof. by vm_compute. Qed.

End Stored.

Section New.
#[local] Instance new_backend : Backend := backend [].
#[local] Instance new_serves : Serves ∅ := backend_serves [].

(** The second insertion of an item in a bag takes the place of the first in the map
    of values: the bag counts two items, the cache has two by index and one by value. *)
Example bag_forgets :
  (fun '(c, rs) => (rs, length (val_map (create_cache c)), size (id_map (create_cache c)))) <$>
    bag_run new_coll [Insert 5 false; Insert 5 false; IsIn 5; Count]
  = Some ([RStatus Success; RStatus Success; RIn Success true; RCount 2], 1%nat, 2%nat).
Proof. by vm_compute. Qed.

Definition arr_ops : list (aop (Oid := Z)) :=
  [InsertAt 2 5; RetrieveAt 2; RetrieveAt 0; SuppressAt 1; Append 5 true; Append 6 true; ACount].

Lemma coll_array_refines_witness :
  exists c, arr_run new_coll arr_ops
    = Some (c, [AStatus Success; AOid Success 5; AOid Success 0;
                AStatus (Exception IDB_COLLECTION_SUPPRESS_ERROR); AStatus Success; AStatus Success; ANum 2]).
Proof.
  pose proof (coll_array_refines (SV := new_serves) eq_refl arr_ops) as H.
  destruct (arr_spec ∅ 0 arr_ops) as [[[A t] rs]|] eqn:E; [|exfalso; revert E; by vm_compute].
  destruct H as (c & m & Er & _).
  - done.
  - split; [split; [done|intros j; by rewrite lookup_empty]|]. cbn [arr_spec_op]. rewrite lookup_empty.
    do 3 (split; [done|]). split; [split; [done|by left]|]. cbn [arr_spec_op].
    rewrite bool_decide_true by (apply in_array_spec; by exists 2). split; [split; [done|by left]|]. by vm_compute.
  - exists c. rewrite Er. revert E. vm_compute. by intros [= _ _ <-].
Defined.

(** An insertion at the place of another item and the suppression of an item. *)
Example array_undefined :
  arr_run new_coll [InsertAt 0 5; InsertAt 0 6] = None /\ arr_run new_coll [InsertAt 0 5; SuppressAt 0] = None.
Proof. by vm_compute. Qed.

End New.

End Example.
