(* ===== verification/Inverse.v ===== *)
(** * Relationships

    src/eyedb/Attribute_inv.cc: two attributes may be the inverse of each other;
    when an object is created, written or removed, or an item is put in or taken
    out of a collection, the server changes the inverse attribute of the objects
    that are concerned. This file has the operations, on the oids at the places of
    the attributes of the objects of a database and on its collections, and their
    callers in AgregatClass.cc and kernel.cc; an error stops an operation and leaves
    what was done before. Collections are sets of oids with the insertion and the
    suppression that [Collection.coll_set_refines] shows, the server writing a collection
    after it changes it; the objects loaded in a
    transaction are those of its cache, so a collection is one object. The schema,
    the oids that the storage manager gives and the index entries that the writing
    of an object changes itself are parameters or left out. *)

From S2P Require Import Prelude.

#[local] Set Warnings "-register-all,-clear-no-such-hyp".

Record Attribute := mk_Attribute {
  attr_id : Z;                (* of the description, one for each attribute of a class *)
  attr_num : Z;
  idr_poff : Z;
  isIndirect : bool;
  isCollectionClass : bool }. (* cls->asCollectionClass() *)
#[export] Instance Attribute_eq : EqDecision Attribute.
Proof. solve_decision. Defined.

(** Attribute::InvObjOp *)
Inductive InvObjOp := invObjCreate | invObjUpdate | invObjRemove.

Inductive Error := IDB_ATTRIBUTE_INVERSE_ERROR | IDB_INDEX_ERROR | IDB_COLLECTION_ERROR | LoadObjectError | StorageError | Aborted.

Section Inverse.
Context {Oid : Type} `{Countable Oid}.
Variable nullOid : Oid.
Variable getDbid : Oid -> Z.
(** Database::getDbid *)
Variable dbid : Z.
(** The inv_spec.item of an attribute. *)
Variable inverse_of : Attribute -> option Attribute.
(** The attribute that has the name of a given one in the class of an object. *)
Variable attribute_in : Oid -> Attribute -> Attribute.
(** The oid that the storage manager gives to a new object, from those in use. *)
Variable objectCreate : gset Oid -> Oid.

Definition isValid (o : Oid) : bool := bool_decide (o <> nullOid).

Record Coll := mk_Coll { removed : bool; items : gset Oid; inv : option (Oid * Attribute) }.
Record InvOidContext := mk_InvOidContext { objoid : Oid; ctx_attr_num : Z; attr_offset : Z; valoid : Oid }.

(** The database, the indexes of the attributes that have one (their entries: a value
    and the object that has it), the collections that were changed and not realized,
    the list of InvOidContext.cc, and the bytes of the object that is being written
    (InvCtx::idr). *)
Record store := mk_store {
  data : gmap Oid (gmap Z Oid); colls : gmap Oid Coll; index : gmap Z (gset (Oid * Oid));
  unsaved : gset Oid; inv_list : list InvOidContext; obj_idr : gmap Z Oid }.
Definition set_data d s := mk_store d (colls s) (index s) (unsaved s) (inv_list s) (obj_idr s).
Definition set_colls c s := mk_store (data s) c (index s) (unsaved s) (inv_list s) (obj_idr s).
Definition set_index i s := mk_store (data s) (colls s) i (unsaved s) (inv_list s) (obj_idr s).
Definition set_unsaved u s := mk_store (data s) (colls s) (index s) u (inv_list s) (obj_idr s).
Definition set_inv_list l s := mk_store (data s) (colls s) (index s) (unsaved s) l (obj_idr s).
Definition set_obj_idr d s := mk_store (data s) (colls s) (index s) (unsaved s) (inv_list s) d.

(** ** A status and a result *)

Definition M (A : Type) : Type := store -> (Error + A) * store.
#[local] Instance M_ret : MRet M := fun A x s => (inr x, s).
#[local] Instance M_bind : MBind M := fun A B f m s => match m s with (inr x, s) => f x s | (inl e, s) => (inl e, s) end.
Definition fail {A} (e : Error) : M A := fun s => (inl e, s).
Definition get : M store := fun s => (inr s, s).
Definition modify (f : store -> store) : M unit := fun s => (inr tt, f s).
Fixpoint for_each {A} (f : A -> M unit) (l : list A) : M unit :=
  match l with [] => mret tt | x :: l => f x;; for_each f l end.

Implicit Types (this inv_item item : Attribute) (s : store) (o : Oid).

(** ** Storage *)

Definition place s o (p : Z) : option Oid := data s !! o ≫= fun d => d !! p.
Definition dataRead o (p : Z) : M Oid :=
  s ← get; match place s o p with Some v => mret v | None => fail StorageError end.
Definition dataWrite o (p : Z) (v : Oid) : M unit :=
  s ← get;
  match data s !! o with
  | Some d => match d !! p with Some _ => modify (set_data (<[o := <[p := v]> d]> (data s))) | None => fail StorageError end
  | None => fail StorageError
  end.

Definition inverse_read_oid item o : M Oid :=
  if getDbid o =? dbid then dataRead o (idr_poff item) else fail IDB_ATTRIBUTE_INVERSE_ERROR.

(** Attribute::updateIndexForInverse *)
Definition updateIndexForInverse item o (new_oid : Oid) : M unit :=
  s ← get;
  match index s !! attr_id item with
  | None => mret tt
  | Some entries =>
      old_oid ← dataRead o (idr_poff item);
      if decide (old_oid = new_oid) then mret tt
      else if decide ((old_oid, o) ∈ entries) then
        modify (fun s => set_index (<[attr_id item := {[(new_oid, o)]} ∪ (entries ∖ {[(old_oid, o)]})]> (index s)) s)
      else fail IDB_INDEX_ERROR
  end.

(** InvOidContext::insert *)
Definition context_insert o item (v : Oid) : M unit :=
  modify (fun s => set_inv_list (inv_list s ++ [mk_InvOidContext o (attr_num item) (idr_poff item) v]) s).

(** [ctx] is the oid of the object whose bytes are [obj_idr] (InvCtx::oid). *)
Definition inverse_write_oid item o (new_obj_oid ctx : Oid) : M unit :=
  (if isIndirect item then updateIndexForInverse item o new_obj_oid else mret tt);;
  context_insert o item new_obj_oid;;
  (if decide (o = ctx) then modify (fun s => set_obj_idr (<[idr_poff item := new_obj_oid]> (obj_idr s)) s) else mret tt);;
  dataWrite o (idr_poff item) new_obj_oid.

(** ** Collections *)

(** Database::loadObject, the test of its class and Object::isRemoved. *)
Definition inverse_get_collection o : M (option Oid) :=
  s ← get;
  if isValid o then
    match colls s !! o with
    | Some c => mret (if removed c then None else Some o)
    | None => match data s !! o with Some _ => fail IDB_ATTRIBUTE_INVERSE_ERROR | None => fail LoadObjectError end
    end
  else fail LoadObjectError.

Definition on_coll {A} (o : Oid) (f : Coll -> M A) : M A :=
  s ← get; match colls s !! o with Some c => f c | None => fail LoadObjectError end.
Definition set_items (x : gset Oid) (c : Coll) : Coll := mk_Coll (removed c) x (inv c).
Definition change_items (o : Oid) (f : gset Oid -> gset Oid) : M unit :=
  on_coll o (fun c => modify (fun s => set_unsaved ({[o]} ∪ unsaved s) (set_colls (<[o := set_items (f (items c)) c]> (colls s)) s))).

Definition getElements (o : Oid) : M (list Oid) := on_coll o (fun c => mret (elements (items c))).
(** coll->insert(x, True) and coll->suppress(x, True) *)
Definition coll_insert (o x : Oid) : M unit := change_items o (fun i => {[x]} ∪ i).
Definition coll_suppress (o x : Oid) : M unit := change_items o (fun i => i ∖ {[x]}).
(** inverse_coll_realize: the collection is written without its inverses. *)
Definition inverse_coll_realize (o : Oid) : M unit := modify (fun s => set_unsaved (unsaved s ∖ {[o]}) s).

Definition in_use s : gset Oid := dom (data s) ∪ dom (colls s) ∪ {[nullOid]}.
Definition create_coll (i : option (Oid * Attribute)) : M Oid :=
  s ← get;
  let o := objectCreate (in_use s) in
  modify (set_colls (<[o := mk_Coll false ∅ i]> (colls s)));; mret o.

(** A literal collection is in its master object, which may have created it; it has
    the master object for inverse. *)
Definition inverse_create_collection inv_item (obj_oid : Oid) (is_N_N : bool) (master_oid : Oid) : M Oid :=
  let inv_item := attribute_in master_oid inv_item in
  if isIndirect inv_item then create_coll (if is_N_N then Some (obj_oid, inv_item) else None)
  else
    c ← dataRead master_oid (idr_poff inv_item);
    if isValid c then mret c else create_coll (Some (master_oid, inv_item)).

(** The collection at an attribute of an object, if there is one. *)
Definition collection_at (o : Oid) : M (option Oid) := if isValid o then inverse_get_collection o else mret None.
Definition if_coll (c : option Oid) (f : Oid -> M unit) : M unit := match c with Some c => f c | None => mret tt end.

(** ** An object of a relationship is created, written or removed *)

Definition inverse_1_1 this (op : InvObjOp) inv_item (obj_oid inv_obj_oid : Oid) : M unit :=
  match op with
  | invObjCreate =>
      if isValid inv_obj_oid then
        cur_obj_oid ← inverse_read_oid inv_item inv_obj_oid;
        if decide (cur_obj_oid = obj_oid) then mret tt
        else
          (if isValid cur_obj_oid then inverse_write_oid this cur_obj_oid nullOid obj_oid else mret tt);;
          inverse_write_oid inv_item inv_obj_oid obj_oid obj_oid
      else mret tt
  | invObjUpdate =>
      old_inv_obj_oid ← inverse_read_oid this obj_oid;
      (if isValid old_inv_obj_oid && bool_decide (old_inv_obj_oid <> inv_obj_oid) then
         old_obj_oid ← inverse_read_oid inv_item old_inv_obj_oid;
         if decide (old_obj_oid = obj_oid) then inverse_write_oid inv_item old_inv_obj_oid nullOid obj_oid else mret tt
       else mret tt);;
      if isValid inv_obj_oid then
        cur_obj_oid ← inverse_read_oid inv_item inv_obj_oid;
        (if isValid cur_obj_oid && bool_decide (cur_obj_oid <> obj_oid) then inverse_write_oid this cur_obj_oid nullOid obj_oid else mret tt);;
        inverse_write_oid inv_item inv_obj_oid obj_oid obj_oid
      else mret tt
  | invObjRemove => if isValid inv_obj_oid then inverse_write_oid inv_item inv_obj_oid nullOid obj_oid else mret tt
  end.

Definition inverse_1_N this (op : InvObjOp) inv_item (obj_oid inv_obj_oid : Oid) : M unit :=
  match op with
  | invObjRemove =>
      if isValid inv_obj_oid then
        cur_obj_oid ← inverse_read_oid inv_item inv_obj_oid;
        coll ← collection_at cur_obj_oid;
        if_coll coll (fun coll => coll_suppress coll obj_oid;; inverse_coll_realize coll)
      else mret tt
  | _ =>
      match op with
      | invObjUpdate =>
          old_inv_obj_oid ← inverse_read_oid this obj_oid;
          if isValid old_inv_obj_oid && bool_decide (old_inv_obj_oid <> inv_obj_oid) then
            old_obj_oid ← inverse_read_oid inv_item old_inv_obj_oid;
            coll ← collection_at old_obj_oid;
            if_coll coll (fun coll => coll_suppress coll obj_oid;; inverse_coll_realize coll)
          else mret tt
      | _ => mret tt
      end;;
      if isValid inv_obj_oid then
        cur_obj_oid ← inverse_read_oid inv_item inv_obj_oid;
        coll ← collection_at cur_obj_oid;
        coll ← match coll with
               | Some coll => mret coll
               | None =>
                   coll ← inverse_create_collection inv_item nullOid false inv_obj_oid;
                   inverse_write_oid inv_item inv_obj_oid coll obj_oid;; mret coll
               end;
        coll_insert coll obj_oid;; inverse_coll_realize coll
      else mret tt
  end.

Definition inverse_N_1 this (op : InvObjOp) inv_item (obj_oid inv_obj_oid : Oid) : M unit :=
  match op with
  | invObjRemove =>
      if isValid inv_obj_oid then
        coll ← inverse_get_collection inv_obj_oid;
        if_coll coll (fun coll => oid_arr ← getElements coll; for_each (fun x => inverse_write_oid inv_item x nullOid obj_oid) oid_arr)
      else mret tt
  | _ =>
      match op with
      | invObjUpdate =>
          old_inv_obj_oid ← inverse_read_oid this obj_oid;
          if isValid old_inv_obj_oid && bool_decide (old_inv_obj_oid <> inv_obj_oid) then
            old_coll ← inverse_get_collection old_inv_obj_oid;
            if_coll old_coll (fun coll => oid_arr ← getElements coll; for_each (fun x => inverse_write_oid inv_item x nullOid obj_oid) oid_arr)
          else mret tt
      | _ => mret tt
      end;;
      if isValid inv_obj_oid then
        coll ← inverse_get_collection inv_obj_oid;
        if_coll coll (fun coll =>
          oid_arr ← getElements coll;
          for_each (fun x =>
            old_obj_oid ← inverse_read_oid inv_item x;
            if decide (old_obj_oid = obj_oid) then mret tt
            else
              (if isValid old_obj_oid then inverse_write_oid this old_obj_oid nullOid obj_oid else mret tt);;
              inverse_write_oid inv_item x obj_oid obj_oid) oid_arr)
      else mret tt
  end.

Definition inverse_N_N this (op : InvObjOp) inv_item (obj_oid inv_obj_oid : Oid) : M unit :=
  match op with
  | invObjRemove =>
      if isValid inv_obj_oid then
        coll ← inverse_get_collection inv_obj_oid;
        if_coll coll (fun coll =>
          oid_arr ← getElements coll;
          for_each (fun x =>
            coll_oid ← inverse_read_oid inv_item x;
            if isValid coll_oid then
              inv_coll ← inverse_get_collection coll_oid;
              coll_suppress coll x;;
              if_coll inv_coll (fun inv_coll => coll_suppress inv_coll obj_oid;; inverse_coll_realize inv_coll)
            else mret tt) oid_arr;;
          inverse_coll_realize coll)
      else mret tt
  | _ =>
      old_inv_obj_oid ← match op with invObjUpdate => inverse_read_oid this obj_oid | _ => mret nullOid end;
      (if isValid old_inv_obj_oid && bool_decide (old_inv_obj_oid <> inv_obj_oid) then
         old_coll ← inverse_get_collection old_inv_obj_oid;
         if_coll old_coll (fun old_coll =>
           oid_arr ← getElements old_coll;
           for_each (fun x =>
             coll_suppress old_coll x;;
             coll_oid ← inverse_read_oid inv_item x;
             inv_coll ← collection_at coll_oid;
             if_coll inv_coll (fun inv_coll => coll_suppress inv_coll obj_oid;; inverse_coll_realize inv_coll)) oid_arr;;
           inverse_coll_realize old_coll)
       else mret tt);;
      if (isValid old_inv_obj_oid && bool_decide (old_inv_obj_oid = inv_obj_oid)) || negb (isValid inv_obj_oid) then mret tt
      else
        coll ← inverse_get_collection inv_obj_oid;
        if_coll coll (fun coll =>
          oid_arr ← getElements coll;
          for_each (fun x =>
            coll_obj_oid ← inverse_read_oid inv_item x;
            inv_coll ← collection_at coll_obj_oid;
            inv_coll ← match inv_coll with
                       | Some inv_coll => mret inv_coll
                       | None =>
                           inv_coll ← inverse_create_collection inv_item x true x;
                           inverse_write_oid inv_item x inv_coll obj_oid;; mret inv_coll
                       end;
            coll_insert inv_coll obj_oid;; inverse_coll_realize inv_coll) oid_arr)
  end.

(** [inverse_get_inv_obj_oid] reads the bytes of the object, [obj_idr]. *)
Definition inverse_realize this (op : InvObjOp) (obj_oid : Oid) : M unit :=
  match inverse_of this with
  | None => mret tt
  | Some inv_item =>
      s ← get;
      match obj_idr s !! idr_poff this with
      | None => fail StorageError
      | Some inv_obj_oid =>
          match isCollectionClass this, isCollectionClass inv_item with
          | true, true => inverse_N_N this op inv_item obj_oid inv_obj_oid
          | true, false => inverse_N_1 this op inv_item obj_oid inv_obj_oid
          | false, true => inverse_1_N this op inv_item obj_oid inv_obj_oid
          | false, false => inverse_1_1 this op inv_item obj_oid inv_obj_oid
          end
      end
  end.

(** ** An item is put in or taken out of a collection *)

(** [this] is the attribute where the object [obj_oid] has the collection. *)
Definition inverse_coll_perform_N_N this (op : InvObjOp) inv_item (obj_oid x_obj_oid : Oid) : M unit :=
  match op with
  | invObjUpdate =>
      old_obj_oid ← inverse_read_oid inv_item x_obj_oid;
      coll ← collection_at old_obj_oid;
      coll ← match coll with
             | Some coll => mret coll
             | None =>
                 coll ← inverse_create_collection inv_item x_obj_oid true x_obj_oid;
                 inverse_write_oid inv_item x_obj_oid coll nullOid;; mret coll
             end;
      coll_insert coll obj_oid;; inverse_coll_realize coll
  | invObjRemove =>
      old_obj_oid ← inverse_read_oid inv_item x_obj_oid;
      coll ← collection_at old_obj_oid;
      cur_coll_oid ← inverse_read_oid this obj_oid;
      if_coll coll (fun coll =>
        oid_arr ← getElements coll;
        for_each (fun x =>
          coll_oid ← inverse_read_oid this x;
          if isValid coll_oid && bool_decide (coll_oid <> cur_coll_oid) then
            inv_coll ← inverse_get_collection coll_oid;
            if_coll inv_coll (fun inv_coll => coll_suppress inv_coll x_obj_oid;; inverse_coll_realize inv_coll)
          else mret tt) oid_arr;;
        coll_suppress coll obj_oid;; inverse_coll_realize coll)
  | invObjCreate => fail Aborted
  end.

Definition inverse_coll_perform_N_1 this (op : InvObjOp) inv_item (obj_oid x_obj_oid : Oid) : M unit :=
  match op with
  | invObjUpdate =>
      old_obj_oid ← inverse_read_oid inv_item x_obj_oid;
      (if isValid old_obj_oid && bool_decide (old_obj_oid <> obj_oid) then
         old_inv_obj_oid ← inverse_read_oid this old_obj_oid;
         old_coll ← collection_at old_inv_obj_oid;
         if_coll old_coll (fun old_coll =>
           oid_arr ← getElements old_coll;
           for_each (fun x => inverse_write_oid inv_item x nullOid nullOid;; coll_suppress old_coll x) oid_arr;;
           inverse_coll_realize old_coll)
       else mret tt);;
      inverse_write_oid inv_item x_obj_oid obj_oid nullOid
  | invObjRemove => inverse_write_oid inv_item x_obj_oid nullOid nullOid
  | invObjCreate => fail Aborted
  end.

Definition inverse_coll_perform this (op : InvObjOp) (obj_oid inv_obj_oid : Oid) : M unit :=
  match inverse_of this with
  | None => mret tt
  | Some inv_item =>
      if isCollectionClass inv_item then inverse_coll_perform_N_N this op inv_item obj_oid inv_obj_oid
      else inverse_coll_perform_N_1 this op inv_item obj_oid inv_obj_oid
  end.

(** ** The callers *)

(** AgregatClass::createInverses_realize, updateInverses_realize and
    removeInverses_realize of a class that is no union; [attrs] are its attributes
    that are not native. *)
Definition inverses_realize (attrs : list Attribute) (op : InvObjOp) (obj_oid : Oid) : M unit :=
  for_each (fun item => inverse_realize item op obj_oid) attrs.

(** IDB_agregatCreate, IDB_agregatWrite and IDB_agregatDelete: the object is created
    before its inverses are, and written after. *)
Definition agregatDelete (attrs : list Attribute) (obj_oid : Oid) (idr : gmap Z Oid) : M unit :=
  modify (set_obj_idr idr);;
  inverses_realize attrs invObjRemove obj_oid;;
  modify (fun s => set_data (delete obj_oid (data s)) s).
Definition catch {A} (m : M A) (f : Error -> M A) : M A :=
  fun s => match m s with (inl e, s) => f e s | r => r end.
Definition agregatCreate (attrs : list Attribute) (idr : gmap Z Oid) : M Oid :=
  s ← get;
  let obj_oid := objectCreate (in_use s) in
  modify (fun s => set_obj_idr idr (set_data (<[obj_oid := idr]> (data s)) s));;
  catch (inverses_realize attrs invObjCreate obj_oid)
    (fun e => s ← get; catch (agregatDelete attrs obj_oid (obj_idr s)) (fun _ => modify (fun s => set_data (delete obj_oid (data s)) s));; fail e);;
  mret obj_oid.
Definition agregatWrite (attrs : list Attribute) (obj_oid : Oid) (idr : gmap Z Oid) : M unit :=
  modify (set_obj_idr idr);;
  inverses_realize attrs invObjUpdate obj_oid;;
  s ← get;
  match data s !! obj_oid with
  | Some _ => modify (set_data (<[obj_oid := obj_idr s]> (data s)))
  | None => fail StorageError
  end.

(** IDB_collectionWrite of a set: the items that were added (true) and removed, then
    the inverses of all of them, unless the collection is written by
    inverse_coll_realize. *)
Definition collectionWrite (coll : Oid) (changes : list (Oid * bool)) (invalid_inv : bool) : M unit :=
  for_each (fun '(x, added) =>
    on_coll coll (fun c =>
      if added : bool then modify (fun s => set_colls (<[coll := set_items ({[x]} ∪ items c) c]> (colls s)) s)
      else if decide (x ∈ items c) then modify (fun s => set_colls (<[coll := set_items (items c ∖ {[x]}) c]> (colls s)) s)
      else fail IDB_COLLECTION_ERROR)) changes;;
  on_coll coll (fun c =>
    match inv c with
    | Some (inv_oid, inv_item) =>
        if bool_decide (is_Some (inverse_of inv_item)) && negb invalid_inv then
          for_each (fun '(x, added) => inverse_coll_perform inv_item (if added : bool then invObjUpdate else invObjRemove) inv_oid x) changes
        else mret tt
    | None => mret tt
    end).

(** IDB_collectionDelete: the statuses of the inverses are not looked at. *)
Definition collectionDelete (coll : Oid) : M unit :=
  on_coll coll (fun c =>
    match inv c with
    | Some (inv_oid, inv_item) =>
        for_each (fun x => catch (inverse_coll_perform inv_item invObjRemove inv_oid x) (fun _ => mret tt)) (elements (items c))
    | None => mret tt
    end;;
    modify (fun s => set_colls (<[coll := mk_Coll true ∅ (inv c)]> (colls s)) s)).

End Inverse.

(** ** What the operations do

    The lemmas that the files on relationships share. *)

Section Steps.
Context {Oid : Type} `{Countable Oid}.
Variable nullOid : Oid.
Variable getDbid : Oid -> Z.
Variable dbid : Z.
(** The objects whose class has an attribute. *)
Variable has : Attribute -> Oid -> Prop.
Hypothesis has_valid : forall C o, has C o -> o <> nullOid /\ getDbid o = dbid.
Hypothesis same_place : forall C D o, has C o -> has D o -> idr_poff C = idr_poff D -> C = D.
Hypothesis same_id : forall C D o o', has C o -> has D o' -> attr_id C = attr_id D -> C = D.
Implicit Types (s : store (Oid := Oid)) (o : Oid) (C : Attribute).
#[local] Existing Instances M_ret M_bind.

(** The objects have the attributes of their class, and the indexes their values. *)
Definition good (obj : Oid) s : Prop :=
  (forall C o, has C o -> is_Some (data s !! o) -> is_Some (place s o (idr_poff C)))
  /\ (forall C o E v, has C o -> o <> obj -> isIndirect C = true -> index s !! attr_id C = Some E -> place s o (idr_poff C) = Some v -> (v, o) ∈ E).
Definition exists_in s o : Prop := is_Some (data s !! o).

Lemma exists_place s o p v : place s o p = Some v -> exists_in s o.
Proof. unfold place, exists_in. destruct (data s !! o); [eauto|done]. Qed.

Record frame (obj : Oid) s s' : Prop := {
  f_idr : obj_idr s' = obj_idr s;
  f_obj : data s' !! obj = data s !! obj;
  f_dom o : exists_in s' o <-> exists_in s o;
  f_good : good obj s -> good obj s' }.
Lemma frame_refl obj s : frame obj s s.
Proof. by split. Qed.
Lemma frame_trans obj s1 s2 s3 : frame obj s1 s2 -> frame obj s2 s3 -> frame obj s1 s3.
Proof. intros [] []. split; [congruence|congruence| |auto]. intros o. by rewrite f_dom1. Qed.

Lemma read_ok C s o v : has C o -> place s o (idr_poff C) = Some v -> inverse_read_oid getDbid dbid C o s = (inr v, s).
Proof.
  intros Ho E. destruct (has_valid _ _ Ho) as [_ Hd]. unfold inverse_read_oid. rewrite Hd, Z.eqb_refl. unfold dataRead, mbind, M_bind, get. by rewrite E.
Qed.

Lemma run_bind {A B} (m : M A) (f : A -> M B) s a s' : m s = (inr a, s') -> (m ≫= f) s = f a s'.
Proof. intros E. unfold mbind, M_bind. by rewrite E. Qed.

(** What the writing of an oid does. *)
Definition wrote C o v s s' : Prop :=
  forall o' p, place s' o' p = if decide (o' = o /\ p = idr_poff C) then Some v else place s o' p.

Lemma index_write C o v obj s : good obj s -> has C o -> exists_in s o -> o <> obj ->
  exists i, (if isIndirect C then updateIndexForInverse C o v else mret tt) s = (inr tt, set_index i s)
    /\ (forall j, j <> attr_id C -> i !! j = index s !! j)
    /\ (forall E, isIndirect C = true -> i !! attr_id C = Some E -> (v, o) ∈ E
         /\ forall o' w, has C o' -> o' <> obj -> o' <> o -> place s o' (idr_poff C) = Some w -> (w, o') ∈ E).
Proof.
  intros [Hp Hi] Ho Hex Hne. destruct (Hp _ _ Ho Hex) as [old Eold].
  assert (set_index (index s) s = s) as Eid by (by destruct s).
  destruct (isIndirect C) eqn:Ei; [|exists (index s); rewrite Eid; split_and!; done].
  unfold updateIndexForInverse, mbind, M_bind, get. destruct (index s !! attr_id C) as [E|] eqn:EE.
  2: { exists (index s). rewrite Eid. split_and!; try done. congruence. }
  unfold dataRead, mbind, M_bind, get. rewrite Eold. cbn. specialize (Hi C) as HiC. destruct (decide (old = v)) as [->|Hov].
  - exists (index s). rewrite Eid. split_and!; try done. intros E' _ EE'. assert (E' = E) as -> by congruence. split; eauto.
  - rewrite decide_True by eauto. eexists. split; [done|]. split; [intros; by rewrite lookup_insert_ne|].
    intros E' _. rewrite lookup_insert_eq. intros [= <-]. split; [set_solver|]. intros o' w Ho' Hne' Hoo Ew.
    assert ((w, o') ∈ E) by eauto. set_solver.
Qed.

Lemma write_ok C o v obj s : good obj s -> has C o -> exists_in s o -> o <> obj ->
  exists s', inverse_write_oid C o v obj s = (inr tt, s') /\ wrote C o v s s' /\ frame obj s s' /\ colls s' = colls s /\ unsaved s' = unsaved s.
Proof.
  intros Hg Ho Hex Hne. destruct (index_write C o v obj s Hg Ho Hex Hne) as (i & Ei & Hj & HE).
  destruct Hg as [Hp Hi]. destruct (Hp _ _ Ho Hex) as [old Eold]. unfold place in Eold.
  destruct (data s !! o) as [d|] eqn:Ed; [|done]. cbn in Eold. unfold inverse_write_oid. rewrite (run_bind _ _ _ _ _ Ei).
  unfold mbind, M_bind, context_insert, modify, mret, M_ret. cbn. rewrite decide_False by done.
  unfold dataWrite, mbind, M_bind, get, modify. cbn. rewrite Ed, Eold. eexists. split; [done|].
  assert (wrote C o v s (set_data (<[o:=<[idr_poff C:=v]> d]> (data s)) (set_inv_list (inv_list s ++ [mk_InvOidContext o (attr_num C) (idr_poff C) v]) (set_index i s)))) as HW.
  { intros o' p. unfold place. cbn. destruct (decide (o' = o)) as [->|].
    - rewrite lookup_insert_eq. cbn. destruct (decide (p = idr_poff C)) as [->|].
      + by rewrite decide_True, lookup_insert_eq.
      + rewrite decide_False by naive_solver. rewrite lookup_insert_ne by done. by rewrite Ed.
    - rewrite lookup_insert_ne, decide_False by naive_solver. done. }
  split; [exact HW|]. split; [|done]. split; cbn.
  - done.
  - by rewrite lookup_insert_ne.
  - intros o'. unfold exists_in. cbn. destruct (decide (o' = o)) as [->|]; [rewrite lookup_insert_eq, Ed; split; eauto|by rewrite lookup_insert_ne].
  - intros _. split.
    + intros C' o' Ho' Hex'. rewrite HW. case_decide; [eauto|]. apply Hp; [done|]. revert Hex'. cbn.
      destruct (decide (o' = o)) as [->|]; [rewrite Ed; eauto|by rewrite lookup_insert_ne].
    + intros C' o' E w Ho' Hne' Hind. cbn. rewrite HW. intros EE. destruct (decide (attr_id C' = attr_id C)) as [Hid|Hid].
      * pose proof (same_id C' C o' o Ho' Ho Hid) as ->. destruct (HE E Hind EE) as [H1 H2]. case_decide as Hd; [by intros [= <-]; destruct Hd as [-> _]|].
        intros Ew. apply H2; try done. intros ->. by apply Hd.
      * rewrite Hj in EE by done. case_decide as Hd; [|by eapply Hi]. destruct Hd as [-> Hpl]. exfalso. apply Hid. f_equal. by eapply same_place.
Qed.

End Steps.

(** ** Examples *)

Module Example.

(** Students 1, 2 and courses 11, 12; 1 follows both courses and 2 follows the first. *)
Definition courses := mk_Attribute 1 0 48 true true.
Definition students := mk_Attribute 2 0 48 true true.
Definition inverse_of (C : Attribute) : option Attribute :=
  if decide (C = courses) then Some students else if decide (C = students) then Some courses else None.
Definition row (v : Z) : gmap Z Z := {[48 := v]}.
Definition school : store (Oid := Z) := mk_store
  {[1 := row 21; 2 := row 22; 11 := row 31; 12 := row 32]}
  {[21 := mk_Coll false {[11; 12]} (Some (1, courses)); 22 := mk_Coll false {[11]} (Some (2, courses));
    31 := mk_Coll false {[1; 2]} (Some (11, students)); 32 := mk_Coll false {[1]} (Some (12, students))]} ∅ ∅ [] ∅.
Definition after (changes : list (Z * bool)) : list (list Z) :=
  let s := snd (collectionWrite 0 (fun _ => 7) 7 inverse_of (fun _ C => C) fresh 22 changes false school) in
  map (fun c => match colls s !! c with Some k => elements (items k) | None => [] end) [21; 22; 31; 32].
(** 2 takes the second course. *)
Example enrolled : after [(12, true)] = [[11; 12]; [11; 12]; [2; 1]; [2; 1]].
Proof. by vm_compute. Qed.
(** 2 leaves the first course: 1 loses it too, but stays among its students. *)
Example course_lost : after [(11, false)] = [[12]; []; [1]; [1]].
Proof. by vm_compute. Qed.
End Example.
