(* ===== verification/InvContext.v ===== *)
(** * What a relationship operation tells the client

    InvOidContext.cc and object_epilogue of kernel.cc: every oid that the server
    writes in an inverse attribute is sent to the client, which changes the objects
    of its cache accordingly. The list is coded by the coders of [Codec]. *)

From S2P Require Import Prelude Codec Inverse.

#[local] Set Warnings "-register-all,-clear-no-such-hyp".

Create HintDb logged.

Section Log.
Context {Oid : Type} `{Countable Oid}.
Variable nullOid : Oid.
Variable getDbid : Oid -> Z.
Variable dbid : Z.
Variable inverse_of : Attribute -> option Attribute.
Variable attribute_in : Oid -> Attribute -> Attribute.
Variable objectCreate : gset Oid -> Oid.
Implicit Types (s : store (Oid := Oid)) (o : Oid).
#[local] Existing Instances M_ret M_bind.

(** object_epilogue, on the objects of the cache: the oids at their places. *)
Definition object_epilogue (l : list InvOidContext) (cache : gmap Oid (gmap Z Oid)) : gmap Oid (gmap Z Oid) :=
  foldl (fun cache ctx =>
    match cache !! objoid ctx with
    | Some idr => <[objoid ctx := <[attr_offset ctx := valoid ctx]> idr]> cache
    | None => cache
    end) cache l.

(** The cached objects are those of the database, but for the one that is being
    written, whose bytes are those that will be. *)
Definition agrees (ctx : Oid) (cache : gmap Oid (gmap Z Oid)) s : Prop :=
  forall o idr, cache !! o = Some idr -> if decide (o = ctx) then idr = obj_idr s else data s !! o = Some idr.

(** When it succeeds, an operation has added to the list what brings the cache up to
    date, which is about objects of the database that are no collections. *)
Definition about_objects (l : list InvOidContext) s : Prop := Forall (fun ctx => objoid ctx ∈ dom (data s)) l.
Definition logged {A} (ctx : Oid) (m : M A) : Prop :=
  forall s a s', m s = (inr a, s') -> exists l, inv_list s' = inv_list s ++ l
    /\ (about_objects l s /\ dom (data s') = dom (data s))
    /\ forall cache, agrees ctx cache s -> agrees ctx (object_epilogue l cache) s'.

Lemma logged_ret {A} ctx (x : A) : logged ctx (mret x).
Proof. intros s a s' E. injection E as _ <-. exists []. split; [by rewrite app_nil_r|]. split; [by split; [constructor|]|done]. Qed.
Lemma logged_fail {A} ctx e : logged (A := A) ctx (fail e).
Proof. by intros s a s' E. Qed.
Lemma logged_get ctx : logged ctx (get (Oid := Oid)).
Proof. intros s a s' E. injection E as _ <-. exists []. split; [by rewrite app_nil_r|]. split; [by split; [constructor|]|done]. Qed.
Lemma object_epilogue_app l l' cache : object_epilogue (l ++ l') cache = object_epilogue l' (object_epilogue l cache).
Proof. apply foldl_app. Qed.
Lemma logged_bind {A B} ctx (m : M A) (f : A -> M B) : logged ctx m -> (forall x, logged ctx (f x)) -> logged ctx (m ≫= f).
Proof.
  intros Hm Hf s b s2 E. unfold mbind, M_bind in E. destruct (m s) as [[e|a] s1] eqn:E1; [done|].
  destruct (Hm _ _ _ E1) as (l1 & L1 & [A1 D1] & H1), (Hf _ _ _ _ E) as (l2 & L2 & [A2 D2] & H2). exists (l1 ++ l2). split_and!.
  - by rewrite L2, L1, app_assoc.
  - apply Forall_app. split; [done|]. unfold about_objects in A2. by rewrite D1 in A2.
  - by rewrite D2, D1.
  - intros cache Hc. rewrite object_epilogue_app. auto.
Qed.
Lemma logged_for_each {A} ctx (f : A -> M unit) l : (forall x, logged ctx (f x)) -> logged ctx (for_each f l).
Proof. intros Hf. induction l as [|x l IH]; [apply logged_ret|]. apply logged_bind; [done|]. by intros _. Qed.
(** Changes that are none of the oids of the objects. *)
Lemma logged_modify ctx (f : store -> store) : (forall s, data (f s) = data s /\ inv_list (f s) = inv_list s /\ obj_idr (f s) = obj_idr s) ->
  logged ctx (modify f).
Proof.
  intros Hf s a s' E. injection E as _ <-. destruct (Hf s) as (Hd & Hl & Hi). exists []. rewrite app_nil_r. split; [done|].
  split; [by rewrite Hd; split; [constructor|]|]. intros cache Hc o idr Ho. specialize (Hc o idr Ho). by rewrite Hd, Hi.
Qed.
Lemma logged_on_coll {A} ctx (o : Oid) (f : Coll -> M A) : (forall c, logged ctx (f c)) -> logged ctx (on_coll o f).
Proof. intros Hf. apply logged_bind; [apply logged_get|]. intros s. destruct (colls s !! o); [apply Hf|apply logged_fail]. Qed.

Lemma logged_if_coll ctx c (f : Oid -> M unit) : (forall c, logged ctx (f c)) -> logged ctx (if_coll c f).
Proof. intros Hf. destruct c; [apply Hf|apply logged_ret]. Qed.

(** Operations are made of the above: [logged_tac] follows their code. *)
Ltac logged_tac :=
  repeat match goal with
  | |- logged _ (_ ≫= _) => apply logged_bind; [|intros ?]
  | |- logged _ (mret _) => apply logged_ret
  | |- logged _ (fail _) => apply logged_fail
  | |- logged _ get => apply logged_get
  | |- logged _ (for_each _ _) => apply logged_for_each; intros ?
  | |- logged _ (on_coll _ _) => apply logged_on_coll; intros ?
  | |- logged _ (if_coll _ _) => apply logged_if_coll; intros ?
  | |- logged _ (modify _) => apply logged_modify; by intros [? ? ? ? ? ?]
  | |- logged _ (if _ then _ else _) => case_match
  | |- logged _ (match _ with _ => _ end) => case_match
  | H : forall _, logged _ _ |- _ => apply H
  | |- _ => solve [eauto with logged]
  end.

Lemma logged_read ctx item o : logged ctx (inverse_read_oid getDbid dbid item o).
Proof. unfold inverse_read_oid, dataRead. logged_tac. Qed.
Lemma logged_get_collection ctx o : logged ctx (inverse_get_collection nullOid o).
Proof. unfold inverse_get_collection. logged_tac. Qed.
Lemma logged_collection_at ctx o : logged ctx (collection_at nullOid o).
Proof. unfold collection_at. case_match; [apply logged_get_collection|apply logged_ret]. Qed.
Lemma logged_realize ctx o : logged ctx (inverse_coll_realize o).
Proof. unfold inverse_coll_realize. logged_tac. Qed.
Lemma logged_change ctx o f : logged ctx (change_items o f).
Proof. unfold change_items. logged_tac. Qed.
Lemma logged_elements ctx o : logged ctx (getElements o).
Proof. unfold getElements. logged_tac. Qed.
Lemma logged_create ctx item o n m : logged ctx (inverse_create_collection nullOid attribute_in objectCreate item o n m).
Proof. unfold inverse_create_collection, create_coll, dataRead. logged_tac. Qed.
(** The write itself. *)
Lemma logged_write ctx item o v : logged ctx (inverse_write_oid item o v ctx).
Proof.
  unfold inverse_write_oid. apply logged_bind.
  { unfold updateIndexForInverse, dataRead. logged_tac. }
  intros _ s [] s' E. unfold dataWrite, mbind, M_bind, context_insert, get, modify, fail in E. cbn in E.
  destruct (decide (o = ctx)) as [->|Hne]; cbn in E;
    (destruct (data s !! _) as [d|] eqn:Ed; cbn in E; [|done]); (destruct (d !! _) as [w|] eqn:Ew; cbn in E; [|done]);
    injection E as <-; eexists [mk_InvOidContext _ _ _ _]; (split; [reflexivity|]);
    (split; [split; [constructor; [by apply elem_of_dom|constructor]|cbn; by apply dom_insert_lookup_L]|]); intros cache Hc o' idr; cbn.
  - destruct (cache !! ctx) as [i|] eqn:Ei.
    + specialize (Hc ctx i Ei) as Hi. destruct (decide (ctx = ctx)); [|done]. subst i.
      destruct (decide (o' = ctx)) as [->|]; [rewrite lookup_insert_eq; congruence|]. rewrite lookup_insert_ne by done. intros Ho.
      specialize (Hc o' idr Ho). destruct (decide (o' = ctx)); [done|]. by rewrite lookup_insert_ne.
    + intros Ho. specialize (Hc o' idr Ho). destruct (decide (o' = ctx)) as [->|]; [congruence|]. by rewrite lookup_insert_ne.
  - destruct (cache !! o) as [i|] eqn:Ei.
    + specialize (Hc o i Ei) as Hi. destruct (decide (o = ctx)); [done|]. rewrite Ed in Hi. injection Hi as <-.
      destruct (decide (o' = o)) as [->|].
      * rewrite !lookup_insert_eq. intros [= <-]. by destruct (decide (o = ctx)).
      * rewrite !lookup_insert_ne by done. apply Hc.
    + intros Ho. specialize (Hc o' idr Ho). destruct (decide (o' = o)) as [->|]; [congruence|]. by rewrite lookup_insert_ne.
Qed.

#[local] Hint Resolve logged_read logged_get_collection logged_collection_at logged_realize logged_change logged_elements
  logged_create logged_write : logged.

Lemma logged_1_1 this op inv_item obj_oid inv_obj_oid :
  logged obj_oid (inverse_1_1 nullOid getDbid dbid this op inv_item obj_oid inv_obj_oid).
Proof. unfold inverse_1_1. logged_tac. Qed.
Lemma logged_1_N this op inv_item obj_oid inv_obj_oid :
  logged obj_oid (inverse_1_N nullOid getDbid dbid attribute_in objectCreate this op inv_item obj_oid inv_obj_oid).
Proof. unfold inverse_1_N, coll_insert, coll_suppress. logged_tac. Qed.
Lemma logged_N_1 this op inv_item obj_oid inv_obj_oid :
  logged obj_oid (inverse_N_1 nullOid getDbid dbid this op inv_item obj_oid inv_obj_oid).
Proof. unfold inverse_N_1. logged_tac. Qed.
Lemma logged_N_N this op inv_item obj_oid inv_obj_oid :
  logged obj_oid (inverse_N_N nullOid getDbid dbid attribute_in objectCreate this op inv_item obj_oid inv_obj_oid).
Proof. unfold inverse_N_N, coll_insert, coll_suppress. logged_tac. Qed.
Lemma logged_inverses attrs op obj_oid :
  logged obj_oid (inverses_realize nullOid getDbid dbid inverse_of attribute_in objectCreate attrs op obj_oid).
Proof.
  unfold inverses_realize, inverse_realize.
  logged_tac; first [apply logged_1_1|apply logged_1_N|apply logged_N_1|apply logged_N_N].
Qed.
Lemma logged_coll this op obj_oid x :
  logged nullOid (inverse_coll_perform nullOid getDbid dbid inverse_of attribute_in objectCreate this op obj_oid x).
Proof.
  unfold inverse_coll_perform, inverse_coll_perform_N_N, inverse_coll_perform_N_1, coll_insert, coll_suppress. logged_tac.
Qed.
Lemma logged_collectionWrite coll changes inv :
  logged nullOid (collectionWrite nullOid getDbid dbid inverse_of attribute_in objectCreate coll changes inv).
Proof. unfold collectionWrite. logged_tac; apply logged_coll. Qed.

(** The bytes of the cache are those of the database, but for the object [obj_oid]. *)
Definition cached (obj_oid : Oid) (cache : gmap Oid (gmap Z Oid)) s : Prop :=
  forall o idr, o <> obj_oid -> cache !! o = Some idr -> data s !! o = Some idr.

(** C15: when the write of an object of any class with any relationships succeeds, the
    list that is sent to the client brings the attributes of the objects of its cache
    up to date: those that the server has changed, and the object itself, have the
    bytes of the database. This is about the objects that are no collections: those
    are the only ones that the list names, and a client that has a collection in its
    cache is not told which items the server has put in it or taken out of it. *)
Theorem client_up_to_date attrs obj_oid idr s s' cache :
  agregatWrite nullOid getDbid dbid inverse_of attribute_in objectCreate attrs obj_oid idr s = (inr tt, s') ->
  cached obj_oid cache s -> cache !! obj_oid = Some idr ->
  exists l, inv_list s' = inv_list s ++ l /\ (forall o i, object_epilogue l cache !! o = Some i -> data s' !! o = Some i)
    /\ about_objects l s.
Proof.
  intros E Hc Hi. unfold agregatWrite, mbind, M_bind, modify, get in E.
  destruct (inverses_realize _ _ _ _ _ _ attrs invObjUpdate obj_oid (set_obj_idr idr s)) as [[e|[]] s1] eqn:E1; [done|].
  destruct (logged_inverses attrs invObjUpdate obj_oid _ _ _ E1) as (l & Hl & [Hab _] & Hp).
  destruct (data s1 !! obj_oid) as [d|] eqn:Ed; [|done]. injection E as <-. exists l. split; [done|].
  split; [|exact Hab]. intros o i Ho. specialize (Hp cache). assert (agrees obj_oid cache (set_obj_idr idr s)) as Ha.
  { intros o' i' Ho'. case_decide as Hd; [subst; cbn; congruence|]. by apply Hc. }
  specialize (Hp Ha o i Ho). cbn. destruct (decide (o = obj_oid)) as [->|].
  - rewrite lookup_insert_eq. by rewrite Hp.
  - by rewrite lookup_insert_ne.
Qed.

(** The same for the items put in and taken out of a collection. *)
Theorem client_up_to_date_coll coll changes inv s s' cache :
  collectionWrite nullOid getDbid dbid inverse_of attribute_in objectCreate coll changes inv s = (inr tt, s') ->
  cached nullOid cache s -> cache !! nullOid = None ->
  exists l, inv_list s' = inv_list s ++ l /\ forall o i, object_epilogue l cache !! o = Some i -> o <> nullOid -> data s' !! o = Some i.
Proof.
  intros E Hc Hn. destruct (logged_collectionWrite _ _ _ _ _ _ E) as (l & Hl & _ & Hp). exists l. split; [done|].
  intros o i Ho Hne. assert (agrees nullOid cache s) as Ha.
  { intros o' i' Ho'. case_decide as Hd; [congruence|]. by apply Hc. }
  specialize (Hp cache Ha o i Ho). by destruct (decide (o = nullOid)).
Qed.

End Log.

(** ** The list between the server and the client *)

Section Coding.
Context `{X : Xdr}.
#[local] Abbreviation Context_ := (InvOidContext (Oid := Codec.Oid)).

(** InvOidContext::code; the number of contexts is an int. *)
Definition code_context (ctx : Context_) (e : coder) : option coder :=
  e ← oid_code (objoid ctx) e;
  e ← int32_code (ctx_attr_num ctx) e;
  e ← int32_code (attr_offset ctx) e;
  oid_code (valoid ctx) e.
Fixpoint code_list (l : list Context_) (e : coder) : option coder :=
  match l with [] => Some e | ctx :: l => e ← code_context ctx e; code_list l e end.
Definition code (l : list Context_) : option coder :=
  e ← int32_code (s32 (Z.of_nat (length l))) (mk_coder [] 0 0); code_list l e.

(** InvOidContext::decode *)
Definition decode_context (d : Data) (off : Z) : option (Context_ * Z) :=
  '(objoid, off) ← oid_decode d off;
  '(attr_num, off) ← int32_decode d off;
  '(attr_offset, off) ← int32_decode d off;
  '(valoid, off) ← oid_decode d off;
  Some (mk_InvOidContext objoid attr_num attr_offset valoid, off).
Fixpoint decode_list (n : nat) (d : Data) (off : Z) : option (list Context_) :=
  match n with
  | O => Some []
  | S n => '(ctx, off) ← decode_context d off; l ← decode_list n d off; Some (ctx :: l)
  end.
Definition decode (d : Data) : option (list Context_) :=
  '(cnt, off) ← int32_decode d 0; decode_list (Z.to_nat cnt) d off.

Definition context_items (ctx : Context_) : list item :=
  [IOid (objoid ctx); IInt32 (ctx_attr_num ctx); IInt32 (attr_offset ctx); IOid (valoid ctx)].
Definition list_items (l : list Context_) : list item := l ≫= context_items.
Definition context_ok (ctx : Context_) : Prop := in_s 32 (ctx_attr_num ctx) /\ in_s 32 (attr_offset ctx).

Lemma code_list_items l : forall e, code_list l e = code_items (list_items l) e.
Proof.
  induction l as [|ctx l IH]; intros e; [done|]. cbn. unfold code_context, list_items. cbn.
  destruct (oid_code (objoid ctx) e) as [e1|]; [|done]. cbn. destruct (int32_code (ctx_attr_num ctx) e1) as [e2|]; [|done]. cbn.
  destruct (int32_code (attr_offset ctx) e2) as [e3|]; [|done]. cbn. destruct (oid_code (valoid ctx) e3) as [e4|]; [|done]. cbn. apply IH.
Qed.

Lemma decode_list_items l : forall d off off', decode_items (list_items l) d off = Some (list_items l, off') ->
  decode_list (length l) d off = Some l.
Proof.
  induction l as [|ctx l IH]; intros d off off' E; [done|].
  change (list_items (ctx :: l)) with (context_items ctx ++ list_items l) in E. cbn [context_items app] in E.
  apply decode_items_cons in E as (o1 & E1%decode_oid_inv & E).
  apply decode_items_cons in E as (o2 & E2%decode_int32_inv & E).
  apply decode_items_cons in E as (o3 & E3%decode_int32_inv & E).
  apply decode_items_cons in E as (o4 & E4%decode_oid_inv & E).
  cbn [length decode_list]. unfold decode_context. rewrite E1. cbn [mbind option_bind]. rewrite E2. cbn [mbind option_bind].
  rewrite E3. cbn [mbind option_bind]. rewrite E4. cbn [mbind option_bind]. rewrite (IH _ _ _ E). cbn. by destruct ctx.
Qed.

(** C39: the client reads the list that the server has coded, in order. *)
Theorem contexts_roundtrip `{!XdrLaws X} l : Forall context_ok l -> 4 + items_size (list_items l) + INC < 2 ^ 31 ->
  exists e, code l = Some e /\ decode (idr e) = Some l.
Proof.
  intros Hl Hb. assert (Forall item_ok (list_items l)) as Hi.
  { clear Hb. induction Hl as [|ctx l [H1 H2] _ IH]; [constructor|]. change (list_items (ctx :: l)) with (context_items ctx ++ list_items l).
    apply Forall_app. split; [|done]. by repeat (constructor; try done). }
  assert (Z.of_nat (length l) <= items_size (list_items l)) as Hn.
  { clear - Hl X. induction Hl as [|ctx l _ _ IH]; [done|]. change (list_items (ctx :: l)) with (context_items ctx ++ list_items l).
    cbn [context_items app items_size item_size length]. lia. }
  pose proof (items_size_nonneg _ Hi). unfold INC in Hb.
  assert (s32 (Z.of_nat (length l)) = Z.of_nat (length l)) as Es by (apply s32_id; unfold in_s; cbn; lia).
  destruct (code_items_spec (IInt32 (Z.of_nat (length l)) :: list_items l) coder_init coder_init_ok) as (bs & (e & E & He & Ho & Hw) & _ & Hd).
  { constructor; [|done]. cbn. unfold in_s. cbn. lia. } { cbn [items_size item_size offset coder_init]. unfold INC. lia. }
  exists e. split.
  - unfold code. rewrite Es. change (mk_coder [] 0 0) with coder_init. cbn [code_items code_item] in E.
    destruct (int32_code _ coder_init) as [e1|]; [|done]. cbn [mbind option_bind] in *. by rewrite code_list_items.
  - specialize (Hd [] (drop (length bs) (idr e))). cbn [length app] in Hd.
    change (written coder_init) with (@nil cell) in Hw. cbn [app] in Hw.
    assert (bs ++ drop (length bs) (idr e) = idr e) as Eb.
    { rewrite <- Hw at 1 2. unfold written. rewrite length_take.
      rewrite <- (take_drop (Z.to_nat (offset e)) (idr e)) at 4. f_equal.
      destruct (Nat.le_gt_cases (Z.to_nat (offset e)) (length (idr e))); [by rewrite Nat.min_l|].
      rewrite Nat.min_r by lia. by rewrite !drop_ge by lia. }
    rewrite Eb in Hd. change (Z.of_nat 0) with 0 in Hd. specialize (Hd ltac:(cbn [items_size item_size]; lia)).
    apply decode_items_cons in Hd as (o1 & E1%decode_int32_inv & E2).
    unfold decode. rewrite E1. cbn [mbind option_bind]. rewrite Nat2Z.id. by eapply decode_list_items.
Qed.
End Coding.

(** ** Examples *)

Module Example.

(** 1 is married to 11 and 2 to 12; the objects of the cache are 1, 2 and 12. *)
Definition wife := mk_Attribute 1 0 48 true false.
Definition husband := mk_Attribute 2 0 48 true false.
Definition inverse_of (C : Attribute) : option Attribute :=
  if decide (C = wife) then Some husband else if decide (C = husband) then Some wife else None.
Definition row (v : Z) : gmap Z Z := {[48 := v]}.
Definition married : store (Oid := Z) := mk_store {[1 := row 11; 2 := row 12; 11 := row 1; 12 := row 2]} ∅ ∅ ∅ [] ∅.
Definition cache : gmap Z (gmap Z Z) := {[1 := row 12; 2 := row 12; 12 := row 2]}.
Definition wedding := agregatWrite 0 (fun _ => 7) 7 inverse_of (fun _ C => C) fresh [wife] 1 (row 12) married.

Lemma client_up_to_date_witness : cache !! 2 = Some (row 12)
  /\ exists l, inv_list (snd wedding) = [] ++ l /\ (forall o i, object_epilogue l cache !! o = Some i -> data (snd wedding) !! o = Some i)
    /\ about_objects l married.
Proof.
  split; [by vm_compute|].
  apply (client_up_to_date 0 (fun _ => 7) 7 inverse_of (fun _ C => C) fresh [wife] 1 (row 12) married (snd wedding) cache).
  - vm_compute. reflexivity.
  - intros o i Ho. unfold cache. rewrite !lookup_insert_Some, lookup_singleton_Some. intros H. cbn.
    destruct H as [[<- <-]|[_ [[<- <-]|[_ [<- <-]]]]]; [done|by vm_compute|by vm_compute].
  - by vm_compute.
Defined.
(** The server has changed three objects; the client is told of all of them. *)
Example told : map (fun c => (objoid c, valoid c)) (inv_list (snd wedding)) = [(11, 0); (2, 0); (12, 1)].
Proof. by vm_compute. Qed.

(** 21 and 22 are children; the collection 31 is the one of the parent 11. *)
Definition parent := mk_Attribute 4 0 48 false false.
Definition children := mk_Attribute 5 0 48 true true.
Definition inverse_coll (C : Attribute) : option Attribute :=
  if decide (C = parent) then Some children else if decide (C = children) then Some parent else None.
Definition family : store (Oid := Z) :=
  mk_store {[11 := row 31; 21 := row 11; 22 := row 0]} {[31 := mk_Coll false {[21]} (Some (11, children))]} ∅ ∅ [] ∅.
Definition adoption := collectionWrite 0 (fun _ => 7) 7 inverse_coll (fun _ C => C) fresh 31 [(21, false); (22, true)] false family.

Lemma client_up_to_date_coll_witness :
  exists l, inv_list (snd adoption) = [] ++ l
    /\ forall o i, object_epilogue l {[21 := row 11; 22 := row 0]} !! o = Some i -> o <> 0 -> data (snd adoption) !! o = Some i.
Proof.
  apply (client_up_to_date_coll 0 (fun _ => 7) 7 inverse_coll (fun _ C => C) fresh 31 [(21, false); (22, true)] false family (snd adoption)).
  - vm_compute. reflexivity.
  - intros o i _. rewrite lookup_insert_Some, lookup_singleton_Some. by intros [[<- <-]|[_ [<- <-]]].
  - by vm_compute.
Defined.
Example adopted : map (fun o => place (snd adoption) o 48) [11; 21; 22] = [Some 31; Some 0; Some 11].
Proof. by vm_compute. Qed.

(** The parent of 21 is set to 12: the server takes 21 out of the collection 31 and puts
    it in 32, and the list that it sends is empty. *)
Definition two_parents : store (Oid := Z) :=
  mk_store {[11 := row 31; 12 := row 32; 21 := row 11]}
    {[31 := mk_Coll false {[21]} (Some (11, children)); 32 := mk_Coll false ∅ (Some (12, children))]} ∅ ∅ [] ∅.
Definition moved := agregatWrite 0 (fun _ => 7) 7 inverse_coll (fun _ C => C) fresh [parent] 21 (row 12) two_parents.
Example collections_not_told : fst moved = inr tt /\ inv_list (snd moved) = []
  /\ map (fun o => elements ∘ items <$> colls (snd moved) !! o) [31; 32] = [Some []; Some [21]].
Proof. by vm_compute. Qed.

Import BigEndian.
Definition context : InvOidContext (Oid := Codec.Oid (Xdr := BigEndian.big_endian)) := mk_InvOidContext BigEndian.oid_a 3 48 BigEndian.oid_b.
Lemma contexts_roundtrip_witness : exists e, code [context] = Some e /\ decode (idr e) = Some [context].
Proof. apply contexts_roundtrip; [by repeat constructor|by vm_compute]. Defined.
End Example.
