(* ===== verification/OneToOne.v ===== *)
(** * One-to-one relationships

    When each object of a class has at most one object of another at an attribute,
    and the other way round at the inverse attribute, the creation, the writing and
    the removal of any object keep the two sides consistent: an object points to
    another exactly when it is pointed to by it. *)

From S2P Require Import Prelude Inverse.

#[local] Set Warnings "-register-all,-clear-no-such-hyp".

Section OneToOne.
Context {Oid : Type} `{Countable Oid}.
Variable nullOid : Oid.
Variable getDbid : Oid -> Z.
Variable dbid : Z.
Variable inverse_of : Attribute -> option Attribute.
Variable attribute_in : Oid -> Attribute -> Attribute.
Variable objectCreate : gset Oid -> Oid.
(** The objects whose class has an attribute. *)
Variable has : Attribute -> Oid -> Prop.
Hypothesis has_valid : forall C o, has C o -> o <> nullOid /\ getDbid o = dbid.
Hypothesis same_place : forall C D o, has C o -> has D o -> idr_poff C = idr_poff D -> C = D.
Hypothesis same_id : forall C D o o', has C o -> has D o' -> attr_id C = attr_id D -> C = D.
(** The inverse attributes of the schema are the inverse of each other. *)
Hypothesis inverse_sym : forall C D, inverse_of C = Some D -> inverse_of D = Some C.
Hypothesis no_collection : forall C D, inverse_of C = Some D -> isCollectionClass C = false.

Implicit Types (s : store (Oid := Oid)) (o : Oid) (C D X Y : Attribute).
#[local] Existing Instances M_ret M_bind.
#[local] Abbreviation good := (good has).
#[local] Abbreviation frame := (frame has).
#[local] Abbreviation read_ok := (read_ok nullOid getDbid dbid has has_valid).
#[local] Abbreviation inverse_1_1 := (inverse_1_1 nullOid getDbid dbid).
#[local] Abbreviation inverse_realize := (inverse_realize nullOid getDbid dbid inverse_of attribute_in objectCreate).
#[local] Abbreviation inverses_realize := (inverses_realize nullOid getDbid dbid inverse_of attribute_in objectCreate).

(** ** The values of the attributes *)

(** The consistency of the values [F C o] of the attributes [C] of the objects [o]. *)
Definition linked (F : Attribute -> Oid -> option Oid) : Prop :=
  forall C D o v, inverse_of C = Some D -> has C o -> F C o = Some v -> v <> nullOid -> has D v /\ F D v = Some o.

(** The object [obj] takes [y] at the attribute [X]; [old] is what it had, [cur] is
    what [y] had at the inverse attribute [Y]. *)
Definition relink X Y (obj y old cur : Oid) (F : Attribute -> Oid -> option Oid) C o : option Oid :=
  if decide (o = obj /\ C = X) then Some y
  else if decide (y <> nullOid /\ o = y /\ C = Y) then Some obj
  else if decide (y <> nullOid /\ cur <> nullOid /\ cur <> obj /\ o = cur /\ C = X) then Some nullOid
  else if decide (old <> nullOid /\ old <> y /\ o = old /\ C = Y) then Some nullOid
  else F C o.

Lemma relink_linked X Y obj y old cur F : linked F -> inverse_of X = Some Y -> has X obj -> obj <> old -> obj <> y ->
  F X obj = Some old -> (y <> nullOid -> has Y y /\ F Y y = Some cur) -> linked (relink X Y obj y old cur F).
Proof.
  intros HF HXY Hobj Hold Hy Eold Hcur C D o v HCD Ho. pose proof (inverse_sym _ _ HXY) as HYX.
  destruct (has_valid _ _ Hobj) as [Nobj _], (has_valid _ _ Ho) as [No _].
  unfold relink at 1. destruct (decide (o = obj /\ C = X)) as [[-> ->]|N1].
  { intros [= <-] Hv. assert (D = Y) as -> by congruence. destruct (Hcur Hv) as [? _]. split; [done|].
    unfold relink. rewrite decide_False by (intros [? _]; congruence). by rewrite decide_True. }
  destruct (decide (y <> nullOid /\ o = y /\ C = Y)) as [(? & -> & ->)|N2].
  { intros [= <-] _. assert (D = X) as -> by congruence. split; [done|]. unfold relink. by rewrite decide_True. }
  destruct (decide (y <> nullOid /\ cur <> nullOid /\ cur <> obj /\ o = cur /\ C = X)) as [|N3]; [intros [= <-]; done|].
  destruct (decide (old <> nullOid /\ old <> y /\ o = old /\ C = Y)) as [|N4]; [intros [= <-]; done|].
  intros Ev Hv. destruct (HF C D o v HCD Ho Ev Hv) as [HDv EDv]. split; [done|]. unfold relink.
  destruct (decide (v = obj /\ D = X)) as [[-> ->]|_].
  { exfalso. assert (C = Y) as -> by (apply inverse_sym in HCD; congruence). assert (o = old) as -> by congruence.
    destruct (decide (old = y)) as [->|]; [by apply N2|by apply N4]. }
  destruct (decide (y <> nullOid /\ v = y /\ D = Y)) as [(Hyn & -> & ->)|_].
  { exfalso. assert (C = X) as -> by (apply inverse_sym in HCD; congruence). destruct (Hcur Hyn) as [_ Ec]. assert (o = cur) as -> by congruence.
    destruct (decide (cur = obj)) as [->|]; [by apply N1|by apply N3]. }
  destruct (decide (y <> nullOid /\ cur <> nullOid /\ cur <> obj /\ v = cur /\ D = X)) as [(Hyn & ? & ? & -> & ->)|_].
  { exfalso. assert (C = Y) as -> by (apply inverse_sym in HCD; congruence). destruct (Hcur Hyn) as [Hhy Ec].
    destruct (HF Y X y cur HYX Hhy Ec) as [_ Ey]; [done|]. apply N2. by replace o with y by congruence. }
  destruct (decide (old <> nullOid /\ old <> y /\ v = old /\ D = Y)) as [(? & ? & -> & ->)|_]; [|done].
  exfalso. assert (C = X) as -> by (apply inverse_sym in HCD; congruence).
  destruct (HF X Y obj old HXY Hobj Eold) as [_ Eo]; [done|]. apply N1. split; congruence.
Qed.

Lemma linked_ext F F' : (forall C o, inverse_of C <> None -> has C o -> F' C o = F C o) -> linked F -> linked F'.
Proof.
  intros E HF C D o v HCD Ho Ev Hv. rewrite E in Ev by congruence || done. destruct (HF C D o v HCD Ho Ev Hv) as [Hd Ed]. split; [done|].
  rewrite E; [done| |done]. rewrite (inverse_sym _ _ HCD). done.
Qed.

Lemma write_if (b : bool) C o v obj s : good obj s -> (b = true -> has C o /\ exists_in s o /\ o <> obj) ->
  exists s', (if b then inverse_write_oid C o v obj else mret tt) s = (inr tt, s') /\ frame obj s s'
    /\ forall o' p, place s' o' p = if decide (b = true /\ o' = o /\ p = idr_poff C) then Some v else place s o' p.
Proof.
  intros Hg Hb. destruct b.
  - destruct (Hb eq_refl) as (Ho & Hex & Hne). destruct (write_ok nullOid getDbid dbid has has_valid same_place same_id C o v obj s Hg Ho Hex Hne) as (s' & E & HW & HF & _).
    exists s'. split_and!; try done. intros o' p. rewrite HW. repeat case_decide; naive_solver.
  - exists s. split_and!; [done|apply frame_refl|]. intros o' p. by rewrite decide_False by naive_solver.
Qed.

(** ** One attribute of the object *)

(** The values, those of the object that is written being [row]: the new ones for the
    attributes that have been treated, the old ones for the others. *)
Definition view (obj : Oid) (row : gmap Z Oid) s C o : option Oid :=
  if decide (o = obj) then row !! idr_poff C else place s o (idr_poff C).

Lemma if_decide {A} P Q `{Decision P, Decision Q} (x y y' : A) : (P <-> Q) -> y = y' -> (if decide P then x else y) = (if decide Q then x else y').
Proof. intros E ->. by apply decide_ext. Qed.

Lemma view_relink X Y obj y old cur row s s' : has X obj -> obj <> old -> obj <> y -> (y <> nullOid -> has Y y) ->
  (old <> nullOid -> has Y old) -> (y <> nullOid -> cur <> nullOid -> has X cur) ->
  (forall o p, o <> obj -> place s' o p =
     if decide (y <> nullOid /\ o = y /\ p = idr_poff Y) then Some obj
     else if decide (y <> nullOid /\ cur <> nullOid /\ cur <> obj /\ o = cur /\ p = idr_poff X) then Some nullOid
     else if decide (old <> nullOid /\ old <> y /\ o = old /\ p = idr_poff Y) then Some nullOid else place s o p) ->
  forall C o, has C o -> view obj (<[idr_poff X := y]> row) s' C o = relink X Y obj y old cur (view obj row s) C o.
Proof.
  intros Hobj Hold Hy HYy HYo HXc HP C o Ho. unfold view, relink. destruct (decide (o = obj)) as [->|Hne].
  - destruct (decide (C = X)) as [->|HC].
    + by rewrite lookup_insert_eq, decide_True.
    + rewrite lookup_insert_ne by (intros E; apply HC; symmetry; by eapply same_place).
      by rewrite !decide_False by naive_solver.
  - rewrite HP, (decide_False (P := o = obj /\ C = X)) by naive_solver.
    repeat apply if_decide; try done.
    + split; intros (? & -> & E); split_and!; try done; [eapply same_place; eauto|by rewrite E].
    + split; intros (? & ? & ? & -> & E); split_and!; try done; [eapply same_place; eauto|by rewrite E].
    + split; intros (? & ? & -> & E); split_and!; try done; [eapply same_place; eauto|by rewrite E].
Qed.

(** [y] is an object that the attribute may take. *)
Definition target Y obj s (y : Oid) : Prop := y <> obj /\ (y <> nullOid -> has Y y /\ exists_in s y).

(** One side is changed in two steps: the object that was pointed to, then the one
    that will be. *)
Lemma relink_writes X Y obj y old cur row s :
  good obj s -> linked (view obj row s) -> inverse_of X = Some Y -> has X obj -> row !! idr_poff X = Some old -> obj <> old ->
  target Y obj s y -> (y <> nullOid -> place s y (idr_poff Y) = Some cur) ->
  exists s1 s3, (if isValid nullOid old && bool_decide (old <> y) then inverse_write_oid Y old nullOid obj else mret tt) s = (inr tt, s1)
    /\ (y <> nullOid -> place s1 y (idr_poff Y) = Some cur)
    /\ (if isValid nullOid y then
           (if isValid nullOid cur && bool_decide (cur <> obj) then inverse_write_oid X cur nullOid obj else mret tt);;
           inverse_write_oid Y y obj obj
         else mret tt) s1 = (inr tt, s3)
    /\ frame obj s s1 /\ frame obj s s3 /\ linked (view obj (<[idr_poff X := y]> row) s3).
Proof.
  intros Hg HL HXY Hobj Eold Hold [Hy HY] Hcur. assert (view obj row s X obj = Some old) as Eo by (unfold view; by rewrite decide_True).
  assert (old <> nullOid -> has Y old /\ exists_in s old) as HYo.
  { intros Hn. destruct (HL X Y obj old HXY Hobj Eo Hn) as [Ha Hb]. split; [done|]. unfold view in Hb. rewrite decide_False in Hb by done. by eapply exists_place. }
  assert (y <> nullOid -> cur <> nullOid -> cur <> obj -> has X cur /\ exists_in s cur) as HXc.
  { intros Hn Hc Hco. destruct (HY Hn) as [Hhy _]. destruct (HL Y X y cur (inverse_sym _ _ HXY) Hhy) as [Ha Hb]; [|done|].
    - unfold view. rewrite decide_False by done. by apply Hcur.
    - split; [done|]. unfold view in Hb. rewrite decide_False in Hb by done. by eapply exists_place. }
  destruct (write_if (isValid nullOid old && bool_decide (old <> y)) Y old nullOid obj s Hg) as (s1 & E1 & F1 & P1).
  { intros [Ho1%bool_decide_eq_true _]%andb_true_iff. destruct (HYo Ho1). split_and!; done. }
  destruct (write_if (isValid nullOid y && (isValid nullOid cur && bool_decide (cur <> obj))) X cur nullOid obj s1) as (s2 & E2 & F2 & P2).
  { by apply F1. }
  { intros (Hv%bool_decide_eq_true & Hc%bool_decide_eq_true & Hco%bool_decide_eq_true)%andb_true_iff%(fun H => conj (proj1 H) (proj1 (andb_true_iff _ _) (proj2 H))).
    destruct (HXc Hv Hc Hco). split_and!; try done. by apply F1. }
  destruct (write_if (isValid nullOid y) Y y obj obj s2) as (s3 & E3 & F3 & P3).
  { apply F2, F1, Hg. } { intros Hv%bool_decide_eq_true. destruct (HY Hv). split_and!; try done. by apply F2, F1. }
  exists s1, s3. split_and!; try done.
  - intros Hn. rewrite P1. rewrite decide_False; [by apply Hcur|].
    intros ([_ Hc%bool_decide_eq_true]%andb_true_iff & -> & _). done.
  - destruct (isValid nullOid y) eqn:Ev; cbn [andb] in *; [by rewrite (run_bind _ _ _ _ _ E2)|]. injection E2 as <-. injection E3 as <-. done.
  - eapply frame_trans; [done|]. eapply frame_trans; done.
  - apply linked_ext with (F := relink X Y obj y old cur (view obj row s)).
    + intros C o _. revert C o. apply view_relink; try done; [naive_solver|naive_solver| |].
      { intros Hn Hc. destruct (decide (cur = obj)) as [->|]; [done|]. by apply HXc. }
      intros o p Hne. rewrite P3, P2, P1. unfold isValid. repeat apply if_decide; try done; rewrite ?andb_true_iff, ?bool_decide_eq_true; tauto.
    + apply relink_linked; try done. intros Hn. destruct (HY Hn) as [? _]. split; [done|]. unfold view. rewrite decide_False by done. by apply Hcur.
Qed.
(** ** The three operations *)

Lemma inverse_realize_1_1 X Y op obj s y : inverse_of X = Some Y -> obj_idr s !! idr_poff X = Some y ->
  inverse_realize X op obj s = inverse_1_1 X op Y obj y s.
Proof.
  intros HXY Ey. unfold Inverse.inverse_realize. rewrite HXY. unfold mbind, M_bind, get. rewrite Ey.
  by rewrite (no_collection X Y HXY), (no_collection Y X (inverse_sym _ _ HXY)).
Qed.

(** The operation on the attribute [X] makes the object take [y] where it had [old]. *)
Definition step op obj s X (y old : Oid) : Prop :=
  match op with
  | invObjUpdate => obj_idr s !! idr_poff X = Some y /\ place s obj (idr_poff X) = Some old
  | invObjCreate => obj_idr s !! idr_poff X = Some y /\ old = nullOid
  | invObjRemove => obj_idr s !! idr_poff X = Some old /\ y = nullOid
  end.

Lemma phase op X Y obj y old row s :
  good obj s -> linked (view obj row s) -> inverse_of X = Some Y -> has X obj -> row !! idr_poff X = Some old -> obj <> old ->
  target Y obj s y -> step op obj s X y old ->
  exists s', inverse_realize X op obj s = (inr tt, s') /\ frame obj s s' /\ linked (view obj (<[idr_poff X := y]> row) s').
Proof.
  intros Hg HL HXY Hobj Eold Hold Hy Hst.
  assert (exists cur, y <> nullOid -> place s y (idr_poff Y) = Some cur) as [cur Hcur].
  { destruct (decide (y = nullOid)); [by exists nullOid|]. destruct (proj2 Hy n) as [Hh Hex]. destruct (proj1 Hg _ _ Hh Hex) as [cur E]. by exists cur. }
  destruct (relink_writes X Y obj y old cur row s Hg HL HXY Hobj Eold Hold Hy Hcur) as (s1 & s3 & E1 & Hcur1 & E3 & F1 & F3 & L3).
  exists s3. split; [|by split]. assert (y <> nullOid -> inverse_read_oid getDbid dbid Y y s1 = (inr cur, s1)) as R1.
  { intros Hn. apply read_ok; [by apply Hy|by apply Hcur1]. }
  assert (view obj row s X obj = Some old) as Eo by (unfold view; by rewrite decide_True).
  destruct op; destruct Hst as [Hidr Hst].
  - subst old. rewrite (inverse_realize_1_1 X Y _ _ _ y) by done. unfold Inverse.inverse_1_1.
    unfold isValid at 1 in E1. rewrite bool_decide_eq_false_2 in E1 by naive_solver. injection E1 as <-.
    destruct (isValid nullOid y) eqn:Ev; [|done]. apply bool_decide_eq_true in Ev. rewrite (run_bind _ _ _ _ _ (R1 Ev)).
    assert (cur <> obj) as Hco.
    { intros ->. destruct (proj2 Hy Ev) as [Hh _]. destruct (HL Y X y obj (inverse_sym _ _ HXY) Hh) as [_ Ex].
      - unfold view. rewrite decide_False by (apply Hy). by apply Hcur.
      - apply (has_valid X obj Hobj).
      - unfold view in Ex. rewrite decide_True in Ex by done. congruence. }
    rewrite decide_False by done. rewrite bool_decide_eq_true_2, andb_true_r in E3 by done. exact E3.
  - rewrite (inverse_realize_1_1 X Y _ _ _ y) by done. unfold Inverse.inverse_1_1.
    rewrite (run_bind _ _ _ _ _ (read_ok X s obj old Hobj Hst)).
    assert ((if isValid nullOid old && bool_decide (old <> y)
        then old_obj_oid ← inverse_read_oid getDbid dbid Y old;
             if decide (old_obj_oid = obj) then inverse_write_oid Y old nullOid obj else mret tt
        else mret tt) s = (inr tt, s1)) as E1'.
    { destruct (isValid nullOid old && bool_decide (old <> y)) eqn:Eb; [|done]. apply andb_true_iff in Eb as [Ev%bool_decide_eq_true _].
      destruct (HL X Y obj old HXY Hobj Eo Ev) as [Hho Eoo]. unfold view in Eoo. rewrite decide_False in Eoo by done.
      rewrite (run_bind _ _ _ _ _ (read_ok Y s old obj Hho Eoo)). by rewrite decide_True. }
    rewrite (run_bind _ _ _ _ _ E1'). destruct (isValid nullOid y) eqn:Ev; [|done]. apply bool_decide_eq_true in Ev.
    rewrite (run_bind _ _ _ _ _ (R1 Ev)). exact E3.
  - subst y. rewrite (inverse_realize_1_1 X Y _ _ _ old) by done. unfold Inverse.inverse_1_1.
    unfold isValid at 1 in E3. rewrite bool_decide_eq_false_2 in E3 by naive_solver. injection E3 as <-.
    unfold isValid in *. by destruct (bool_decide (old <> nullOid)).
Qed.
(** ** All the attributes of the object *)

(** [attrs] are the attributes of the class of [obj]. *)
Definition class_attrs (attrs : list Attribute) (obj : Oid) : Prop :=
  NoDup attrs /\ Forall (fun C => has C obj) attrs /\ forall C, has C obj -> inverse_of C <> None -> C ∈ attrs.

Lemma rows_step op obj s s' X y old : frame obj s s' -> step op obj s X y old -> step op obj s' X y old.
Proof.
  intros [Fi Fo _ _]. unfold step, place. rewrite Fi, Fo. by destruct op.
Qed.
Lemma frame_target Y obj s s' y : frame obj s s' -> target Y obj s y -> target Y obj s' y.
Proof. intros F [Hn Hy]. split; [done|]. intros Hv. destruct (Hy Hv). split; [done|]. by apply F. Qed.

Lemma phases op obj (news olds : Attribute -> Oid) l : NoDup l -> Forall (fun C => has C obj) l -> forall row s,
  good obj s -> linked (view obj row s) ->
  (forall X Y, X ∈ l -> inverse_of X = Some Y -> row !! idr_poff X = Some (olds X) /\ obj <> olds X
     /\ target Y obj s (news X) /\ step op obj s X (news X) (olds X)) ->
  exists s' row', inverses_realize l op obj s = (inr tt, s') /\ frame obj s s' /\ linked (view obj row' s')
    /\ (forall X, X ∈ l -> inverse_of X <> None -> row' !! idr_poff X = Some (news X))
    /\ (forall p, (forall X, X ∈ l -> p <> idr_poff X) -> row' !! p = row !! p).
Proof.
  intros Hnd Hh. induction l as [|X l IH]; intros row s Hg HL HX.
  { exists s, row. split; [done|]. split; [apply frame_refl|]. split; [done|]. split; [|done]. intros X HXn. by apply not_elem_of_nil in HXn. }
  apply NoDup_cons in Hnd as [Hnx Hnd]. apply Forall_cons in Hh as [Hhx Hh].
  assert (forall C, C ∈ l -> idr_poff C <> idr_poff X) as Hpl.
  { intros C HC Hp. rewrite Forall_forall in Hh. assert (C = X) as -> by (eapply same_place; eauto). done. }
  unfold Inverse.inverses_realize in *. cbn [for_each]. destruct (inverse_of X) as [Y|] eqn:EY.
  - destruct (HX X Y) as (Er & Hno & Ht & Hs); [by left|done|].
    destruct (phase op X Y obj (news X) (olds X) row s) as (s1 & E1 & F1 & L1); try done.
    destruct (IH Hnd Hh (<[idr_poff X := news X]> row) s1) as (s2 & row2 & E2 & F2 & L2 & N2 & R2); [by apply F1|done| |].
    { intros C D HC HCD. destruct (HX C D) as (ErC & HnoC & HtC & HsC); [by right|done|].
      rewrite lookup_insert_ne by (intros Hq; by apply (Hpl C HC)). split_and!; try done; [by eapply frame_target|by eapply rows_step]. }
    exists s2, row2. rewrite (run_bind _ _ _ _ _ E1). split_and!; [done|by eapply frame_trans|done| |].
    + intros C [->|HC]%elem_of_cons Hi; [|by apply N2]. rewrite R2; [by rewrite lookup_insert_eq|]. intros C HC Hq. by apply (Hpl C HC).
    + intros p Hp. rewrite R2 by (intros C HC; apply Hp; by right). rewrite lookup_insert_ne; [done|]. intros Hq. apply (Hp X); [by left|done].
  - destruct (IH Hnd Hh row s) as (s2 & row2 & E2 & F2 & L2 & N2 & R2); try done.
    { intros C D HC. apply HX. by right. }
    exists s2, row2. assert (inverse_realize X op obj s = (inr tt, s)) as E1 by (unfold Inverse.inverse_realize; by rewrite EY).
    rewrite (run_bind _ _ _ _ _ E1). split_and!; try done.
    + intros C [->|HC]%elem_of_cons Hi; [done|by apply N2].
    + intros p Hp. apply R2. intros C HC. apply Hp. by right.
Qed.

(** ** Objects *)

Definition values s C o : option Oid := place s o (idr_poff C).
(** An object points to another exactly when the other points to it by the inverse
    attribute. *)
Definition consistent s : Prop := linked (values s).

(** What a program may give to an object at its relationships: null or another object. *)
Definition allowed (obj : Oid) (idr : gmap Z Oid) s : Prop :=
  (forall C, has C obj -> is_Some (idr !! idr_poff C))
  /\ forall X Y y, has X obj -> inverse_of X = Some Y -> idr !! idr_poff X = Some y -> target Y obj s y.
(** No object points to itself. *)
Definition irreflexive (obj : Oid) s : Prop := forall X, has X obj -> inverse_of X <> None -> place s obj (idr_poff X) <> Some obj.

#[local] Abbreviation agregatCreate := (agregatCreate nullOid getDbid dbid inverse_of attribute_in objectCreate).
#[local] Abbreviation agregatWrite := (agregatWrite nullOid getDbid dbid inverse_of attribute_in objectCreate).
#[local] Abbreviation agregatDelete := (agregatDelete nullOid getDbid dbid inverse_of attribute_in objectCreate).

(** The values of a row at the attributes that matter. *)
Definition at_row (row : gmap Z Oid) C : Oid := default nullOid (row !! idr_poff C).
Lemma at_row_some row C v : row !! idr_poff C = Some v -> at_row row C = v.
Proof. unfold at_row. by intros ->. Qed.

Lemma good_set_idr obj s idr : good obj s -> good obj (set_obj_idr idr s).
Proof. done. Qed.

Lemma write_kept attrs obj idr s : consistent s -> good obj s -> exists_in s obj -> class_attrs attrs obj ->
  irreflexive obj s -> allowed obj idr s ->
  exists s', agregatWrite attrs obj idr s = (inr tt, s') /\ consistent s' /\ good obj s' /\ data s' !! obj = Some idr
    /\ forall o, exists_in s' o <-> exists_in s o.
Proof.
  intros HL Hg [d Hd] (Hnd & Hh & Hc) Hir [Ha Ht].
  destruct (phases invObjUpdate obj (at_row idr) (at_row d) attrs Hnd Hh d (set_obj_idr idr s)) as (s1 & row & E & F & L & N & _).
  { done. }
  { refine (linked_ext (values s) _ _ HL). intros C o _ _. unfold view, values, place. cbn. destruct (decide (o = obj)) as [->|]; [by rewrite Hd|done]. }
  { intros X Y HX HXY. rewrite Forall_forall in Hh. specialize (Hh X HX). destruct (Ha X Hh) as [y Ey].
    destruct (proj1 Hg X obj Hh) as [old Eold]; [by exists d|]. assert (d !! idr_poff X = Some old) as Ed by (unfold place in Eold; by rewrite Hd in Eold).
    rewrite (at_row_some _ _ _ Ey), (at_row_some _ _ _ Ed). split_and!; [done| |by eapply Ht|done].
    intros ->. by apply (Hir X Hh); [congruence|]. }
  unfold Inverse.agregatWrite. unfold mbind at 1, M_bind at 1, modify at 1. rewrite (run_bind _ _ _ _ _ E).
  pose proof (f_idr _ _ _ _ F) as Fi. pose proof (f_obj _ _ _ _ F) as Fo. cbn in Fi, Fo. unfold mbind, M_bind, get, modify. rewrite Fo, Hd, Fi.
  eexists. split; [done|].
  assert (forall o p, place (set_data (<[obj:=idr]> (data s1)) s1) o p = if decide (o = obj) then idr !! p else place s1 o p) as HP.
  { intros o p. unfold place. cbn. destruct (decide (o = obj)) as [->|]; [by rewrite lookup_insert_eq|by rewrite lookup_insert_ne]. }
  split_and!.
  - refine (linked_ext (view obj row s1) _ _ L). intros C o Hi Ho. unfold values, view. rewrite HP. destruct (decide (o = obj)) as [->|]; [|done].
    rewrite N by auto. unfold at_row. destruct (Ha C Ho) as [v Ev]. by rewrite Ev.
  - destruct (f_good _ _ _ _ F Hg) as [Hp Hi]. split.
    + intros C o Ho Hex. rewrite HP. case_decide as Hq; [subst; auto|]. apply Hp; [done|]. revert Hex. cbn. by rewrite lookup_insert_ne.
    + intros C o E' v Ho Hne. rewrite HP, decide_False by done. by apply Hi.
  - cbn. by rewrite lookup_insert_eq.
  - intros o. rewrite <- (f_dom _ _ _ _ F o). unfold exists_in. cbn. destruct (decide (o = obj)) as [->|]; [rewrite lookup_insert_eq, Fo, Hd; split; eauto|by rewrite lookup_insert_ne].
Qed.

Lemma delete_kept attrs obj idr s : consistent s -> good obj s -> data s !! obj = Some idr -> class_attrs attrs obj -> irreflexive obj s ->
  exists s', agregatDelete attrs obj idr s = (inr tt, s') /\ consistent s' /\ good obj s' /\ forall o, exists_in s' o <-> exists_in s o /\ o <> obj.
Proof.
  intros HL Hg Hd (Hnd & Hh & Hc) Hir. pose proof Hh as Hf. rewrite Forall_forall in Hf.
  destruct (phases invObjRemove obj (fun _ => nullOid) (at_row idr) attrs Hnd Hh idr (set_obj_idr idr s)) as (s1 & row & E & F & L & N & _).
  { done. }
  { refine (linked_ext (values s) _ _ HL). intros C o _ _. unfold view, values, place. cbn. destruct (decide (o = obj)) as [->|]; [by rewrite Hd|done]. }
  { intros X Y HX HXY. specialize (Hf X HX). destruct (proj1 Hg X obj Hf) as [old Eold]; [by exists idr|]. unfold place in Eold. rewrite Hd in Eold. cbn in Eold.
    rewrite (at_row_some _ _ _ Eold). split_and!; [done| | |done].
    - intros ->. apply (Hir X Hf); [congruence|]. unfold place. by rewrite Hd.
    - split; [|done]. intros Hq. destruct (has_valid X obj Hf). congruence. }
  unfold Inverse.agregatDelete. unfold mbind at 1, M_bind at 1, modify at 1. rewrite (run_bind _ _ _ _ _ E).
  eexists. split; [done|].
  assert (forall o p, place (set_data (delete obj (data s1)) s1) o p = if decide (o = obj) then None else place s1 o p) as HP.
  { intros o p. unfold place. cbn. destruct (decide (o = obj)) as [->|]; [by rewrite lookup_delete_eq|by rewrite lookup_delete_ne]. }
  split_and!.
  - intros C D o v HCD Ho. unfold values. rewrite HP. case_decide as Hq; [done|]. intros Ev Hv.
    destruct (L C D o v HCD Ho) as [HDv EDv]; [unfold view; by rewrite decide_False|done|]. split; [done|]. rewrite HP. unfold view in EDv.
    destruct (decide (v = obj)) as [->|]; [|done]. assert (inverse_of D <> None) as HDn by (rewrite (inverse_sym _ _ HCD); done).
    rewrite N in EDv by auto. injection EDv as Hq'. destruct (has_valid C o Ho). congruence.
  - destruct (f_good _ _ _ _ F Hg) as [Hp Hi]. split.
    + intros C o Ho Hex. rewrite HP. case_decide as Hq; [subst; cbn in Hex; rewrite lookup_delete_eq in Hex; by destruct Hex|].
      apply Hp; [done|]. revert Hex. cbn. by rewrite lookup_delete_ne.
    + intros C o E' v Ho Hne. rewrite HP, decide_False by done. by apply Hi.
  - intros o. rewrite <- (f_dom _ _ _ _ F o). unfold exists_in. cbn. destruct (decide (o = obj)) as [->|Hne].
    + rewrite lookup_delete_eq. split; [by intros []|by intros []].
    + rewrite lookup_delete_ne by done. tauto.
Qed.
Hypothesis objectCreate_fresh : forall used, objectCreate used ∉ used.

Definition nulls (attrs : list Attribute) (idr : gmap Z Oid) : gmap Z Oid := foldr (fun C => <[idr_poff C := nullOid]>) idr attrs.
Lemma nulls_lookup attrs idr C : C ∈ attrs -> nulls attrs idr !! idr_poff C = Some nullOid.
Proof.
  induction attrs as [|D l IH]; intros HC; [by apply not_elem_of_nil in HC|]. cbn. destruct (decide (idr_poff D = idr_poff C)) as [->|].
  - by rewrite lookup_insert_eq.
  - rewrite lookup_insert_ne by done. apply IH. by apply elem_of_cons in HC as [->|].
Qed.

Lemma create_kept attrs idr s : consistent s -> (forall o, good o s) -> class_attrs attrs (objectCreate (in_use nullOid s)) ->
  allowed (objectCreate (in_use nullOid s)) idr s ->
  exists s', agregatCreate attrs idr s = (inr (objectCreate (in_use nullOid s)), s') /\ consistent s'
    /\ good (objectCreate (in_use nullOid s)) s' /\ data s' !! objectCreate (in_use nullOid s) = Some idr
    /\ forall o, exists_in s' o <-> exists_in s o \/ o = objectCreate (in_use nullOid s).
Proof.
  intros HL Hg. unfold Inverse.agregatCreate. unfold mbind at 1, M_bind at 1, get at 1. pose proof (objectCreate_fresh (in_use nullOid s)) as Hfr.
  set (obj := objectCreate (in_use nullOid s)) in *. intros (Hnd & Hh & Hc) [Ha Ht]. pose proof Hh as Hf. rewrite Forall_forall in Hf.
  assert (data s !! obj = None) as Hnew by (apply not_elem_of_dom; unfold in_use in Hfr; set_solver).
  set (s0 := set_obj_idr idr (set_data (<[obj := idr]> (data s)) s)).
  assert (forall o p, place s0 o p = if decide (o = obj) then idr !! p else place s o p) as HP0.
  { intros o p. unfold place. cbn. destruct (decide (o = obj)) as [->|]; [by rewrite lookup_insert_eq|by rewrite lookup_insert_ne]. }
  assert (forall o, exists_in s0 o <-> exists_in s o \/ o = obj) as Hex0.
  { intros o. unfold exists_in. cbn. destruct (decide (o = obj)) as [->|]; [rewrite lookup_insert_eq; split; eauto|].
    rewrite lookup_insert_ne by done. split; [by left|by intros []]. }
  assert (good obj s0) as Hg0.
  { destruct (Hg obj) as [Hp Hi]. split.
    - intros C o Ho Hex. rewrite HP0. case_decide; [subst; by apply Ha|]. apply Hp; [done|]. apply Hex0 in Hex as []; done.
    - intros C o E v Ho Hne. rewrite HP0, decide_False by done. by apply Hi. }
  destruct (phases invObjCreate obj (at_row idr) (fun _ => nullOid) attrs Hnd Hh (nulls attrs idr) s0 Hg0) as (s1 & row & E & F & L & N & _).
  { intros C D o v HCD Ho. unfold view. case_decide as Hq.
    - subst o. rewrite nulls_lookup; [congruence|]. apply Hc; [done|congruence].
    - rewrite HP0, decide_False by done. intros Ev Hv. destruct (HL C D o v HCD Ho Ev Hv) as [HDv EDv]. split; [done|].
      rewrite decide_False; [by rewrite HP0, decide_False by (intros ->; unfold values, place in EDv; by rewrite Hnew in EDv)|].
      intros ->. unfold values, place in EDv. by rewrite Hnew in EDv. }
  { intros X Y HX HXY. specialize (Hf X HX). destruct (Ha X Hf) as [y Ey]. rewrite (at_row_some _ _ _ Ey). split_and!; [by apply nulls_lookup| | |done].
    - by apply (has_valid X obj Hf).
    - destruct (Ht X Y y Hf HXY Ey) as [Hn Hy]. split; [done|]. intros Hv. destruct (Hy Hv). split; [done|]. apply Hex0. by left. }
  unfold mbind at 1, M_bind at 1, modify at 1. fold s0. unfold mbind at 1, M_bind at 1, catch at 1. rewrite E. eexists. split; [done|].
  pose proof (f_obj _ _ _ _ F) as Fo. cbn in Fo. rewrite lookup_insert_eq in Fo. split_and!.
  - refine (linked_ext (view obj row s1) _ _ L). intros C o Hi Ho. unfold values, view. destruct (decide (o = obj)) as [->|]; [|done].
    rewrite N by auto. unfold place. rewrite Fo. cbn. unfold at_row. destruct (Ha C Ho) as [v Ev]. by rewrite Ev.
  - by apply F.
  - done.
  - intros o. by rewrite (f_dom _ _ _ _ F o), Hex0.
Qed.

(** ** Requests *)

(** A request of a client about an object of a class, whose attributes are [attrs]. *)
Inductive request := Create (idr : gmap Z Oid) | Write (obj : Oid) (idr : gmap Z Oid) | Delete (obj : Oid).

(** IDB_objectCreate, IDB_objectWrite, IDB_objectDelete, that reads the object. *)
Definition serve (attrs : list Attribute) (r : request) : M Oid :=
  match r with
  | Create idr => agregatCreate attrs idr
  | Write obj idr => agregatWrite attrs obj idr;; mret obj
  | Delete obj => s ← get; match data s !! obj with Some idr => agregatDelete attrs obj idr;; mret obj | None => fail StorageError end
  end.
Definition object_of s (r : request) : Oid := match r with Create _ => objectCreate (in_use nullOid s) | Write obj _ | Delete obj => obj end.
Definition permitted s (r : request) : Prop :=
  match r with
  | Create idr => allowed (object_of s r) idr s
  | Write obj idr => exists_in s obj /\ irreflexive obj s /\ allowed obj idr s
  | Delete obj => exists_in s obj /\ irreflexive obj s
  end.

(** C4: whatever an object is created with, is given or had at its one-to-one
    relationships, when it does not point to itself the request succeeds, the object
    has the values it was given, or is removed, and after it the objects of the
    database point to each other in pairs again. *)
Theorem one_to_one_kept attrs r s : consistent s -> (forall o, good o s) -> class_attrs attrs (object_of s r) -> permitted s r ->
  exists s', serve attrs r s = (inr (object_of s r), s') /\ consistent s' /\ good (object_of s r) s'
    /\ match r with
       | Create idr | Write _ idr => data s' !! object_of s r = Some idr
       | Delete obj => data s' !! obj = None
       end.
Proof.
  intros HL Hg Hc Hp. destruct r as [idr|obj idr|obj]; cbn in *.
  - destruct (create_kept attrs idr s HL Hg Hc Hp) as (s' & E & HL' & Hg' & Hd & _). by exists s'.
  - destruct Hp as (He & Hir & Ha). destruct (write_kept attrs obj idr s HL (Hg obj) He Hc Hir Ha) as (s' & E & HL' & Hg' & Hd & _).
    exists s'. by rewrite (run_bind _ _ _ _ _ E).
  - destruct Hp as ([idr Hd] & Hir). destruct (delete_kept attrs obj idr s HL (Hg obj) Hd Hc Hir) as (s' & E & HL' & Hg' & Hex).
    exists s'. unfold mbind at 1, M_bind at 1, get at 1. rewrite Hd, (run_bind _ _ _ _ _ E). split_and!; try done.
    destruct (data s' !! obj) eqn:Eq; [|done]. destruct (proj1 (Hex obj)) as [_ Hn]; [by eexists|done].
Qed.
End OneToOne.

(** ** Examples *)

Module Example.

Definition wife := mk_Attribute 1 0 48 true false.
Definition husband := mk_Attribute 2 0 48 true false.
Definition friend := mk_Attribute 3 0 48 true false.
Definition inverse_of (C : Attribute) : option Attribute :=
  if decide (C = wife) then Some husband else if decide (C = husband) then Some wife else if decide (C = friend) then Some friend else None.
(** Objects 1 to 9 are men, 11 to 19 women, 21 to 29 have a friend. *)
Definition class_of (o : Z) : option Attribute :=
  if (0 <? o) && (o <? 10) then Some wife else if (10 <? o) && (o <? 20) then Some husband else if (20 <? o) && (o <? 30) then Some friend else None.
Definition has (C : Attribute) (o : Z) : Prop := class_of o = Some C.
Definition getDbid (o : Z) : Z := 7.
Definition row (v : Z) : gmap Z Z := {[48 := v]}.
Definition base (l : list (Z * Z)) : store (Oid := Z) := mk_store (list_to_map (prod_map id row <$> l)) ∅ ∅ ∅ [] ∅.
Abbreviation run := (serve 0 getDbid 7 inverse_of (fun _ C => C) fresh).

(** 1 and 11 are married; 2 and 12 too. 1 takes 12 for wife. *)
Lemma one_to_one_kept_witness : exists s', run [wife] (Write 1 (row 12)) (base [(1, 11); (2, 12); (11, 1); (12, 2)]) = (inr 1, s')
  /\ consistent 0 inverse_of has s' /\ good has 1 s' /\ data s' !! 1 = Some (row 12).
Proof.
  set (s := base [(1, 11); (2, 12); (11, 1); (12, 2)]).
  assert (forall o d, data s !! o = Some d -> o = 1 /\ d = row 11 \/ o = 2 /\ d = row 12 \/ o = 11 /\ d = row 1 \/ o = 12 /\ d = row 2) as Hd.
  { intros o d Ho%elem_of_list_to_map_2. cbn in Ho. set_solver. }
  assert (forall o C v, place s o (idr_poff C) = Some v -> o = 1 /\ v = 11 \/ o = 2 /\ v = 12 \/ o = 11 /\ v = 1 \/ o = 12 /\ v = 2) as Hv.
  { intros o C v. unfold place. destruct (data s !! o) as [d|] eqn:Ed; [|done]. cbn.
    destruct (Hd o d Ed) as [[-> ->]|[[-> ->]|[[-> ->]|[-> ->]]]]; unfold row; intros [_ <-]%lookup_singleton_Some; tauto. }
  apply (one_to_one_kept 0 getDbid 7 inverse_of (fun _ C => C) fresh has) with (attrs := [wife]) (r := Write 1 (row 12)) (s := s).
  - intros C o Ho. split; [|done]. by intros ->.
  - intros C D o H1 H2 _. unfold has in *. congruence.
  - intros C D o o'. unfold has, class_of. repeat case_match; intros; simplify_eq; done.
  - intros C D. unfold inverse_of. repeat case_decide; intros; simplify_eq; done.
  - intros C D. unfold inverse_of. repeat case_decide; intros; simplify_eq; done.
  - apply is_fresh.
  - intros C D o v HCD Ho Ev Hn. unfold values in *. apply Hv in Ev.
    destruct Ev as [[-> ->]|[[-> ->]|[[-> ->]|[-> ->]]]]; cbv in Ho; simplify_eq; cbv in HCD; simplify_eq; split; done.
  - intros o. split; [|done]. intros C o' Ho [d Ed]. unfold place. rewrite Ed. cbn.
    destruct (Hd o' d Ed) as [[-> ->]|[[-> ->]|[[-> ->]|[-> ->]]]]; cbv in Ho; simplify_eq; unfold row; eexists; apply lookup_singleton_eq.
  - split; [repeat constructor; set_solver|]. split; [by repeat constructor|]. intros C Ho _. cbv in Ho. simplify_eq. by left.
  - split; [by eexists|]. split.
    + intros X Ho _. cbv in Ho. by simplify_eq.
    + split.
      * intros C Ho. cbv in Ho. simplify_eq. unfold row. eexists. apply lookup_singleton_eq.
      * intros X Y y Ho HXY Ey. cbv in Ho. simplify_eq. cbv in HXY. simplify_eq. unfold row in Ey. apply lookup_singleton_Some in Ey as [_ <-].
        split; [done|]. intros _. split; [done|by eexists].
Defined.

(** The values after a request. *)
Definition after (attrs : list Attribute) (r : request) (l : list (Z * Z)) : list (option Z) :=
  let s := snd (run attrs r (base l)) in map (fun '(o, _) => place s o 48) l.
Example remarried : after [wife] (Write 1 (row 12)) [(1, 11); (2, 12); (11, 1); (12, 2)] = [Some 12; Some 0; Some 0; Some 1].
Proof. vm_compute. reflexivity. Qed.
Example divorced : after [wife] (Delete 1) [(1, 11); (2, 12); (11, 1); (12, 2)] = [None; Some 12; Some 0; Some 2].
Proof. vm_compute. reflexivity. Qed.
(** An object that is its own friend takes another one: the null of the old friend is
    written over the new value, in the bytes of the object. *)
Example own_friend : after [friend] (Write 21 (row 22)) [(21, 21); (22, 0)] = [Some 0; Some 21].
Proof. vm_compute. reflexivity. Qed.
(** A request that fails has already changed the old partner. *)
Example no_such_wife : fst (run [wife] (Write 1 (row 13)) (base [(1, 11); (11, 1)])) = inl StorageError
  /\ after [wife] (Write 1 (row 13)) [(1, 11); (11, 1)] = [Some 11; Some 0].
Proof. vm_compute. done. Qed.
End Example.
