(* ===== verification/OneToMany.v ===== *)
(** * One-to-many relationships

    When each object of a class has at most one object of another at an attribute,
    that has the set of them at the inverse attribute, the requests on the objects of
    both classes and on the sets keep the two sides consistent. An item that is put
    in a set while it is in another one takes all the items of that other set out of
    it. *)

From S2P Require Import Prelude Inverse.

#[local] Set Warnings "-register-all,-clear-no-such-hyp".

Section OneToMany.
Context {Oid : Type} `{Countable Oid}.
Variable nullOid : Oid.
Variable getDbid : Oid -> Z.
Variable dbid : Z.
Variable inverse_of : Attribute -> option Attribute.
Variable attribute_in : Oid -> Attribute -> Attribute.
Variable objectCreate : gset Oid -> Oid.
Variable has : Attribute -> Oid -> Prop.
Hypothesis has_valid : forall C o, has C o -> o <> nullOid /\ getDbid o = dbid.
Hypothesis same_place : forall C D o, has C o -> has D o -> idr_poff C = idr_poff D -> C = D.
Hypothesis same_id : forall C D o o', has C o -> has D o' -> attr_id C = attr_id D -> C = D.
Hypothesis attribute_in_own : forall C o, has C o -> attribute_in o C = C.
Hypothesis objectCreate_fresh : forall used, objectCreate used ∉ used.

(** The attribute of the items, and that of their owner. *)
Variable X Y : Attribute.
Hypothesis inverse_X : inverse_of X = Some Y.
Hypothesis inverse_Y : inverse_of Y = Some X.
Hypothesis X_single : isCollectionClass X = false.
Hypothesis Y_collection : isCollectionClass Y = true.
Hypothesis two_classes : forall o, has X o -> has Y o -> False.

(** A class has one of them, and no other inverse attribute. *)
Hypothesis only_X : forall C o, has X o -> has C o -> inverse_of C <> None -> C = X.
Hypothesis only_Y : forall C o, has Y o -> has C o -> inverse_of C <> None -> C = Y.

Implicit Types (s : store (Oid := Oid)) (o obj a b c x y : Oid).
#[local] Existing Instances M_ret M_bind.
#[local] Abbreviation good := (good has).
#[local] Abbreviation frame := (frame has).
#[local] Abbreviation read_ok := (read_ok nullOid getDbid dbid has has_valid).
#[local] Abbreviation write_ok := (write_ok nullOid getDbid dbid has has_valid same_place same_id).

(** ** Owners and members *)

Definition owner s a : option Oid := place s a (idr_poff X).
Definition collection_of s b : option Oid := place s b (idr_poff Y).
Definition members s b : gset Oid :=
  match collection_of s b with Some c => match colls s !! c with Some k => items k | None => ∅ end | None => ∅ end.

(** The collections of the owners are there, each for one owner. *)
Definition shape s : Prop :=
  colls s !! nullOid = None
  /\ (forall b c, has Y b -> collection_of s b = Some c -> c <> nullOid -> exists k, colls s !! c = Some k /\ removed k = false)
  /\ (forall b b' c, has Y b -> has Y b' -> collection_of s b = Some c -> collection_of s b' = Some c -> c <> nullOid -> b = b').

(** An object has an owner exactly when it is a member of it. *)
Definition related (V : Oid -> option Oid) (Mb : Oid -> gset Oid) : Prop :=
  (forall a b, has X a -> V a = Some b -> b <> nullOid -> has Y b /\ a ∈ Mb b)
  /\ (forall a b, has Y b -> a ∈ Mb b -> has X a /\ V a = Some b).

Lemma related_ext V V' Mb Mb' : (forall a, has X a -> V' a = V a) -> (forall b, has Y b -> Mb' b = Mb b) -> related V Mb -> related V' Mb'.
Proof.
  intros HV HM [H1 H2]. split.
  - intros a b Ha E Hb. rewrite HV in E by done. destruct (H1 a b Ha E Hb) as [Hyb Hm]. split; [done|]. by rewrite HM.
  - intros a b Hb Hm. rewrite HM in Hm by done. destruct (H2 a b Hb Hm) as [Hxa E]. split; [done|]. by rewrite HV.
Qed.

(** The item [obj] goes from the set of [old] to that of [y]. *)
Definition move_members (obj old y : Oid) (Mb : Oid -> gset Oid) b : gset Oid :=
  if decide (y <> nullOid /\ b = y) then {[obj]} ∪ Mb b
  else if decide (old <> nullOid /\ old <> y /\ b = old) then Mb b ∖ {[obj]} else Mb b.
Lemma related_move V Mb obj old y : related V Mb -> has X obj -> V obj = Some old -> (y <> nullOid -> has Y y) ->
  related (fun a => if decide (a = obj) then Some y else V a) (move_members obj old y Mb).
Proof.
  intros [H1 H2] Hobj Eold Hy. unfold move_members. split.
  - intros a b Ha. case_decide as Hd.
    + intros [= <-] Hb. subst a. split; [by apply Hy|]. rewrite decide_True by done. set_solver.
    + intros E Hb. destruct (H1 a b Ha E Hb) as [HYb Hm]. split; [done|]. repeat case_decide; set_solver.
  - intros a b Hb Hm. destruct (has_valid Y b Hb) as [Nb _]. destruct (decide (a = obj)) as [->|Hd].
    + split; [done|]. f_equal. destruct (decide (y = b)) as [|Hyb]; [done|exfalso].
      rewrite decide_False in Hm by (intros [_ ?]; congruence). case_decide as Ho; [set_solver|]. apply H2 in Hm as [_ Eb]; [|done].
      apply Ho. split_and!; congruence.
    + apply H2; [done|]. revert Hm. repeat case_decide; set_solver.
Qed.
(** All the items leave the set of [o]. *)
Lemma related_clear V Mb o : related V Mb -> has Y o ->
  related (fun a => if decide (a ∈ Mb o) then Some nullOid else V a) (fun b => if decide (b = o) then ∅ else Mb b).
Proof.
  intros [H1 H2] Ho. split.
  - intros a b Ha. case_decide as Hd; [congruence|]. intros E Hb. destruct (H1 a b Ha E Hb) as [HYb Hm]. split; [done|].
    case_decide; [congruence|done].
  - intros a b Hb. case_decide as Hd; [set_solver|]. intros Hm. destruct (H2 a b Hb Hm) as [Ha E]. split; [done|].
    rewrite decide_False; [done|]. intros Hm'. destruct (H2 a o Ho Hm') as [_ E']. congruence.
Qed.

(** ** Steps *)

(** What a step does to the owners and the members, and what collections may remain
    to be written. *)
Record effect (obj : Oid) (U : gset Oid) (V : Oid -> option Oid) (Mb : Oid -> gset Oid) s s' : Prop := {
  e_frame : frame obj s s'; e_shape : shape s';
  e_owner a : has X a -> owner s' a = V a;
  e_members b : has Y b -> members s' b = Mb b;
  e_unsaved : unsaved s' ⊆ U }.
Lemma effect_refl obj s : shape s -> effect obj (unsaved s) (owner s) (members s) s s.
Proof. intros Hs. by split. Qed.
Lemma effect_trans obj U1 V1 M1 U2 V2 M2 s s1 s2 : effect obj U1 V1 M1 s s1 -> effect obj U2 V2 M2 s1 s2 -> effect obj U2 V2 M2 s s2.
Proof. intros [F1] [F2]. split; try done. by eapply frame_trans. Qed.
Lemma effect_ext obj U V Mb U' V' Mb' s s' : effect obj U V Mb s s' -> U ⊆ U' -> (forall a, has X a -> V a = V' a) ->
  (forall b, has Y b -> Mb b = Mb' b) -> effect obj U' V' Mb' s s'.
Proof. intros [] HU HV HM. split; try done; [intros; by rewrite <- HV, e_owner0|intros; by rewrite <- HM, e_members0|set_solver]. Qed.

Ltac effect_by H := refine (effect_ext _ _ _ _ _ _ _ _ _ H _ _ _); [try reflexivity|try done|try done].
Lemma same_data_frame obj s s' : data s' = data s -> index s' = index s -> obj_idr s' = obj_idr s -> frame obj s s'.
Proof.
  intros Ed Ei Er. split; [done|by rewrite Ed|intros o; unfold exists_in; by rewrite Ed|].
  intros [Hp Hi]. unfold Inverse.good, place in *. rewrite Ed, Ei. by split.
Qed.
Lemma on_coll_ok {A} c k (f : Coll -> M A) s : colls s !! c = Some k -> on_coll c f s = f k s.
Proof. intros E. unfold on_coll. rewrite (run_bind get _ s s s eq_refl). by rewrite E. Qed.
(** The items of the collection of [b] are changed. *)
Lemma items_effect obj b c k f U s : shape s -> has Y b -> collection_of s b = Some c -> c <> nullOid -> colls s !! c = Some k -> removed k = false ->
  effect obj U (owner s) (fun b' => if decide (b' = b) then f else members s b') s
    (set_unsaved U (set_colls (<[c := set_items f k]> (colls s)) s)).
Proof.
  intros (S1 & S2 & S3) Hb Ec Hc Ek Hk. split.
  - by apply same_data_frame.
  - split_and!; cbn.
    + by rewrite lookup_insert_ne.
    + intros b' c' Hb' Ec' Hc'. destruct (decide (c' = c)) as [->|]; [rewrite lookup_insert_eq; by eexists|]. rewrite lookup_insert_ne by done. by eapply S2.
    + exact S3.
  - done.
  - intros b' Hb'. unfold members. cbn. change (collection_of _ b') with (collection_of s b').
    case_decide as Hd; [subst b'; by rewrite Ec, lookup_insert_eq|].
    destruct (collection_of s b') as [c'|] eqn:Ec'; [|done].
    destruct (decide (c' = c)) as [->|]; [exfalso; by apply Hd, (S3 b' b c)|]. by rewrite lookup_insert_ne.
  - done.
Qed.
Lemma members_items s b c k : collection_of s b = Some c -> colls s !! c = Some k -> members s b = items k.
Proof. intros Ec Ek. unfold members. by rewrite Ec, Ek. Qed.
Lemma change_ok obj b c f s : shape s -> has Y b -> collection_of s b = Some c -> c <> nullOid ->
  exists s', change_items c f s = (inr tt, s')
    /\ effect obj ({[c]} ∪ unsaved s) (owner s) (fun b' => if decide (b' = b) then f (members s b) else members s b') s s'
    /\ data s' = data s.
Proof.
  intros Hs Hb Ec Hc. destruct (proj1 (proj2 Hs) b c Hb Ec Hc) as (k & Ek & Hk). rewrite (members_items s b c k Ec Ek).
  unfold change_items. rewrite (on_coll_ok _ _ _ _ Ek). eexists. split; [reflexivity|]. split; [by apply items_effect|done].
Qed.
Lemma realize_ok obj c s : shape s ->
  exists s', inverse_coll_realize c s = (inr tt, s') /\ effect obj (unsaved s ∖ {[c]}) (owner s) (members s) s s'.
Proof. intros Hs. eexists. split; [reflexivity|]. by split. Qed.
Lemma change_realize_ok obj b c f s : shape s -> has Y b -> collection_of s b = Some c -> c <> nullOid ->
  exists s', (change_items c f;; inverse_coll_realize c) s = (inr tt, s')
    /\ effect obj (unsaved s) (owner s) (fun b' => if decide (b' = b) then f (members s b) else members s b') s s'.
Proof.
  intros Hs Hb Ec Hc. destruct (change_ok obj b c f s Hs Hb Ec Hc) as (s1 & E1 & H1 & _). rewrite (run_bind _ _ _ _ _ E1).
  destruct (realize_ok obj c s1 (e_shape _ _ _ _ _ _ H1)) as (s2 & E2 & H2). exists s2. split; [done|].
  refine (effect_ext _ _ _ _ _ _ _ _ _ (effect_trans _ _ _ _ _ _ _ _ _ _ H1 H2) _ _ _); clear E1 E2.
  - pose proof (e_unsaved _ _ _ _ _ _ H1). set_solver.
  - apply H1.
  - apply H1.
Qed.

Lemma get_ok s b c : shape s -> has Y b -> collection_of s b = Some c ->
  collection_at nullOid c s = (inr (if decide (c = nullOid) then None else Some c), s).
Proof.
  intros (S1 & S2 & _) Hb Ec. unfold collection_at, isValid. destruct (decide (c = nullOid)) as [->|Hc].
  - by rewrite bool_decide_eq_false_2 by naive_solver.
  - rewrite bool_decide_eq_true_2 by done. destruct (S2 b c Hb Ec Hc) as (k & Ek & Hk).
    unfold inverse_get_collection, isValid, mbind, M_bind, get. cbv beta iota. by rewrite bool_decide_eq_true_2, Ek, Hk by done.
Qed.
Lemma null_members s b : shape s -> collection_of s b = Some nullOid -> members s b = ∅.
Proof. intros (S1 & _) E. unfold members. by rewrite E, S1. Qed.

(** The object leaves the set of [b]. *)
Lemma leave_ok obj b s : shape s -> good obj s -> has Y b -> exists_in s b ->
  exists s', (c ← inverse_read_oid getDbid dbid Y b;
              coll ← collection_at nullOid c;
              if_coll coll (fun coll => coll_suppress coll obj;; inverse_coll_realize coll)) s = (inr tt, s')
    /\ effect obj (unsaved s) (owner s) (fun b' => if decide (b' = b) then members s b ∖ {[obj]} else members s b') s s'.
Proof.
  intros Hs Hg Hb Hex. destruct (proj1 Hg Y b Hb Hex) as [c Ec].
  rewrite (run_bind _ _ _ _ _ (read_ok Y s b c Hb Ec)), (run_bind _ _ _ _ _ (get_ok s b c Hs Hb Ec)).
  destruct (decide (c = nullOid)) as [->|Hc]; cbn [if_coll].
  - exists s. split; [done|]. refine (effect_ext _ _ _ _ _ _ _ _ _ (effect_refl obj s Hs) _ _ _); try done.
    intros b' _. case_decide as Hd; [|done]. subst. rewrite (null_members s b) by done. set_solver.
  - by apply (change_realize_ok obj b c (fun i => i ∖ {[obj]})).
Qed.

(** Writing the owner of an item. *)
Lemma write_owner_ok obj a v s : shape s -> good obj s -> has X a -> exists_in s a -> a <> obj ->
  exists s', inverse_write_oid X a v obj s = (inr tt, s') /\ (forall b, has Y b -> collection_of s' b = collection_of s b)
    /\ effect obj (unsaved s) (fun a' => if decide (a' = a) then Some v else owner s a') (members s) s s'.
Proof.
  intros (S1 & S2 & S3) Hg Ha Hex Hne. destruct (write_ok X a v obj s Hg Ha Hex Hne) as (s' & E & W & F & C & U).
  assert (forall b, has Y b -> collection_of s' b = collection_of s b) as HC.
  { intros b Hb. unfold collection_of. rewrite W. rewrite decide_False; [done|]. intros [-> _]. by apply (two_classes a). }
  exists s'. split; [done|]. split; [done|]. split; [done| | | |by rewrite U].
  - split_and!.
    + by rewrite C.
    + intros b c Hb. rewrite HC, C by done. by apply S2.
    + intros b b' c Hb Hb'. rewrite !HC by done. by apply S3.
  - intros a' Ha'. unfold owner. rewrite W. apply decide_ext. tauto.
  - intros b Hb. unfold members. by rewrite HC, C by done.
Qed.

(** The object enters the set of [y]; its collection is created when there is none. *)
Lemma shape_new s c i : shape s -> (c ∉ in_use nullOid s) -> shape (set_colls (<[c := mk_Coll false ∅ i]> (colls s)) s).
Proof.
  intros (S1 & S2 & S3) Hc. unfold in_use in Hc. split_and!; [|intros b c' Hb Ec' Hc'|exact S3]; cbn.
  - rewrite lookup_insert_ne; [done|set_solver].
  - destruct (decide (c' = c)) as [->|]; [rewrite lookup_insert_eq; by eexists|]. rewrite lookup_insert_ne by done. by eapply S2.
Qed.
Lemma create_ok obj y s : shape s -> has Y y -> collection_of s y = Some nullOid ->
  exists i c, (c ∉ in_use nullOid s)
    /\ inverse_create_collection nullOid attribute_in objectCreate Y nullOid false y s = (inr c, set_colls (<[c := mk_Coll false ∅ i]> (colls s)) s).
Proof.
  intros Hs Hy Ec. unfold inverse_create_collection. rewrite attribute_in_own by done. exists (if isIndirect Y then None else Some (y, Y)).
  exists (objectCreate (in_use nullOid s)). split; [apply objectCreate_fresh|]. destruct (isIndirect Y); [done|].
  assert (dataRead y (idr_poff Y) s = (inr nullOid, s)) as E.
  { unfold dataRead. rewrite (run_bind get _ s s s eq_refl). unfold collection_of in Ec. by rewrite Ec. }
  rewrite (run_bind _ _ _ _ _ E). unfold isValid. by rewrite bool_decide_eq_false_2 by naive_solver.
Qed.
(** Giving an owner a new collection. *)
Lemma write_collection_ok obj y c i s : shape s -> good obj s -> has Y y -> exists_in s y -> y <> obj -> collection_of s y = Some nullOid ->
  (c ∉ in_use nullOid s) -> let s1 := set_colls (<[c := mk_Coll false ∅ i]> (colls s)) s in
  exists s', inverse_write_oid Y y c obj s1 = (inr tt, s') /\ collection_of s' y = Some c /\ effect obj (unsaved s) (owner s) (members s) s s'.
Proof.
  intros Hs Hg Hy Hex Hne Ec Hc s1. destruct (write_ok Y y c obj s1 Hg Hy Hex Hne) as (s' & E & W & F & C & U).
  assert (forall b, has Y b -> collection_of s' b = if decide (b = y) then Some c else collection_of s b) as HC.
  { intros b Hb. unfold collection_of. rewrite W. apply decide_ext. tauto. }
  assert (colls s !! c = None) as Hnc by (apply not_elem_of_dom; unfold in_use in Hc; set_solver).
  assert (c <> nullOid) as Hcn by (intros ->; apply Hc; unfold in_use; set_solver).
  assert (forall b d, has Y b -> collection_of s b = Some d -> d <> c) as Hnew.
  { intros b d Hb Ed ->. destruct (proj1 (proj2 Hs) b c Hb Ed Hcn) as (k & Ek & _). congruence. }
  pose proof Hs as (S1 & S2 & S3). exists s'. split; [done|]. split; [by rewrite HC, decide_True|]. split; [| | | |by rewrite U].
  - eapply (frame_trans has); [|exact F]. by apply same_data_frame.
  - split_and!.
    + rewrite C. cbn. by rewrite lookup_insert_ne.
    + intros b d Hb. rewrite HC, C by done. case_decide as Hd; [intros [= <-] _; cbn; rewrite lookup_insert_eq; by eexists|].
      intros Ed Hdn. cbn. rewrite lookup_insert_ne by (intros ->; by eapply Hnew). by eapply S2.
    + intros b b' d Hb Hb'. rewrite !HC by done. do 2 case_decide; intros E1 E2 Hd; try congruence.
      * injection E1 as <-. exfalso. by eapply (Hnew b').
      * injection E2 as <-. exfalso. by eapply (Hnew b).
      * by eapply S3.
  - intros a Ha. unfold owner. rewrite W, decide_False; [done|]. intros [-> _]. by apply (two_classes y).
  - intros b Hb. unfold members. rewrite HC, C by done. cbn. case_decide as Hd.
    + subst b. rewrite lookup_insert_eq, Ec, S1. done.
    + destruct (collection_of s b) as [d|] eqn:Ed; [|done]. rewrite lookup_insert_ne; [done|]. intros ->. by eapply Hnew.
Qed.

Lemma join_ok obj y s : shape s -> good obj s -> has Y y -> exists_in s y -> y <> obj ->
  exists s', (c ← inverse_read_oid getDbid dbid Y y;
              coll ← collection_at nullOid c;
              coll ← match coll with
                     | Some coll => mret coll
                     | None =>
                         coll ← inverse_create_collection nullOid attribute_in objectCreate Y nullOid false y;
                         inverse_write_oid Y y coll obj;; mret coll
                     end;
              coll_insert coll obj;; inverse_coll_realize coll) s = (inr tt, s')
    /\ effect obj (unsaved s) (owner s) (fun b => if decide (b = y) then {[obj]} ∪ members s b else members s b) s s'.
Proof.
  intros Hs Hg Hy Hex Hne. destruct (proj1 Hg Y y Hy Hex) as [c Ec].
  rewrite (run_bind _ _ _ _ _ (read_ok Y s y c Hy Ec)), (run_bind _ _ _ _ _ (get_ok s y c Hs Hy Ec)).
  destruct (decide (c = nullOid)) as [->|Hc].
  - destruct (create_ok obj y s Hs Hy Ec) as (i & c & Hc & E1). assert (c <> nullOid) as Hcn by (intros ->; apply Hc; unfold in_use; set_solver).
    destruct (write_collection_ok obj y c i s Hs Hg Hy Hex Hne Ec Hc) as (s2 & E2 & Ec2 & H2).
    rewrite (run_bind (A := Oid) _ _ s c s2); [|by rewrite (run_bind _ _ _ _ _ E1), (run_bind _ _ _ _ _ E2)].
    destruct (change_realize_ok obj y c (fun k => {[obj]} ∪ k) s2 (e_shape _ _ _ _ _ _ H2) Hy Ec2 Hcn) as (s3 & E3 & H3).
    exists s3. split; [exact E3|]. refine (effect_ext _ _ _ _ _ _ _ _ _ (effect_trans _ _ _ _ _ _ _ _ _ _ H2 H3) _ _ _).
    + apply H2.
    + apply H2.
    + intros b Hb. case_decide; [subst; by rewrite (e_members _ _ _ _ _ _ H2)|by apply H2].
  - destruct (change_realize_ok obj y c (fun k => {[obj]} ∪ k) s Hs Hy Ec Hc) as (s3 & E3 & H3). exists s3. split; [exact E3|].
    refine (effect_ext _ _ _ _ _ _ _ _ _ H3 _ _ _); try done. intros b _. case_decide; by subst.
Qed.

(** ** The operations *)

#[local] Abbreviation inverse_realize := (inverse_realize nullOid getDbid dbid inverse_of attribute_in objectCreate).
#[local] Abbreviation inverses_realize := (inverses_realize nullOid getDbid dbid inverse_of attribute_in objectCreate).
#[local] Abbreviation inverse_coll_perform := (inverse_coll_perform nullOid getDbid dbid inverse_of attribute_in objectCreate).

Lemma isValid_spec o : isValid nullOid o = bool_decide (o <> nullOid).
Proof. done. Qed.
Definition sound_owner s y : Prop := y <> nullOid -> has Y y /\ exists_in s y.

(** The old and the new owner of an item, in the operations. *)
Definition old_of (op : InvObjOp) (obj y : Oid) s : option Oid :=
  match op with invObjCreate => Some nullOid | invObjUpdate => owner s obj | invObjRemove => Some y end.
Definition new_of (op : InvObjOp) (y : Oid) : Oid := match op with invObjRemove => nullOid | _ => y end.

Lemma move_ok op obj old y s : shape s -> good obj s -> has X obj -> sound_owner s y -> old_of op obj y s = Some old -> sound_owner s old ->
  exists s', inverse_1_N nullOid getDbid dbid attribute_in objectCreate X op Y obj y s = (inr tt, s')
    /\ effect obj (unsaved s) (owner s) (move_members obj old (new_of op y) (members s)) s s'.
Proof.
  intros Hs Hg Hx Hy Hold Ho.
  assert (forall b, has Y b -> b <> obj) as Hne by (intros b Hb ->; by apply (two_classes obj)).
  (* the second part *)
  assert (forall s1, shape s1 -> good obj s1 -> sound_owner s1 y -> exists s', (if isValid nullOid y then
        cur_obj_oid ← inverse_read_oid getDbid dbid Y y; coll ← collection_at nullOid cur_obj_oid;
        coll ← match coll with
               | Some coll => mret coll
               | None => coll ← inverse_create_collection nullOid attribute_in objectCreate Y nullOid false y; inverse_write_oid Y y coll obj;; mret coll
               end;
        coll_insert coll obj;; inverse_coll_realize coll else mret tt) s1 = (inr tt, s')
      /\ effect obj (unsaved s1) (owner s1) (fun b => if decide (y <> nullOid /\ b = y) then {[obj]} ∪ members s1 b else members s1 b) s1 s') as Hjoin.
  { intros s1 Hs1 Hg1 Hy1. rewrite isValid_spec. case_bool_decide as Hn.
    - destruct (Hy1 Hn) as [HYy Hex]. destruct (join_ok obj y s1 Hs1 Hg1 HYy Hex (Hne y HYy)) as (s' & E & He). exists s'. split; [exact E|].
      effect_by He. intros b _. apply decide_ext. tauto.
    - exists s1. split; [done|]. effect_by (effect_refl obj s1 Hs1). intros b _. by rewrite decide_False by tauto. }
  (* the first part of the update *)
  assert (sound_owner s old -> exists s1, (if isValid nullOid old && bool_decide (old <> y) then
        old_obj_oid ← inverse_read_oid getDbid dbid Y old; coll ← collection_at nullOid old_obj_oid;
        if_coll coll (fun coll => coll_suppress coll obj;; inverse_coll_realize coll) else mret tt) s = (inr tt, s1)
      /\ effect obj (unsaved s) (owner s) (fun b => if decide (old <> nullOid /\ old <> y /\ b = old) then members s b ∖ {[obj]} else members s b) s s1) as Hleave.
  { intros Hso. rewrite isValid_spec. case_bool_decide as Hn; cbn [andb]; [case_bool_decide as Hd|].
    - destruct (Hso Hn) as [HYo Hex]. destruct (leave_ok obj old s Hs Hg HYo Hex) as (s' & E & He). exists s'. split; [exact E|].
      effect_by He. intros b _. destruct (decide (b = old)) as [->|]; [by rewrite decide_True|by rewrite decide_False by tauto].
    - exists s. split; [done|]. effect_by (effect_refl obj s Hs). intros b _. by rewrite decide_False by tauto.
    - exists s. split; [done|]. effect_by (effect_refl obj s Hs). intros b _. by rewrite decide_False by tauto. }
  destruct op; cbn in Hold.
  - injection Hold as <-. destruct (Hjoin s Hs Hg Hy) as (s' & E & He). exists s'. split; [exact E|].
    effect_by He. intros b _. unfold move_members, new_of. rewrite (decide_False (P := nullOid <> nullOid /\ _)) by tauto. by apply decide_ext.
  - destruct (Hleave Ho) as (s1 & E1 & H1). pose proof (e_frame _ _ _ _ _ _ H1) as F1.
    destruct (Hjoin s1 (e_shape _ _ _ _ _ _ H1) (f_good _ _ _ _ F1 Hg)) as (s2 & E2 & H2).
    { intros Hn. destruct (Hy Hn). split; [done|]. by apply (f_dom _ _ _ _ F1). }
    exists s2. split.
    + unfold inverse_1_N. rewrite (run_bind (A := unit) _ _ s tt s1); [exact E2|]. by rewrite (run_bind _ _ _ _ _ (read_ok X s obj old Hx Hold)).
    + effect_by (effect_trans _ _ _ _ _ _ _ _ _ _ H1 H2).
      * apply H1.
      * apply H1.
      * intros b Hb. unfold move_members. rewrite (e_members _ _ _ _ _ _ H1) by done. cbn [new_of].
        repeat case_decide; try done; exfalso; naive_solver.
  - assert (old = y) as -> by congruence. clear Hjoin Hleave. unfold inverse_1_N. cbn [new_of]. rewrite isValid_spec. case_bool_decide as Hn.
    + destruct (Ho Hn) as [HYo Hex]. destruct (leave_ok obj y s Hs Hg HYo Hex) as (s' & E & He). exists s'. split; [exact E|].
      effect_by He. intros b _. unfold move_members. rewrite (decide_False (P := nullOid <> nullOid /\ _)) by tauto.
      destruct (decide (b = y)) as [->|]; [|by rewrite decide_False by tauto]. rewrite decide_True; [done|]. by split_and!.
    + exists s. split; [done|]. effect_by (effect_refl obj s Hs). intros b _. unfold move_members. by rewrite !decide_False by tauto.
Qed.

(** The items of a list are given no owner. *)
Definition item_in obj s a : Prop := has X a /\ exists_in s a /\ a <> obj.
Lemma item_in_frame obj s s' l : frame obj s s' -> Forall (item_in obj s) l -> Forall (item_in obj s') l.
Proof. intros F Hl. eapply Forall_impl; [exact Hl|]. intros a (? & ? & ?). split_and!; try done. by apply (f_dom _ _ _ _ F). Qed.
Lemma null_all_ok obj l : forall s, shape s -> good obj s -> Forall (item_in obj s) l ->
  exists s', for_each (fun x => inverse_write_oid X x nullOid obj) l s = (inr tt, s')
    /\ effect obj (unsaved s) (fun a => if decide (a ∈ l) then Some nullOid else owner s a) (members s) s s'.
Proof.
  induction l as [|x l IH]; intros s Hs Hg Hl.
  - exists s. split; [done|]. effect_by (effect_refl obj s Hs).
  - inversion_clear Hl as [|? ? (Hx & Hex & Hne) Hl']. destruct (write_owner_ok obj x nullOid s Hs Hg Hx Hex Hne) as (s1 & E1 & _ & H1).
    pose proof (e_frame _ _ _ _ _ _ H1) as F1.
    destruct (IH s1 (e_shape _ _ _ _ _ _ H1) (f_good _ _ _ _ F1 Hg) (item_in_frame _ _ _ _ F1 Hl')) as (s2 & E2 & H2).
    exists s2. split; [cbn [for_each]; by rewrite (run_bind _ _ _ _ _ E1)|]. effect_by (effect_trans _ _ _ _ _ _ _ _ _ _ H1 H2); [apply H1| |apply H1].
    intros a Ha. rewrite (e_owner _ _ _ _ _ _ H1) by done. repeat case_decide; set_solver.
Qed.
(** The same, and they leave the collection of [o]. *)
Lemma clear_all_ok obj o c l : has Y o -> c <> nullOid -> forall s, shape s -> good obj s -> collection_of s o = Some c -> Forall (item_in obj s) l ->
  exists s', for_each (fun x => inverse_write_oid X x nullOid obj;; coll_suppress c x) l s = (inr tt, s')
    /\ effect obj ({[c]} ∪ unsaved s) (fun a => if decide (a ∈ l) then Some nullOid else owner s a)
         (fun b => if decide (b = o) then members s o ∖ list_to_set l else members s b) s s'.
Proof.
  intros Ho Hc. induction l as [|x l IH]; intros s Hs Hg Ec Hl.
  - exists s. split; [done|]. refine (effect_ext _ _ _ _ _ _ _ _ _ (effect_refl obj s Hs) _ _ _); [by apply union_subseteq_r|done|].
    intros b _. rewrite list_to_set_nil, difference_empty_L. by case_decide; subst.
  - inversion_clear Hl as [|? ? (Hx & Hex & Hne) Hl']. destruct (write_owner_ok obj x nullOid s Hs Hg Hx Hex Hne) as (s1 & E1 & Ec1 & H1).
    pose proof (e_frame _ _ _ _ _ _ H1) as F1. rewrite <- Ec1 in Ec by done.
    destruct (change_ok obj o c (fun i => i ∖ {[x]}) s1 (e_shape _ _ _ _ _ _ H1) Ho Ec Hc) as (s2 & E2 & H2 & D2).
    pose proof (frame_trans _ _ _ _ _ F1 (e_frame _ _ _ _ _ _ H2)) as F2.
    assert (collection_of s2 o = Some c) as Ec2 by (unfold collection_of, place in *; by rewrite D2).
    destruct (IH s2 (e_shape _ _ _ _ _ _ H2) (f_good _ _ _ _ F2 Hg) Ec2 (item_in_frame _ _ _ _ F2 Hl')) as (s3 & E3 & H3).
    exists s3. split; [cbn [for_each]; rewrite (run_bind (A := unit) _ _ s tt s2); [done|]; by rewrite (run_bind _ _ _ _ _ E1)|].
    effect_by (effect_trans _ _ _ _ _ _ _ _ _ _ H1 (effect_trans _ _ _ _ _ _ _ _ _ _ H2 H3)).
    + pose proof (e_unsaved _ _ _ _ _ _ H1). pose proof (e_unsaved _ _ _ _ _ _ H2). set_solver.
    + intros a Ha. rewrite (e_owner _ _ _ _ _ _ H2), (e_owner _ _ _ _ _ _ H1) by done. repeat case_decide; set_solver.
    + intros b Hb. rewrite !(e_members _ _ _ _ _ _ H2), !(e_members _ _ _ _ _ _ H1) by done. repeat case_decide; set_solver.
Qed.

(** ** The items of a collection *)

(** The sets of the owners, but [G] for [b]. *)
Definition with_set b (G : gset Oid) s b' : gset Oid := if decide (b' = b) then G else members s b'.

(** An item that is added takes all the items of the set where it was out of it. *)
Lemma perform_add_ok b x old G s : shape s -> good nullOid s -> has Y b -> has X x -> exists_in s x -> owner s x = Some old ->
  related (owner s) (with_set b G s) ->
  exists s', inverse_coll_perform Y invObjUpdate b x s = (inr tt, s')
    /\ effect nullOid (unsaved s)
         (fun a => if decide (a = x) then Some b else if decide (old <> nullOid /\ old <> b /\ a ∈ members s old) then Some nullOid else owner s a)
         (fun b' => if decide (old <> nullOid /\ old <> b /\ b' = old) then ∅ else members s b') s s'.
Proof.
  intros Hs Hg Hb Hx Hex Eold HR. unfold Inverse.inverse_coll_perform. rewrite inverse_Y, X_single. unfold inverse_coll_perform_N_1.
  rewrite (run_bind _ _ _ _ _ (read_ok X s x old Hx Eold)). destruct (has_valid X x Hx) as [Nx _].
  assert (exists s1, (if isValid nullOid old && bool_decide (old <> b) then
       old_inv_obj_oid ← inverse_read_oid getDbid dbid Y old;
       old_coll ← collection_at nullOid old_inv_obj_oid;
       if_coll old_coll (fun old_coll =>
         oid_arr ← getElements old_coll;
         for_each (fun x => inverse_write_oid X x nullOid nullOid;; coll_suppress old_coll x) oid_arr;;
         inverse_coll_realize old_coll)
     else mret tt) s = (inr tt, s1)
     /\ effect nullOid (unsaved s) (fun a => if decide (old <> nullOid /\ old <> b /\ a ∈ members s old) then Some nullOid else owner s a)
         (fun b' => if decide (old <> nullOid /\ old <> b /\ b' = old) then ∅ else members s b') s s1) as (s1 & E1 & H1).
  { rewrite isValid_spec. destruct (decide (old <> nullOid /\ old <> b)) as [[Ho Hob]|Hno].
    2: { exists s. split; [by repeat (case_bool_decide; cbn; try done); exfalso; tauto|]. effect_by (effect_refl nullOid s Hs); intros ? _; by rewrite decide_False by tauto. }
    rewrite !bool_decide_eq_true_2 by done. cbn [andb]. destruct (proj1 HR x old Hx Eold Ho) as [HYo Hxo].
    unfold with_set in Hxo. rewrite decide_False in Hxo by done.
    assert (exists c, collection_of s old = Some c) as [c Ec] by (unfold members in Hxo; destruct (collection_of s old); [by eexists|set_solver]).
    rewrite (run_bind _ _ _ _ _ (read_ok Y s old c HYo Ec)), (run_bind _ _ _ _ _ (get_ok s old c Hs HYo Ec)).
    destruct (decide (c = nullOid)) as [->|Hc]; [rewrite (null_members s old) in Hxo by done; set_solver|]. cbn [if_coll].
    destruct (proj1 (proj2 Hs) old c HYo Ec Hc) as (k & Ek & Hk). pose proof (members_items s old c k Ec Ek) as Em.
    assert (getElements c s = (inr (elements (items k)), s)) as E0 by (unfold getElements; by rewrite (on_coll_ok _ _ _ _ Ek)).
    rewrite (run_bind _ _ _ _ _ E0). rewrite <- Em.
    destruct (clear_all_ok nullOid old c (elements (members s old)) HYo Hc s Hs Hg Ec) as (s2 & E2 & H2).
    { apply Forall_forall. intros a Ha%elem_of_elements. assert (a ∈ with_set b G s old) as Ha' by (unfold with_set; by rewrite decide_False).
      destruct (proj2 HR a old HYo Ha') as [HXa Ea]. split_and!; [done|by eapply exists_place|]. by apply (has_valid X a). }
    rewrite (run_bind _ _ _ _ _ E2). destruct (realize_ok nullOid c s2 (e_shape _ _ _ _ _ _ H2)) as (s3 & E3 & H3). exists s3. split; [exact E3|].
    effect_by (effect_trans _ _ _ _ _ _ _ _ _ _ H2 H3).
    - pose proof (e_unsaved _ _ _ _ _ _ H2). set_solver.
    - intros a Ha. rewrite (e_owner _ _ _ _ _ _ H2) by done. apply decide_ext. rewrite elem_of_elements. tauto.
    - intros b' Hb'. rewrite (e_members _ _ _ _ _ _ H2), list_to_set_elements_L, difference_diag_L by done. apply decide_ext. tauto. }
  rewrite (run_bind (A := unit) _ _ s tt s1 E1).
  pose proof (e_frame _ _ _ _ _ _ H1) as F1.
  destruct (write_owner_ok nullOid x b s1 (e_shape _ _ _ _ _ _ H1) (f_good _ _ _ _ F1 Hg) Hx (proj2 (f_dom _ _ _ _ F1 x) Hex) Nx) as (s2 & E2 & _ & H2).
  exists s2. split; [exact E2|]. effect_by (effect_trans _ _ _ _ _ _ _ _ _ _ H1 H2); [apply H1| |apply H1].
  intros a Ha. destruct (decide (a = x)); [done|]. by apply H1.
Qed.

Lemma related_add b x old G V Mb : related V (fun b' => if decide (b' = b) then G else Mb b') -> has Y b -> has X x -> V x = Some old ->
  related (fun a => if decide (a = x) then Some b else if decide (old <> nullOid /\ old <> b /\ a ∈ Mb old) then Some nullOid else V a)
    (fun b' => if decide (b' = b) then {[x]} ∪ G else if decide (old <> nullOid /\ old <> b /\ b' = old) then ∅ else Mb b').
Proof.
  intros HR Hb Hx Ex. destruct (has_valid Y b Hb) as [Nb _]. destruct (decide (old <> nullOid /\ old <> b)) as [[Ho Hob]|Hno].
  - destruct (proj1 HR x old Hx Ex Ho) as [HYo Hxo].
    assert (related (fun a => if decide (a = x) then Some b else if decide (a ∈ Mb old) then Some nullOid else V a)
      (move_members x nullOid b (fun b' => if decide (b' = old) then ∅ else if decide (b' = b) then G else Mb b'))) as HR'.
    { rewrite decide_False in Hxo by done.
      apply (related_move (fun a => if decide (a ∈ Mb old) then Some nullOid else V a)); [|done|by rewrite decide_True|done].
      refine (related_ext _ _ _ _ _ _ (related_clear _ _ old HR HYo)); [|done]. intros a _. by rewrite (decide_False (P := old = b)). }
    refine (related_ext _ _ _ _ _ _ HR').
    + intros a _. destruct (decide (a = x)); [done|]. apply decide_ext. tauto.
    + intros b' _. unfold move_members. destruct (decide (b' = b)) as [->|Hbb]; [rewrite !decide_True by done; by rewrite decide_False by done|].
      rewrite (decide_False (P := b <> nullOid /\ _)) by tauto. rewrite (decide_False (P := nullOid <> nullOid /\ _)) by tauto.
      apply decide_ext. tauto.
  - refine (related_ext _ _ _ _ _ _ (related_move _ _ x old b HR Hx Ex _)); [| |done].
    + intros a _. destruct (decide (a = x)); [done|]. by rewrite decide_False by tauto.
    + intros b' _. unfold move_members. destruct (decide (b' = b)) as [->|Hbb].
      * rewrite decide_True by done. done.
      * rewrite !decide_False by tauto. done.
Qed.
Lemma related_drop b x G V Mb : related V (fun b' => if decide (b' = b) then G else Mb b') -> has Y b -> x ∈ G ->
  related (fun a => if decide (a = x) then Some nullOid else V a) (fun b' => if decide (b' = b) then G ∖ {[x]} else Mb b').
Proof.
  intros HR Hb Hx. destruct (has_valid Y b Hb) as [Nb _]. destruct (proj2 HR x b Hb) as [HXx Ex]; [by rewrite decide_True|].
  refine (related_ext _ _ _ _ _ _ (related_move _ _ x b nullOid HR HXx Ex _)); [done| |done].
  intros b' _. unfold move_members. rewrite (decide_False (P := nullOid <> nullOid /\ _)) by tauto.
  destruct (decide (b' = b)) as [->|Hbb]; [by rewrite decide_True|]. by rewrite decide_False by tauto.
Qed.

(** ** Writing a collection *)

Fixpoint apply_changes (changes : list (Oid * bool)) (G : gset Oid) : option (gset Oid) :=
  match changes with
  | [] => Some G
  | (x, true) :: changes => apply_changes changes ({[x]} ∪ G)
  | (x, false) :: changes => if decide (x ∈ G) then apply_changes changes (G ∖ {[x]}) else None
  end.
Definition op_of (added : bool) : InvObjOp := if added then invObjUpdate else invObjRemove.

Lemma perform_all_ok b changes : has Y b -> forall G G' s, apply_changes changes G = Some G' -> shape s -> good nullOid s ->
  related (owner s) (with_set b G s) -> Forall (fun '(x, _) => has X x /\ exists_in s x) changes ->
  exists s', for_each (fun '(x, added) => inverse_coll_perform Y (op_of added) b x) changes s = (inr tt, s')
    /\ frame nullOid s s' /\ shape s' /\ related (owner s') (with_set b G' s') /\ members s' b = members s b /\ unsaved s' ⊆ unsaved s.
Proof.
  intros Hb. induction changes as [|[x added] changes IH]; intros G G' s HG Hs Hg HR Hch.
  - injection HG as <-. exists s. split_and!; try done.
  - apply Forall_cons in Hch as [[Hx Hex] Hch']. destruct (proj1 Hg X x Hx Hex) as [old Eold].
    assert (exists G1 s1, inverse_coll_perform Y (op_of added) b x s = (inr tt, s1) /\ apply_changes changes G1 = Some G'
      /\ frame nullOid s s1 /\ shape s1 /\ related (owner s1) (with_set b G1 s1) /\ members s1 b = members s b /\ unsaved s1 ⊆ unsaved s)
      as (G1 & s1 & E1 & HG1 & F1 & Hs1 & HR1 & Hm1 & Hu1).
    { destruct added; cbn in HG.
      - destruct (perform_add_ok b x old G s Hs Hg Hb Hx Hex Eold HR) as (s1 & E1 & H1). exists ({[x]} ∪ G), s1.
        split_and!; [exact E1|done|apply H1|apply H1| |rewrite (e_members _ _ _ _ _ _ H1) by done; by rewrite decide_False by naive_solver|apply H1].
        refine (related_ext _ _ _ _ _ _ (related_add b x old G (owner s) (members s) HR Hb Hx Eold)); [apply H1|].
        intros b' Hb'. unfold with_set. destruct (decide (b' = b)); [done|]. by apply H1.
      - destruct (decide (x ∈ G)) as [Hxg|]; [|done]. destruct (has_valid X x Hx) as [Nx _].
        destruct (write_owner_ok nullOid x nullOid s Hs Hg Hx Hex Nx) as (s1 & E1 & _ & H1). exists (G ∖ {[x]}), s1.
        split_and!; [|done|apply H1|apply H1| |by apply H1|apply H1].
        + unfold Inverse.inverse_coll_perform. by rewrite inverse_Y, X_single.
        + refine (related_ext _ _ _ _ _ _ (related_drop b x G (owner s) (members s) HR Hb Hxg)); [apply H1|].
          intros b' Hb'. unfold with_set. destruct (decide (b' = b)); [done|]. by apply H1. }
    destruct (IH G1 G' s1 HG1 Hs1 (f_good _ _ _ _ F1 Hg) HR1) as (s2 & E2 & F2 & Hs2 & HR2 & Hm2 & Hu2).
    { eapply Forall_impl; [exact Hch'|]. intros [a ?] [? ?]. split; [done|]. by apply (f_dom _ _ _ _ F1). }
    exists s2. split; [cbn [for_each]; by rewrite (run_bind _ _ _ _ _ E1)|]. split_and!; try done; [by eapply frame_trans|congruence|set_solver].
Qed.

(** The sets are the relation, and they are the collections of the owners. *)
Definition consistent s : Prop := shape s /\ related (owner s) (members s).

Lemma store_eta s : set_colls (colls s) s = s.
Proof. by destruct s. Qed.
Lemma change_all_ok c changes G' : forall s k, colls s !! c = Some k -> apply_changes changes (items k) = Some G' ->
  for_each (fun '(x, added) =>
    on_coll c (fun k0 =>
      if added : bool then modify (fun s => set_colls (<[c := set_items ({[x]} ∪ items k0) k0]> (colls s)) s)
      else if decide (x ∈ items k0) then modify (fun s => set_colls (<[c := set_items (items k0 ∖ {[x]}) k0]> (colls s)) s)
      else fail IDB_COLLECTION_ERROR)) changes s
  = (inr tt, set_colls (<[c := set_items G' k]> (colls s)) s).
Proof.
  induction changes as [|[x added] changes IH]; intros s k Ek HG.
  - injection HG as <-. cbn. replace (set_items (items k) k) with k by (by destruct k). by rewrite insert_id, store_eta.
  - assert (exists G1, apply_changes changes G1 = Some G' /\ on_coll c (fun k0 =>
      if added : bool then modify (fun s => set_colls (<[c := set_items ({[x]} ∪ items k0) k0]> (colls s)) s)
      else if decide (x ∈ items k0) then modify (fun s => set_colls (<[c := set_items (items k0 ∖ {[x]}) k0]> (colls s)) s)
      else fail IDB_COLLECTION_ERROR) s = (inr tt, set_colls (<[c := set_items G1 k]> (colls s)) s)) as (G1 & HG1 & E1).
    { rewrite (on_coll_ok _ _ _ _ Ek). destruct added; cbn in HG; [by eexists|]. destruct (decide (x ∈ items k)); [by eexists|done]. }
    cbn [for_each]. rewrite (run_bind _ _ _ _ _ E1).
    rewrite (IH _ (set_items G1 k)); [|cbn; by rewrite lookup_insert_eq|done]. cbn. by rewrite insert_insert_eq.
Qed.

#[local] Abbreviation collectionWrite := (collectionWrite nullOid getDbid dbid inverse_of attribute_in objectCreate).
Lemma collectionWrite_ok b c k changes G' s : shape s -> has Y b -> collection_of s b = Some c -> c <> nullOid ->
  colls s !! c = Some k -> inv k = Some (b, Y) -> apply_changes changes (members s b) = Some G' ->
  exists s1, collectionWrite c changes false s = for_each (fun '(x, added) => inverse_coll_perform Y (op_of added) b x) changes s1
    /\ effect nullOid (unsaved s) (owner s) (with_set b G' s) s s1.
Proof.
  intros Hs Hb Ec Hc Ek Ei HG. destruct (proj1 (proj2 Hs) b c Hb Ec Hc) as (k' & Ek' & Hk). assert (k' = k) as -> by congruence.
  assert (apply_changes changes (items k) = Some G') as HG0 by (by rewrite <- (members_items s b c k Ec Ek)).
  pose proof (items_effect nullOid b c k G' (unsaved s) s Hs Hb Ec Hc Ek Hk) as H1.
  replace (set_unsaved (unsaved s) _) with (set_colls (<[c:=set_items G' k]> (colls s)) s) in H1 by done.
  eexists. split; [|exact H1]. unfold Inverse.collectionWrite. rewrite (run_bind _ _ _ _ _ (change_all_ok c changes G' s k Ek HG0)).
  rewrite (on_coll_ok c (set_items G' k)) by (cbn; by rewrite lookup_insert_eq). cbn [inv set_items]. rewrite Ei.
  rewrite bool_decide_eq_true_2 by (rewrite inverse_Y; by eexists). done.
Qed.
(** Writing the set of [b]. *)
Lemma collection_kept b c k changes G' s : consistent s -> good nullOid s -> has Y b -> collection_of s b = Some c -> c <> nullOid ->
  colls s !! c = Some k -> inv k = Some (b, Y) -> apply_changes changes (members s b) = Some G' ->
  Forall (fun '(x, _) => has X x /\ exists_in s x) changes ->
  exists s', collectionWrite c changes false s = (inr tt, s')
    /\ consistent s' /\ good nullOid s' /\ members s' b = G' /\ unsaved s' ⊆ unsaved s.
Proof.
  intros [Hs HR] Hg Hb Ec Hc Ek Ei HG Hch. destruct (collectionWrite_ok b c k changes G' s Hs Hb Ec Hc Ek Ei HG) as (s1 & -> & H1).
  pose proof (e_frame _ _ _ _ _ _ H1) as F1.
  destruct (perform_all_ok b changes Hb (members s b) G' s1 HG (e_shape _ _ _ _ _ _ H1) (f_good _ _ _ _ F1 Hg)) as (s2 & E2 & F2 & Hs2 & HR2 & Hm2 & Hu2).
  - refine (related_ext _ _ _ _ _ _ HR); [apply H1|]. intros b' Hb'. unfold with_set at 1. destruct (decide (b' = b)) as [->|]; [done|].
    rewrite (e_members _ _ _ _ _ _ H1) by done. unfold with_set. by rewrite decide_False.
  - eapply Forall_impl; [exact Hch|]. intros [x ?] [? ?]. split; [done|]. by apply (f_dom _ _ _ _ F1).
  - assert (members s2 b = G') as Hm by (rewrite Hm2, (e_members _ _ _ _ _ _ H1) by done; unfold with_set; by rewrite decide_True).
    pose proof (e_unsaved _ _ _ _ _ _ H1). exists s2. split; [exact E2|]. split_and!; [|by apply F2, (f_good _ _ _ _ F1)|done|set_solver]. split; [done|].
    refine (related_ext _ _ _ _ _ _ HR2); [done|]. intros b' Hb'. unfold with_set. by case_decide; subst.
Qed.

(** ** Writing and removing an object *)

(** The attributes of the class of an object, that are given to its operations. *)
Definition class_attrs (attrs : list Attribute) obj : Prop :=
  NoDup attrs /\ Forall (fun C => has C obj) attrs /\ (forall C, has C obj -> inverse_of C <> None -> C ∈ attrs).

Lemma realize_none op obj C s : inverse_of C = None -> inverse_realize C op obj s = (inr tt, s).
Proof. intros E. unfold Inverse.inverse_realize. by rewrite E. Qed.
Lemma realize_nones op obj l s : Forall (fun C => inverse_of C = None) l -> inverses_realize l op obj s = (inr tt, s).
Proof.
  induction 1 as [|C l E _ IH]; [done|]. unfold Inverse.inverses_realize in *. cbn [for_each].
  rewrite (run_bind (A := unit) _ _ s tt s); [exact IH|by apply realize_none].
Qed.
Lemma realize_one op obj C attrs s s' : NoDup attrs -> C ∈ attrs -> (forall D, D ∈ attrs -> inverse_of D <> None -> D = C) ->
  inverse_realize C op obj s = (inr tt, s') -> inverses_realize attrs op obj s = (inr tt, s').
Proof.
  intros Hnd HC Hone E. apply list_elem_of_split in HC as (l1 & l2 & ->). apply NoDup_app in Hnd as (_ & Hd & Hnd).
  apply NoDup_cons in Hnd as [H2 _].
  assert (forall D, D ∈ l1 ++ C :: l2 -> D <> C -> inverse_of D = None) as Hno.
  { intros D HD HDC. destruct (inverse_of D) eqn:ED; [|done]. exfalso. apply HDC, Hone; [done|congruence]. }
  clear Hone. revert Hd Hno. induction l1 as [|D l1 IH]; intros Hd Hno.
  - unfold Inverse.inverses_realize. cbn [app for_each]. rewrite (run_bind _ _ _ _ _ E). apply realize_nones. apply Forall_forall. intros D HD.
    apply Hno; [set_solver|]. intros ->. done.
  - unfold Inverse.inverses_realize. cbn [app for_each]. rewrite (run_bind (A := unit) _ _ s tt s).
    + apply IH; set_solver.
    + apply realize_none, Hno; [set_solver|]. intros ->. apply (Hd C); set_solver.
Qed.

(** The row of an object is written, or removed. *)
Definition with_row obj (r : option (gmap Z Oid)) s : store := set_data (partial_alter (fun _ => r) obj (data s)) s.
Lemma place_row obj r s o p : place (with_row obj r s) o p = if decide (o = obj) then r ≫= (fun d => d !! p) else place s o p.
Proof.
  unfold place, with_row. cbn. destruct (decide (o = obj)) as [->|]; [by rewrite lookup_partial_alter_eq|by rewrite lookup_partial_alter_ne].
Qed.
Lemma exists_row obj r s o : exists_in (with_row obj r s) o <-> if decide (o = obj) then is_Some r else exists_in s o.
Proof.
  unfold exists_in, with_row. cbn. destruct (decide (o = obj)) as [->|]; [by rewrite lookup_partial_alter_eq|by rewrite lookup_partial_alter_ne].
Qed.
Lemma good_row obj r s : good obj s -> (forall idr C, r = Some idr -> has C obj -> is_Some (idr !! idr_poff C)) -> good obj (with_row obj r s).
Proof.
  intros [Hp Hi] Hr. split.
  - intros C o Ho Hex. apply exists_row in Hex. rewrite place_row. destruct (decide (o = obj)) as [->|]; [|by apply Hp].
    destruct Hex as [idr ->]. by apply (Hr idr).
  - intros C o E v Ho Hne. rewrite place_row, decide_False by done. by apply Hi.
Qed.
(** The object is an item. *)
Lemma item_row obj r s : has X obj -> shape s -> shape (with_row obj r s)
  /\ (forall a, owner (with_row obj r s) a = if decide (a = obj) then r ≫= (fun d => d !! idr_poff X) else owner s a)
  /\ (forall b, has Y b -> members (with_row obj r s) b = members s b).
Proof.
  intros Hx (S1 & S2 & S3).
  assert (forall b, has Y b -> collection_of (with_row obj r s) b = collection_of s b) as HC.
  { intros b Hb. unfold collection_of. rewrite place_row, decide_False; [done|]. intros ->. by apply (two_classes obj). }
  split; [split_and!|split_and!].
  - done.
  - intros b c Hb. rewrite HC by done. by apply S2.
  - intros b b' c Hb Hb'. rewrite !HC by done. by apply S3.
  - intros a. apply place_row.
  - intros b Hb. unfold members. by rewrite HC.
Qed.
(** The object is an owner: it has the collection that it had, or none. *)
Lemma owner_row obj r s : has Y obj -> shape s ->
  (forall c, r ≫= (fun d => d !! idr_poff Y) = Some c -> c = nullOid \/ collection_of s obj = Some c) ->
  shape (with_row obj r s)
  /\ (forall a, has X a -> owner (with_row obj r s) a = owner s a)
  /\ (forall b, b <> obj -> members (with_row obj r s) b = members s b).
Proof.
  intros Hy (S1 & S2 & S3) Hr.
  assert (forall b, collection_of (with_row obj r s) b = if decide (b = obj) then r ≫= (fun d => d !! idr_poff Y) else collection_of s b) as HC
    by (intros b; apply place_row).
  assert (forall b c, collection_of (with_row obj r s) b = Some c -> c <> nullOid -> collection_of s b = Some c) as Hc.
  { intros b c. rewrite HC. case_decide as Hd; [|done]. intros Ec Hn. subst b. by destruct (Hr c Ec). }
  split; [split_and!|split_and!].
  - done.
  - intros b c Hb Ec Hn. by eapply S2, Hn; [|apply Hc].
  - intros b b' c Hb Hb' Ec Ec' Hn. apply (S3 b b' c); try done; by apply Hc.
  - intros a Ha. unfold owner. rewrite place_row, decide_False; [done|]. intros ->. by apply (two_classes obj).
  - intros b Hb. unfold members. by rewrite HC, decide_False.
Qed.

#[local] Abbreviation agregatCreate := (agregatCreate nullOid getDbid dbid inverse_of attribute_in objectCreate).
#[local] Abbreviation agregatWrite := (agregatWrite nullOid getDbid dbid inverse_of attribute_in objectCreate).
#[local] Abbreviation agregatDelete := (agregatDelete nullOid getDbid dbid inverse_of attribute_in objectCreate).

Definition complete (idr : gmap Z Oid) obj : Prop := forall C, has C obj -> is_Some (idr !! idr_poff C).
Lemma member_exists s a b : a ∈ members s b -> exists_in s b.
Proof. unfold members. destruct (collection_of s b) eqn:E; [intros _; exact (exists_place s b _ _ E)|set_solver]. Qed.
Lemma sound_old s obj old : consistent s -> has X obj -> owner s obj = Some old -> sound_owner s old.
Proof. intros [_ HR] Hx E Hn. destruct (proj1 HR obj old Hx E Hn) as [? Hm]. split; [done|by eapply member_exists]. Qed.

(** What the inverses of an item do when [y] is in its bytes. *)
Lemma item_inverses attrs op obj old y s : class_attrs attrs obj -> shape s -> good obj s -> has X obj ->
  obj_idr s !! idr_poff X = Some y -> sound_owner s y -> old_of op obj y s = Some old -> sound_owner s old ->
  exists s', inverses_realize attrs op obj s = (inr tt, s')
    /\ effect obj (unsaved s) (owner s) (move_members obj old (new_of op y) (members s)) s s'.
Proof.
  intros (Hnd & Hh & Hc) Hs Hg Hx Ey Hy Eold Hold. destruct (move_ok op obj old y s Hs Hg Hx Hy Eold Hold) as (s' & E & He). exists s'. split; [|done].
  apply (realize_one op obj X); [done|by apply Hc; [|rewrite inverse_X]| |].
  - intros D HD Hi. rewrite Forall_forall in Hh. eapply only_X; eauto.
  - unfold Inverse.inverse_realize. rewrite inverse_X, (run_bind get _ s s s eq_refl), Ey, X_single, Y_collection. exact E.
Qed.

(** The end of the requests on items: the row is written after the sets are changed. *)
Lemma item_kept obj old y r s0 s V : has X obj -> shape s -> related V (members s0) -> V obj = Some old -> (y <> nullOid -> has Y y) ->
  effect obj (unsaved s0) (owner s0) (move_members obj old y (members s0)) s0 s ->
  (forall a, has X a -> a <> obj -> V a = owner s0 a) ->
  r ≫= (fun d => d !! idr_poff X) = Some y \/ r = None /\ y = nullOid -> consistent (with_row obj r s).
Proof.
  intros Hx Hs HR Eold Hy He HV Hr. destruct (item_row obj r s Hx Hs) as (Hs' & Ho & Hm). split; [done|].
  pose proof (related_move V (members s0) obj old y HR Hx Eold Hy) as [H1 H2]. split.
  - intros a b Ha. rewrite Ho. case_decide as Hd.
    + subst a. destruct Hr as [->|[-> ->]]; [|done]. intros [= <-] Hb. destruct (H1 obj y Hx) as [HYb Hin]; [by rewrite decide_True|done|].
      split; [done|]. by rewrite Hm, (e_members _ _ _ _ _ _ He).
    + intros Ea Hb. destruct (H1 a b Ha) as [HYb Hin]; [rewrite decide_False, HV by done; by rewrite <- (e_owner _ _ _ _ _ _ He)|done|].
      split; [done|]. by rewrite Hm, (e_members _ _ _ _ _ _ He).
  - intros a b Hb. rewrite Hm, (e_members _ _ _ _ _ _ He) by done. intros Hin. destruct (H2 a b Hb Hin) as [Ha Ea]. split; [done|].
    rewrite Ho. case_decide as Hd.
    + destruct Hr as [Er|[_ ->]]; [congruence|]. destruct (has_valid Y b Hb). congruence.
    + rewrite HV in Ea by done. by rewrite (e_owner _ _ _ _ _ _ He).
Qed.

Lemma write_item_kept attrs obj idr y s : consistent s -> good obj s -> has X obj -> exists_in s obj -> class_attrs attrs obj -> complete idr obj ->
  idr !! idr_poff X = Some y -> sound_owner s y ->
  exists s', agregatWrite attrs obj idr s = (inr tt, s') /\ consistent s' /\ good obj s' /\ data s' !! obj = Some idr /\ unsaved s' ⊆ unsaved s.
Proof.
  intros [Hs HR] Hg Hx [d Hd] Hc Hall Ey Hy. destruct (proj1 Hg X obj Hx) as [old Eold]; [by eexists|].
  destruct (item_inverses attrs invObjUpdate obj old y (set_obj_idr idr s) Hc Hs Hg Hx Ey Hy Eold (sound_old s obj old (conj Hs HR) Hx Eold)) as (s1 & E1 & H1).
  pose proof (e_frame _ _ _ _ _ _ H1) as F1. exists (with_row obj (Some idr) s1). split_and!.
  - unfold Inverse.agregatWrite. rewrite (run_bind (modify _) _ _ _ _ eq_refl), (run_bind _ _ _ _ _ E1), (run_bind get _ s1 s1 s1 eq_refl).
    rewrite (f_obj _ _ _ _ F1), (f_idr _ _ _ _ F1). cbn. by rewrite Hd.
  - apply (item_kept obj old y _ (set_obj_idr idr s) s1 (owner s)); try done; [apply H1|intros Hn; by apply Hy|by left].
  - apply good_row; [by apply F1|]. intros i C [= <-]. by apply Hall.
  - cbn. by rewrite lookup_partial_alter_eq.
  - apply H1.
Qed.
Lemma delete_item_kept attrs obj idr s : consistent s -> good obj s -> has X obj -> data s !! obj = Some idr -> class_attrs attrs obj ->
  exists s', agregatDelete attrs obj idr s = (inr tt, s') /\ consistent s' /\ good obj s' /\ data s' !! obj = None /\ unsaved s' ⊆ unsaved s.
Proof.
  intros [Hs HR] Hg Hx Hd Hc. destruct (proj1 Hg X obj Hx) as [old Eold]; [by eexists|].
  assert (idr !! idr_poff X = Some old) as Ey by (unfold place in Eold; by rewrite Hd in Eold).
  pose proof (sound_old s obj old (conj Hs HR) Hx Eold) as Hold.
  destruct (item_inverses attrs invObjRemove obj old old (set_obj_idr idr s) Hc Hs Hg Hx Ey Hold eq_refl Hold) as (s1 & E1 & H1).
  exists (with_row obj None s1). split_and!.
  - unfold Inverse.agregatDelete. by rewrite (run_bind (modify _) _ _ _ _ eq_refl), (run_bind _ _ _ _ _ E1).
  - apply (item_kept obj old nullOid _ (set_obj_idr idr s) s1 (owner s)); try done; [apply H1|by right].
  - apply good_row; [by apply (e_frame _ _ _ _ _ _ H1)|done].
  - cbn. by rewrite lookup_partial_alter_eq.
  - apply H1.
Qed.
Lemma with_row_id obj r s : data s !! obj = r -> with_row obj r s = s.
Proof.
  intros E. unfold with_row. replace (partial_alter (fun _ => r) obj (data s)) with (data s); [by destruct s|].
  apply map_eq. intros o. destruct (decide (o = obj)) as [->|]; [by rewrite lookup_partial_alter_eq|by rewrite lookup_partial_alter_ne].
Qed.
Lemma fresh_new s : data s !! objectCreate (in_use nullOid s) = None.
Proof. apply not_elem_of_dom. pose proof (objectCreate_fresh (in_use nullOid s)) as Hf. unfold in_use in *. set_solver. Qed.
(** The new object, before its inverses. *)
Definition created idr s : store := set_obj_idr idr (with_row (objectCreate (in_use nullOid s)) (Some idr) s).
Lemma agregatCreate_ok attrs idr s s' : inverses_realize attrs invObjCreate (objectCreate (in_use nullOid s)) (created idr s) = (inr tt, s') ->
  agregatCreate attrs idr s = (inr (objectCreate (in_use nullOid s)), s').
Proof.
  intros E. unfold Inverse.agregatCreate. rewrite (run_bind get _ s s s eq_refl), (run_bind (modify _) _ _ _ _ eq_refl).
  rewrite (run_bind (A := unit) _ _ _ tt s'); [done|]. unfold catch. change (set_obj_idr idr _) with (created idr s). by rewrite E.
Qed.

Lemma create_item_kept attrs idr y s : let obj := objectCreate (in_use nullOid s) in
  consistent s -> good obj s -> has X obj -> class_attrs attrs obj -> complete idr obj -> idr !! idr_poff X = Some y -> sound_owner s y ->
  exists s', agregatCreate attrs idr s = (inr obj, s') /\ consistent s' /\ good obj s' /\ data s' !! obj = Some idr /\ unsaved s' ⊆ unsaved s.
Proof.
  intros obj [Hs [H1 H2]] Hg Hx Hc Hall Ey Hy. pose proof (fresh_new s) as Hnew. fold obj in Hnew.
  destruct (item_row obj (Some idr) s Hx Hs) as (Hs0 & Ho0 & Hm0).
  change (forall b, has Y b -> members (created idr s) b = members s b) in Hm0.
  assert (good obj (created idr s)) as Hg0 by (apply good_row; [done|]; intros i C [= <-]; by apply Hall).
  destruct (item_inverses attrs invObjCreate obj nullOid y (created idr s) Hc Hs0 Hg0 Hx Ey) as (s1 & E1 & He); [|done|done|].
  { intros Hn. destruct (Hy Hn). split; [done|]. apply exists_row. by case_decide. }
  pose proof (f_obj _ _ _ _ (e_frame _ _ _ _ _ _ He)) as Fo. cbn in Fo. rewrite lookup_partial_alter_eq in Fo.
  exists s1. split_and!; [by apply agregatCreate_ok| |by apply (e_frame _ _ _ _ _ _ He)|done|apply He].
  rewrite <- (with_row_id obj (Some idr) s1) by done.
  refine (item_kept obj nullOid y (Some idr) (created idr s) s1 (fun a => if decide (a = obj) then Some nullOid else owner s a)
    Hx (e_shape _ _ _ _ _ _ He) _ _ (fun Hn => proj1 (Hy Hn)) He _ (or_introl Ey)); [|by rewrite decide_True|].
  - split.
    + intros a b Ha. case_decide; [congruence|]. intros E Hb. destruct (H1 a b Ha E Hb) as [HYb Hin]. split; [done|]. by rewrite Hm0.
    + intros a b Hb. rewrite Hm0 by done. intros Hin.
      destruct (H2 a b Hb Hin) as [Ha Ea]. split; [done|]. rewrite decide_False; [done|]. intros ->. unfold owner, place in Ea. by rewrite Hnew in Ea.
  - intros a Ha Hne. rewrite decide_False by done. change (owner (created idr s) a) with (owner (with_row obj (Some idr) s) a).
    by rewrite Ho0, decide_False.
Qed.

(** ** Requests on owners *)

Lemma owner_inverses attrs op obj s s' c : class_attrs attrs obj -> has Y obj -> obj_idr s !! idr_poff Y = Some c ->
  inverse_N_1 nullOid getDbid dbid Y op X obj c s = (inr tt, s') -> inverses_realize attrs op obj s = (inr tt, s').
Proof.
  intros (Hnd & Hh & Hc) Hy Ec E. apply (realize_one op obj Y); [done|by apply Hc; [|rewrite inverse_Y]| |].
  - intros D HD Hi. rewrite Forall_forall in Hh. eapply only_Y; eauto.
  - unfold Inverse.inverse_realize. rewrite inverse_Y, (run_bind get _ s s s eq_refl), Ec, X_single, Y_collection. exact E.
Qed.
Lemma elements_ok obj c s : shape s -> has Y obj -> collection_of s obj = Some c -> c <> nullOid ->
  inverse_get_collection nullOid c s = (inr (Some c), s) /\ getElements c s = (inr (elements (members s obj)), s).
Proof.
  intros Hs Hy Ec Hc. destruct (proj1 (proj2 Hs) obj c Hy Ec Hc) as (k & Ek & Hk). rewrite (members_items s obj c k Ec Ek). split.
  - pose proof (get_ok s obj c Hs Hy Ec) as E. rewrite decide_False in E by done. unfold collection_at in E.
    rewrite isValid_spec, bool_decide_eq_true_2 in E by done. exact E.
  - unfold getElements. by rewrite (on_coll_ok _ _ _ _ Ek).
Qed.
Lemma members_in obj b s : consistent s -> has Y b -> has Y obj -> Forall (item_in obj s) (elements (members s b)).
Proof.
  intros [_ HR] Hb Hy. apply Forall_forall. intros a Ha%elem_of_elements. destruct (proj2 HR a b Hb Ha) as [Hx Ea].
  split_and!; [done|exact (exists_place s a _ _ Ea)|]. intros ->. by apply (two_classes obj).
Qed.

(** An owner keeps its set, or it has none. *)
Lemma owner_kept obj r s V : has Y obj -> shape s ->
  (forall c, r ≫= (fun d => d !! idr_poff Y) = Some c -> c = nullOid \/ collection_of s obj = Some c) ->
  (forall a, has X a -> owner s a = V a) -> related V (fun b => if decide (b = obj) then members (with_row obj r s) obj else members s b) ->
  consistent (with_row obj r s).
Proof.
  intros Hy Hs Hr HV HR. destruct (owner_row obj r s Hy Hs Hr) as (Hs' & Ho & Hm). split; [done|].
  refine (related_ext _ _ _ _ _ _ HR); [intros a Ha; by rewrite Ho, HV|]. intros b _. case_decide; [by subst|by apply Hm].
Qed.
Lemma members_row_none obj r s : shape s -> (forall c, r ≫= (fun d => d !! idr_poff Y) = Some c -> c = nullOid) -> members (with_row obj r s) obj = ∅.
Proof.
  intros (S1 & _) Hr. unfold members, collection_of. rewrite place_row, decide_True by done.
  destruct (r ≫= _) as [c|] eqn:E; [|done]. rewrite (Hr c eq_refl). cbn. by rewrite S1.
Qed.
Lemma members_row_same obj r s c : collection_of s obj = Some c -> r ≫= (fun d => d !! idr_poff Y) = Some c -> members (with_row obj r s) obj = members s obj.
Proof. intros Ec Er. unfold members. unfold collection_of at 1. by rewrite place_row, decide_True, Er, Ec by done. Qed.

Lemma create_owner_kept attrs idr s : let obj := objectCreate (in_use nullOid s) in
  consistent s -> good obj s -> has Y obj -> class_attrs attrs obj -> complete idr obj -> idr !! idr_poff Y = Some nullOid ->
  exists s', agregatCreate attrs idr s = (inr obj, s') /\ consistent s' /\ good obj s' /\ data s' !! obj = Some idr /\ unsaved s' ⊆ unsaved s.
Proof.
  intros obj [Hs HR] Hg Hy Hc Hall Ec. pose proof (fresh_new s) as Hnew. fold obj in Hnew. exists (created idr s). split_and!.
  - apply agregatCreate_ok. apply (owner_inverses attrs invObjCreate obj _ _ nullOid); try done. unfold inverse_N_1.
    rewrite isValid_spec, bool_decide_eq_false_2 by naive_solver. done.
  - assert (forall c, Some idr ≫= (fun d => d !! idr_poff Y) = Some c -> c = nullOid) as Hn by (intros c E; cbn in E; congruence).
    apply (owner_kept obj (Some idr) s (owner s) Hy Hs); [intros c E; left; by apply Hn|done|].
    rewrite (members_row_none obj (Some idr) s Hs Hn). refine (related_ext _ _ _ _ _ _ HR); [done|].
    intros b _. case_decide as Hd; [|done]. subst b. unfold members, collection_of, place. by rewrite Hnew.
  - apply good_row; [done|]. intros i C [= <-]. by apply Hall.
  - cbn. by rewrite lookup_partial_alter_eq.
  - done.
Qed.

Lemma no_change_ok obj l s : (forall x, x ∈ l -> has X x /\ owner s x = Some obj) ->
  for_each (fun x =>
    old_obj_oid ← inverse_read_oid getDbid dbid X x;
    if decide (old_obj_oid = obj) then mret tt
    else (if isValid nullOid old_obj_oid then inverse_write_oid Y old_obj_oid nullOid obj else mret tt);; inverse_write_oid X x obj obj) l s = (inr tt, s).
Proof.
  induction l as [|x l IH]; intros Hl; [done|]. destruct (Hl x) as [Hx Eo]; [set_solver|]. cbn [for_each].
  rewrite (run_bind (A := unit) _ _ s tt s); [apply IH; set_solver|]. rewrite (run_bind _ _ _ _ _ (read_ok X s x obj Hx Eo)). by rewrite decide_True.
Qed.
Lemma write_owner_kept attrs obj idr c s : consistent s -> good obj s -> has Y obj -> exists_in s obj -> class_attrs attrs obj -> complete idr obj ->
  idr !! idr_poff Y = Some c -> collection_of s obj = Some c ->
  exists s', agregatWrite attrs obj idr s = (inr tt, s') /\ consistent s' /\ good obj s' /\ data s' !! obj = Some idr /\ unsaved s' ⊆ unsaved s.
Proof.
  intros [Hs HR] Hg Hy [d Hd] Hc Hall Ei Ec. exists (with_row obj (Some idr) (set_obj_idr idr s)). split_and!.
  - assert (inverses_realize attrs invObjUpdate obj (set_obj_idr idr s) = (inr tt, set_obj_idr idr s)) as E.
    { apply (owner_inverses attrs invObjUpdate obj _ _ c); try done. unfold inverse_N_1. rewrite (run_bind (A := unit) _ _ _ tt (set_obj_idr idr s)).
      2: { rewrite (run_bind _ _ _ _ _ (read_ok Y (set_obj_idr idr s) obj c Hy Ec)). rewrite (bool_decide_eq_false_2 (c <> c)) by naive_solver. by rewrite andb_false_r. }
      rewrite isValid_spec. case_bool_decide as Hn; [|done]. destruct (elements_ok obj c (set_obj_idr idr s) Hs Hy Ec Hn) as [E1 E2].
      rewrite (run_bind _ _ _ _ _ E1). cbn [if_coll]. rewrite (run_bind _ _ _ _ _ E2). apply no_change_ok. intros x Hx%elem_of_elements. by apply (proj2 HR x obj Hy). }
    unfold Inverse.agregatWrite. rewrite (run_bind (modify _) _ _ _ _ eq_refl), (run_bind _ _ _ _ _ E), (run_bind get _ _ _ _ eq_refl). cbn. by rewrite Hd.
  - apply (owner_kept obj (Some idr) (set_obj_idr idr s) (owner s) Hy Hs); [intros c' E; right; cbn in E; change (collection_of s obj = Some c'); congruence|done|].
    rewrite (members_row_same obj (Some idr) (set_obj_idr idr s) c Ec Ei). refine (related_ext _ _ _ _ _ _ HR); [done|].
    intros b _. by case_decide; subst.
  - apply good_row; [done|]. intros i C [= <-]. by apply Hall.
  - cbn. by rewrite lookup_partial_alter_eq.
  - done.
Qed.

Lemma delete_owner_kept attrs obj idr s : consistent s -> good obj s -> has Y obj -> data s !! obj = Some idr -> class_attrs attrs obj ->
  exists s', agregatDelete attrs obj idr s = (inr tt, s') /\ consistent s' /\ good obj s' /\ data s' !! obj = None /\ unsaved s' ⊆ unsaved s.
Proof.
  intros [Hs HR] Hg Hy Hd Hc. destruct (proj1 Hg Y obj Hy) as [c Ec]; [by eexists|]. change (collection_of s obj = Some c) in Ec.
  assert (idr !! idr_poff Y = Some c) as Ei by (unfold collection_of, place in Ec; by rewrite Hd in Ec).
  set (s0 := set_obj_idr idr s).
  assert (exists s1, inverses_realize attrs invObjRemove obj s0 = (inr tt, s1)
    /\ effect obj (unsaved s0) (fun a => if decide (a ∈ members s obj) then Some nullOid else owner s a) (members s) s0 s1) as (s1 & E1 & H1).
  { assert (forall s', inverse_N_1 nullOid getDbid dbid Y invObjRemove X obj c s0 = (inr tt, s') -> inverses_realize attrs invObjRemove obj s0 = (inr tt, s')) as Hn
      by (intros s'; by apply owner_inverses).
    destruct (decide (c = nullOid)) as [->|Hcn].
    - exists s0. split; [apply Hn; unfold inverse_N_1; rewrite isValid_spec, bool_decide_eq_false_2 by naive_solver; done|].
      effect_by (effect_refl obj s0 Hs). intros a _. rewrite decide_False; [done|]. rewrite null_members by done. set_solver.
    - destruct (elements_ok obj c s0 Hs Hy Ec Hcn) as [E1 E2].
      destruct (null_all_ok obj (elements (members s0 obj)) s0 Hs Hg (members_in obj obj s0 (conj Hs HR) Hy Hy)) as (s1 & E3 & H3). exists s1. split.
      + apply Hn. unfold inverse_N_1. rewrite isValid_spec, bool_decide_eq_true_2 by done. rewrite (run_bind _ _ _ _ _ E1). cbn [if_coll].
        by rewrite (run_bind _ _ _ _ _ E2).
      + effect_by H3. intros a _. apply decide_ext. by rewrite elem_of_elements. }
  exists (with_row obj None s1). split_and!.
  - unfold Inverse.agregatDelete. by rewrite (run_bind (modify _) _ _ _ _ eq_refl), (run_bind _ _ _ _ _ E1).
  - refine (owner_kept obj None s1 _ Hy (e_shape _ _ _ _ _ _ H1) _ (e_owner _ _ _ _ _ _ H1) _); [done|].
    rewrite (members_row_none obj None s1 (e_shape _ _ _ _ _ _ H1)) by done.
    refine (related_ext _ _ _ _ _ _ (related_clear _ _ obj HR Hy)); [done|]. intros b Hb. case_decide; [done|]. by apply H1.
  - apply good_row; [by apply (e_frame _ _ _ _ _ _ H1)|done].
  - cbn. by rewrite lookup_partial_alter_eq.
  - apply H1.
Qed.

(** ** Requests *)

(** The requests of a client: on an object, whose class has the attributes [attrs], or
    on the set of an owner. *)
Inductive request :=
  Create (attrs : list Attribute) (idr : gmap Z Oid) | Write (attrs : list Attribute) obj (idr : gmap Z Oid) | Delete (attrs : list Attribute) obj
| WriteSet c (changes : list (Oid * bool)).
Definition serve (r : request) : M Oid :=
  match r with
  | Create attrs idr => agregatCreate attrs idr
  | Write attrs obj idr => agregatWrite attrs obj idr;; mret obj
  | Delete attrs obj => s ← get; match data s !! obj with Some idr => agregatDelete attrs obj idr;; mret obj | None => fail StorageError end
  | WriteSet c changes => collectionWrite c changes false;; mret nullOid
  end.
Definition object_of s (r : request) : Oid :=
  match r with Create _ _ => objectCreate (in_use nullOid s) | Write _ obj _ | Delete _ obj => obj | WriteSet _ _ => nullOid end.

(** An item is given an owner of the database or none; an owner keeps its collection,
    and is created without; the changes of a set are of items of the database, and
    what is taken out is in it. *)
Definition row_ok obj (idr : gmap Z Oid) (c : option Oid) s : Prop :=
  complete idr obj /\ (has X obj -> forall y, idr !! idr_poff X = Some y -> sound_owner s y) /\ (has Y obj -> idr !! idr_poff Y = c).
Definition permitted s (r : request) : Prop :=
  let obj := object_of s r in
  match r with
  | Create attrs idr => (has X obj \/ has Y obj) /\ class_attrs attrs obj /\ row_ok obj idr (Some nullOid) s
  | Write attrs _ idr => (has X obj \/ has Y obj) /\ class_attrs attrs obj /\ exists_in s obj /\ row_ok obj idr (collection_of s obj) s
  | Delete attrs _ => (has X obj \/ has Y obj) /\ class_attrs attrs obj /\ exists_in s obj
  | WriteSet c changes => exists b k G', has Y b /\ collection_of s b = Some c /\ c <> nullOid /\ colls s !! c = Some k /\ inv k = Some (b, Y)
      /\ apply_changes changes (members s b) = Some G' /\ Forall (fun '(x, _) => has X x /\ exists_in s x) changes
  end.
Definition done_as_asked s (r : request) s' : Prop :=
  let obj := object_of s r in
  match r with
  | Create _ idr | Write _ _ idr => data s' !! obj = Some idr
  | Delete _ _ => data s' !! obj = None
  | WriteSet c changes => forall b, has Y b -> collection_of s b = Some c -> Some (members s' b) = apply_changes changes (members s b)
  end.

(** C5: a request on an item, on an owner or on a set of a one-to-many relationship
    succeeds and does what it asks; after it each item is in the set of its owner and
    no other, each owner has its own set, and no set that the request has changed is
    left unwritten. *)
Theorem one_to_many_kept r s : consistent s -> (forall o, good o s) -> permitted s r ->
  exists s', serve r s = (inr (object_of s r), s') /\ consistent s' /\ good (object_of s r) s' /\ done_as_asked s r s' /\ unsaved s' ⊆ unsaved s.
Proof.
  intros HI Hg Hp. destruct r as [attrs idr|attrs obj idr|attrs obj|c changes]; cbn in Hp |- *.
  - destruct Hp as ([Hx|Hy] & Hc & Hall & HX & HY).
    + destruct (Hall X Hx) as [y Ey]. apply (create_item_kept attrs idr y s); eauto.
    + apply (create_owner_kept attrs idr s); auto.
  - destruct Hp as (Hxy & Hc & Hex & Hall & HX & HY).
    assert (exists s', agregatWrite attrs obj idr s = (inr tt, s') /\ consistent s' /\ good obj s' /\ data s' !! obj = Some idr /\ unsaved s' ⊆ unsaved s) as (s' & E & HI' & Hg' & Hd & Hu).
    { destruct Hxy as [Hx|Hy]; [destruct (Hall X Hx) as [y Ey]; apply (write_item_kept attrs obj idr y s); eauto|].
      destruct (Hall Y Hy) as [c Ec]. apply (write_owner_kept attrs obj idr c s); auto. by rewrite <- HY. }
    exists s'. by rewrite (run_bind _ _ _ _ _ E).
  - destruct Hp as (Hxy & Hc & [idr Hd]).
    assert (exists s', agregatDelete attrs obj idr s = (inr tt, s') /\ consistent s' /\ good obj s' /\ data s' !! obj = None /\ unsaved s' ⊆ unsaved s) as (s' & E & HI' & Hg' & Hd' & Hu)
      by (destruct Hxy; [apply delete_item_kept|apply delete_owner_kept]; auto).
    exists s'. rewrite (run_bind get _ s s s eq_refl), Hd. by rewrite (run_bind _ _ _ _ _ E).
  - destruct Hp as (b & k & G' & Hb & Ec & Hc & Ek & Ei & HG & Hch).
    destruct (collection_kept b c k changes G' s HI (Hg nullOid) Hb Ec Hc Ek Ei HG Hch) as (s' & E & HI' & Hg' & Hm & Hu).
    exists s'. rewrite (run_bind _ _ _ _ _ E). split_and!; try done. intros b' Hb' Ec'. rewrite (proj2 (proj2 (proj1 HI)) b' b c) by done. by rewrite Hm.
Qed.

(** C34: putting an item in the set of [b] when it is in the set of another owner
    takes all the items of that other set out of it, and none of them has an owner
    any more, but the one that was put. *)
Theorem insertion_empties b old c k x s : consistent s -> good nullOid s -> has Y b -> collection_of s b = Some c -> c <> nullOid ->
  colls s !! c = Some k -> inv k = Some (b, Y) -> has Y old -> x ∈ members s old -> old <> b ->
  exists s', serve (WriteSet c [(x, true)]) s = (inr nullOid, s')
    /\ members s' b = {[x]} ∪ members s b /\ members s' old = ∅
    /\ forall a, has X a -> owner s' a = if decide (a = x) then Some b else if decide (a ∈ members s old) then Some nullOid else owner s a.
Proof.
  intros [Hs HR] Hg Hb Ec Hc Ek Ei Ho Hx Hne. destruct (proj2 HR x old Ho Hx) as [HXx Ex]. destruct (has_valid Y old Ho) as [No _].
  destruct (collectionWrite_ok b c k [(x, true)] ({[x]} ∪ members s b) s Hs Hb Ec Hc Ek Ei eq_refl) as (s1 & E1 & H1).
  pose proof (e_frame _ _ _ _ _ _ H1) as F1. pose proof (e_members _ _ _ _ _ _ H1) as Hm1. unfold with_set in Hm1.
  destruct (perform_add_ok b x old (members s b) s1 (e_shape _ _ _ _ _ _ H1) (f_good _ _ _ _ F1 Hg) Hb HXx) as (s2 & E2 & H2).
  - apply (f_dom _ _ _ _ F1). exact (exists_place s x _ _ Ex).
  - by rewrite (e_owner _ _ _ _ _ _ H1).
  - refine (related_ext _ _ _ _ _ _ HR); [apply H1|]. intros b' Hb'. unfold with_set. destruct (decide (b' = b)) as [->|]; [done|].
    rewrite Hm1 by done. by rewrite decide_False.
  - exists s2. cbn [serve]. rewrite (run_bind (A := unit) _ _ s tt s2); [|rewrite E1; cbn [for_each op_of]; by rewrite (run_bind _ _ _ _ _ E2)].
    split; [done|]. pose proof (e_members _ _ _ _ _ _ H2) as Hm2. split_and!.
    + rewrite Hm2, Hm1 by done. rewrite decide_False by naive_solver. by rewrite decide_True.
    + rewrite Hm2 by done. by rewrite decide_True.
    + intros a Ha. rewrite (e_owner _ _ _ _ _ _ H2) by done. destruct (decide (a = x)); [done|]. rewrite Hm1 by done.
      rewrite (decide_False (P := old = b)) by done. rewrite (e_owner _ _ _ _ _ _ H1) by done. apply decide_ext. tauto.
Qed.

End OneToMany.

(** ** Examples *)

Module Example.

Definition dept := mk_Attribute 1 0 48 true false.
Definition staff := mk_Attribute 2 0 48 true true.
Definition inverse_of (C : Attribute) : option Attribute :=
  if decide (C = dept) then Some staff else if decide (C = staff) then Some dept else None.
(** Objects 1 to 9 are employees, 11 to 19 departments. *)
Definition class_of (o : Z) : option Attribute :=
  if (0 <? o) && (o <? 10) then Some dept else if (10 <? o) && (o <? 20) then Some staff else None.
Definition has (C : Attribute) (o : Z) : Prop := class_of o = Some C.
Definition row (v : Z) : gmap Z Z := {[48 := v]}.
Definition rows : list (Z * Z) := [(1, 11); (2, 11); (3, 0); (11, 31); (12, 32)].
Definition base : store (Oid := Z) :=
  mk_store (list_to_map (prod_map id row <$> rows)) {[31 := mk_Coll false {[1; 2]} (Some (11, staff)); 32 := mk_Coll false ∅ (Some (12, staff))]} ∅ ∅ [] ∅.
Abbreviation run := (serve 0 (fun _ => 7) 7 inverse_of (fun _ C => C) fresh).
Abbreviation base_consistent := (consistent 0 has dept staff base).

Lemma base_data o d : data base !! o = Some d -> exists v, d = row v /\ (o, v) ∈ rows.
Proof. intros Ho%elem_of_list_to_map_2%list_elem_of_fmap. destruct Ho as ([o' v] & [= -> ->] & Hin). by eexists. Qed.
Lemma base_place o C v : place base o (idr_poff C) = Some v -> (o, v) ∈ rows.
Proof.
  unfold place. destruct (data base !! o) as [d|] eqn:Ed; [|done]. apply base_data in Ed as (w & -> & Hin). cbn.
  unfold row. by intros [_ <-]%lookup_singleton_Some.
Qed.
Lemma base_cases o v : (o, v) ∈ rows -> o = 1 /\ v = 11 \/ o = 2 /\ v = 11 \/ o = 3 /\ v = 0 \/ o = 11 /\ v = 31 \/ o = 12 /\ v = 32.
Proof. unfold rows. rewrite !elem_of_cons, elem_of_nil. intros H. destruct_or! H; simplify_eq; tauto. Qed.
Ltac cases H := apply base_place, base_cases in H; destruct_or! H; destruct H; simplify_eq.
Lemma has_staff o : has staff o -> 10 < o < 20.
Proof. unfold has, class_of. repeat case_match; intros; simplify_eq; lia. Qed.
Lemma has_dept o : has dept o -> 0 < o < 10.
Proof. unfold has, class_of. repeat case_match; intros; simplify_eq; lia. Qed.
Lemma base_members b a : has staff b -> a ∈ members staff base b -> b = 11 /\ (a = 1 \/ a = 2).
Proof.
  unfold members. intros Hb. destruct (collection_of staff base b) as [c|] eqn:Ec; [|set_solver]. unfold collection_of in Ec.
  apply has_staff in Hb. cases Ec; try lia; cbn; set_solver.
Qed.
Lemma base_ok : base_consistent.
Proof.
  split.
  - split; [done|]. split.
    + intros b c Hb Ec Hc. unfold collection_of in Ec. apply has_staff in Hb. cases Ec; try lia; by eexists.
    + intros b b' c Hb Hb' Ec Ec' Hc. unfold collection_of in Ec, Ec'. apply has_staff in Hb, Hb'. cases Ec; cases Ec'; try lia; done.
  - split.
    + intros a b Ha Eb Hb. unfold owner in Eb. apply has_dept in Ha. cases Eb; try lia; (split; [done|]); unfold members; cbn; set_solver.
    + intros a b Hb Hin. apply base_members in Hin as [-> [-> | ->]]; done.
Qed.
Lemma has_place C o : has C o -> idr_poff C = 48.
Proof. unfold has, class_of. repeat case_match; intros; by simplify_eq. Qed.
Lemma base_good o : good has o base.
Proof.
  split; [|done]. intros C o' HC%has_place [d Ed]. unfold place. rewrite Ed, HC. apply base_data in Ed as (v & -> & _). cbn. unfold row.
  rewrite lookup_singleton_eq. by eexists.
Qed.

(** The laws of this schema. *)
Ltac schema :=
  match goal with
  | |- forall C o, has C o -> o <> 0 /\ _ => intros C o Ho; split; [by intros ->|done]
  | |- forall C D o, _ => intros C D o H1 H2 _; unfold has in *; congruence
  | |- forall C D o o', _ => intros C D o o'; unfold has, class_of; repeat case_match; intros; by simplify_eq
  | |- forall used, _ => apply is_fresh
  | |- forall o, has dept o -> has staff o -> False => intros o ?%has_dept ?%has_staff; lia
  | |- forall C o, has _ o -> has C o -> _ -> C = _ => intros C o H1 H2 _; unfold has in *; congruence
  | |- _ => done
  end.

(** 1 goes to the department 12. *)
Lemma one_to_many_kept_witness : exists s', run (Write [dept] 1 (row 12)) base = (inr 1, s')
  /\ consistent 0 has dept staff s' /\ good has 1 s' /\ data s' !! 1 = Some (row 12) /\ unsaved s' ⊆ unsaved base.
Proof.
  apply (one_to_many_kept 0 (fun _ => 7) 7 inverse_of (fun _ C => C) fresh has) with (X := dept) (Y := staff) (r := Write [dept] 1 (row 12)) (s := base);
    try schema.
  - apply base_ok.
  - apply base_good.
  - split; [by left|]. split; [|split; [by eexists|]].
    + split; [repeat constructor; set_solver|]. split; [by repeat constructor|]. intros C Ho _. cbv in Ho. simplify_eq. by left.
    + split; [|split].
      * intros C ->%has_place. unfold row. rewrite lookup_singleton_eq. by eexists.
      * intros _ y Ey. unfold row in Ey. rewrite lookup_singleton_eq in Ey. injection Ey as <-. intros _. split; [done|by eexists].
      * intros Ho%has_staff. cbn in Ho. lia.
Defined.

(** 1 is put in the staff of 12. *)
Lemma insertion_empties_witness : exists s', run (WriteSet 32 [(1, true)]) base = (inr 0, s')
  /\ members staff s' 12 = {[1]} ∪ members staff base 12 /\ members staff s' 11 = ∅
  /\ forall a, has dept a -> owner dept s' a = if decide (a = 1) then Some 12 else if decide (a ∈ members staff base 11) then Some 0 else owner dept base a.
Proof.
  apply (insertion_empties 0 (fun _ => 7) 7 inverse_of (fun _ C => C) fresh has) with (X := dept) (Y := staff) (b := 12) (k := mk_Coll false ∅ (Some (12, staff)));
    try schema.
  - apply base_ok.
  - apply base_good.
Defined.

(** The places of the objects after a request, and the items of the collections. *)
Definition after (r : request (Oid := Z)) : list (option Z) * list (list Z) :=
  let s := snd (run r base) in (map (fun '(o, _) => place s o 48) rows, map (fun c => match colls s !! c with Some k => elements (items k) | None => [] end) [31; 32]).
(** 2 has lost its department. *)
Example dismissed : after (WriteSet 32 [(1, true)]) = ([Some 12; Some 0; Some 0; Some 31; Some 32], [[]; [1]]).
Proof. by vm_compute. Qed.
Example transferred : after (Write [dept] 1 (row 12)) = ([Some 12; Some 11; Some 0; Some 31; Some 32], [[2]; [1]]).
Proof. by vm_compute. Qed.
Example closed : after (Delete [staff] 11) = ([Some 0; Some 0; Some 0; None; Some 32], [[2; 1]; []]).
Proof. by vm_compute. Qed.
(** When an owner is given the collection of another one, the items go to it and the
    other one has none any more. *)
Example merged : after (Write [staff] 12 (row 31)) = ([Some 12; Some 12; Some 0; Some 0; Some 31], [[2; 1]; []]).
Proof. by vm_compute. Qed.
(** Removing a collection forgets the owners of its items. *)
Example collection_removed : let s := snd (collectionDelete 0 (fun _ => 7) 7 inverse_of (fun _ C => C) fresh 31 base) in
  map (fun o => place s o 48) [1; 2; 11] = [Some 0; Some 0; Some 31] /\ (removed <$> colls s !! 31) = Some true.
Proof. by vm_compute. Qed.
End Example.
