(* ===== verification/AutoGarb.v ===== *)
(** * Automatic garbage collection scopes

    src/eyedb/gbx.cc: class gbxAutoGarb. While a scope is open, the objects
    created on the heap are registered in it; when the scope is closed, those
    that are still to be deleted are released ([Gbx]). A scope also keeps the
    addresses of the registered objects that were deleted, so that the pointers
    left to them are not followed. The registrations are found through two hash
    tables of linked lists, keyed by the bits of the address. An object is its
    address; a list of registrations is that of their identifiers, a null
    LinkedList being an empty one; [None] is an access out of a table or a use
    of a deleted registration. *)

From S2P Require Import Prelude.

#[local] Set Warnings "-register-all,-clear-no-such-hyp".

Inductive gbxObjState := ToDelete | Deleted | Keep.
Inductive Type_ := NoType | SUSPEND | ACTIVE.

#[export] Instance gbxObjState_eq : EqDecision gbxObjState.
Proof. solve_decision. Defined.
#[export] Instance Type_eq : EqDecision Type_.
Proof. solve_decision. Defined.

Record gbxRegObj := mk_reg { state : gbxObjState; reg_o : Z }.

(** [regs] are the registrations that are allocated. *)
Record gbxAutoGarb := mk_garb {
  type : Type_; keepobjs : bool; regobjs_cnt : Z; list_cnt : Z; mask : Z;
  todelete_lists : list (list positive); deleted_lists : list (list positive);
  todelete_cnt : Z; deleted_cnt : Z;
  regs : gmap positive gbxRegObj; next_reg : positive }.

Implicit Types (g : gbxAutoGarb) (o : Z) (gs : list gbxAutoGarb).

(** ** The operations of a scope *)

(** The loop of isPower2: at most 32 turns for an unsigned int. *)
Fixpoint isPower2_loop (fuel : nat) (x n : Z) : bool :=
  match fuel with
  | O => true
  | S fuel =>
      if x =? 0 then true
      else
        let n := if Z.land x 1 =? 0 then n else n + 1 in
        if (negb (Z.land x 1 =? 0)) && (1 <? n) then false
        else isPower2_loop fuel (Z.shiftr x 1) n
  end.
Definition isPower2 (x : Z) : bool := isPower2_loop 33 x 0.

(** gbxAutoGarb::init; [None] is the exception. *)
Definition init (t : Type_) (n : Z) : option gbxAutoGarb :=
  if isPower2 (u32 n)
  then Some (mk_garb t false 0 (u32 n) (u32 (n - 1))
               (replicate (Z.to_nat (u32 n)) []) (replicate (Z.to_nat (u32 n)) []) 0 0 ∅ 1)
  else None.

Definition get_key g o : Z := Z.land (Z.shiftr o 4) (mask g).

Fixpoint scan (rs : gmap positive gbxRegObj) o (l : list positive) : option (option positive) :=
  match l with
  | [] => Some None
  | r :: l => reg ← rs !! r; if reg_o reg =? o then Some (Some r) else scan rs o l
  end.

Definition find g o (lists : list (list positive)) : option (option positive) :=
  l ← lists !! Z.to_nat (get_key g o); scan (regs g) o l.

Definition set_type (t : Type_) g : gbxAutoGarb :=
  mk_garb t (keepobjs g) (regobjs_cnt g) (list_cnt g) (mask g) (todelete_lists g) (deleted_lists g)
    (todelete_cnt g) (deleted_cnt g) (regs g) (next_reg g).

(** gbxAutoGarb::keepObjs *)
Definition keepObjs g : gbxAutoGarb :=
  mk_garb (type g) true (regobjs_cnt g) (list_cnt g) (mask g) (todelete_lists g) (deleted_lists g)
    (todelete_cnt g) (deleted_cnt g) (regs g) (next_reg g).

Definition addObj o g : option gbxAutoGarb :=
  if bool_decide (type g = SUSPEND) then Some g
  else
    let key := Z.to_nat (get_key g o) in
    l ← todelete_lists g !! key;
    Some (mk_garb (type g) (keepobjs g) (u32 (regobjs_cnt g + 1)) (list_cnt g) (mask g)
            (<[key := l ++ [next_reg g]]> (todelete_lists g)) (deleted_lists g)
            (u32 (todelete_cnt g + 1)) (deleted_cnt g)
            (<[next_reg g := mk_reg ToDelete o]> (regs g)) (Pos.succ (next_reg g))).

(** A registration that changes its state in its list. *)
Definition set_state (r : positive) (st : gbxObjState) o (cnt : Z) g : gbxAutoGarb :=
  mk_garb (type g) (keepobjs g) (regobjs_cnt g) (list_cnt g) (mask g) (todelete_lists g) (deleted_lists g)
    (u32 cnt) (deleted_cnt g) (<[r := mk_reg st o]> (regs g)) (next_reg g).

Definition keepObj o (keep : bool) g : option (bool * gbxAutoGarb) :=
  r ← find g o (todelete_lists g);
  match r with
  | None => Some (false, g)
  | Some r =>
      reg ← regs g !! r;
      Some (true,
        match keep, state reg with
        | true, ToDelete => set_state r Keep (reg_o reg) (todelete_cnt g - 1) g
        | false, Keep => set_state r ToDelete (reg_o reg) (todelete_cnt g + 1) g
        | _, _ => g
        end)
  end.

(** LinkedList::deleteObject *)
Fixpoint delete_first (r : positive) (l : list positive) : list positive :=
  match l with
  | [] => []
  | r' :: l => if bool_decide (r' = r) then l else r' :: delete_first r l
  end.

Definition markObjDeleted o g : option (bool * gbxAutoGarb) :=
  r ← find g o (todelete_lists g);
  match r with
  | None => Some (false, g)
  | Some r =>
      let key := Z.to_nat (get_key g o) in
      l ← todelete_lists g !! key;
      reg ← regs g !! r;
      let todelete := <[key := delete_first r l]> (todelete_lists g) in
      let cnt := if bool_decide (state reg = ToDelete) then u32 (todelete_cnt g - 1) else todelete_cnt g in
      d ← find g o (deleted_lists g);
      match d with
      | None =>
          dl ← deleted_lists g !! key;
          Some (true, mk_garb (type g) (keepobjs g) (regobjs_cnt g) (list_cnt g) (mask g) todelete
                        (<[key := dl ++ [r]]> (deleted_lists g)) cnt (u32 (deleted_cnt g + 1))
                        (<[r := mk_reg Deleted (reg_o reg)]> (regs g)) (next_reg g))
      | Some _ =>
          Some (true, mk_garb (type g) (keepobjs g) (regobjs_cnt g) (list_cnt g) (mask g) todelete
                        (deleted_lists g) cnt (deleted_cnt g) (delete r (regs g)) (next_reg g))
      end
  end.

Definition isObjDeleted o g : option bool := r ← find g o (deleted_lists g); Some (bool_decide (is_Some r)).

Definition isObjRegistered o g : option bool :=
  r ← find g o (todelete_lists g);
  if bool_decide (is_Some r) then Some true else isObjDeleted o g.

(** The array [regs] that gbxAutoGarb::garbage fills: the registrations to delete,
    that the assertion compares with their count. *)
Fixpoint to_delete_of (rs : gmap positive gbxRegObj) (l : list positive) : option (list positive) :=
  match l with
  | [] => Some []
  | r :: l =>
      reg ← rs !! r; l ← to_delete_of rs l;
      Some (if bool_decide (state reg = ToDelete) then r :: l else l)
  end.
Definition collect_regs g : option (list positive) :=
  l ← to_delete_of (regs g) (concat (todelete_lists g));
  if Z.of_nat (length l) =? todelete_cnt g then Some l else None.

(** ** The open scopes, the current one first *)

Definition addObject o gs : option (list gbxAutoGarb) :=
  match gs with [] => Some [] | g :: gs => g ← addObj o g; Some (g :: gs) end.

Definition isObjectDeleted o gs : option bool :=
  match gs with [] => Some false | g :: _ => isObjDeleted o g end.

Fixpoint keepObject o (keep : bool) gs : option (list gbxAutoGarb) :=
  match gs with
  | [] => Some []
  | g :: gs =>
      '(found, g) ← keepObj o keep g;
      if found : bool then Some (g :: gs) else gs ← keepObject o keep gs; Some (g :: gs)
  end.

Fixpoint markObjectDeleted o gs : option (list gbxAutoGarb) :=
  match gs with
  | [] => Some []
  | g :: gs =>
      '(found, g) ← markObjDeleted o g;
      if found : bool then Some (g :: gs) else gs ← markObjectDeleted o gs; Some (g :: gs)
  end.

(** gbxAutoGarbSuspender: its construction, that returns the type to restore, and
    its destruction. *)
Definition suspend gs : option Type_ * list gbxAutoGarb :=
  match gs with [] => (None, []) | g :: gs => (Some (type g), set_type SUSPEND g :: gs) end.
Definition restore (t : Type_) gs : list gbxAutoGarb :=
  match gs with [] => [] | g :: gs => set_type t g :: gs end.

(** ** The abstract scope

    [td] are the objects that are registered and alive, with whether they are kept;
    [dels] those that are known to be deleted; [keep_all] after keepObjs; [ids]
    name the registrations. *)

Record scope := mk_scope { td : gmap Z bool; dels : gset Z; suspended : bool; keep_all : bool;
  ids : gmap Z positive; nxt : positive }.

Implicit Types (v : scope) (vs : list scope).

Definition kept_state (b : bool) : gbxObjState := if b then Keep else ToDelete.

Definition s_add o v : scope := if suspended v then v else mk_scope (<[o := false]> (td v)) (dels v) false (keep_all v) (<[o := nxt v]> (ids v)) (Pos.succ (nxt v)).
Definition s_keep o (keep : bool) v : scope := mk_scope (<[o := keep]> (td v)) (dels v) (suspended v) (keep_all v) (ids v) (nxt v).
Definition s_mark o v : scope := mk_scope (delete o (td v)) ({[o]} ∪ dels v) (suspended v) (keep_all v) (ids v) (nxt v).

Definition s_addObject o vs : list scope := match vs with [] => [] | v :: vs => s_add o v :: vs end.
Definition s_isDeleted o vs : bool := match vs with [] => false | v :: _ => bool_decide (o ∈ dels v) end.
Fixpoint s_keepObject o (keep : bool) vs : list scope :=
  match vs with
  | [] => []
  | v :: vs => if bool_decide (is_Some (td v !! o)) then s_keep o keep v :: vs else v :: s_keepObject o keep vs
  end.
Fixpoint s_markDeleted o vs : list scope :=
  match vs with
  | [] => []
  | v :: vs => if bool_decide (is_Some (td v !! o)) then s_mark o v :: vs else v :: s_markDeleted o vs
  end.

Definition is_pending (p : Z * bool) : Prop := p.2 = false.
#[export] Instance is_pending_dec p : Decision (is_pending p).
Proof. unfold is_pending. apply _. Defined.
Definition pending (m : gmap Z bool) : gmap Z bool := filter is_pending m.
Definition pending_count (m : gmap Z bool) : Z := Z.of_nat (size (pending m)).

(** The registrations of a table: each is in the list of its object, and each object
    has one. [P o st] says which objects and states are in the table. *)
Record table_ok (key : Z -> nat) (n : nat) (rs : gmap positive gbxRegObj) (lists : list (list positive))
    (P : Z -> gbxObjState -> Prop) : Prop := {
  tb_len : length lists = n;
  tb_nodup : forall k l, lists !! k = Some l -> NoDup l;
  tb_in : forall k l r, lists !! k = Some l -> r ∈ l ->
    exists o st, rs !! r = Some (mk_reg st o) /\ P o st /\ key o = k;
  tb_has : forall o st, P o st -> exists l r,
    lists !! key o = Some l /\ r ∈ l /\ rs !! r = Some (mk_reg st o) }.

Definition regs_inj (rs : gmap positive gbxRegObj) : Prop :=
  forall r r' x x', rs !! r = Some x -> rs !! r' = Some x' -> reg_o x = reg_o x' -> r = r'.

Definition bucket g o : nat := Z.to_nat (get_key g o).

(** A scope implements an abstract one, while no address is used again. *)
Record rep g v : Prop := {
  rep_cnt : exists k, 0 <= k < 32 /\ list_cnt g = 2 ^ k;
  rep_mask : mask g = list_cnt g - 1;
  rep_susp : suspended v = bool_decide (type g = SUSPEND);
  rep_keep_all : keep_all v = keepobjs g;
  rep_ids : forall o b, td v !! o = Some b -> exists r, ids v !! o = Some r /\ regs g !! r = Some (mk_reg (kept_state b) o);
  rep_nxt : nxt v = next_reg g;
  rep_td : table_ok (bucket g) (Z.to_nat (list_cnt g)) (regs g) (todelete_lists g)
             (fun o st => exists b, td v !! o = Some b /\ st = kept_state b);
  rep_del : table_ok (bucket g) (Z.to_nat (list_cnt g)) (regs g) (deleted_lists g)
              (fun o st => o ∈ dels v /\ st = Deleted);
  rep_inj : regs_inj (regs g);
  rep_all : forall r x, regs g !! r = Some x -> is_Some (td v !! reg_o x) \/ reg_o x ∈ dels v;
  rep_fresh : forall r x, regs g !! r = Some x -> (r < next_reg g)%positive;
  rep_todelete : todelete_cnt g = u32 (pending_count (td v));
  rep_deleted : deleted_cnt g = u32 (Z.of_nat (size (dels v))) }.

(** ** Tables *)

Lemma scan_spec (rs : gmap positive gbxRegObj) o l : (forall r, r ∈ l -> is_Some (rs !! r)) ->
  exists res, scan rs o l = Some res
    /\ match res with
       | None => forall r x, r ∈ l -> rs !! r = Some x -> reg_o x <> o
       | Some r => r ∈ l /\ exists x, rs !! r = Some x /\ reg_o x = o
       end.
Proof.
  induction l as [|r l IH]; intros H; cbn [scan].
  - exists None. split; [done|]. intros r x Hr. by apply not_elem_of_nil in Hr.
  - destruct (H r) as [x Hx]; [by left|]. rewrite Hx. cbn. destruct (Z.eqb_spec (reg_o x) o).
    + exists (Some r). split; [done|]. split; [by left|]. by exists x.
    + destruct IH as (res & -> & Hres); [intros; apply H; by right|]. exists res. split; [done|].
      destruct res as [r'|].
      * destruct Hres as [? ?]. split; [by right|done].
      * intros r' x' [->|Hr']%elem_of_cons Hx'; [congruence|]. by eapply Hres.
Qed.

Lemma delete_first_elem r r' l : NoDup l -> r' ∈ delete_first r l <-> r' ∈ l /\ r' <> r.
Proof.
  induction 1 as [|x l Hx Hl IH]; cbn [delete_first]; [set_solver|].
  case_bool_decide; [subst; set_solver|]. rewrite !elem_of_cons, IH. set_solver.
Qed.
Lemma delete_first_nodup r l : NoDup l -> NoDup (delete_first r l).
Proof.
  induction 1 as [|x l Hx Hl IH]; cbn [delete_first]; [constructor|]. case_bool_decide; [done|].
  constructor; [|done]. rewrite delete_first_elem by done. naive_solver.
Qed.

Lemma to_delete_of_filter (rs : gmap positive gbxRegObj) l : (forall r, r ∈ l -> is_Some (rs !! r)) ->
  to_delete_of rs l = Some (filter (fun r => state <$> rs !! r = Some ToDelete) l).
Proof.
  induction l as [|r l IH]; intros H; [done|]. cbn [to_delete_of]. destruct (H r) as [x Hx]; [by left|].
  rewrite Hx. rewrite IH by (intros; apply H; by right). rewrite filter_cons, Hx. cbn [mbind option_bind fmap option_fmap option_map].
  f_equal. case_bool_decide; case_decide; congruence.
Qed.

Lemma list_elem_of_In_concat {A} (x : A) ls : x ∈ concat ls <-> exists l, x ∈ l /\ l ∈ ls.
Proof. induction ls as [|l ls IH]; cbn; [set_solver|]. rewrite elem_of_app, IH. set_solver. Qed.

Lemma NoDup_concat_disjoint {A} (ls : list (list A)) : (forall k l, ls !! k = Some l -> NoDup l) ->
  (forall k k' l l' x, ls !! k = Some l -> ls !! k' = Some l' -> x ∈ l -> x ∈ l' -> k = k') -> NoDup (concat ls).
Proof.
  induction ls as [|l ls IH]; intros Hn Hd; cbn; [constructor|]. apply NoDup_app. split; [by apply (Hn 0%nat)|]. split.
  - intros x Hx (l' & Hx' & [k Hk]%list_elem_of_lookup)%list_elem_of_In_concat.
    by pose proof (Hd 0%nat (S k) l l' x eq_refl Hk Hx Hx').
  - apply IH; [intros k; apply (Hn (S k))|]. intros k k' l1 l2 x H1 H2 Hx1 Hx2.
    by injection (Hd (S k) (S k') l1 l2 x H1 H2 Hx1 Hx2).
Qed.

Section Tables.
Context (key : Z -> nat) (n : nat) (Hkey : forall o, (key o < n)%nat).
Implicit Types (rs : gmap positive gbxRegObj) (lists : list (list positive)) (P : Z -> gbxObjState -> Prop).

(** The lookup of an object in a table. *)
Lemma lookup_spec rs lists P o : table_ok key n rs lists P -> exists l, lists !! key o = Some l
  /\ ((scan rs o l = Some None /\ forall st, ~ P o st)
      \/ exists r st, scan rs o l = Some (Some r) /\ r ∈ l /\ rs !! r = Some (mk_reg st o) /\ P o st).
Proof.
  intros T. destruct (lookup_lt_is_Some_2 lists (key o)) as [l Hl]; [rewrite (tb_len _ _ _ _ _ T); apply Hkey|].
  exists l. split; [done|]. destruct (scan_spec rs o l) as (res & E & Hres).
  { intros r Hr. destruct (tb_in _ _ _ _ _ T _ _ _ Hl Hr) as (? & ? & -> & _). by eexists. }
  rewrite E. destruct res as [r|].
  - right. destruct Hres as (Hr & x & Hx & Ho). destruct (tb_in _ _ _ _ _ T _ _ _ Hl Hr) as (o' & st & Hr' & HP & _).
    assert (x = mk_reg st o') as -> by congruence. cbn in Ho. subst o'. by exists r, st.
  - left. split; [done|]. intros st HP. destruct (tb_has _ _ _ _ _ T _ _ HP) as (l' & r & Hl' & Hr & Hx).
    assert (l' = l) as -> by congruence. by apply (Hres r _ Hr Hx).
Qed.

(** A registration that is not in the table may change. *)
Lemma table_frame rs rs' lists P : table_ok key n rs lists P ->
  (forall k l r, lists !! k = Some l -> r ∈ l -> rs' !! r = rs !! r) -> table_ok key n rs' lists P.
Proof.
  intros T H. destruct T as [T1 T2 T3 T4]. split; [done|done| |].
  - intros k l r Hl Hr. rewrite (H _ _ _ Hl Hr). by eapply T3.
  - intros o st HP. destruct (T4 o st HP) as (l & r & Hl & Hr & E). exists l, r. by rewrite (H _ _ _ Hl Hr).
Qed.

Lemma table_insert rs lists P P' o st r l : table_ok key n rs lists P ->
  lists !! key o = Some l -> (forall k l, lists !! k = Some l -> r ∉ l) ->
  rs !! r = Some (mk_reg st o) -> (forall o' st', P' o' st' <-> P o' st' \/ o' = o /\ st' = st) ->
  table_ok key n rs (<[key o := l ++ [r]]> lists) P'.
Proof.
  intros [T1 T2 T3 T4] Hl Hfr Hr HP. assert (key o < length lists)%nat as Hk by (rewrite T1; apply Hkey). split.
  - by rewrite length_insert.
  - intros k l'. rewrite list_lookup_insert. case_decide as D; [|by apply T2]. destruct D as [<- _]. intros [= <-].
    apply NoDup_app. split; [by eapply T2|]. split; [|apply NoDup_singleton].
    intros r' Hr' ->%list_elem_of_singleton. by eapply Hfr.
  - intros k l' r'. rewrite list_lookup_insert. case_decide as D.
    + destruct D as [<- _]. intros [= <-]. rewrite elem_of_app, list_elem_of_singleton. intros [Hin| ->].
      * destruct (T3 _ _ _ Hl Hin) as (o' & st' & E & HP' & K). exists o', st'. rewrite HP. auto.
      * exists o, st. rewrite HP. auto.
    + intros Hl' Hin. destruct (T3 _ _ _ Hl' Hin) as (o' & st' & E & HP' & K). exists o', st'. rewrite HP. auto.
  - intros o' st' [HP'|[-> ->]]%HP.
    + destruct (T4 _ _ HP') as (l' & r' & Hl' & Hin & E). destruct (decide (key o' = key o)) as [K|K].
      * rewrite K in *. exists (l ++ [r]), r'. rewrite list_lookup_insert_eq by done.
        split_and!; [done| |done]. assert (l' = l) as -> by congruence. set_solver.
      * exists l', r'. by rewrite list_lookup_insert_ne.
    + exists (l ++ [r]), r. rewrite list_lookup_insert_eq by done. split_and!; [done|set_solver|done].
Qed.

Lemma table_remove rs lists P P' o st r l : table_ok key n rs lists P -> regs_inj rs ->
  lists !! key o = Some l -> rs !! r = Some (mk_reg st o) ->
  (forall o' st', P' o' st' <-> P o' st' /\ o' <> o) ->
  table_ok key n rs (<[key o := delete_first r l]> lists) P'.
Proof.
  intros [T1 T2 T3 T4] Hinj Hl Hr HP. assert (key o < length lists)%nat as Hk by (rewrite T1; apply Hkey).
  pose proof (T2 _ _ Hl) as Hnd. split.
  - by rewrite length_insert.
  - intros k l'. rewrite list_lookup_insert. case_decide as D; [|by apply T2]. intros [= <-]. by apply delete_first_nodup.
  - intros k l' r'. rewrite list_lookup_insert. case_decide as D.
    + destruct D as [<- _]. intros [= <-]. rewrite delete_first_elem by done. intros [Hin Hne].
      destruct (T3 _ _ _ Hl Hin) as (o' & st' & E & HP' & K). exists o', st'. rewrite HP. split_and!; try done.
      intros ->. apply Hne. by eapply Hinj.
    + intros Hl' Hin. destruct (T3 _ _ _ Hl' Hin) as (o' & st' & E & HP' & K). exists o', st'. rewrite HP.
      split_and!; try done. intros ->. apply D. by split.
  - intros o' st' [HP' Hne]%HP. destruct (T4 _ _ HP') as (l' & r' & Hl' & Hin & E). destruct (decide (key o' = key o)) as [K|K].
    + rewrite K in *. assert (l' = l) as -> by congruence. exists (delete_first r l), r'. rewrite list_lookup_insert_eq by done.
      split_and!; [done| |done]. apply delete_first_elem; [done|]. split; [done|]. intros ->. congruence.
    + exists l', r'. by rewrite list_lookup_insert_ne.
Qed.

(** A registration that is in the table may change its state. *)
Lemma table_state rs lists P P' o st st' r l : table_ok key n rs lists P -> regs_inj rs ->
  lists !! key o = Some l -> r ∈ l -> rs !! r = Some (mk_reg st o) ->
  (forall o' st'', P' o' st'' <-> o' <> o /\ P o' st'' \/ o' = o /\ st'' = st') ->
  table_ok key n (<[r := mk_reg st' o]> rs) lists P'.
Proof.
  intros [T1 T2 T3 T4] Hinj Hl Hin Hr HP. split; [done|done| |].
  - intros k l' r' Hl' Hin'. destruct (T3 _ _ _ Hl' Hin') as (o' & st1 & E & HP' & K). destruct (decide (r' = r)) as [->|Hne].
    + assert (o' = o) as -> by congruence. exists o, st'. rewrite lookup_insert_eq, HP. auto.
    + exists o', st1. rewrite lookup_insert_ne, HP by done. split_and!; try done. left. split; [|done]. intros ->. by eapply Hne, Hinj.
  - intros o' st1 [[Hne HP']|[-> ->]]%HP.
    + destruct (T4 _ _ HP') as (l' & r' & Hl' & Hin' & E). exists l', r'. rewrite lookup_insert_ne by congruence. done.
    + exists l, r. by rewrite lookup_insert_eq.
Qed.
End Tables.

(** ** The operations of a scope implement those of the abstract one *)

Lemma u32_add_l a b : u32 (u32 a + b) = u32 (a + b).
Proof. unfold u32, wrap_u. by rewrite Zplus_mod_idemp_l. Qed.

Lemma pending_delete (m : gmap Z bool) o (b : bool) : m !! o = Some b -> pending_count (delete o m) = pending_count m - (if b then 0 else 1).
Proof.
  intros H. unfold pending_count, pending. rewrite map_filter_delete. destruct b.
  - rewrite delete_id; [lia|]. apply map_lookup_filter_None. right. intros x Hx. by assert (x = true) as -> by congruence.
  - rewrite map_size_delete_Some; [|exists false; by apply map_lookup_filter_Some].
    assert (size (filter is_pending m) <> 0%nat); [|lia]. apply map_size_ne_0_lookup. exists o. exists false.
    by apply map_lookup_filter_Some.
Qed.
Lemma pending_insert (m : gmap Z bool) o (b : bool) : pending_count (<[o := b]> m) = pending_count (delete o m) + (if b then 0 else 1).
Proof.
  unfold pending_count, pending. destruct b.
  - rewrite map_filter_insert_False by done. lia.
  - rewrite map_filter_insert_True, map_filter_delete, <- insert_delete_eq by done.
    rewrite map_size_insert_None; [lia|]. by rewrite lookup_delete_eq.
Qed.

Lemma kept_state_inj b b' : kept_state b = kept_state b' -> b = b'.
Proof. by destruct b, b'. Qed.
Lemma kept_not_deleted b : kept_state b <> Deleted.
Proof. by destruct b. Qed.
Lemma kept_todelete b : kept_state b = ToDelete <-> b = false.
Proof. by destruct b. Qed.

Section Scope.
Context (g : gbxAutoGarb) (v : scope) (R : rep g v).

Lemma bucket_bound o : (bucket g o < Z.to_nat (list_cnt g))%nat.
Proof.
  destruct (rep_cnt _ _ R) as (k & Hk & E). unfold bucket, get_key. rewrite (rep_mask _ _ R), E.
  replace (2 ^ k - 1) with (Z.ones k) by (rewrite Z.ones_equiv; lia). rewrite Z.land_ones by lia.
  pose proof (Z.mod_pos_bound (Z.shiftr o 4) (2 ^ k)). lia.
Qed.

Lemma find_td o : exists l, todelete_lists g !! bucket g o = Some l
  /\ ((find g o (todelete_lists g) = Some None /\ td v !! o = None)
      \/ exists r b, find g o (todelete_lists g) = Some (Some r) /\ r ∈ l
           /\ regs g !! r = Some (mk_reg (kept_state b) o) /\ td v !! o = Some b).
Proof.
  destruct (lookup_spec _ _ bucket_bound _ _ _ o (rep_td _ _ R)) as (l & Hl & H). exists l. split; [done|].
  unfold find. fold (bucket g o). rewrite Hl. cbn. destruct H as [[-> H]|(r & st & -> & Hr & E & b & Hb & ->)].
  - left. split; [done|]. apply eq_None_not_Some. intros [b Hb]. apply (H (kept_state b)). by exists b.
  - right. by exists r, b.
Qed.

Lemma find_del o : exists l, deleted_lists g !! bucket g o = Some l
  /\ ((find g o (deleted_lists g) = Some None /\ o ∉ dels v)
      \/ exists r, find g o (deleted_lists g) = Some (Some r) /\ r ∈ l /\ regs g !! r = Some (mk_reg Deleted o) /\ o ∈ dels v).
Proof.
  destruct (lookup_spec _ _ bucket_bound _ _ _ o (rep_del _ _ R)) as (l & Hl & H). exists l. split; [done|].
  unfold find. fold (bucket g o). rewrite Hl. cbn. destruct H as [[-> H]|(r & st & -> & Hr & E & Ho & ->)].
  - left. split; [done|]. intros Ho. by apply (H Deleted).
  - right. by exists r.
Qed.

Lemma td_not_deleted o b : td v !! o = Some b -> o ∉ dels v.
Proof.
  intros Hb Ho. destruct (find_td o) as (l & Hl & [[_ H]|(r & b' & _ & Hr & E & Hb')]); [congruence|].
  destruct (find_del o) as (l' & Hl' & [[_ H]|(r' & _ & Hr' & E' & _)]); [done|].
  assert (r = r') as <- by by eapply (rep_inj _ _ R). rewrite E in E'. injection E' as E'. by apply kept_not_deleted in E'.
Qed.

Lemma in_td_reg k l r : todelete_lists g !! k = Some l -> r ∈ l ->
  exists o b, regs g !! r = Some (mk_reg (kept_state b) o) /\ td v !! o = Some b /\ bucket g o = k.
Proof. intros Hl Hr. destruct (tb_in _ _ _ _ _ (rep_td _ _ R) _ _ _ Hl Hr) as (o & st & E & (b & Hb & ->) & K). eauto. Qed.
Lemma in_del_reg k l r : deleted_lists g !! k = Some l -> r ∈ l ->
  exists o, regs g !! r = Some (mk_reg Deleted o) /\ o ∈ dels v.
Proof. intros Hl Hr. destruct (tb_in _ _ _ _ _ (rep_del _ _ R) _ _ _ Hl Hr) as (o & st & E & (? & ->) & K). eauto. Qed.

Lemma fresh_reg : regs g !! next_reg g = None.
Proof. apply eq_None_not_Some. intros [x Hx]. pose proof (rep_fresh _ _ R _ _ Hx). lia. Qed.

Lemma addObj_spec o : td v !! o = None -> o ∉ dels v -> exists g', addObj o g = Some g' /\ rep g' (s_add o v).
Proof.
  intros Ht Hd. unfold addObj, s_add. rewrite (rep_susp _ _ R). fold (bucket g o).
  case_bool_decide as Hty; [by exists g|]. destruct (find_td o) as (l & Hl & _). rewrite Hl. cbn. eexists. split; [done|].
  assert (forall k l' r, todelete_lists g !! k = Some l' -> r ∈ l' -> r <> next_reg g) as Hnew.
  { intros k l' r Hl' Hr ->. destruct (in_td_reg _ _ _ Hl' Hr) as (? & ? & E & _). by rewrite fresh_reg in E. }
  assert (forall k l' r, deleted_lists g !! k = Some l' -> r ∈ l' -> r <> next_reg g) as Hnew'.
  { intros k l' r Hl' Hr ->. destruct (in_del_reg _ _ _ Hl' Hr) as (? & E & _). by rewrite fresh_reg in E. }
  assert (forall r x, regs g !! r = Some x -> reg_o x <> o) as Hno.
  { intros r x Hx <-. destruct (rep_all _ _ R _ _ Hx) as [[b E]|]; [congruence|done]. }
  split; cbn; try apply R.
  - by rewrite bool_decide_eq_false_2.
  - rewrite (rep_nxt _ _ R). intros a b [[<- <-]|[Hne Ha]]%lookup_insert_Some.
    + exists (next_reg g). by rewrite !lookup_insert_eq.
    + destruct (rep_ids _ _ R _ _ Ha) as (r & Hr & E). exists r. rewrite !lookup_insert_ne; [done| |done].
      intros <-. by rewrite fresh_reg in E.
  - by rewrite (rep_nxt _ _ R).
  - eapply (table_insert _ _ bucket_bound _ _ _ _ o ToDelete); [|done|..].
    + apply (table_frame _ _ (regs g)); [apply R|]. intros. rewrite lookup_insert_ne; [done|]. by eapply not_eq_sym, Hnew.
    + intros k l' Hl' Hr. by eapply Hnew.
    + by rewrite lookup_insert_eq.
    + intros o' st'. cbn. split.
      * intros (b & Hb & ->). destruct (decide (o' = o)) as [->|]; [right|left; exists b].
        { rewrite lookup_insert_eq in Hb. by injection Hb as <-. } { by rewrite lookup_insert_ne in Hb. }
      * intros [(b & Hb & ->)|[-> ->]]; [exists b|exists false; by rewrite lookup_insert_eq].
        by rewrite lookup_insert_ne by congruence.
  - apply (table_frame _ _ (regs g)); [apply R|]. intros. rewrite lookup_insert_ne; [done|]. by eapply not_eq_sym, Hnew'.
  - intros r r' x x'. rewrite !lookup_insert_Some. intros [[<- <-]|[? ?]] [[<- <-]|[? ?]] E; cbn in E; try done.
    + by edestruct Hno. + by edestruct Hno. + by eapply (rep_inj _ _ R).
  - intros r x. rewrite lookup_insert_Some. intros [[<- <-]|[_ Hx]]; cbn; [left; by rewrite lookup_insert_eq|].
    rewrite lookup_insert_ne by (by eapply not_eq_sym, Hno). by eapply (rep_all _ _ R).
  - intros r x. rewrite lookup_insert_Some. intros [[<- _]|[_ Hx]]; [lia|]. pose proof (rep_fresh _ _ R _ _ Hx). lia.
  - rewrite (rep_todelete _ _ R), u32_add_l, pending_insert, delete_id by done. done.
Qed.

Lemma set_state_rep r l o b b' cnt : todelete_lists g !! bucket g o = Some l -> r ∈ l ->
  regs g !! r = Some (mk_reg (kept_state b) o) -> td v !! o = Some b ->
  u32 cnt = u32 (pending_count (<[o := b']> (td v))) -> rep (set_state r (kept_state b') o cnt g) (s_keep o b' v).
Proof.
  intros Hl Hr E Hb Hc. split; cbn; try apply R.
  - intros a c [[<- <-]|[Hne Ha]]%lookup_insert_Some.
    + destruct (rep_ids _ _ R _ _ Hb) as (r' & Hr' & E'). assert (r' = r) as -> by by eapply (rep_inj _ _ R).
      exists r. by rewrite lookup_insert_eq.
    + destruct (rep_ids _ _ R _ _ Ha) as (r' & Hr' & E'). exists r'. rewrite lookup_insert_ne; [done|]. intros <-. congruence.
  - eapply (table_state _ _ _ _ _ _ o _ (kept_state b')); [apply R|apply R|done..|]. intros o' st'. cbn. split.
    + intros (c & Hc' & ->). destruct (decide (o' = o)) as [->|]; [right|left; split; [done|exists c]].
      { rewrite lookup_insert_eq in Hc'. by injection Hc' as <-. } { by rewrite lookup_insert_ne in Hc'. }
    + intros [(Hne & c & Hc' & ->)|[-> ->]]; [exists c|exists b'; by rewrite lookup_insert_eq].
      by rewrite lookup_insert_ne by congruence.
  - apply (table_frame _ _ (regs g)); [apply R|]. intros k l' r' Hl' Hr'. rewrite lookup_insert_ne; [done|]. intros ->.
    destruct (in_del_reg _ _ _ Hl' Hr') as (o' & E' & _). rewrite E in E'. injection E' as E' _. by apply kept_not_deleted in E'.
  - intros r1 r2 x1 x2. rewrite !lookup_insert_Some.
    intros [[<- <-]|[? ?]] [[<- <-]|[? ?]] Eo; cbn in Eo; try done; by eapply (rep_inj _ _ R).
  - intros r' x. rewrite lookup_insert_Some. intros [[<- <-]|[_ Hx]]; cbn; [left; by rewrite lookup_insert_eq|].
    destruct (rep_all _ _ R _ _ Hx) as [?|?]; [left|by right]. apply lookup_insert_is_Some. destruct (decide (o = reg_o x)); auto.
  - intros r' x. rewrite lookup_insert_Some. intros [[<- _]|[_ Hx]]; by eapply (rep_fresh _ _ R).
  - done.
Qed.

Definition s_keep_if o (keep : bool) v : scope := if bool_decide (is_Some (td v !! o)) then s_keep o keep v else v.

Lemma s_keep_same o b : td v !! o = Some b -> s_keep o b v = v.
Proof. intros H. unfold s_keep. rewrite insert_id by done. by destruct v. Qed.

Lemma keepObj_spec o keep : exists g',
  keepObj o keep g = Some (bool_decide (is_Some (td v !! o)), g') /\ rep g' (s_keep_if o keep v).
Proof.
  unfold keepObj, s_keep_if. destruct (find_td o) as (l & Hl & [[-> H]|(r & b & -> & Hr & E & Hb)]); cbn.
  - exists g. by rewrite H.
  - rewrite E, Hb. cbn. eexists. split; [done|].
    destruct (decide (keep = b)) as [->|Hne].
    { rewrite s_keep_same by done. by destruct b; cbn. }
    pose proof (pending_insert (td v) o keep) as P. rewrite (pending_delete _ _ _ Hb) in P.
    pose proof (fun cnt => set_state_rep r l o b keep cnt Hl Hr E Hb) as SR.
    destruct keep, b; try done; cbn [kept_state state reg_o] in *; apply SR; rewrite P, (rep_todelete _ _ R).
    + rewrite <- Z.add_opp_r, u32_add_l. f_equal. lia.
    + rewrite u32_add_l. f_equal. lia.
Qed.

Definition s_mark_if o v : scope := if bool_decide (is_Some (td v !! o)) then s_mark o v else v.

Lemma markObjDeleted_spec o : exists g',
  markObjDeleted o g = Some (bool_decide (is_Some (td v !! o)), g') /\ rep g' (s_mark_if o v).
Proof.
  unfold markObjDeleted, s_mark_if. destruct (find_td o) as (l & Hl & [[-> H]|(r & b & -> & Hr & E & Hb)]); cbn.
  { exists g. by rewrite H. }
  pose proof (td_not_deleted _ _ Hb) as Hnd.
  destruct (find_del o) as (dl & Hdl & [[Ef _]|(? & _ & _ & _ & ?)]); [|done].
  fold (bucket g o). rewrite Hl, E, Ef, Hdl, Hb. cbn.
  eexists. split; [done|]. assert (r ∉ dl) as Hrd.
  { intros Hin. destruct (in_del_reg _ _ _ Hdl Hin) as (o' & E' & _). rewrite E in E'. injection E' as E' _.
    by apply kept_not_deleted in E'. }
  split; cbn; try apply R.
  - intros a c [Hne Ha]%lookup_delete_Some. destruct (rep_ids _ _ R _ _ Ha) as (r' & Hr' & E'). exists r'.
    rewrite lookup_insert_ne; [done|]. intros <-. congruence.
  - apply (table_frame _ _ (regs g)).
    + eapply (table_remove _ _ bucket_bound _ _ _ _ o); [apply R|apply R|done..|]. intros o' st'. cbn. split.
      * intros (c & Hc & ->). apply lookup_delete_Some in Hc as [Hne Hc]. split; [by exists c|done].
      * intros [(c & Hc & ->) Hne]. exists c. by rewrite lookup_delete_ne.
    + intros k l' r' Hl' Hr'. rewrite lookup_insert_ne; [done|]. intros <-. revert Hl' Hr'. rewrite list_lookup_insert.
      case_decide as D.
      * intros [= <-]. rewrite delete_first_elem by (exact (tb_nodup _ _ _ _ _ (rep_td _ _ R) _ _ Hl)). naive_solver.
      * intros Hl' Hr'. destruct (in_td_reg _ _ _ Hl' Hr') as (o' & b' & E' & _ & K). apply D.
        assert (o' = o) as -> by congruence. split; [done|]. by eapply lookup_lt_Some.
  - eapply (table_insert _ _ bucket_bound _ _ _ _ o Deleted r dl); [|done|..].
    + apply (table_frame _ _ (regs g)); [apply R|]. intros k l' r' Hl' Hr'. rewrite lookup_insert_ne; [done|]. intros <-.
      destruct (in_del_reg _ _ _ Hl' Hr') as (o' & E' & _). rewrite E in E'. injection E' as E' _. by apply kept_not_deleted in E'.
    + intros k l' Hl' Hin. destruct (in_del_reg _ _ _ Hl' Hin) as (o' & E' & _). rewrite E in E'. injection E' as E' _.
      by apply kept_not_deleted in E'.
    + by rewrite lookup_insert_eq.
    + intros o' st'. set_solver.
  - intros r1 r2 x1 x2. rewrite !lookup_insert_Some.
    intros [[<- <-]|[? ?]] [[<- <-]|[? ?]] Eo; cbn in Eo; try done; by eapply (rep_inj _ _ R).
  - intros r' x. rewrite lookup_insert_Some. intros [[<- <-]|[Hne Hx]]; cbn; [right; set_solver|].
    destruct (rep_all _ _ R _ _ Hx) as [Hs|?]; [left|right; set_solver]. rewrite lookup_delete_ne; [done|].
    intros Eo. apply Hne. eapply (rep_inj _ _ R); [done|done|]. cbn. congruence.
  - intros r' x. rewrite lookup_insert_Some. intros [[<- _]|[_ Hx]]; by eapply (rep_fresh _ _ R).
  - rewrite (rep_todelete _ _ R), (pending_delete _ _ _ Hb). destruct b; cbn.
    + by rewrite bool_decide_eq_false_2, Z.sub_0_r by done.
    + by rewrite bool_decide_eq_true_2, <- Z.add_opp_r, u32_add_l by done.
  - rewrite (rep_deleted _ _ R), u32_add_l. f_equal. rewrite size_union by set_solver. rewrite size_singleton. lia.
Qed.

Lemma isObjDeleted_spec o : isObjDeleted o g = Some (bool_decide (o ∈ dels v)).
Proof.
  unfold isObjDeleted. destruct (find_del o) as (l & _ & [[-> H]|(r & -> & _ & _ & H)]); cbn; f_equal; symmetry.
  - by apply bool_decide_eq_false_2.
  - by apply bool_decide_eq_true_2.
Qed.

Lemma isObjRegistered_spec o : isObjRegistered o g = Some (bool_decide (is_Some (td v !! o) \/ o ∈ dels v)).
Proof.
  unfold isObjRegistered. rewrite isObjDeleted_spec. destruct (find_td o) as (l & _ & [[-> H]|(r & b & -> & _ & _ & H)]); cbn.
  - f_equal. apply bool_decide_ext. rewrite H. split; [by right|]. by intros [[? ?]|?].
  - f_equal. symmetry. apply bool_decide_eq_true_2. left. by rewrite H.
Qed.

Lemma todelete_reg r : (exists k l, todelete_lists g !! k = Some l /\ r ∈ l) /\ state <$> regs g !! r = Some ToDelete
  <-> exists o, regs g !! r = Some (mk_reg ToDelete o) /\ td v !! o = Some false.
Proof.
  split.
  - intros [(k & l & Hl & Hr) Hs]. destruct (in_td_reg _ _ _ Hl Hr) as (o & b & E & Hb & _). rewrite E in *.
    injection Hs as ->%kept_todelete. by exists o.
  - intros (o & E & Hb). rewrite E. split; [|done]. destruct (find_td o) as (l & Hl & [[_ H]|(r' & b & _ & Hr & E' & _)]); [congruence|].
    assert (r = r') as -> by by eapply (rep_inj _ _ R). eauto.
Qed.

Lemma collect_spec : Z.of_nat (size (td v)) < 2 ^ 32 ->
  exists l, collect_regs g = Some l /\ NoDup l
    /\ forall r, r ∈ l <-> exists o, regs g !! r = Some (mk_reg ToDelete o) /\ td v !! o = Some false.
Proof.
  intros Hsz. unfold collect_regs.
  set (l := filter (fun r => state <$> regs g !! r = Some ToDelete) (concat (todelete_lists g))).
  assert (to_delete_of (regs g) (concat (todelete_lists g)) = Some l) as ->.
  { apply to_delete_of_filter. intros r (l' & Hr & [k Hl']%list_elem_of_lookup)%list_elem_of_In_concat.
    destruct (in_td_reg _ _ _ Hl' Hr) as (? & ? & -> & _). by eexists. }
  assert (forall r, r ∈ l <-> exists o, regs g !! r = Some (mk_reg ToDelete o) /\ td v !! o = Some false) as Hl.
  { intros r. rewrite <- todelete_reg. unfold l. rewrite list_elem_of_filter, list_elem_of_In_concat. split.
    - intros [Hs (l' & Hr & [k Hk]%list_elem_of_lookup)]. split; [eauto|done].
    - intros [(k & l' & Hk & Hr) Hs]. split; [done|]. exists l'. split; [done|]. by eapply list_elem_of_lookup_2. }
  cbn. exists l. assert (NoDup l) as Hnd.
  { apply NoDup_filter, NoDup_concat_disjoint.
    - apply (tb_nodup _ _ _ _ _ (rep_td _ _ R)).
    - intros k k' l1 l2 r H1 H2 Hr1 Hr2. destruct (in_td_reg _ _ _ H1 Hr1) as (? & ? & E1 & _ & <-).
      destruct (in_td_reg _ _ _ H2 Hr2) as (? & ? & E2 & _ & <-). congruence. }
  rewrite (rep_todelete _ _ R). assert (Z.of_nat (length l) = pending_count (td v)) as ->.
  { unfold pending_count. rewrite <- size_dom. unfold size, set_size. cbn. f_equal.
    set (f := fun r => from_option reg_o 0 (regs g !! r)).
    rewrite <- (length_fmap f l). apply Permutation_length, NoDup_Permutation.
    - apply NoDup_fmap_2_strong; [|done]. intros r1 r2 (o1 & E1 & _)%Hl (o2 & E2 & _)%Hl. unfold f. rewrite E1, E2. cbn.
      intros ->. by eapply (rep_inj _ _ R).
    - apply NoDup_elements.
    - intros o. rewrite elem_of_elements, list_elem_of_fmap, elem_of_dom. unfold f. split.
      + intros (r & -> & (o1 & E & Ho)%Hl). rewrite E. exists false. by apply map_lookup_filter_Some.
      + intros [b [Hb Hp]%map_lookup_filter_Some]. assert (b = false) as -> by exact Hp.
        destruct (tb_has _ _ _ _ _ (rep_td _ _ R) o ToDelete) as (l' & r & Hl' & Hr & E); [by exists false|].
        exists r. rewrite E. split; [done|]. apply Hl. eauto. }
  rewrite u32_id, Z.eqb_refl; [done|]. unfold pending_count, pending. pose proof (map_size_filter is_pending (td v)). lia.
Qed.

(** The registrations collected are those of the objects still to be deleted. *)
Lemma collect_objects : Z.of_nat (size (td v)) < 2 ^ 32 ->
  exists rs os, collect_regs g = Some rs /\ os ≡ₚ elements (dom (pending (td v)))
    /\ Forall2 (fun r o => ids v !! o = Some r /\ td v !! o = Some false) rs os.
Proof.
  intros Hsz. destruct (collect_spec Hsz) as (rs & E & Hnd & Hrs). set (f := fun r => from_option reg_o 0 (regs g !! r)).
  assert (forall r, r ∈ rs -> exists o, f r = o /\ regs g !! r = Some (mk_reg ToDelete o) /\ td v !! o = Some false) as Hf.
  { intros r (o & Ho & Hb)%Hrs. exists o. unfold f. by rewrite Ho. }
  exists rs, (f <$> rs). split; [done|]. split.
  - apply NoDup_Permutation; [|apply NoDup_elements|].
    + apply NoDup_fmap_2_strong; [|done]. intros r1 r2 (o1 & E1 & H1 & _)%Hf (o2 & E2 & H2 & _)%Hf Eo.
      eapply (rep_inj _ _ R); [done|done|]. cbn. congruence.
    + intros o. rewrite elem_of_elements, list_elem_of_fmap, elem_of_dom. split.
      * intros (r & -> & (o1 & -> & _ & Hb)%Hf). exists false. by apply map_lookup_filter_Some.
      * intros [b [Hb Hp]%map_lookup_filter_Some]. assert (b = false) as -> by exact Hp.
        destruct (rep_ids _ _ R _ _ Hb) as (r & _ & Er). exists r. unfold f. rewrite Er. split; [done|]. apply Hrs. eauto.
  - apply Forall2_fmap_r, Forall2_same_length_lookup_2; [done|]. intros k r r' Hk Hk'. assert (r' = r) as -> by congruence.
    cbn. destruct (Hf r) as (o & -> & Er & Hb); [by eapply list_elem_of_lookup_2|]. split; [|done].
    destruct (rep_ids _ _ R _ _ Hb) as (r1 & -> & E1). f_equal. by eapply (rep_inj _ _ R).
Qed.

Lemma size_td : Z.of_nat (size (td v)) < Z.pos (nxt v).
Proof.
  set (f := fun o => from_option Pos.to_nat 0%nat (ids v !! o)).
  assert (forall o, o ∈ elements (dom (td v)) -> exists r, ids v !! o = Some r
    /\ (r < next_reg g)%positive /\ reg_o <$> regs g !! r = Some o) as H.
  { intros o Ho. apply elem_of_elements, elem_of_dom in Ho as [b Hb]. destruct (rep_ids _ _ R _ _ Hb) as (r & Hr & E).
    exists r. rewrite E. split_and!; try done. by eapply (rep_fresh _ _ R). }
  rewrite <- size_dom. unfold size, set_size. cbn. rewrite <- (length_fmap f).
  enough (length (f <$> elements (dom (td v))) <= length (seq 1 (Pos.to_nat (nxt v) - 1)))%nat as Hle.
  { rewrite length_seq in Hle. lia. }
  apply submseteq_length, NoDup_submseteq.
  - apply NoDup_fmap_2_strong; [|apply NoDup_elements]. intros o1 o2 (r1 & E1 & _ & R1)%H (r2 & E2 & _ & R2)%H.
    unfold f. rewrite E1, E2. cbn. intros ->%Pos2Nat.inj. congruence.
  - intros k (o & -> & (r & E & Hlt & _)%H)%list_elem_of_fmap. unfold f. rewrite E. cbn. rewrite (rep_nxt _ _ R).
    apply elem_of_seq. lia.
Qed.
End Scope.

(** A new scope: isPower2 accepts the powers of two. *)
Lemma isPower2_loop_one f x : 0 <= x < 2 ^ Z.of_nat f -> isPower2_loop f x 1 = true -> x = 0.
Proof.
  revert x. induction f as [|f IH]; intros x Hx H; [cbn in Hx; lia|]. cbn [isPower2_loop] in H.
  destruct (Z.eqb_spec x 0); [done|]. rewrite Z.land_ones with (n := 1) in H by lia. change (2 ^ 1) with 2 in H.
  rewrite Nat2Z.inj_succ, Z.pow_succ_r in Hx by lia. rewrite Z.shiftr_div_pow2 in H by lia. change (2 ^ 1) with 2 in H.
  destruct (Z.eqb_spec (x mod 2) 0) as [E|E]; cbn in H; [|done]. apply IH in H; dlia.
Qed.
Lemma isPower2_loop_zero f x : 0 < x < 2 ^ Z.of_nat f -> isPower2_loop f x 0 = true ->
  exists k, 0 <= k < Z.of_nat f /\ x = 2 ^ k.
Proof.
  revert x. induction f as [|f IH]; intros x Hx H; [cbn in Hx; lia|]. cbn [isPower2_loop] in H.
  destruct (Z.eqb_spec x 0); [lia|]. rewrite Z.land_ones with (n := 1) in H by lia. change (2 ^ 1) with 2 in H.
  rewrite Nat2Z.inj_succ, Z.pow_succ_r in Hx by lia. rewrite Z.shiftr_div_pow2 in H by lia. change (2 ^ 1) with 2 in H.
  destruct (Z.eqb_spec (x mod 2) 0) as [E|E]; cbn in H.
  - apply IH in H as (k & Hk & E'); [|dlia]. exists (Z.succ k). rewrite Z.pow_succ_r by lia. split; dlia.
  - apply isPower2_loop_one in H; [|dlia]. exists 0. change (2 ^ 0) with 1. split; dlia.
Qed.

Lemma empty_table key n P : (forall o st, ~ P o st) -> table_ok key n ∅ (replicate n []) P.
Proof.
  intros HP. split; [by rewrite length_replicate| | |by intros ? ? ?%HP].
  - intros i l Hl. apply lookup_replicate_1 in Hl as [-> _]. constructor.
  - intros i l r Hl Hr. apply lookup_replicate_1 in Hl as [-> _]. by apply not_elem_of_nil in Hr.
Qed.

Definition new_garb (t : Type_) (n : Z) : gbxAutoGarb :=
  mk_garb t false 0 n (n - 1) (replicate (Z.to_nat n) []) (replicate (Z.to_nat n) []) 0 0 ∅ 1.

Lemma new_garb_rep t k n : 0 <= k < 32 -> n = 2 ^ k -> rep (new_garb t n) (mk_scope ∅ ∅ (bool_decide (t = SUSPEND)) false ∅ 1).
Proof.
  intros Hk ->. split; unfold new_garb; cbn [list_cnt mask type keepobjs regs todelete_lists deleted_lists todelete_cnt deleted_cnt td dels suspended keep_all ids nxt next_reg].
  - by exists k.
  - done.
  - done.
  - done.
  - intros o b Hb. by rewrite lookup_empty in Hb.
  - done.
  - apply empty_table. by intros ? ? (? & ? & _).
  - apply empty_table. by intros ? ? [? _].
  - intros r r' x x' Hx. by rewrite lookup_empty in Hx.
  - intros r x Hx. by rewrite lookup_empty in Hx.
  - intros r x Hx. by rewrite lookup_empty in Hx.
  - vm_compute. reflexivity.
  - vm_compute. reflexivity.
Qed.

Lemma isPower2_spec x : 0 < x < 2 ^ 32 -> isPower2 x = true -> exists k, 0 <= k < 32 /\ x = 2 ^ k.
Proof.
  intros Hx. unfold isPower2. remember 33%nat as f eqn:Ef. intros E.
  assert (Z.of_nat f = 33) as Ef' by lia.
  apply isPower2_loop_zero in E as (k & Hk & ->); [|rewrite Ef'; lia]. exists k. split; [|done].
  split; [lia|]. apply (Z.pow_lt_mono_r_iff 2); lia.
Qed.

Lemma init_eq t n : 0 < n < 2 ^ 31 -> init t n = if isPower2 n then Some (new_garb t n) else None.
Proof. intros Hn. unfold init, new_garb. rewrite (u32_id n), (u32_id (n - 1)) by lia. reflexivity. Qed.

Lemma init_rep t n g : 0 < n < 2 ^ 31 -> init t n = Some g -> rep g (mk_scope ∅ ∅ (bool_decide (t = SUSPEND)) false ∅ 1).
Proof.
  intros Hn H. rewrite init_eq in H by done. destruct (isPower2 n) eqn:E; [|done].
  apply isPower2_spec in E as (k & Hk & Ek); [|lia].
  injection H as <-. by apply (new_garb_rep t k).
Qed.

(** ** The open scopes *)

Definition reps gs vs : Prop := Forall2 rep gs vs.

Lemma isObjectDeleted_reps gs vs o : reps gs vs -> isObjectDeleted o gs = Some (s_isDeleted o vs).
Proof. destruct 1 as [|g v gs vs R _]; [done|]. by apply isObjDeleted_spec. Qed.

Lemma addObject_reps gs vs o :
  reps gs vs -> (forall v, head vs = Some v -> td v !! o = None /\ o ∉ dels v) ->
  exists gs', addObject o gs = Some gs' /\ reps gs' (s_addObject o vs).
Proof.
  intros H Hf. destruct H as [|g v gs vs R Rs]; [by exists []; split; [|constructor]|].
  destruct (Hf v eq_refl) as [Ht Hd]. destruct (addObj_spec g v R o Ht Hd) as (g' & E & R').
  exists (g' :: gs). cbn. rewrite E. split; [done|]. by constructor.
Qed.

Lemma keepObject_reps gs vs o keep : reps gs vs ->
  exists gs', keepObject o keep gs = Some gs' /\ reps gs' (s_keepObject o keep vs).
Proof.
  induction 1 as [|g v gs vs R Rs (gs' & IH & Rs')]; [by exists []; split; [|constructor]|]. cbn.
  destruct (keepObj_spec g v R o keep) as (g' & -> & R'). cbn. unfold s_keep_if in R'.
  case_bool_decide; [exists (g' :: gs)|rewrite IH; cbn; exists (g' :: gs')]; (split; [done|by constructor]).
Qed.

Lemma markObjectDeleted_reps gs vs o : reps gs vs ->
  exists gs', markObjectDeleted o gs = Some gs' /\ reps gs' (s_markDeleted o vs).
Proof.
  induction 1 as [|g v gs vs R Rs (gs' & IH & Rs')]; [by exists []; split; [|constructor]|]. cbn.
  destruct (markObjDeleted_spec g v R o) as (g' & -> & R'). cbn. unfold s_mark_if in R'.
  case_bool_decide; [exists (g' :: gs)|rewrite IH; cbn; exists (g' :: gs')]; (split; [done|by constructor]).
Qed.

Lemma keepObjs_rep g v : rep g v -> rep (keepObjs g) (mk_scope (td v) (dels v) (suspended v) true (ids v) (nxt v)).
Proof. intros R. split; cbn; try apply R. done. Qed.

Lemma restore_reps t gs vs : reps gs vs ->
  reps (restore t gs) (match vs with [] => [] | v :: vs => mk_scope (td v) (dels v) (bool_decide (t = SUSPEND)) (keep_all v) (ids v) (nxt v) :: vs end).
Proof.
  destruct 1 as [|g v gs vs R Rs]; [constructor|]. constructor; [|done]. split; cbn; try apply R. done.
Qed.

(** Marking an object as deleted changes what is known of no other object. *)
Lemma s_isDeleted_mark vs o o' : o' <> o -> s_isDeleted o' (s_markDeleted o vs) = s_isDeleted o' vs.
Proof.
  intros Hne. destruct vs as [|v vs]; [done|]. cbn. case_bool_decide; [|done]. cbn. apply bool_decide_ext. set_solver.
Qed.

(** ** Sequences of operations *)

Inductive op := New_ o | Keep_ o (keep : bool) | Deleted_ o | SetType (t : Type_).

Definition run_op (c : op) gs : option (list gbxAutoGarb) :=
  match c with
  | New_ o => addObject o gs
  | Keep_ o keep => keepObject o keep gs
  | Deleted_ o => markObjectDeleted o gs
  | SetType t => Some (restore t gs)
  end.
Definition s_run_op (c : op) vs : list scope :=
  match c with
  | New_ o => s_addObject o vs
  | Keep_ o keep => s_keepObject o keep vs
  | Deleted_ o => s_markDeleted o vs
  | SetType t => match vs with [] => [] | v :: vs => mk_scope (td v) (dels v) (bool_decide (t = SUSPEND)) (keep_all v) (ids v) (nxt v) :: vs end
  end.
(** The address of a new object is not that of an object the current scope knows. *)
Definition new_address (c : op) vs : Prop :=
  match c, vs with New_ o, v :: _ => td v !! o = None /\ o ∉ dels v | _, _ => True end.

Fixpoint run (cs : list op) gs : option (list gbxAutoGarb) :=
  match cs with [] => Some gs | c :: cs => gs ← run_op c gs; run cs gs end.
Fixpoint s_run (cs : list op) vs : list scope := match cs with [] => vs | c :: cs => s_run cs (s_run_op c vs) end.
Fixpoint new_addresses (cs : list op) vs : Prop :=
  match cs with [] => True | c :: cs => new_address c vs /\ new_addresses cs (s_run_op c vs) end.

Lemma run_op_reps c gs vs : reps gs vs -> new_address c vs -> exists gs', run_op c gs = Some gs' /\ reps gs' (s_run_op c vs).
Proof.
  intros R Hn. destruct c; cbn.
  - apply addObject_reps; [done|]. destruct vs; [done|]. by intros ? [= <-].
  - by apply keepObject_reps.
  - by apply markObjectDeleted_reps.
  - eexists. split; [done|]. by apply restore_reps.
Qed.

(** C29: the scopes of automatic garbage collection, with their two hash tables of
    registrations, implement maps from the live objects to whether they are kept and
    sets of the deleted ones, while no address is used again: any sequence of
    creations, keepings, deletions and suspensions ends with tables that represent
    what it does on the maps and sets, isObjectDeleted and isObjRegistered answer from
    them, and the counts that garbage asserts are exact. *)
Theorem auto_garb_refines cs gs vs : reps gs vs -> new_addresses cs vs ->
  exists gs', run cs gs = Some gs' /\ reps gs' (s_run cs vs)
    /\ (forall o, isObjectDeleted o gs' = Some (s_isDeleted o (s_run cs vs)))
    /\ (forall g v, head gs' = Some g -> head (s_run cs vs) = Some v ->
          (forall o, isObjRegistered o g = Some (bool_decide (is_Some (td v !! o) \/ o ∈ dels v)))
          /\ (Z.of_nat (size (td v)) < 2 ^ 32 -> exists l, collect_regs g = Some l
                /\ Z.of_nat (length l) = pending_count (td v))).
Proof.
  revert gs vs. induction cs as [|c cs IH]; intros gs vs R Hn; cbn.
  - exists gs. split_and!; [done|done|by intros; apply isObjectDeleted_reps|]. intros g v Hg Hv.
    assert (rep g v) as Rv by (by destruct R; [|injection Hg as ->; injection Hv as ->]). split.
    + by apply isObjRegistered_spec.
    + intros Hs. destruct (collect_spec g v Rv Hs) as (l & E & _). exists l. split; [done|].
      unfold collect_regs in E. destruct (to_delete_of _ _) as [l'|]; [|done]. cbn in E. destruct (Z.eqb_spec (Z.of_nat (length l')) (todelete_cnt g)) as [Ec|]; [|done].
      injection E as <-. rewrite Ec, (rep_todelete _ _ Rv), u32_id; [done|]. unfold pending_count, pending.
      pose proof (map_size_filter is_pending (td v)). lia.
  - destruct Hn as [Hc Hn]. destruct (run_op_reps c gs vs R Hc) as (gs1 & -> & R1). cbn. by apply IH.
Qed.

(** *** Examples *)

Module Example.

(** Two scopes: an object is created in the first and kept in the second, and another,
    whose address falls in the same list of the tables, is deleted. *)
Definition two_scopes : list gbxAutoGarb := [new_garb NoType 1; new_garb NoType 4].
Definition two_scopes_v : list scope := [mk_scope ∅ ∅ false false ∅ 1; mk_scope ∅ ∅ false false ∅ 1].

Lemma two_scopes_reps : reps two_scopes two_scopes_v.
Proof. apply Forall2_cons_2, Forall2_cons_2, Forall2_nil_2; [by apply (new_garb_rep NoType 0)|by apply (new_garb_rep NoType 2)]. Qed.

Lemma auto_garb_refines_witness : exists gs', run [New_ 16; New_ 80; Deleted_ 16; Keep_ 80 true] two_scopes = Some gs'
  /\ isObjectDeleted 16 gs' = Some true /\ isObjectDeleted 80 gs' = Some false.
Proof.
  destruct (auto_garb_refines [New_ 16; New_ 80; Deleted_ 16; Keep_ 80 true] two_scopes two_scopes_v two_scopes_reps)
    as (gs' & E & _ & D & _).
  - cbn. unfold new_address. cbn. repeat split; try (vm_compute; reflexivity); vm_compute; set_solver.
  - exists gs'. split; [exact E|]. split; [exact (D 16)|exact (D 80)].
Defined.

(** An object may be registered in two scopes when its address is used again: the
    second one does not know that the first deleted it. *)
Example deleted_then_new_scope :
  (gs ← run [New_ 16; Deleted_ 16] two_scopes; isObjectDeleted 16 gs) = Some true
  /\ (gs ← run [New_ 16; Deleted_ 16; New_ 16] two_scopes; isObjectDeleted 16 gs) = Some true
  /\ (gs ← run [New_ 16; Deleted_ 16] two_scopes; isObjectDeleted 16 (tail gs)) = Some false.
Proof. repeat split; vm_compute; reflexivity. Qed.

Example not_a_power : init NoType 24 = None.
Proof. vm_compute. reflexivity. Qed.

End Example.
