(* ===== verification/Gbx.v ===== *)
(** * Counted objects

    src/eyedb/gbx.cc: class gbxObject, from which every object of the client
    derives, with its reference count, and the parts of Agregat.cc and
    Attribute.cc by which a structure gives back the objects its attributes point
    to (garbage) and looks for the cycles it is in (manageCycle). An object is
    known by its address; [slots] are the pointers in its volatile part, those of
    its attributes one after the other, which are direct or indirect and of a
    class that is not basic. An object that is freed is not in [objs] any more, so
    that a use of it is [None], as are abort() and a failed assertion; counts are
    integers without bound. The scopes of automatic garbage collection are those of
    [AutoGarb]. Observers, tags, locks by the program, objects on the stack and the
    attributes of variable dimension are not in the model, nor are the caches and
    the coded form that Object::garbage frees, and the oid and the hints that
    setValue also stores. *)

From stdpp Require Import gmultiset relations.
From S2P Require Import Prelude AutoGarb.

#[local] Set Warnings "-register-all,-clear-no-such-hyp".

Inductive gbx_magic_value := ValidObject | DeletedObject.
#[export] Instance gbx_magic_value_eq : EqDecision gbx_magic_value.
Proof. solve_decision. Defined.

Record gbxObject := mk_object {
  gbx_magic : gbx_magic_value; gbx_refcnt : Z; gbx_locked : bool; gbx_isonstack : bool;
  gbx_activeDestruction : bool; gbx_chgRefCnt : bool; slots : list (option Z) }.

Record memory := mk_memory { objs : gmap Z gbxObject; obj_cnt : Z; garbs : list gbxAutoGarb }.

Implicit Types (o : gbxObject) (l p : Z) (m : memory) (h : gmap Z gbxObject).

Definition set_magic (k : gbx_magic_value) o : gbxObject :=
  mk_object k (gbx_refcnt o) (gbx_locked o) (gbx_isonstack o) (gbx_activeDestruction o) (gbx_chgRefCnt o) (slots o).
Definition set_refcnt (n : Z) o : gbxObject :=
  mk_object (gbx_magic o) n (gbx_locked o) (gbx_isonstack o) (gbx_activeDestruction o) (gbx_chgRefCnt o) (slots o).
Definition set_active (b : bool) o : gbxObject :=
  mk_object (gbx_magic o) (gbx_refcnt o) (gbx_locked o) (gbx_isonstack o) b (gbx_chgRefCnt o) (slots o).
Definition set_chg (b : bool) o : gbxObject :=
  mk_object (gbx_magic o) (gbx_refcnt o) (gbx_locked o) (gbx_isonstack o) (gbx_activeDestruction o) b (slots o).
Definition set_slot (i : nat) (p : option Z) o : gbxObject :=
  mk_object (gbx_magic o) (gbx_refcnt o) (gbx_locked o) (gbx_isonstack o) (gbx_activeDestruction o) (gbx_chgRefCnt o)
    (<[i := p]> (slots o)).

(** A change of one object, that must be in memory. *)
Definition update l (f : gbxObject -> option gbxObject) m : option memory :=
  o ← objs m !! l; o ← f o; Some (mk_memory (<[l := o]> (objs m)) (obj_cnt m) (garbs m)).
Definition with_objs (h : gmap Z gbxObject) m : memory := mk_memory h (obj_cnt m) (garbs m).

(** gbxObject::isValidObject *)
Definition isValidObject o : bool := bool_decide (gbx_magic o = ValidObject).

Definition incrRefCount l m : option memory :=
  update l (fun o => if isValidObject o then Some (if gbx_chgRefCnt o then o else set_refcnt (gbx_refcnt o + 1) o) else None) m.

Definition decrRefCount l m : option memory :=
  update l (fun o =>
    if isValidObject o then
      let o := if gbx_chgRefCnt o then o else set_refcnt (gbx_refcnt o - 1) o in
      if gbx_refcnt o <? 0 then None else Some o
    else None) m.

(** ** Cycles *)

(** Attribute::manageCycle: the loop on the slots, [go] being the virtual
    manageCycle of the objects. The context [ref] is that of gbxCycleContext; the
    boolean is its [cycle]. *)
Fixpoint manageSlots (go : Z -> gmap Z gbxObject * bool -> option (gmap Z gbxObject * bool))
    (gs : list gbxAutoGarb) (ref l : Z) (ix : list nat) (s : gmap Z gbxObject * bool)
  : option (gmap Z gbxObject * bool) :=
  match ix with
  | [] => Some s
  | i :: ix =>
      if s.2 then Some s
      else
        o ← s.1 !! l;
        p ← slots o !! i;
        match p with
        | None => manageSlots go gs ref l ix s
        | Some p =>
            d ← isObjectDeleted p gs;
            if d : bool then manageSlots go gs ref l ix s
            else
              s ← go p s;
              s ← (if p =? ref then o ← s.1 !! l; Some (<[l := set_slot i None o]> s.1, s.2) else Some s);
              manageSlots go gs ref l ix s
        end
  end.

(** Agregat::manageCycle; gbxCycleContext::manageCycle is the test of [ref]. *)
Fixpoint manageCycle (fuel : nat) (gs : list gbxAutoGarb) (ref l : Z) (s : gmap Z gbxObject * bool)
  : option (gmap Z gbxObject * bool) :=
  match fuel with
  | O => None
  | S fuel =>
      o ← s.1 !! l;
      if s.2 then Some s
      else if gbx_chgRefCnt o then Some (s.1, s.2 || (l =? ref))
      else
        s ← manageSlots (manageCycle fuel gs ref) gs ref l (seq 0 (length (slots o))) (<[l := set_chg true o]> s.1, s.2);
        o ← s.1 !! l;
        Some (<[l := set_chg false o]> s.1, s.2)
  end.

(** ** Releasing *)

(** Agregat::garbage and Attribute::garbage, [release_r] being that of the objects. *)
Fixpoint garbage (release_r : Z -> memory -> option memory) (l : Z) (ix : list nat) m : option memory :=
  match ix with
  | [] => Some m
  | i :: ix =>
      o ← objs m !! l;
      p ← slots o !! i;
      match p with
      | None => garbage release_r l ix m
      | Some p =>
          d ← isObjectDeleted p (garbs m);
          if d : bool then garbage release_r l ix m
          else
            po ← objs m !! p;
            m ← release_r p m;
            m ← (if gbx_refcnt po =? 0 then update l (fun o => Some (set_slot i None o)) m else Some m);
            garbage release_r l ix m
      end
  end.

(** The end of gbxObject::garbageRealize. *)
Definition destroy (release_r : Z -> memory -> option memory) l m : option memory :=
  o ← objs m !! l;
  if (gbx_refcnt o =? 0) && negb (gbx_locked o) then
    gs ← (if gbx_isonstack o then Some (garbs m) else markObjectDeleted l (garbs m));
    m ← garbage release_r l (seq 0 (length (slots o))) (mk_memory (objs m) (obj_cnt m - 1) gs);
    update l (fun o => Some (set_magic DeletedObject o)) m
  else Some m.

(** gbxObject::garbageRealize, with [remove]. *)
Definition garbageRealize (fuel : nat) (release_r : Z -> memory -> option memory) (reentrant : bool) l m
  : option memory :=
  o ← objs m !! l;
  if gbx_activeDestruction o then Some m
  else
    let o := set_active true o in
    let o := if if reentrant then gbx_refcnt o <? 0 else gbx_refcnt o <? 1 then set_refcnt 1 o else o in
    let m := with_objs (<[l := o]> (objs m)) m in
    if negb (isValidObject o) then None
    else if gbx_locked o then Some m
    else
      m ← decrRefCount l m;
      m ← (if reentrant then Some m
           else
             '(h, cycle) ← manageCycle fuel (garbs m) l l (objs m, false);
             if cycle : bool then decrRefCount l (with_objs h m) else Some (with_objs h m));
      destroy release_r l m.

(** gbxObject::release_realize; [true] is release_r(), [false] is release(). *)
Fixpoint release_realize (fuel : nat) (reentrant : bool) l m : option memory :=
  match fuel with
  | O => None
  | S fuel =>
      o ← objs m !! l;
      if gbx_activeDestruction o then Some m
      else
        m ← garbageRealize fuel (release_realize fuel true) reentrant l m;
        m ← update l (fun o => Some (set_active false o)) m;
        o ← objs m !! l;
        if negb (gbx_isonstack o) && (gbx_refcnt o =? 0) && negb (gbx_locked o)
        then Some (with_objs (delete l (objs m)) m) else Some m
  end.

Definition release (fuel : nat) l m : option memory := release_realize fuel false l m.

(** ** The operations of a program *)

(** The constructor of an object with [n] slots, at an address where nothing is. *)
Definition new_object l (n : nat) m : option memory :=
  match objs m !! l with
  | Some _ => None
  | None =>
      gs ← addObject l (garbs m);
      Some (mk_memory (<[l := mk_object ValidObject 1 false false false false (replicate n None)]> (objs m))
              (obj_cnt m + 1) gs)
  end.

Definition keep l m : option memory := gs ← keepObject l true (garbs m); Some (mk_memory (objs m) (obj_cnt m) gs).
Definition unkeep l m : option memory := gs ← keepObject l false (garbs m); Some (mk_memory (objs m) (obj_cnt m) gs).

Inductive set_status := Success | StackObject | BadClass.

(** Attribute::setValue of one element of an indirect attribute, whose pointer is the
    slot [i]; [ok] is the answer of check_type. *)
Definition setValue (fuel : nat) l (i : nat) (new : option Z) (ok : bool) m : option (set_status * memory) :=
  o ← objs m !! l;
  old ← slots o !! i;
  if bool_decide (old = new) then Some (Success, m)
  else
    stack ← match new with Some p => po ← objs m !! p; Some (gbx_isonstack po) | None => Some false end;
    if stack : bool then Some (StackObject, m)
    else
      m ← match old with Some q => release fuel q m | None => Some m end;
      match new with
      | Some p =>
          if ok then
            m ← incrRefCount p m;
            m ← update l (fun o => Some (set_slot i new o)) m;
            Some (Success, m)
          else
            m ← match old with Some q => incrRefCount q m | None => Some m end;
            Some (BadClass, m)
      | None => m ← update l (fun o => Some (set_slot i None o)) m; Some (Success, m)
      end.

(** The constructor and the destructor of a gbxAutoGarb. *)
Definition open_scope (n : Z) m : option memory :=
  g ← init NoType n; Some (mk_memory (objs m) (obj_cnt m) (g :: garbs m)).

Fixpoint release_regs (fuel : nat) (rs : list positive) m : option memory :=
  match rs with
  | [] => Some m
  | r :: rs =>
      g ← head (garbs m);
      reg ← regs g !! r;
      match state reg with
      | ToDelete =>
          o ← objs m !! reg_o reg;
          m ← (if gbx_refcnt o =? 0 then Some m else release fuel (reg_o reg) m);
          release_regs fuel rs m
      | _ => release_regs fuel rs m
      end
  end.

(** gbxAutoGarb::garbage *)
Definition close_scope (fuel : nat) m : option memory :=
  g ← head (garbs m);
  m ← (if keepobjs g then Some m else rs ← collect_regs g; release_regs fuel rs m);
  Some (mk_memory (objs m) (obj_cnt m) (tail (garbs m))).

(** ** References

    The references of a heap are the pointers in the slots of its objects, counted
    with their repetitions; [ext] are those that the program and the scopes hold. *)

Definition pointers (s : list (option Z)) : gmultiset Z := list_to_set_disj (omap id s).
Definition token (p : option Z) : gmultiset Z := match p with Some p => {[+ p +]} | None => ∅ end.
Definition refs_of o : gmultiset Z := pointers (slots o).
Definition refs h : gmultiset Z := map_fold (fun _ o r => refs_of o ⊎ r) ∅ h.

Definition quiet o : Prop :=
  gbx_magic o = ValidObject /\ gbx_locked o = false /\ gbx_isonstack o = false
  /\ gbx_activeDestruction o = false /\ gbx_chgRefCnt o = false.

(** The counts are exact, [x] being possibly an object that nothing refers to, and
    no scope takes an object that is alive for a deleted one. *)
Record counted (x : option Z) h (ext : gmultiset Z) (vs : list scope) : Prop := {
  c_quiet : forall l o, h !! l = Some o -> quiet o;
  c_count : forall l o, h !! l = Some o -> gbx_refcnt o = Z.of_nat (multiplicity l (ext ⊎ refs h));
  c_live : forall l, l ∈ ext ⊎ refs h -> is_Some (h !! l);
  c_pos : forall l o, h !! l = Some o -> Some l <> x -> 0 < gbx_refcnt o;
  c_known : forall l v, is_Some (h !! l) -> v ∈ vs -> l ∉ dels v }.

Definition edge h l p : Prop := exists o, h !! l = Some o /\ Some p ∈ slots o.

Lemma refs_insert h l o : h !! l = None -> refs (<[l := o]> h) = refs_of o ⊎ refs h.
Proof.
  intros H. unfold refs. rewrite map_fold_insert_L; [done| |done]. intros. multiset_solver.
Qed.
Lemma refs_delete h l o : h !! l = Some o -> refs h = refs_of o ⊎ refs (delete l h).
Proof. intros H. rewrite <- (insert_delete_id h l o) at 1 by done. by rewrite refs_insert by apply lookup_delete_eq. Qed.
Lemma refs_update h l o o' : h !! l = Some o -> refs_of o ⊎ refs (<[l := o']> h) = refs_of o' ⊎ refs h.
Proof.
  intros H. rewrite (refs_delete h l o H), <- insert_delete_eq, refs_insert by apply lookup_delete_eq. multiset_solver.
Qed.
Lemma refs_same h l o o' : h !! l = Some o -> slots o' = slots o -> refs (<[l := o']> h) = refs h.
Proof.
  intros H E. pose proof (refs_update h l o o' H) as U. unfold refs_of in U. rewrite E in U. multiset_solver.
Qed.

Lemma pointers_app s s' : pointers (s ++ s') = pointers s ⊎ pointers s'.
Proof. unfold pointers. by rewrite omap_app, list_to_set_disj_app. Qed.
Lemma elem_of_pointers p s : p ∈ pointers s <-> Some p ∈ s.
Proof.
  unfold pointers. rewrite elem_of_list_to_set_disj, list_elem_of_omap. split; [by intros (q & Hq & E); cbn in E; subst q|intros H; by exists (Some p)].
Qed.
Lemma pointers_cons (p : option Z) s : pointers (p :: s) = token p ⊎ pointers s.
Proof. destruct p; [done|]. symmetry. apply (left_id ∅ (⊎)). Qed.
Lemma pointers_insert s (i : nat) (p q : option Z) : s !! i = Some p ->
  token p ⊎ pointers (<[i := q]> s)
  = token q ⊎ pointers s.
Proof.
  intros H. pose proof (take_drop_middle s i p H) as E. pose proof (lookup_lt_Some _ _ _ H).
  rewrite insert_take_drop by done. rewrite <- E at 3. rewrite !pointers_app, !pointers_cons. multiset_solver.
Qed.

Lemma elem_of_refs h p : p ∈ refs h <-> exists l, edge h l p.
Proof.
  induction h as [|l o h Hl IH] using map_ind.
  - split; [unfold refs; rewrite map_fold_empty; multiset_solver|]. intros (l & o & E & _). by rewrite lookup_empty in E.
  - rewrite refs_insert by done. rewrite gmultiset_elem_of_disj_union, IH. unfold refs_of. rewrite elem_of_pointers. split.
    + intros [Hp|(l' & o' & E & Hp)].
      * exists l, o. by rewrite lookup_insert_eq.
      * exists l', o'. by rewrite lookup_insert_ne by congruence.
    + intros (l' & o' & [[<- <-]|[Hne E]]%lookup_insert_Some & Hp); [by left|right]. by exists l', o'.
Qed.

(** ** The search of cycles *)

Definition closed h vs : Prop :=
  forall l p, edge h l p -> is_Some (h !! p) /\ s_isDeleted p vs = false.

Definition unmarked h : nat := size (filter (fun lo => gbx_chgRefCnt lo.2 = false) h).
Definition marked h l : Prop := exists o, h !! l = Some o /\ gbx_chgRefCnt o = true.

(** One pointer to [ref], of an object reachable from [l], is erased. *)
Definition erased (ref l : Z) h h' : Prop := exists p o i,
  h !! p = Some o /\ slots o !! i = Some (Some ref) /\ rtc (edge h) l p /\ h' = <[p := set_slot i None o]> h.

Definition searched (ref l : Z) h h' (c : bool) : Prop :=
  if c then erased ref l h h' else h' = h.

Lemma edge_same h l o o' : h !! l = Some o -> slots o' = slots o -> forall a b, edge (<[l := o']> h) a b <-> edge h a b.
Proof.
  intros H E a b. unfold edge. destruct (decide (a = l)) as [->|Hne].
  - rewrite lookup_insert_eq, H. split; intros (x & [= <-] & Hx); eexists; (split; [done|]); congruence.
  - by rewrite lookup_insert_ne by done.
Qed.

Lemma rtc_iff {A} (R R' : relation A) x y : (forall a b, R a b <-> R' a b) -> rtc R x y -> rtc R' x y.
Proof. intros H. apply rtc_subrel. intros a b. apply H. Qed.

Lemma unmarked_mark h l o : h !! l = Some o -> gbx_chgRefCnt o = false ->
  (unmarked h = S (unmarked (<[l := set_chg true o]> h)))%nat.
Proof.
  intros H Hc. unfold unmarked. rewrite map_filter_insert_False by done.
  rewrite map_filter_delete, map_size_delete_Some by (exists o; by apply map_lookup_filter_Some).
  enough (size (filter (fun lo => gbx_chgRefCnt lo.2 = false) h) <> 0%nat) by lia.
  apply map_size_ne_0_lookup. exists l, o. by apply map_lookup_filter_Some.
Qed.

Lemma set_chg_back h l o : h !! l = Some o -> gbx_chgRefCnt o = false -> <[l := set_chg false (set_chg true o)]> h = h.
Proof. intros H Hc. apply insert_id. rewrite H. f_equal. destruct o; cbn in *. by subst. Qed.

Section Cycle.
Context (gs : list gbxAutoGarb) (vs : list scope) (R : reps gs vs) (ref : Z).

Definition go_spec (go : Z -> gmap Z gbxObject * bool -> option (gmap Z gbxObject * bool)) (n : nat) : Prop :=
  forall h l, closed h vs -> is_Some (h !! l) -> marked h ref -> (unmarked h < n)%nat ->
    exists h' c, go l (h, false) = Some (h', c)
      /\ (searched ref l h h' c \/ c = true /\ l = ref /\ h' = h) /\ (l = ref -> c = true /\ h' = h).

Lemma manageSlots_spec go n h l o ix : go_spec go n -> closed h vs -> h !! l = Some o -> marked h ref ->
  (unmarked h < n)%nat -> (forall i, i ∈ ix -> (i < length (slots o))%nat) ->
  exists h' c, manageSlots go gs ref l ix (h, false) = Some (h', c) /\ searched ref l h h' c.
Proof.
  intros Hgo Hcl Hl Hm Hn. induction ix as [|i ix IH]; intros Hix; cbn [manageSlots].
  { by exists h, false. }
  cbn. rewrite Hl. cbn. destruct (lookup_lt_is_Some_2 (slots o) i) as [p Hp]; [apply Hix; by left|]. rewrite Hp. cbn.
  assert (forall j, j ∈ ix -> (j < length (slots o))%nat) as Hix' by (intros; apply Hix; by right).
  destruct p as [p|]; [|by apply IH].
  assert (edge h l p) as He by (exists o; split; [done|]; by eapply list_elem_of_lookup_2).
  destruct (Hcl _ _ He) as [Hlive Hd]. rewrite (isObjectDeleted_reps _ _ _ R), Hd. cbn.
  destruct (Hgo h p Hcl Hlive Hm Hn) as (h' & c & -> & Hs & Hr). cbn. destruct (Z.eqb_spec p ref) as [->|Hne].
  - destruct (Hr eq_refl) as [-> ->]. rewrite Hl. cbn. exists (<[l := set_slot i None o]> h), true. split.
    + by destruct ix.
    + by exists l, o, i.
  - cbn. destruct Hs as [Hs|(_ & ? & _)]; [|done]. destruct c; cbn in Hs.
    + exists h', true. split; [by destruct ix|]. destruct Hs as (q & oq & j & ? & ? & Hpath & ->). exists q, oq, j.
      split_and!; try done. by eapply rtc_l.
    + subst h'. by apply IH.
Qed.

Lemma closed_same h l o o' : h !! l = Some o -> slots o' = slots o -> closed h vs -> closed (<[l := o']> h) vs.
Proof.
  intros H E Hc a b He%(edge_same h l o o' H E). destruct (Hc _ _ He) as [Hs Hd]. split; [|done].
  apply lookup_insert_is_Some. destruct (decide (l = b)); auto.
Qed.

(** The search from an object that is not marked. *)
Lemma manageCycle_step n h l o : go_spec (manageCycle n gs ref) n -> closed h vs -> h !! l = Some o -> gbx_chgRefCnt o = false ->
  (l = ref \/ marked h ref) -> (unmarked h < S n)%nat ->
  exists h' c, manageCycle (S n) gs ref l (h, false) = Some (h', c) /\ searched ref l h h' c.
Proof.
  intros Hgo Hcl Hl Hc Hm Hn. cbn [manageCycle fst snd]. rewrite Hl. cbn. rewrite Hc. set (h1 := <[l := set_chg true o]> h).
  assert (h1 !! l = Some (set_chg true o)) as Hl1 by apply lookup_insert_eq.
  destruct (manageSlots_spec (manageCycle n gs ref) n h1 l (set_chg true o) (seq 0 (length (slots o)))) as (h' & c & -> & Hs); try done.
  - by eapply closed_same.
  - destruct Hm as [->|(r & Hr & Hrc)]; [by exists (set_chg true o)|]. destruct (decide (ref = l)) as [->|].
    + by exists (set_chg true o).
    + exists r. unfold h1. by rewrite lookup_insert_ne.
  - rewrite (unmarked_mark h l o) in Hn by done. unfold h1. lia.
  - intros i [_ ?]%elem_of_seq. done.
  - cbn [mbind option_bind fst snd]. destruct c; cbn in Hs.
    + destruct Hs as (p & q & i & Hp & Hi & Hpath & ->). assert (rtc (edge h) l p) as Hpath'.
      { eapply rtc_iff, Hpath. by apply edge_same with (o := o). }
      destruct (decide (p = l)) as [->|Hne].
      * assert (q = set_chg true o) as -> by congruence. rewrite lookup_insert_eq. cbn. eexists _, true. split; [done|].
        exists l, o, i. split_and!; try done. unfold h1. rewrite !insert_insert_eq. f_equal. destruct o; cbn in *. by subst.
      * rewrite lookup_insert_ne, Hl1 by done. cbn. eexists _, true. split; [done|].
        exists p, q, i. unfold h1 in Hp. rewrite lookup_insert_ne in Hp by done. split_and!; try done.
        rewrite insert_insert_ne by done. unfold h1. rewrite insert_insert_eq.
        f_equal. by apply set_chg_back.
    + subst h'. rewrite Hl1. cbn. eexists _, false. split; [done|]. cbn. unfold h1. rewrite insert_insert_eq. by apply set_chg_back.
Qed.

Lemma manageCycle_spec n : go_spec (manageCycle n gs ref) n.
Proof.
  induction n as [|n IH]; intros h l Hcl [o Hl] Hm Hn; [lia|]. destruct (gbx_chgRefCnt o) eqn:Hc.
  - cbn [manageCycle fst snd]. rewrite Hl. cbn. rewrite Hc. exists h, (l =? ref). split; [done|].
    destruct (Z.eqb_spec l ref); split; auto; try (by left). 
  - destruct (manageCycle_step n h l o IH Hcl Hl Hc (or_intror Hm) Hn) as (h' & c & E & Hs). exists h', c.
    split; [done|]. split; [by left|]. intros ->. destruct Hm as (r & Hr & ?). congruence.
Qed.
End Cycle.

(** ** Giving references back *)

Definition marks (ds : list Z) vs : list scope := foldl (fun vs d => s_markDeleted d vs) vs ds.

(** [h'] is what is left of [h], with the scopes told of what was deleted. *)
Record released h h' (ext : gmultiset Z) vs vs' : Prop := {
  rl_counted : counted None h' ext vs';
  rl_sub : forall l o', h' !! l = Some o' -> exists o, h !! l = Some o /\ o' = set_refcnt (gbx_refcnt o') o;
  rl_marks : exists ds, vs' = marks ds vs /\ forall d, d ∈ ds -> is_Some (h !! d) /\ h' !! d = None }.

Lemma set_refcnt_id o : set_refcnt (gbx_refcnt o) o = o.
Proof. by destruct o. Qed.
Lemma set_active_back o : gbx_activeDestruction o = false -> set_active false (set_active true o) = o.
Proof. destruct o; cbn. by intros ->. Qed.

Lemma released_trans h h1 h2 ext1 ext vs vs1 vs2 : released h h1 ext1 vs vs1 -> released h1 h2 ext vs1 vs2 -> released h h2 ext vs vs2.
Proof.
  intros [_ S1 (ds1 & -> & D1)] [C2 S2 (ds2 & -> & D2)]. split; [done| |].
  - intros l o2 H2. destruct (S2 _ _ H2) as (o1 & H1 & E1). destruct (S1 _ _ H1) as (o & H & E). exists o. split; [done|].
    rewrite E1, E. by destruct o.
  - exists (ds1 ++ ds2). split; [unfold marks; by rewrite foldl_app|]. intros d [Hd|Hd]%elem_of_app.
    + destruct (D1 _ Hd) as [? Hn]. split; [done|]. apply eq_None_not_Some. intros [o2 H2].
      destruct (S2 _ _ H2) as (o1 & H1 & _). congruence.
    + destruct (D2 _ Hd) as [[o1 H1] ?]. split; [|done]. destruct (S1 _ _ H1) as (o & Ho & _). by exists o.
Qed.

Lemma released_dom h h' ext vs vs' l : released h h' ext vs vs' -> h !! l = None -> h' !! l = None.
Proof. intros [_ S _] H. apply eq_None_not_Some. intros [o' H']. destruct (S _ _ H') as (o & ? & _). congruence. Qed.
Lemma released_disjoint h h' ext vs vs' F : released h h' ext vs vs' -> h ##ₘ F -> h' ##ₘ F.
Proof.
  intros Rl HF. apply map_disjoint_alt. intros l. destruct (h !! l) eqn:E.
  - right. destruct (proj1 (map_disjoint_alt _ _) HF l); [congruence|done].
  - left. by eapply released_dom.
Qed.
Lemma released_size h h' ext vs vs' : released h h' ext vs vs' -> (size h' <= size h)%nat.
Proof.
  intros [_ S _]. rewrite <- !size_dom. apply subseteq_size. intros l. rewrite !elem_of_dom.
  intros [o' H']. destruct (S _ _ H') as (o & ? & _). by exists o.
Qed.

Lemma dels_mark vs l v : v ∈ s_markDeleted l vs -> exists v', v' ∈ vs /\ dels v ⊆ {[l]} ∪ dels v'.
Proof.
  induction vs as [|v0 vs IH]; cbn; [by intros ?%not_elem_of_nil|]. case_bool_decide.
  - intros [->|Hv]%elem_of_cons; [exists v0|exists v]; (split; [by constructor|set_solver]).
  - intros [->|Hv]%elem_of_cons; [exists v0; split; [by left|set_solver]|]. destruct (IH Hv) as (v' & ? & ?). exists v'. split; [by right|done].
Qed.

Lemma known_head x h ext vs l : counted x h ext vs -> is_Some (h !! l) -> s_isDeleted l vs = false.
Proof.
  intros C Hl. destruct vs as [|v vs]; [done|]. cbn. apply bool_decide_eq_false_2. eapply (c_known _ _ _ _ C); [done|by left].
Qed.

Lemma counted_closed x h ext vs : counted x h ext vs -> closed h vs.
Proof.
  intros C l p He. assert (p ∈ refs h) as Hp by (apply elem_of_refs; by exists l).
  assert (is_Some (h !! p)) as Hs by (apply (c_live _ _ _ _ C); multiset_solver). split; [done|]. by eapply known_head.
Qed.

Lemma counted_token x h ext vs l : counted x h ({[+ l +]} ⊎ ext) vs -> is_Some (h !! l).
Proof. intros C. apply (c_live _ _ _ _ C). multiset_solver. Qed.

(** A reference is given back: its count is one less. *)
Lemma counted_decr x h ext vs l o : counted x h ({[+ l +]} ⊎ ext) vs -> x = None \/ x = Some l -> h !! l = Some o ->
  1 <= gbx_refcnt o /\ counted (Some l) (<[l := set_refcnt (gbx_refcnt o - 1) o]> h) ext vs.
Proof.
  intros C Hx Hl. pose proof (c_count _ _ _ _ C _ _ Hl) as Hc. split.
  { rewrite Hc, !multiplicity_disj_union, multiplicity_singleton, decide_True by done. lia. }
  assert (refs (<[l := set_refcnt (gbx_refcnt o - 1) o]> h) = refs h) as Hr by by apply refs_same with (o := o).
  split.
  - intros p q [[<- <-]|[_ Hp]]%lookup_insert_Some; [apply (c_quiet _ _ _ _ C _ _ Hl)|apply (c_quiet _ _ _ _ C _ _ Hp)].
  - rewrite Hr. intros p q [[<- <-]|[Hne Hp]]%lookup_insert_Some; cbn.
    + rewrite Hc, !multiplicity_disj_union, multiplicity_singleton, decide_True by done. lia.
    + rewrite (c_count _ _ _ _ C _ _ Hp), !multiplicity_disj_union, multiplicity_singleton, decide_False by done. lia.
  - rewrite Hr. intros p Hp. apply lookup_insert_is_Some. destruct (decide (l = p)) as [|Hne]; [by left|right]. split; [done|].
    apply (c_live _ _ _ _ C). multiset_solver.
  - intros p q [[<- <-]|[Hne Hp]]%lookup_insert_Some Hpx; [done|]. apply (c_pos _ _ _ _ C _ _ Hp). destruct Hx as [-> | ->]; congruence.
  - intros p v Hp Hv. apply (c_known _ _ _ _ C); [|done]. apply lookup_insert_is_Some in Hp as [<-|[_ ?]]; [by exists o|done].
Qed.

(** A pointer that is erased is a reference to give back. *)
Lemma counted_slot x h ext ext' vs p q i r r' : counted x h ext vs -> h !! p = Some q -> slots q !! i = Some r ->
  ext' ⊎ token r' = ext ⊎ token r ->
  counted x (<[p := set_slot i r' q]> h) ext' vs.
Proof.
  intros C Hp Hi He.
  assert (ext' ⊎ refs (<[p := set_slot i r' q]> h) = ext ⊎ refs h) as Hr.
  { pose proof (refs_update h p q (set_slot i r' q) Hp) as U. change (refs_of (set_slot i r' q)) with (pointers (<[i := r']> (slots q))) in U. unfold refs_of in U.
    pose proof (pointers_insert (slots q) i r r' Hi) as V. apply gmultiset_eq. intros a.
    apply (f_equal (multiplicity a)) in U, V, He. rewrite !multiplicity_disj_union in *. lia. }
  split.
  - intros a b [[<- <-]|[_ Ha]]%lookup_insert_Some; [apply (c_quiet _ _ _ _ C _ _ Hp)|apply (c_quiet _ _ _ _ C _ _ Ha)].
  - rewrite Hr. intros a b [[<- <-]|[_ Ha]]%lookup_insert_Some; cbn; by apply (c_count _ _ _ _ C).
  - rewrite Hr. intros a Ha. apply lookup_insert_is_Some. destruct (decide (p = a)) as [|Hne]; [by left|right]. split; [done|].
    by apply (c_live _ _ _ _ C).
  - intros a b [[<- <-]|[_ Ha]]%lookup_insert_Some Hx; cbn; by eapply (c_pos _ _ _ _ C).
  - intros a v Ha Hv. apply (c_known _ _ _ _ C); [|done]. apply lookup_insert_is_Some in Ha as [<-|[_ ?]]; [by exists q|done].
Qed.

(** *** Patches

    setValue releases the old object before it stores the new pointer, so that one
    slot still has the old pointer while its reference is given back. [plain pt h] is
    the heap as it is in memory when the references are those of [h]. *)
Definition spatch : Type := option (Z * nat * option Z).
Implicit Types pt : spatch.

Definition at_patch pt l : Prop := match pt with Some (l0, _, _) => l = l0 | None => False end.
Definition pobj pt l o : gbxObject :=
  match pt with Some (l0, i, q) => if decide (l = l0) then set_slot i q o else o | None => o end.
Definition plain pt h : gmap Z gbxObject := map_imap (fun l o => Some (pobj pt l o)) h.

Lemma plain_none h : plain None h = h.
Proof. apply map_eq. intros l. unfold plain. rewrite map_lookup_imap. by destruct (h !! l). Qed.
Lemma plain_lookup pt h l : plain pt h !! l = pobj pt l <$> h !! l.
Proof. unfold plain. rewrite map_lookup_imap. by destruct (h !! l). Qed.
Lemma plain_insert pt h l o : plain pt (<[l := o]> h) = <[l := pobj pt l o]> (plain pt h).
Proof. apply map_eq. intros p. rewrite plain_lookup. destruct (decide (p = l)) as [->|].
  - by rewrite !lookup_insert_eq.
  - by rewrite !lookup_insert_ne, plain_lookup.
Qed.
Lemma plain_delete pt h l : plain pt (delete l h) = delete l (plain pt h).
Proof. apply map_eq. intros p. rewrite plain_lookup. destruct (decide (p = l)) as [->|].
  - by rewrite !lookup_delete_eq.
  - by rewrite !lookup_delete_ne, plain_lookup.
Qed.
Lemma pobj_other pt l o : ~ at_patch pt l -> pobj pt l o = o.
Proof. destruct pt as [[[l0 i] q]|]; cbn; [|done]. intros. by rewrite decide_False. Qed.
Lemma pobj_fields pt l o : gbx_magic (pobj pt l o) = gbx_magic o /\ gbx_refcnt (pobj pt l o) = gbx_refcnt o
  /\ gbx_locked (pobj pt l o) = gbx_locked o /\ gbx_isonstack (pobj pt l o) = gbx_isonstack o
  /\ gbx_activeDestruction (pobj pt l o) = gbx_activeDestruction o /\ gbx_chgRefCnt (pobj pt l o) = gbx_chgRefCnt o.
Proof. destruct pt as [[[l0 i] q]|]; cbn; [case_decide|]; done. Qed.
Lemma pobj_active pt l b o : set_active b (pobj pt l o) = pobj pt l (set_active b o).
Proof. destruct pt as [[[l0 i] q]|]; cbn; [case_decide|]; done. Qed.
Lemma pobj_refcnt pt l n o : set_refcnt n (pobj pt l o) = pobj pt l (set_refcnt n o).
Proof. destruct pt as [[[l0 i] q]|]; cbn; [case_decide|]; done. Qed.
Lemma pobj_quiet pt l o : quiet (pobj pt l o) <-> quiet o.
Proof. unfold quiet. destruct (pobj_fields pt l o) as (-> & _ & -> & -> & -> & ->). done. Qed.

(** What is proved of release_r on heaps of less than [f] objects: [F] are the
    objects that are being destroyed around it; the patch is on an object that is
    held. *)
Definition release_r_spec (rec : Z -> memory -> option memory) (f : nat) : Prop :=
  forall pt h ext F gs vs n l, counted None h ({[+ l +]} ⊎ ext) vs -> (forall p, at_patch pt p -> p ∈ ext) ->
    h ##ₘ F -> reps gs vs -> (size h < f)%nat ->
    exists h' gs' vs', rec l (mk_memory (plain pt (h ∪ F)) (n + Z.of_nat (size h)) gs)
        = Some (mk_memory (plain pt (h' ∪ F)) (n + Z.of_nat (size h')) gs')
      /\ released h h' ext vs vs' /\ reps gs' vs'.

Lemma released_nil h ext vs : counted None h ext vs -> released h h ext vs vs.
Proof.
  intros C. split; [done| |].
  - intros l o Hl. exists o. by rewrite set_refcnt_id.
  - exists []. split; [done|]. intros d []%not_elem_of_nil.
Qed.

Lemma released_update h h' ext vs vs' l o k : h !! l = Some o -> released (<[l := set_refcnt k o]> h) h' ext vs vs' ->
  released h h' ext vs vs'.
Proof.
  intros Hl [R1 R2 R3]. split; [done| |].
  - intros a b Ha. destruct (R2 _ _ Ha) as (c & [[<- <-]|[Hne Hc]]%lookup_insert_Some & ->); [|by exists c].
    exists o. split; [done|]. by destruct o.
  - destruct R3 as (ds & -> & Hds). exists ds. split; [done|]. intros d Hd. destruct (Hds d Hd) as [[b Hb] ?]. split; [|done].
    apply lookup_insert_Some in Hb as [[<- _]|[_ ?]]; eauto.
Qed.

(** The loop of garbage on the slots of [l], which is being destroyed. *)
Lemma garbage_spec pt rec f F l q : release_r_spec rec f -> F !! l = Some q -> forall k i h ext gs vs n,
  (i + k = length (slots q))%nat -> counted None h (pointers (drop i (slots q)) ⊎ ext) vs ->
  (forall p, at_patch pt p -> p ∈ ext) -> h ##ₘ F -> reps gs vs -> (size h < f)%nat ->
  exists h' gs' vs', garbage rec l (seq i k) (mk_memory (plain pt (h ∪ F)) (n + Z.of_nat (size h)) gs)
      = Some (mk_memory (plain pt (h' ∪ F)) (n + Z.of_nat (size h')) gs')
    /\ released h h' ext vs vs' /\ reps gs' vs'.
Proof.
  intros Hrec Hl. induction k as [|k IH]; intros i h ext gs vs n Hi C Hpt HF R Hf; cbn [seq garbage].
  - rewrite drop_ge in C by lia. exists h, gs, vs. split_and!; [done| |done]. apply released_nil.
    change (pointers []) with (∅ : gmultiset Z) in C. by rewrite (left_id ∅ (⊎)) in C.
  - assert (h !! l = None) as Hlh.
    { destruct (proj1 (map_disjoint_alt _ _) HF l); [done|congruence]. }
    assert (~ at_patch pt l) as Hat by (intros Ha%Hpt; destruct (c_live _ _ _ _ C l); [multiset_solver|congruence]).
    cbn [objs garbs]. rewrite plain_lookup, lookup_union_r, Hl by done. cbn. rewrite pobj_other by done.
    destruct (lookup_lt_is_Some_2 (slots q) i) as [p Hp]; [lia|]. rewrite Hp. cbn.
    rewrite (drop_S _ _ _ Hp), pointers_cons in C. destruct p as [p|]; cbn [token] in C.
    + assert (is_Some (h !! p)) as Hlive by (apply (c_live _ _ _ _ C); multiset_solver).
      rewrite (isObjectDeleted_reps _ _ _ R), (known_head _ _ _ _ _ C Hlive). cbn. destruct Hlive as [po Hpo].
      rewrite plain_lookup, (lookup_union_Some_l _ _ _ _ Hpo). cbn. rewrite <- (assoc_L (⊎)) in C.
      destruct (Hrec pt h _ F gs vs n p C ltac:(intros a ?%Hpt; multiset_solver) HF R Hf) as (h1 & gs1 & vs1 & -> & Rl & R1). cbn.
      pose proof (c_pos _ _ _ _ C _ _ Hpo ltac:(done)). destruct (pobj_fields pt p po) as (_ & -> & _).
      destruct (Z.eqb_spec (gbx_refcnt po) 0); [lia|]. cbn.
      pose proof (released_size _ _ _ _ _ Rl).
      destruct (IH (S i) h1 ext gs1 vs1 n) as (h' & gs' & vs' & -> & Rl' & R'); try done; try lia.
      * by destruct Rl.
      * by eapply released_disjoint.
      * exists h', gs', vs'. split_and!; try done. by eapply released_trans.
    + rewrite (left_id ∅ (⊎)) in C. apply (IH (S i)); try done; lia.
Qed.

(** The end of release_realize: the object, which is active, is destroyed if nothing
    refers to it. *)
Definition finish (rec : Z -> memory -> option memory) l m : option memory :=
  m ← destroy rec l m;
  m ← update l (fun o => Some (set_active false o)) m;
  o ← objs m !! l;
  if negb (gbx_isonstack o) && (gbx_refcnt o =? 0) && negb (gbx_locked o)
  then Some (with_objs (delete l (objs m)) m) else Some m.

(** An object that nothing refers to leaves the heap, and its pointers become
    references to give back. *)
Lemma counted_destroyed h ext vs l o : counted (Some l) h ext vs -> h !! l = Some o -> gbx_refcnt o = 0 ->
  (l ∉ ext) /\ counted None (delete l h) (refs_of o ⊎ ext) (s_markDeleted l vs).
Proof.
  intros C Hl E0. assert (multiplicity l (ext ⊎ refs h) = 0%nat) as Hm by (pose proof (c_count _ _ _ _ C _ _ Hl); lia).
  assert (l ∉ ext ⊎ refs h) as Hnl by (rewrite elem_of_multiplicity; lia). split; [multiset_solver|].
  assert ((refs_of o ⊎ ext) ⊎ refs (delete l h) = ext ⊎ refs h) as Heq by (rewrite (refs_delete h l o) by done; multiset_solver). split.
  - intros a b [_ Ha]%lookup_delete_Some. by eapply (c_quiet _ _ _ _ C).
  - rewrite Heq. intros a b [_ Ha]%lookup_delete_Some. by apply (c_count _ _ _ _ C).
  - rewrite Heq. intros a Ha. rewrite lookup_delete_ne by (intros <-; done). by apply (c_live _ _ _ _ C).
  - intros a b [Hne Ha]%lookup_delete_Some _. apply (c_pos _ _ _ _ C _ _ Ha). congruence.
  - intros a v [b [Hne Ha]%lookup_delete_Some] Hv'. destruct (dels_mark _ _ _ Hv') as (v' & Hin & Hsub). intros Had.
    apply Hsub in Had. apply elem_of_union in Had as [->%elem_of_singleton|Had]; [done|].
    by eapply (c_known _ _ _ _ C a v'); [exists b|..].
Qed.

Lemma counted_used h ext vs l o : counted (Some l) h ext vs -> h !! l = Some o -> gbx_refcnt o <> 0 -> counted None h ext vs.
Proof.
  intros [C1 C2 C3 C4 C5] Hl H0. split; try done. intros a b Ha _. destruct (decide (a = l)) as [->|].
  - assert (b = o) as -> by congruence. rewrite (C2 _ _ Hl) in *. lia.
  - apply (C4 _ _ Ha). congruence.
Qed.

Lemma released_destroyed h h' ext vs vs' l o : h !! l = Some o ->
  released (delete l h) h' ext (s_markDeleted l vs) vs' -> released h h' ext vs vs'.
Proof.
  intros Hl Rl. pose proof (released_dom _ _ _ _ _ l Rl (lookup_delete_eq _ _)). destruct Rl as [R1 R2 (ds & -> & Hds)].
  split; [done| |].
  - intros a b Ha. destruct (R2 _ _ Ha) as (c & [_ Hc]%lookup_delete_Some & Hb). by exists c.
  - exists (l :: ds). split; [done|]. intros d [->|Hd]%elem_of_cons; [by split; [exists o|]|].
    destruct (Hds _ Hd) as [[b [_ Hb]%lookup_delete_Some] ?]. split; [by exists b|done].
Qed.

Lemma finish_spec pt rec f h ext F gs vs n l o : release_r_spec rec f -> counted (Some l) h ext vs -> h !! l = Some o ->
  (forall p, at_patch pt p -> p ∈ ext) -> h ##ₘ F -> reps gs vs -> (size h <= f)%nat ->
  exists h' gs' vs', finish rec l (mk_memory (plain pt (<[l := set_active true o]> h ∪ F)) (n + Z.of_nat (size h)) gs)
      = Some (mk_memory (plain pt (h' ∪ F)) (n + Z.of_nat (size h')) gs')
    /\ released h h' ext vs vs' /\ reps gs' vs'.
Proof.
  intros Hrec C Hl Hpt HF R Hf. destruct (c_quiet _ _ _ _ C _ _ Hl) as (Hv & Hlk & Hst & Hac & Hch).
  pose proof (pobj_fields pt l (set_active true o)) as (Fm & Fr & Flk & Fst & _). cbn in Fm, Fr, Flk, Fst.
  assert (plain pt (<[l := set_active true o]> h ∪ F) !! l = Some (pobj pt l (set_active true o))) as Hat
    by (rewrite plain_lookup; erewrite lookup_union_Some_l by apply lookup_insert_eq; done).
  unfold finish, destroy, update. cbn [objs]. rewrite Hat. cbn [mbind option_bind].
  rewrite Fr, Flk, Fst, Hlk, Hst. destruct (Z.eqb_spec (gbx_refcnt o) 0) as [E0|E0]; cbn [andb negb].
  - cbn [objs obj_cnt garbs]. destruct (markObjectDeleted_reps gs vs l R) as (gs1 & -> & R1). cbn [mbind option_bind objs obj_cnt garbs].
    destruct (counted_destroyed _ _ _ _ _ C Hl E0) as [Hnl C1].
    assert (forall x, pobj pt l x = x) as Hid by (intros; apply pobj_other; by intros ?%Hpt).
    set (h1 := delete l h). set (F1 := <[l := set_active true o]> F).
    assert (F !! l = None) as HlF by (destruct (proj1 (map_disjoint_alt _ _) HF l); [congruence|done]).
    assert (<[l := set_active true o]> h ∪ F = h1 ∪ F1) as ->.
    { unfold h1, F1. by rewrite <- insert_delete_eq, <- insert_union_l, insert_union_r by apply lookup_delete_eq. }
    assert (h1 ##ₘ F1) as HF1.
    { apply map_disjoint_insert_r. split; [apply lookup_delete_eq|]. by apply map_disjoint_delete_l. }
    assert (S (size h1) = size h) as Hsz by (unfold h1; rewrite map_size_delete_Some by eauto; apply Nat.succ_pred, map_size_ne_0_lookup; eauto).
    destruct (garbage_spec pt rec f F1 l (set_active true o) Hrec (lookup_insert_eq _ _ _) (length (slots o)) 0 h1 ext gs1
      (s_markDeleted l vs) n) as (h' & gs' & vs' & Eg & Rl & R'); try done; try lia.
    rewrite Hid. replace (n + Z.of_nat (size h) - 1) with (n + Z.of_nat (size h1)) by lia. cbn [slots set_active] in Eg |- *. rewrite Eg.
    cbn [mbind option_bind objs obj_cnt garbs]. pose proof (released_dom _ _ _ _ _ _ Rl (lookup_delete_eq _ _)) as Hl'.
    assert (plain pt (h' ∪ F1) !! l = Some (set_active true o)) as ->
      by (rewrite plain_lookup, lookup_union_r by done; unfold F1; rewrite lookup_insert_eq; cbn; by rewrite Hid).
    cbn [mbind option_bind objs obj_cnt garbs]. rewrite !lookup_insert_eq. cbn [mbind option_bind objs obj_cnt garbs].
    rewrite !lookup_insert_eq. cbn. rewrite Hst, E0, Hlk. cbn. exists h', gs', vs'. split_and!; [|by eapply released_destroyed|done].
    unfold with_objs. cbn. do 2 f_equal. rewrite !delete_insert_eq, <- plain_delete, delete_union. unfold F1.
    by rewrite delete_insert_id, (delete_id h').
  - cbn [objs obj_cnt garbs mbind option_bind]. rewrite Hat. cbn [objs obj_cnt garbs mbind option_bind].
    rewrite lookup_insert_eq. cbn [mbind option_bind]. rewrite pobj_active.
    destruct (pobj_fields pt l (set_active false (set_active true o))) as (_ & -> & -> & -> & _). cbn.
    rewrite Hst. destruct (Z.eqb_spec (gbx_refcnt o) 0); [done|]. cbn.
    exists h, gs, vs. split_and!; [|by apply released_nil, (counted_used _ _ _ l o)|done]. do 2 f_equal.
    rewrite <- plain_insert, insert_union_l, insert_insert_eq, set_active_back by done. by rewrite insert_id.
Qed.

Lemma decrRefCount_spec l m o : objs m !! l = Some o -> gbx_magic o = ValidObject -> gbx_chgRefCnt o = false -> 1 <= gbx_refcnt o ->
  decrRefCount l m = Some (with_objs (<[l := set_refcnt (gbx_refcnt o - 1) o]> (objs m)) m).
Proof.
  intros Hl Hv Hc Hr. unfold decrRefCount, update, isValidObject. rewrite Hl. cbn. rewrite bool_decide_eq_true_2, Hc by done.
  cbn. destruct (Z.ltb_spec (gbx_refcnt o - 1) 0); [lia|]. done.
Qed.

(** release_realize is its counts, then [finish]. *)
Lemma release_realize_finish f reentrant l m o : objs m !! l = Some o -> quiet o -> 1 <= gbx_refcnt o ->
  release_realize (S f) reentrant l m =
    (m ← (let m := with_objs (<[l := set_active true (set_refcnt (gbx_refcnt o - 1) o)]> (objs m)) m in
          if reentrant then Some m
          else
            '(h, cycle) ← manageCycle f (garbs m) l l (objs m, false);
            if cycle : bool then decrRefCount l (with_objs h m) else Some (with_objs h m));
     finish (release_realize f true) l m).
Proof.
  intros Hl (Hv & Hlk & Hst & Hac & Hch) Hr. cbn [release_realize]. rewrite Hl. cbn [mbind option_bind]. rewrite Hac.
  unfold garbageRealize. rewrite Hl. cbn [mbind option_bind]. rewrite Hac. cbn [gbx_refcnt set_active].
  assert ((if reentrant then gbx_refcnt o <? 0 else gbx_refcnt o <? 1) = false) as ->
    by (destruct reentrant; apply Z.ltb_ge; lia).
  unfold isValidObject. cbn [gbx_magic set_active gbx_locked]. rewrite bool_decide_eq_true_2 by done. cbn [negb]. rewrite Hlk.
  rewrite (decrRefCount_spec _ _ (set_active true o)); cbn; try done; [|apply lookup_insert_eq]. rewrite insert_insert_eq.
  cbn [mbind option_bind]. replace (set_refcnt (gbx_refcnt o - 1) (set_active true o)) with (set_active true (set_refcnt (gbx_refcnt o - 1) o)) by done.
  unfold finish. destruct reentrant; cbn [mbind option_bind].
  - done.
  - destruct (manageCycle _ _ _ _ _) as [[h' c]|]; [|done]. cbn [mbind option_bind]. destruct c; [|done]. by destruct (decrRefCount _ _).
Qed.

Lemma release_r_ok f : release_r_spec (release_realize f true) f.
Proof.
  induction f as [|f IH]; intros pt h ext F gs vs n l C Hpt HF R Hf; [lia|].
  destruct (counted_token _ _ _ _ _ C) as [o Hl]. destruct (counted_decr _ _ _ _ _ _ C (or_introl eq_refl) Hl) as [Hr C'].
  pose proof (pobj_fields pt l o) as (_ & Fr & _).
  rewrite (release_realize_finish f true l _ (pobj pt l o)).
  2: { cbn. by rewrite plain_lookup, (lookup_union_Some_l _ _ _ _ Hl). }
  2: { apply pobj_quiet, (c_quiet _ _ _ _ C _ _ Hl). }
  2: { by rewrite Fr. }
  unfold with_objs. cbn [mbind option_bind objs obj_cnt garbs]. rewrite Fr, pobj_refcnt, pobj_active, <- plain_insert, insert_union_l.
  set (o1 := set_refcnt (gbx_refcnt o - 1) o) in *. set (h1 := <[l := o1]> h) in *.
  assert (<[l := set_active true o1]> h = <[l := set_active true o1]> h1) as -> by (unfold h1; by rewrite insert_insert_eq).
  assert (size h1 = size h) as Hsz by (apply map_size_insert_Some; eauto).
  destruct (finish_spec pt (release_realize f true) f h1 ext F gs vs n l o1) as (h' & gs' & vs' & E & Rl & R'); try done.
  - apply lookup_insert_eq.
  - by apply map_disjoint_insert_l_2; [eapply map_disjoint_Some_l|].
  - lia.
  - rewrite Hsz in E. rewrite E. exists h', gs', vs'. split_and!; [done|by eapply released_update|done].
Qed.

Lemma finish_top pt rec f h ext gs vs n l o : release_r_spec rec f -> counted (Some l) h ext vs -> h !! l = Some o ->
  (forall p, at_patch pt p -> p ∈ ext) -> reps gs vs -> (size h <= f)%nat ->
  exists h' gs' vs', finish rec l (mk_memory (plain pt (<[l := set_active true o]> h)) (n + Z.of_nat (size h)) gs)
      = Some (mk_memory (plain pt h') (n + Z.of_nat (size h')) gs')
    /\ released h h' ext vs vs' /\ reps gs' vs'.
Proof.
  intros Hrec C Hl Hpt R Hf.
  destruct (finish_spec pt rec f h ext ∅ gs vs n l o Hrec C Hl Hpt (map_disjoint_empty_r _) R Hf) as (h' & gs' & vs' & E & Rl & R').
  rewrite !map_union_empty in E. by exists h', gs', vs'.
Qed.

(** The cycle found while [l] is active, seen on the heap where it is not. *)
Lemma cycle_counted h h2 ext vs l o : counted (Some l) h ext vs -> h !! l = Some o ->
  erased l l (<[l := set_active true o]> h) h2 ->
  exists h' o', erased l l h h' /\ h2 = <[l := set_active true o']> h' /\ h' !! l = Some o'
    /\ counted (Some l) h' ({[+ l +]} ⊎ ext) vs /\ size h' = size h.
Proof.
  intros C Hl (p & q & i & Hp & Hi & Hpath & ->).
  assert (rtc (edge h) l p) as Hpath' by (eapply rtc_iff, Hpath; by apply edge_same with (o := o)).
  destruct (decide (p = l)) as [->|Hne].
  - rewrite lookup_insert_eq in Hp. injection Hp as <-. exists (<[l := set_slot i None o]> h), (set_slot i None o).
    split_and!.
    + by exists l, o, i.
    + by rewrite !insert_insert_eq.
    + apply lookup_insert_eq.
    + eapply counted_slot; [done..|]. unfold token. multiset_solver.
    + apply map_size_insert_Some; eauto.
  - rewrite lookup_insert_ne in Hp by done. exists (<[p := set_slot i None q]> h), o. split_and!.
    + by exists p, q, i.
    + by rewrite insert_insert_ne.
    + by rewrite lookup_insert_ne.
    + eapply counted_slot; [done..|]. unfold token. multiset_solver.
    + apply map_size_insert_Some; eauto.
Qed.

(** The pointer erased does not depend on the count of [l]. *)
Lemma erased_refcnt h h1 l o k : h !! l = Some o -> erased l l (<[l := set_refcnt k o]> h) h1 ->
  exists h0 o0, erased l l h h0 /\ h0 !! l = Some o0 /\ h1 = <[l := set_refcnt k o0]> h0.
Proof.
  intros Hl (p & q & i & Hp & Hi & Hpath & ->).
  assert (rtc (edge h) l p) as Hpath' by (eapply rtc_iff, Hpath; by apply edge_same with (o := o)).
  destruct (decide (p = l)) as [->|Hne].
  - rewrite lookup_insert_eq in Hp. injection Hp as <-. exists (<[l := set_slot i None o]> h), (set_slot i None o).
    split_and!; [by exists l, o, i|apply lookup_insert_eq|by rewrite !insert_insert_eq].
  - rewrite lookup_insert_ne in Hp by done. exists (<[p := set_slot i None q]> h), o.
    split_and!; [by exists p, q, i|by rewrite lookup_insert_ne|by rewrite insert_insert_ne].
Qed.

(** release() of an object the program holds: the cycle found, if any, loses one
    pointer to the object, and the reference of that pointer is given back too. *)
Lemma release_general f h ext gs vs n l : counted None h ({[+ l +]} ⊎ ext) vs -> reps gs vs -> (S (size h) < f)%nat ->
  exists h0 h' gs' vs', release f l (mk_memory h (n + Z.of_nat (size h)) gs) = Some (mk_memory h' (n + Z.of_nat (size h')) gs')
    /\ (h0 = h \/ erased l l h h0) /\ released h0 h' ext vs vs' /\ reps gs' vs'.
Proof.
  intros C R Hf. destruct f as [|[|f]]; [lia..|]. destruct (counted_token _ _ _ _ _ C) as [o Hl].
  destruct (counted_decr _ _ _ _ _ _ C (or_introl eq_refl) Hl) as [Hr C1].
  unfold release. rewrite (release_realize_finish _ false l (mk_memory h _ _) o Hl (c_quiet _ _ _ _ C _ _ Hl) Hr).
  unfold with_objs. cbn [mbind option_bind objs obj_cnt garbs]. set (o1 := set_refcnt (gbx_refcnt o - 1) o) in *.
  set (hd := <[l := o1]> h) in *. assert (hd !! l = Some o1) as Hd by apply lookup_insert_eq.
  assert (size hd = size h) as Hsz by (apply map_size_insert_Some; eauto).
  assert (<[l := set_active true o1]> h = <[l := set_active true o1]> hd) as -> by (unfold hd; by rewrite insert_insert_eq).
  destruct (manageCycle_step gs vs R l f (<[l := set_active true o1]> hd) l (set_active true o1)) as (h2 & c & -> & Hs).
  - by apply manageCycle_spec with (vs := vs).
  - apply (closed_same vs hd l o1); [done..|]. by eapply counted_closed.
  - apply lookup_insert_eq.
  - apply (c_quiet _ _ _ _ C _ _ Hl).
  - by left.
  - unfold unmarked. pose proof (map_size_filter (fun lo => gbx_chgRefCnt lo.2 = false) (<[l := set_active true o1]> hd)) as Hfs.
    rewrite map_size_insert_Some in Hfs by eauto. lia.
  - cbn [mbind option_bind]. destruct c; cbn in Hs; [|subst h2].
    + destruct (cycle_counted _ _ _ _ _ _ C1 Hd Hs) as (he & ol & He & -> & Hol & C2 & Hsz2).
      destruct (counted_decr _ _ _ _ _ _ C2 (or_intror eq_refl) Hol) as [Hr2 C3].
      rewrite (decrRefCount_spec _ _ (set_active true ol)); cbn [objs obj_cnt garbs]; [|apply lookup_insert_eq|apply (c_quiet _ _ _ _ C2 _ _ Hol)..|done].
      unfold with_objs. cbn [mbind option_bind objs obj_cnt garbs]. rewrite insert_insert_eq. cbn [gbx_refcnt set_active].
      change (set_refcnt (gbx_refcnt ol - 1) (set_active true ol)) with (set_active true (set_refcnt (gbx_refcnt ol - 1) ol)).
      set (o2 := set_refcnt (gbx_refcnt ol - 1) ol) in *. set (h3 := <[l := o2]> he) in *.
      assert (<[l := set_active true o2]> he = <[l := set_active true o2]> h3) as -> by (unfold h3; by rewrite insert_insert_eq).
      assert (size h3 = size h) as Hsz3 by (unfold h3; rewrite map_size_insert_Some by eauto; lia).
      destruct (finish_top None _ (S f) h3 ext gs vs n l o2 (release_r_ok _) C3 (lookup_insert_eq _ _ _) ltac:(done) R ltac:(lia)) as (h' & gs' & vs' & E & Rl & R').
      rewrite !plain_none, Hsz3 in E. rewrite E. destruct (erased_refcnt _ _ _ _ _ Hl He) as (h0 & o0 & He0 & Ho0 & ->).
      exists h0, h', gs', vs'. split_and!; [done|by right| |done]. eapply released_update; [done|]. by eapply released_update.
    + destruct (finish_top None _ (S f) hd ext gs vs n l o1 (release_r_ok _) C1 Hd ltac:(done) R ltac:(lia)) as (h' & gs' & vs' & E & Rl & R').
      rewrite !plain_none, Hsz in E. cbn [mbind option_bind]. rewrite E. exists h, h', gs', vs'. split_and!; [done|by left| |done]. by eapply released_update.
Qed.

(** ** Acyclic heaps *)

Definition acyclic h : Prop := exists rank : Z -> nat, forall l p, edge h l p -> (rank l < rank p)%nat.

Lemma rank_path h (rank : Z -> nat) l p : (forall l p, edge h l p -> (rank l < rank p)%nat) -> rtc (edge h) l p -> (rank l <= rank p)%nat.
Proof. intros Hr. induction 1 as [|a b c Hab _ IH]; [done|]. specialize (Hr _ _ Hab). lia. Qed.

Lemma acyclic_erased h l h0 : acyclic h -> ~ erased l l h h0.
Proof.
  intros [rank Hr] (p & o & i & Hp & Hi & Hpath & _). pose proof (rank_path _ _ _ _ Hr Hpath).
  assert (edge h p l) as He by (exists o; split; [done|]; by eapply list_elem_of_lookup_2). specialize (Hr _ _ He). lia.
Qed.

Lemma released_edge h h' ext vs vs' l p : released h h' ext vs vs' -> edge h' l p -> edge h l p.
Proof.
  intros Rl (o' & Ho' & Hp). destruct (rl_sub _ _ _ _ _ Rl _ _ Ho') as (o & Ho & E). exists o. split; [done|].
  rewrite E in Hp. done.
Qed.

(** In an acyclic heap, what is counted is what the references held reach. *)
Lemma counted_reachable h ext vs p : acyclic h -> counted None h ext vs -> is_Some (h !! p) ->
  exists r, r ∈ ext /\ rtc (edge h) r p.
Proof.
  intros [rank Hr] C. remember (rank p) as k eqn:Ek. revert p Ek.
  induction k as [k IH] using lt_wf_ind. intros p -> [o Ho].
  pose proof (c_count _ _ _ _ C _ _ Ho) as Hc. pose proof (c_pos _ _ _ _ C _ _ Ho ltac:(done)) as Hpos.
  assert (p ∈ ext ⊎ refs h) as Hin by (rewrite elem_of_multiplicity; lia).
  apply gmultiset_elem_of_disj_union in Hin as [Hin|[l He]%elem_of_refs]; [by exists p|].
  destruct (IH (rank l) (Hr _ _ He) l eq_refl) as (r & Hre & Hpath); [by destruct He as (ol & ? & _); exists ol|].
  exists r. split; [done|]. by eapply rtc_r.
Qed.

Lemma released_reachable h h' ext vs vs' p : acyclic h -> released h h' ext vs vs' ->
  is_Some (h' !! p) <-> exists r, r ∈ ext /\ rtc (edge h) r p.
Proof.
  intros [rank Hr] Rl. assert (acyclic h') as Ha by (exists rank; intros; by eapply Hr, released_edge).
  pose proof (rl_counted _ _ _ _ _ Rl) as C. split.
  - intros Hp. destruct (counted_reachable _ _ _ _ Ha C Hp) as (r & Hre & Hpath). exists r. split; [done|].
    eapply rtc_subrel, Hpath. intros a b. by eapply released_edge.
  - intros (r & Hre & Hpath). assert (is_Some (h' !! r)) as Hlive by (apply (c_live _ _ _ _ C); multiset_solver).
    clear Hre. induction Hpath as [|a b c (oa & Hoa & Hb) _ IH]; [done|]. apply IH.
    destruct Hlive as [oa' Hoa']. destruct (rl_sub _ _ _ _ _ Rl _ _ Hoa') as (x & Hx & E).
    apply (counted_closed _ _ _ _ C a b). exists oa'. split; [done|]. rewrite E. cbn. congruence.
Qed.

(** release() when the heap in memory is acyclic. *)
Lemma release_patched pt f h ext gs vs n l : counted None h ({[+ l +]} ⊎ ext) vs -> (forall p, at_patch pt p -> p ∈ ext) ->
  closed (plain pt h) vs -> acyclic (plain pt h) -> reps gs vs -> (S (size h) < f)%nat ->
  exists h' gs' vs', release f l (mk_memory (plain pt h) (n + Z.of_nat (size h)) gs)
      = Some (mk_memory (plain pt h') (n + Z.of_nat (size h')) gs')
    /\ released h h' ext vs vs' /\ reps gs' vs'.
Proof.
  intros C Hpt Hcl Hac R Hf. destruct f as [|[|f]]; [lia..|]. destruct (counted_token _ _ _ _ _ C) as [o Hl].
  destruct (counted_decr _ _ _ _ _ _ C (or_introl eq_refl) Hl) as [Hr C1].
  pose proof (pobj_fields pt l o) as (_ & Fr & _).
  assert (plain pt h !! l = Some (pobj pt l o)) as Hpl by (by rewrite plain_lookup, Hl).
  assert (quiet (pobj pt l o)) as Hq by (apply pobj_quiet, (c_quiet _ _ _ _ C _ _ Hl)).
  unfold release. rewrite (release_realize_finish _ false l (mk_memory (plain pt h) _ _) (pobj pt l o) Hpl Hq) by (by rewrite Fr).
  unfold with_objs. cbn [mbind option_bind objs obj_cnt garbs]. set (o1 := set_active true (set_refcnt (gbx_refcnt (pobj pt l o) - 1) (pobj pt l o))).
  set (h1 := <[l := o1]> (plain pt h)).
  destruct (manageCycle_step gs vs R l f h1 l o1) as (h2 & c & -> & Hs).
  - by apply manageCycle_spec with (vs := vs).
  - by apply (closed_same vs _ l (pobj pt l o)).
  - apply lookup_insert_eq.
  - apply Hq.
  - by left.
  - unfold unmarked. pose proof (map_size_filter (fun lo => gbx_chgRefCnt lo.2 = false) h1) as Hfs.
    unfold h1 in Hfs at 2. rewrite map_size_insert_Some in Hfs by eauto.
    assert (size (plain pt h) = size h) as Hsp by (rewrite <- !size_dom; f_equal; apply set_eq; intros x;
      rewrite !elem_of_dom, plain_lookup; by rewrite fmap_is_Some). lia.
  - destruct c; cbn in Hs.
    { exfalso. apply (acyclic_erased h1 l h2); [|done]. destruct Hac as [rank Hrank]. exists rank. intros a b He.
      apply Hrank. by apply (edge_same (plain pt h) l (pobj pt l o) o1 Hpl eq_refl) in He. }
    subst h2. cbn [mbind option_bind]. unfold h1, o1. rewrite Fr, pobj_refcnt, pobj_active, <- plain_insert.
    set (o2 := set_refcnt (gbx_refcnt o - 1) o) in *. set (hd := <[l := o2]> h) in *.
    assert (<[l := set_active true o2]> h = <[l := set_active true o2]> hd) as -> by (unfold hd; by rewrite insert_insert_eq).
    assert (size hd = size h) as Hsz by (apply map_size_insert_Some; eauto).
    destruct (finish_top pt _ (S f) hd ext gs vs n l o2 (release_r_ok _) C1 (lookup_insert_eq _ _ _) Hpt R ltac:(lia)) as (h' & gs' & vs' & E & Rl & R').
    rewrite Hsz in E. rewrite E. exists h', gs', vs'. split_and!; [done| |done]. by eapply released_update.
Qed.

Lemma counted_incr h ext vs p o : counted None h ext vs -> h !! p = Some o ->
  counted None (<[p := set_refcnt (gbx_refcnt o + 1) o]> h) ({[+ p +]} ⊎ ext) vs.
Proof.
  intros C Hp. pose proof (c_count _ _ _ _ C _ _ Hp) as Hc. pose proof (c_pos _ _ _ _ C _ _ Hp ltac:(done)).
  assert (refs (<[p := set_refcnt (gbx_refcnt o + 1) o]> h) = refs h) as Hr by by apply refs_same with (o := o).
  split.
  - intros a b [[<- <-]|[_ Ha]]%lookup_insert_Some; [apply (c_quiet _ _ _ _ C _ _ Hp)|apply (c_quiet _ _ _ _ C _ _ Ha)].
  - rewrite Hr. intros a b [[<- <-]|[Hne Ha]]%lookup_insert_Some; cbn [gbx_refcnt set_refcnt].
    + rewrite Hc, !multiplicity_disj_union, multiplicity_singleton, decide_True by done. lia.
    + rewrite (c_count _ _ _ _ C _ _ Ha), !multiplicity_disj_union, multiplicity_singleton, decide_False by done. lia.
  - rewrite Hr. intros a Ha. apply lookup_insert_is_Some. destruct (decide (p = a)) as [|Hne]; [by left|right]. split; [done|].
    apply (c_live _ _ _ _ C). multiset_solver.
  - intros a b [[<- <-]|[Hne Ha]]%lookup_insert_Some _; cbn [gbx_refcnt set_refcnt]; [lia|]. by apply (c_pos _ _ _ _ C _ _ Ha).
  - intros a v Ha Hv. apply (c_known _ _ _ _ C); [|done]. apply lookup_insert_is_Some in Ha as [<-|[_ ?]]; [by exists o|done].
Qed.

Lemma incrRefCount_spec p m o : objs m !! p = Some o -> quiet o ->
  incrRefCount p m = Some (with_objs (<[p := set_refcnt (gbx_refcnt o + 1) o]> (objs m)) m).
Proof.
  intros Hp (Hv & _ & _ & _ & Hc). unfold incrRefCount, update, isValidObject. rewrite Hp. cbn.
  by rewrite bool_decide_eq_true_2, Hc.
Qed.

(** The heap while a slot is being set. *)
Lemma plain_slot h l i o old : h !! l = Some o -> slots o !! i = Some old ->
  plain (Some (l, i, old)) (<[l := set_slot i None o]> h) = h.
Proof.
  intros Hl Hi. apply map_eq. intros x. rewrite plain_lookup. destruct (decide (x = l)) as [->|Hne].
  - rewrite lookup_insert_eq, Hl. cbn. rewrite decide_True by done. f_equal. destruct o; cbn in *. unfold set_slot; cbn. f_equal.
    by rewrite list_insert_insert_eq, list_insert_id.
  - rewrite lookup_insert_ne by done. destruct (h !! x); cbn; [|done]. by rewrite decide_False.
Qed.

(** What marking the objects [ds] leaves of a scope. *)
Definition told (ds : list Z) v v' : Prop :=
  ids v' = ids v /\ (keep_all v' = keep_all v /\ nxt v' = nxt v) /\ (forall o : Z, o ∉ ds -> td v' !! o = td v !! o)
  /\ td v' ⊆ td v.

Lemma mark_told d vs : Forall2 (told [d]) vs (s_markDeleted d vs).
Proof.
  assert (forall v, told [d] v v) as Hr by done.
  induction vs as [|v vs IH]; cbn; [constructor|]. case_bool_decide; constructor; try done.
  - split; [done|]. split; [done|]. split; [|apply delete_subseteq]. intros o Ho. cbn. rewrite lookup_delete_ne; [done|]. intros ->. set_solver.
  - clear IH. induction vs; by constructor.
Qed.
Lemma marks_told ds vs : Forall2 (told ds) vs (marks ds vs).
Proof.
  revert vs. induction ds as [|d ds IH]; intros vs; cbn [marks foldl].
  - induction vs; by constructor.
  - eapply Forall2_trans; [|apply mark_told|apply IH]. intros v1 v2 v3 (E1 & [K1 N1] & T1 & S1) (E2 & [K2 N2] & T2 & S2).
    split; [congruence|]. split; [split; congruence|]. split; [|by etrans]. intros o Ho. rewrite T2, T1 by set_solver. done.
Qed.

Lemma released_told h h' ext vs vs' : released h h' ext vs vs' ->
  exists ds, Forall2 (told ds) vs vs' /\ forall d, d ∈ ds -> h' !! d = None.
Proof. intros [_ _ (ds & -> & Hds)]. exists ds. split; [apply marks_told|]. intros d Hd. by apply Hds. Qed.

(** What the setting of a slot leaves: [h'] is what is left of [h] without the old
    pointer, with the new one. *)
Definition set_result h l (i : nat) (new : option Z) o h' ext vs' : Prop :=
  counted None h' ext vs'
  /\ (exists o', h' !! l = Some o' /\ slots o' = <[i := new]> (slots o))
  /\ (forall x o', h' !! x = Some o' -> x <> l -> exists ox, h !! x = Some ox /\ o' = set_refcnt (gbx_refcnt o') ox)
  /\ forall x, is_Some (h' !! x) <-> exists r, r ∈ ext /\ rtc (edge (<[l := set_slot i None o]> h)) r x.

Lemma edge_cleared h l i o : h !! l = Some o -> forall a b, edge (<[l := set_slot i None o]> h) a b -> edge h a b.
Proof.
  intros Hl a b (x & [[<- <-]|[_ Hx]]%lookup_insert_Some & Hb); [|by exists x]. exists o. split; [done|]. cbn in Hb.
  apply list_elem_of_lookup in Hb as [j Hj]. apply list_lookup_insert_Some in Hj as [(_ & ? & _)|[_ Hj]]; [done|].
  by eapply list_elem_of_lookup_2.
Qed.

(** The old object is given back while the slot still points to it. *)
Lemma release_old f h ext gs vs n l i o old : counted None h ext vs -> reps gs vs -> acyclic h -> h !! l = Some o ->
  slots o !! i = Some old -> l ∈ ext -> (S (size h) < f)%nat ->
  exists h1 gs1 vs1, match old with Some q => release f q (mk_memory h (n + Z.of_nat (size h)) gs) | None => Some (mk_memory h (n + Z.of_nat (size h)) gs) end
      = Some (mk_memory (plain (Some (l, i, old)) h1) (n + Z.of_nat (size h1)) gs1)
    /\ released (<[l := set_slot i None o]> h) h1 ext vs vs1 /\ reps gs1 vs1.
Proof.
  intros C R Hac Hl Hi Hlx Hf. set (hs := <[l := set_slot i None o]> h). assert (plain (Some (l, i, old)) hs = h) as Hpl by by apply plain_slot.
  assert (size hs = size h) as Hsz by (apply map_size_insert_Some; eauto).
  assert (counted None hs (token old ⊎ ext) vs) as C1 by (eapply counted_slot; [done..|]; unfold token; multiset_solver).
  assert (mk_memory h (n + Z.of_nat (size h)) gs = mk_memory (plain (Some (l, i, old)) hs) (n + Z.of_nat (size hs)) gs) as ->
    by (by rewrite Hpl, Hsz).
  destruct old as [q|].
  - apply release_patched; rewrite ?Hpl, ?Hsz; try done; [by intros ? ->|by eapply counted_closed].
  - exists hs, gs, vs. split_and!; [done| |done]. apply released_nil. unfold token in C1. by rewrite (left_id ∅ (⊎)) in C1.
Qed.

(** The store that ends the patch. *)
Lemma plain_store h l i old new o : <[l := set_slot i new (pobj (Some (l, i, old)) l o)]> (plain (Some (l, i, old)) h) = <[l := set_slot i new o]> h.
Proof.
  apply map_eq. intros x. destruct (decide (x = l)) as [->|].
  - rewrite !lookup_insert_eq. cbn. rewrite decide_True by done. unfold set_slot. cbn. by rewrite list_insert_insert_eq.
  - rewrite !lookup_insert_ne, plain_lookup by done. cbn. destruct (h !! x); cbn; [|done]. by rewrite decide_False.
Qed.

(** [h2] is the heap [h1] that the release of the old object left, with the count of
    the new one. *)
Lemma set_result_store h h1 h2 ext vs vs1 l i o new : acyclic h -> h !! l = Some o -> is_Some (slots o !! i) -> l ∈ ext ->
  released (<[l := set_slot i None o]> h) h1 ext vs vs1 -> counted None h2 (token new ⊎ ext) vs1 ->
  (forall x, is_Some (h2 !! x) <-> is_Some (h1 !! x)) ->
  (forall x c, h2 !! x = Some c -> exists d, h1 !! x = Some d /\ c = set_refcnt (gbx_refcnt c) d) ->
  exists o2, h2 !! l = Some o2 /\ set_result h l i new o (<[l := set_slot i new o2]> h2) ext vs1.
Proof.
  intros [rank Hr] Hl [old Hi] Hlx Rl C2 Hdom Hsub. assert (i < length (slots o))%nat as Hlen by by eapply lookup_lt_Some.
  destruct (c_live _ _ _ _ C2 l) as [o2 Ho2]; [multiset_solver|]. exists o2. split; [done|].
  assert (forall x c, h2 !! x = Some c -> exists d, <[l := set_slot i None o]> h !! x = Some d /\ c = set_refcnt (gbx_refcnt c) d) as Hsub'.
  { intros x c Hc. destruct (Hsub _ _ Hc) as (d & Hd & Ed). destruct (rl_sub _ _ _ _ _ Rl _ _ Hd) as (e & He & Ee). exists e.
    split; [done|]. rewrite Ed, Ee. by destruct e. }
  assert (slots o2 = <[i := None]> (slots o)) as Hs2.
  { destruct (Hsub' _ _ Ho2) as (d & Hd & ->). rewrite lookup_insert_eq in Hd. by injection Hd as <-. }
  assert (acyclic (<[l := set_slot i None o]> h)) as Hacs by (exists rank; intros a b He; by eapply Hr, edge_cleared).
  split; [|split; [|split]].
  - eapply counted_slot; [exact C2|done| |].
    { rewrite Hs2. by apply list_lookup_insert_eq. } { unfold token. multiset_solver. }
  - eexists. split; [apply lookup_insert_eq|]. cbn. by rewrite Hs2, list_insert_insert_eq.
  - intros x o' Hx Hxl. rewrite lookup_insert_ne in Hx by done. destruct (Hsub' _ _ Hx) as (d & Hd & Ed).
    rewrite lookup_insert_ne in Hd by done. by exists d.
  - intros x. rewrite <- (released_reachable _ _ _ _ _ x Hacs Rl), <- Hdom, lookup_insert_is_Some.
    split; [intros [<-|[_ ?]]; eauto|]. intros ?. destruct (decide (l = x)); auto.
Qed.

Lemma setValue_spec f h ext gs vs n l i o new : counted None h ext vs -> reps gs vs -> acyclic h -> h !! l = Some o ->
  is_Some (slots o !! i) -> slots o !! i <> Some new -> l ∈ ext -> (forall p, new = Some p -> p ∈ ext) -> (S (size h) < f)%nat ->
  exists h' gs' vs' ds, setValue f l i new true (mk_memory h (n + Z.of_nat (size h)) gs)
      = Some (Success, mk_memory h' (n + Z.of_nat (size h')) gs')
    /\ set_result h l i new o h' ext vs' /\ reps gs' vs' /\ Forall2 (told ds) vs vs' /\ forall d, d ∈ ds -> h' !! d = None.
Proof.
  intros C R Hac Hl Hio Hne Hlx Hnew Hf. pose proof Hio as [old Hi].
  destruct (release_old f h ext gs vs n l i o old) as (h1 & gs1 & vs1 & E & Rl & R1); try done.
  destruct (released_told _ _ _ _ _ Rl) as (ds & T & Hds). pose proof (rl_counted _ _ _ _ _ Rl) as C1.
  unfold setValue. cbn [objs]. rewrite Hl. cbn [mbind option_bind]. rewrite Hi. cbn [mbind option_bind].
  rewrite bool_decide_eq_false_2 by congruence.
  assert ((match new with Some p => po ← h !! p; Some (gbx_isonstack po) | None => Some false end) = Some false) as ->.
  { destruct new as [p|]; [|done]. destruct (c_live _ _ _ _ C p) as [po Hpo]; [specialize (Hnew p eq_refl); multiset_solver|].
    rewrite Hpo. cbn. f_equal. apply (c_quiet _ _ _ _ C _ _ Hpo). }
  cbn [mbind option_bind]. rewrite E. cbn [mbind option_bind]. destruct new as [p|].
  - destruct (c_live _ _ _ _ C1 p) as [op Hop]; [specialize (Hnew p eq_refl); multiset_solver|].
    pose proof (pobj_fields (Some (l, i, old)) p op) as (_ & Fr & _).
    rewrite (incrRefCount_spec p _ (pobj (Some (l, i, old)) p op)); [|cbn [objs]; by rewrite plain_lookup, Hop|apply pobj_quiet, (c_quiet _ _ _ _ C1 _ _ Hop)].
    unfold with_objs, update. cbn [mbind option_bind objs obj_cnt garbs]. rewrite Fr, pobj_refcnt, <- plain_insert.
    pose proof (counted_incr _ _ _ _ _ C1 Hop) as C2. set (h2 := <[p := set_refcnt (gbx_refcnt op + 1) op]> h1) in *.
    destruct (set_result_store h h1 h2 ext vs vs1 l i o (Some p)) as (o2 & Ho2 & S); try done.
    { intros x. unfold h2. rewrite lookup_insert_is_Some. split; [intros [<-|[_ ?]]; eauto|]. destruct (decide (p = x)); auto. }
    { intros x c [[<- <-]|[_ Hx]]%lookup_insert_Some; [by exists op|]. exists c. by rewrite set_refcnt_id. }
    rewrite plain_lookup, Ho2. cbn [fmap option_fmap option_map mbind option_bind]. rewrite plain_store.
    assert (size h2 = size h1) as Hsz2 by (apply map_size_insert_Some; eauto).
    assert (size (<[l := set_slot i (Some p) o2]> h2) = size h1) as <- by (rewrite map_size_insert_Some; eauto).
    eexists _, gs1, vs1, ds.
    split_and!; [done..|]. intros d Hd. specialize (Hds d Hd). destruct (c_live _ _ _ _ C1 l) as [ol Hol]; [multiset_solver|].
    unfold h2. rewrite !lookup_insert_ne by congruence. done.
  - destruct (set_result_store h h1 h1 ext vs vs1 l i o None) as (o2 & Ho2 & S); try done.
    { unfold token. by rewrite (left_id ∅ (⊎)). } { intros x c Hc. exists c. by rewrite set_refcnt_id. }
    unfold update. cbn [mbind option_bind objs obj_cnt garbs]. rewrite plain_lookup, Ho2.
    cbn [fmap option_fmap option_map mbind option_bind]. rewrite plain_store.
    assert (size (<[l := set_slot i None o2]> h1) = size h1) as <- by (apply map_size_insert_Some; eauto).
    eexists _, gs1, vs1, ds. split_and!; [done..|].
    intros d Hd. rewrite lookup_insert_ne; [by apply Hds|]. specialize (Hds d Hd). congruence.
Qed.

(** ** The end of a scope *)

(** The references a scope holds: those of its objects that are still to be deleted. *)
Definition own v : gmultiset Z := list_to_set_disj (elements (dom (pending (td v)))).

Lemma erased_size ref l h h0 : erased ref l h h0 -> size h0 = size h.
Proof. intros (p & o & i & Hp & _ & _ & ->). apply map_size_insert_Some; eauto. Qed.
Lemma erased_dom ref l h h0 d : erased ref l h h0 -> h !! d = None -> h0 !! d = None.
Proof. intros (p & o & i & Hp & _ & _ & ->) Hd. rewrite lookup_insert_ne; [done|]. congruence. Qed.

Lemma list_token (o : Z) (os : list Z) : (list_to_set_disj (o :: os) : gmultiset Z) = {[+ o +]} ⊎ list_to_set_disj os.
Proof. done. Qed.

Lemma release_regs_spec f (rs : list positive) : forall (os : list Z) h ext gs v vt n,
  Forall2 (fun r (o : Z) => ids v !! o = Some r /\ td v !! o = Some false) rs os ->
  counted None h (list_to_set_disj os ⊎ ext) (v :: vt) -> reps gs (v :: vt) -> (S (size h) < f)%nat ->
  exists h' gs' v' vt', release_regs f rs (mk_memory h (n + Z.of_nat (size h)) gs) = Some (mk_memory h' (n + Z.of_nat (size h')) gs')
    /\ counted None h' ext (v' :: vt') /\ reps gs' (v' :: vt') /\ (forall d, h !! d = None -> h' !! d = None)
    /\ (acyclic h -> released h h' ext (v :: vt) (v' :: vt'))
    /\ exists ds, v' :: vt' = marks ds (v :: vt) /\ forall d, d ∈ ds -> h' !! d = None.
Proof.
  induction rs as [|r rs IH]; intros os h ext gs v vt n Hos C R Hf.
  - apply Forall2_nil_inv_l in Hos as ->. change (list_to_set_disj []) with (∅ : gmultiset Z) in C. rewrite (left_id ∅ (⊎)) in C. exists h, gs, v, vt. split_and!; try done.
    + intros _. by apply released_nil.
    + exists []. split; [done|]. by intros d ?%not_elem_of_nil.
  - apply Forall2_cons_inv_l in Hos as (o & os' & [Hid Htd] & Hos & ->). rewrite list_token, <- (assoc_L (⊎)) in C.
    destruct (counted_token _ _ _ _ _ C) as [x Hx]. apply Forall2_cons_inv_r in R as HR. destruct HR as (g & gt & Rg & Rgt & ->).
    destruct (rep_ids _ _ Rg _ _ Htd) as (r' & Hr' & Er). assert (r' = r) as -> by congruence.
    cbn [release_regs garbs head mbind option_bind]. rewrite Er. cbn [state reg_o kept_state objs mbind option_bind]. rewrite Hx.
    pose proof (c_pos _ _ _ _ C _ _ Hx ltac:(done)). cbn [mbind option_bind]. destruct (Z.eqb_spec (gbx_refcnt x) 0); [lia|].
    destruct (release_general f h _ (g :: gt) (v :: vt) n o C R Hf) as (h0 & h1 & gs1 & vs1 & -> & Hh0 & Rl & R1).
    assert (size h0 = size h) as Hs0 by (destruct Hh0 as [->|He]; [done|by eapply erased_size]).
    assert (forall d, h !! d = None -> h0 !! d = None) as Hd0 by (destruct Hh0 as [->|He]; [done|intros; by eapply erased_dom]).
    pose proof (released_size _ _ _ _ _ Rl). pose proof Rl as [C1 _ (ds & -> & Hds)].
    pose proof (marks_told ds (v :: vt)) as Tm. apply Forall2_cons_inv_l in Tm as (v1 & vt1 & (Hi1 & Hk1 & Ht1 & _) & Tm & Em).
    rewrite Em in *. cbn [mbind option_bind].
    destruct (IH os' h1 ext gs1 v1 vt1 n) as (h' & gs' & v' & vt' & -> & C' & R' & Hs' & Hrel & ds' & Em' & Hds'); try done; try lia.
    { apply Forall2_same_length_lookup. apply Forall2_same_length_lookup in Hos as [Hlen Hos]. split; [done|].
      intros k r' o' Hr1 Ho1. destruct (Hos k r' o' Hr1 Ho1) as [Ho2 Ho3]. rewrite Hi1. split; [done|]. rewrite Ht1; [done|].
      intros Hin. destruct (Hds _ Hin) as [_ Hn]. apply list_elem_of_lookup_2 in Ho1.
      destruct (c_live _ _ _ _ C1 o') as [? ?]; [|congruence].
      apply gmultiset_elem_of_disj_union. left. apply gmultiset_elem_of_disj_union. left. by apply elem_of_list_to_set_disj. }
    exists h', gs', v', vt'. split_and!; try done.
    + intros d Hd. apply Hs'. by eapply released_dom; [|apply Hd0].
    + intros Hac. destruct Hh0 as [->|He]; [|by apply acyclic_erased in He]. eapply released_trans; [done|]. apply Hrel.
      destruct Hac as [rank Hr]. exists rank. intros a b Hab. by eapply Hr, released_edge.
    + exists (ds ++ ds'). unfold marks. rewrite foldl_app. fold (marks ds (v :: vt)). rewrite Em. split; [done|].
      intros d [Hd|Hd]%elem_of_app; [|by apply Hds']. apply Hs'. by apply Hds.
Qed.

Lemma own_pending v (o : Z) : o ∈ own v <-> td v !! o = Some false.
Proof.
  unfold own. rewrite elem_of_list_to_set_disj, elem_of_elements, elem_of_dom. unfold pending. split.
  - intros [b [Hb Hp]%map_lookup_filter_Some]. by assert (b = false) as -> by exact Hp.
  - intros H. exists false. by apply map_lookup_filter_Some.
Qed.

(** A heap whose current scope is closed. *)
Lemma counted_pop x h ext v vt : counted x h ext (v :: vt) -> counted x h ext vt.
Proof. intros [C1 C2 C3 C4 C5]. split; try done. intros l w Hl Hw. apply C5; [done|by right]. Qed.

Lemma close_scope_spec f h ext gs v vt n : keep_all v = false -> Z.of_nat (size (td v)) < 2 ^ 32 ->
  counted None h (own v ⊎ ext) (v :: vt) -> reps gs (v :: vt) -> (S (size h) < f)%nat ->
  exists h' gs' vt', close_scope f (mk_memory h (n + Z.of_nat (size h)) gs) = Some (mk_memory h' (n + Z.of_nat (size h')) gs')
    /\ counted None h' ext vt' /\ reps gs' vt'
    /\ (acyclic h -> forall p, is_Some (h' !! p) <-> exists r, r ∈ ext /\ rtc (edge h) r p)
    /\ exists ds, Forall2 (told ds) vt vt' /\ forall d, d ∈ ds -> h' !! d = None.
Proof.
  intros Hk Hsz C R Hf. apply Forall2_cons_inv_r in R as HR. destruct HR as (g & gt & Rg & Rgt & ->).
  destruct (collect_objects _ _ Rg Hsz) as (rs & os & Ec & Hp & Hos).
  assert (own v = list_to_set_disj os) as Ho by (unfold own; by rewrite Hp). rewrite Ho in C.
  destruct (release_regs_spec f rs os h ext (g :: gt) v vt n Hos C R Hf) as (h' & gs' & v' & vt' & E & C' & R' & Hd & Hrel & ds & Em & Hds).
  apply Forall2_cons_inv_r in R' as HR'. destruct HR' as (g' & gt' & Rg' & Rgt' & ->).
  exists h', gt', vt'. split_and!; [|by eapply counted_pop|done| |].
  - unfold close_scope. cbn [garbs head mbind option_bind]. rewrite <- (rep_keep_all _ _ Rg), Hk, Ec. cbn [mbind option_bind].
    rewrite E. done.
  - intros Hac p. by apply released_reachable with (1 := Hac) (2 := Hrel Hac).
  - exists ds. split; [|done]. pose proof (marks_told ds (v :: vt)) as Tm. rewrite <- Em in Tm. by apply Forall2_cons_1 in Tm as [_ ?].
Qed.

(** ** Programs

    What a program may do with the references [prog] it holds: it gives back those
    only, sets the attributes of objects that are held, in a graph without cycles, to
    objects that are held, and creates objects at addresses that no open scope knows.
    An object created in a scope belongs to it, until it is kept. *)
Inductive command := New_object l (n : nat) | Hold l | Release l | KeepObject l | SetPointer l (i : nat) (new : option Z)
  | OpenScope (n : Z) | CloseScope.

Definition run_command (f : nat) (c : command) m : option memory :=
  match c with
  | New_object l n => new_object l n m
  | Hold l => incrRefCount l m
  | Release l => release f l m
  | KeepObject l => keep l m
  | SetPointer l i p => '(_, m) ← setValue f l i p true m; Some m
  | OpenScope n => open_scope n m
  | CloseScope => close_scope f m
  end.

Definition registers gs : bool := match gs with [] => false | g :: _ => negb (bool_decide (type g = SUSPEND)) end.
(** The registration of an object in the first scope that has one is to be deleted. *)
Fixpoint to_delete l gs : bool :=
  match gs with
  | [] => false
  | g :: gs =>
      match find g l (todelete_lists g) with
      | Some (Some r) => bool_decide (state <$> regs g !! r = Some ToDelete)
      | _ => to_delete l gs
      end
  end.
Definition known l gs : Prop := Exists (fun g => isObjRegistered l g <> Some false) gs.

Inductive permits (prog : gmultiset Z) m : command -> gmultiset Z -> Prop :=
  | may_new l n : objs m !! l = None -> ~ known l (garbs m) ->
      (forall g, head (garbs m) = Some g -> Z.pos (next_reg g) < 2 ^ 32 - 1) ->
      permits prog m (New_object l n) (if registers (garbs m) then prog else {[+ l +]} ⊎ prog)
  | may_hold l : is_Some (objs m !! l) -> permits prog m (Hold l) ({[+ l +]} ⊎ prog)
  | may_release l prog' : prog = {[+ l +]} ⊎ prog' -> permits prog m (Release l) prog'
  | may_keep l : permits prog m (KeepObject l) (if to_delete l (garbs m) then {[+ l +]} ⊎ prog else prog)
  | may_set l i (p : option Z) o : acyclic (objs m) -> objs m !! l = Some o -> (i < length (slots o))%nat -> l ∈ prog ->
      (forall x : Z, p = Some x -> x ∈ prog) -> permits prog m (SetPointer l i p) prog
  | may_open n : 0 < n < 2 ^ 31 -> is_Some (init NoType n) -> permits prog m (OpenScope n) prog
  | may_close : garbs m <> [] -> permits prog m CloseScope prog.

Definition enough (f : nat) m : Prop := (S (size (objs m)) < f)%nat.

(** The states a program reaches. *)
Inductive session : gmultiset Z -> memory -> Prop :=
  | session_start : session ∅ (mk_memory ∅ 0 [])
  | session_command f c prog prog' m m' : session prog m -> permits prog m c prog' -> enough f m ->
      run_command f c m = Some m' -> session prog' m'.

(** The references the scopes hold. *)
Definition owns vs : gmultiset Z := foldr (fun v r => own v ⊎ r) ∅ vs.

Record sound (prog : gmultiset Z) m vs : Prop := {
  so_counted : counted None (objs m) (prog ⊎ owns vs) vs;
  so_reps : reps (garbs m) vs;
  so_keep : Forall (fun v => keep_all v = false) vs;
  so_small : Forall (fun v => Z.pos (nxt v) < 2 ^ 32) vs;
  so_cnt : obj_cnt m = Z.of_nat (size (objs m)) }.

Lemma told_own ds v v' : told ds v v' -> (forall d : Z, d ∈ ds -> d ∉ own v) -> own v' = own v.
Proof.
  intros (_ & _ & Ht & Hs) Hd. unfold own. do 3 f_equal. apply map_eq. intros o. unfold pending.
  destruct (decide (o ∈ ds)) as [Hin|Hin].
  - specialize (Hd _ Hin). rewrite own_pending in Hd.
    assert (forall w, td w ⊆ td v -> filter is_pending (td w) !! o = None) as HN.
    { intros w Hw. apply map_lookup_filter_None. right. intros x Hx Hp. assert (x = false) as -> by exact Hp.
      apply Hd. by eapply lookup_weaken. }
    by rewrite !HN.
  - specialize (Ht _ Hin). destruct (td v !! o) as [[]|] eqn:E.
    + transitivity (None : option bool); [|symmetry]; apply map_lookup_filter_None; right; intros x Hx Hp; assert (x = false) as -> by exact Hp; congruence.
    + transitivity (Some false); [|symmetry]; by apply map_lookup_filter_Some.
    + transitivity (None : option bool); [|symmetry]; apply map_lookup_filter_None; left; congruence.
Qed.
Lemma told_owns ds vs vs' : Forall2 (told ds) vs vs' -> (forall d : Z, d ∈ ds -> d ∉ owns vs) -> owns vs' = owns vs.
Proof.
  induction 1 as [|v v' vs vs' Hv _ IH]; intros Hd; [done|]. cbn in *. f_equal.
  - eapply told_own; [done|]. intros d Hin. specialize (Hd d Hin). multiset_solver.
  - apply IH. intros d Hin. specialize (Hd d Hin). multiset_solver.
Qed.
Lemma told_fields ds vs vs' (P : bool -> positive -> Prop) : Forall2 (told ds) vs vs' ->
  Forall (fun v => P (keep_all v) (nxt v)) vs -> Forall (fun v => P (keep_all v) (nxt v)) vs'.
Proof. induction 1 as [|v v' vs vs' (_ & [E1 E2] & _) _ IH]; inversion 1; subst; constructor; [by rewrite E1, E2|auto]. Qed.

Lemma tokens_insert (m : gmap Z bool) l b : m !! l = None ->
  (list_to_set_disj (elements (dom (<[l := b]> m))) : gmultiset Z) = {[+ l +]} ⊎ list_to_set_disj (elements (dom m)).
Proof.
  intros Hl. rewrite dom_insert_L, elements_union_singleton by by apply not_elem_of_dom. by rewrite list_token.
Qed.

Lemma own_add l v : td v !! l = None -> own (s_add l v) = if suspended v then own v else {[+ l +]} ⊎ own v.
Proof.
  intros Hl. unfold s_add. destruct (suspended v); [done|]. unfold own, pending. cbn [td].
  rewrite map_filter_insert_True by done. apply tokens_insert. apply map_lookup_filter_None. by left.
Qed.
Lemma own_keep l v : td v !! l = Some false -> own v = {[+ l +]} ⊎ own (s_keep l true v).
Proof.
  intros Hl. unfold own, s_keep, pending. cbn [td]. rewrite map_filter_insert_False, map_filter_delete by done.
  rewrite <- (tokens_insert _ l false) by apply lookup_delete_eq. rewrite insert_delete_id; [done|].
  by apply map_lookup_filter_Some.
Qed.

Lemma owns_cons v vs : owns (v :: vs) = own v ⊎ owns vs.
Proof. done. Qed.

(** What keepObject does to the references of the scopes. *)
Lemma owns_keep gs vs l : reps gs vs ->
  (if to_delete l gs then {[+ l +]} else ∅) ⊎ owns (s_keepObject l true vs) = owns vs.
Proof.
  induction 1 as [|g v gs vs R _ IH]; [apply (left_id ∅ (⊎))|]. cbn [to_delete s_keepObject].
  destruct (find_td g v R l) as (ls & _ & [[-> H]|(r & b & -> & _ & E & H)]).
  - rewrite H, bool_decide_eq_false_2 by (by intros []). rewrite !owns_cons, <- IH. multiset_solver.
  - rewrite E, H, (bool_decide_eq_true_2 (is_Some _)) by done. destruct b; cbn [fmap option_fmap option_map state kept_state].
    + rewrite bool_decide_eq_false_2, (s_keep_same g v R) by done. apply (left_id ∅ (⊎)).
    + rewrite bool_decide_eq_true_2, !owns_cons, (own_keep l v H) by done. multiset_solver.
Qed.
Lemma keep_fields l vs (P : bool -> positive -> Prop) : Forall (fun v => P (keep_all v) (nxt v)) vs ->
  Forall (fun v => P (keep_all v) (nxt v)) (s_keepObject l true vs).
Proof. induction 1; cbn; [constructor|]. case_bool_decide; by constructor. Qed.
Lemma dels_keep l vs v : v ∈ s_keepObject l true vs -> exists v', v' ∈ vs /\ dels v = dels v'.
Proof.
  induction vs as [|w vs IH]; cbn; [by intros ?%not_elem_of_nil|]. case_bool_decide.
  - intros [->|Hv]%elem_of_cons; [exists w|exists v]; (split; [by constructor|done]).
  - intros [->|Hv]%elem_of_cons; [exists w; split; [by left|done]|]. destruct (IH Hv) as (v' & ? & ?). exists v'. split; [by right|done].
Qed.

Lemma counted_scopes h ext vs vs' : counted None h ext vs -> (forall v, v ∈ vs' -> exists v', v' ∈ vs /\ dels v = dels v') ->
  counted None h ext vs'.
Proof.
  intros [C1 C2 C3 C4 C5] H. split; try done. intros l v Hl Hv. destruct (H v Hv) as (v' & Hv' & ->). by apply C5.
Qed.

Lemma not_known gs vs l : reps gs vs -> ~ known l gs -> forall v, v ∈ vs -> td v !! l = None /\ l ∉ dels v.
Proof.
  induction 1 as [|g v gs vs R _ IH]; intros Hn w Hw; [by apply not_elem_of_nil in Hw|]. unfold known in Hn.
  rewrite Exists_cons in Hn. apply elem_of_cons in Hw as [->|Hw]; [|apply IH; tauto].
  assert (isObjRegistered l g = Some false) as E by (destruct (decide (isObjRegistered l g = Some false)); tauto).
  rewrite (isObjRegistered_spec g v R l) in E. injection E as E%bool_decide_eq_false. split; [|tauto].
  apply eq_None_not_Some. tauto.
Qed.

Lemma sound_new prog m vs l n : sound prog m vs -> objs m !! l = None -> ~ known l (garbs m) ->
  (forall g, head (garbs m) = Some g -> Z.pos (next_reg g) < 2 ^ 32 - 1) ->
  exists m' vs', new_object l n m = Some m' /\ sound (if registers (garbs m) then prog else {[+ l +]} ⊎ prog) m' vs'.
Proof.
  intros [C R K N O] Hl Hk Hb. pose proof (not_known _ _ _ R Hk) as Hn.
  destruct (addObject_reps (garbs m) vs l R) as (gs' & Eg & R').
  { intros v Hv. apply Hn. destruct vs; [done|]. injection Hv as ->. by left. }
  unfold new_object. rewrite Hl, Eg. cbn [mbind option_bind]. eexists _, (s_addObject l vs). split; [done|].
  set (ob := mk_object ValidObject 1 false false false false (replicate n None)).
  assert (refs_of ob = ∅) as Hr. { unfold refs_of, pointers. cbn. induction n; [done|]. done. }
  assert ((if registers (garbs m) then prog else {[+ l +]} ⊎ prog) ⊎ owns (s_addObject l vs) = {[+ l +]} ⊎ (prog ⊎ owns vs)) as He.
  { destruct R as [|g v gs vs Rg R]; [by cbn [registers s_addObject]; rewrite (assoc_L (⊎))|].
    cbn [s_addObject registers]. rewrite !owns_cons.
    destruct (Hn v) as [Ht _]; [by left|]. rewrite (own_add _ _ Ht), (rep_susp _ _ Rg).
    case_bool_decide; cbn [negb]; multiset_solver. }
  assert (forall w, w ∈ s_addObject l vs -> exists w', w' ∈ vs /\ dels w = dels w') as Hd.
  { destruct vs as [|v vs]; cbn; [by intros ? ?%not_elem_of_nil|]. intros w [->|Hw]%elem_of_cons.
    - exists v. split; [by left|]. unfold s_add. by destruct (suspended v).
    - exists w. split; [by right|done]. }
  split; cbn [objs garbs obj_cnt].
  - rewrite He. eapply counted_scopes, Hd. destruct C as [C1 C2 C3 C4 C5].
    assert (refs (<[l := ob]> (objs m)) = refs (objs m)) as Hrefs by (rewrite refs_insert, Hr by done; apply (left_id ∅ (⊎))).
    assert (l ∉ prog ⊎ owns vs ⊎ refs (objs m)) as Hnl by (intros [? ?]%C3; congruence).
    split; rewrite ?Hrefs.
    + intros a b [[<- <-]|[_ Ha]]%lookup_insert_Some; [done|by eapply C1].
    + intros a b [[<- <-]|[Hne Ha]]%lookup_insert_Some; cbn [gbx_refcnt].
      * change (gbx_refcnt ob) with 1. rewrite elem_of_multiplicity, !multiplicity_disj_union in Hnl.
        rewrite !multiplicity_disj_union, multiplicity_singleton, decide_True by done. lia.
      * rewrite (C2 _ _ Ha), !multiplicity_disj_union, multiplicity_singleton, decide_False by done. lia.
    + intros a Ha. apply lookup_insert_is_Some. destruct (decide (l = a)) as [|Hne]; [by left|right]. split; [done|].
      apply C3. multiset_solver.
    + intros a b [[<- <-]|[Hne Ha]]%lookup_insert_Some _; [done|]. by eapply C4.
    + intros a v [<-|[_ Ha]]%lookup_insert_is_Some Hv; [by apply Hn|by apply C5].
  - done.
  - destruct vs as [|v vs]; [constructor|]. inversion K; subst. constructor; [|done]. unfold s_add. by destruct (suspended v).
  - destruct R as [|g v gs vs Rg R]; [constructor|]. inversion N; subst. constructor; [|done]. unfold s_add.
    destruct (suspended v); [done|]. cbn. specialize (Hb g eq_refl). rewrite (rep_nxt _ _ Rg). lia.
  - rewrite O, map_size_insert_None by done. lia.
Qed.

(** The scopes after objects were freed, while the references they hold are live. *)
Lemma sound_told prog h n gs vs vs' ds : counted None h (prog ⊎ owns vs) vs' -> reps gs vs' ->
  Forall2 (told ds) vs vs' -> (forall d, d ∈ ds -> h !! d = None) ->
  Forall (fun v => keep_all v = false) vs -> Forall (fun v => Z.pos (nxt v) < 2 ^ 32) vs -> n = Z.of_nat (size h) ->
  sound prog (mk_memory h n gs) vs'.
Proof.
  intros C R T Hds K N ->. assert (owns vs' = owns vs) as Ho.
  { eapply told_owns; [done|]. intros d Hd Hin. destruct (c_live _ _ _ _ C d) as [x Hx]; [multiset_solver|].
    rewrite (Hds d Hd) in Hx. done. }
  split; cbn; [by rewrite Ho|done| | |done].
  - by apply (told_fields ds vs vs' (fun k _ => k = false)).
  - by apply (told_fields ds vs vs' (fun _ n => Z.pos n < 2 ^ 32)).
Qed.

Lemma sound_release f prog m vs l : sound ({[+ l +]} ⊎ prog) m vs -> enough f m ->
  exists m' vs', release f l m = Some m' /\ sound prog m' vs'.
Proof.
  intros [C R K N O] Hf. destruct m as [h n gs]. unfold enough in Hf. cbn [objs obj_cnt garbs] in *. subst n.
  rewrite <- (assoc_L (⊎)) in C. destruct (release_general f h _ gs vs 0 l C R Hf) as (h0 & h' & gs' & vs' & E & _ & Rl & R').
  destruct (released_told _ _ _ _ _ Rl) as (ds & T & Hds). rewrite !Z.add_0_l in E. eexists _, vs'. split; [done|].
  eapply sound_told; try done. apply Rl.
Qed.

Lemma sound_set f prog m vs l (i : nat) (p : option Z) o : sound prog m vs -> enough f m -> acyclic (objs m) -> objs m !! l = Some o ->
  (i < length (slots o))%nat -> l ∈ prog -> (forall x : Z, p = Some x -> x ∈ prog) ->
  exists m' vs', run_command f (SetPointer l i p) m = Some m' /\ sound prog m' vs'.
Proof.
  intros [C R K N O] Hf Hac Hl Hi Hlp Hp. destruct m as [h n gs]. unfold enough in Hf. cbn [objs obj_cnt garbs] in *. subst n.
  apply lookup_lt_is_Some_2 in Hi. cbn [run_command]. destruct (decide (slots o !! i = Some p)) as [Ei|Hne].
  - unfold setValue. cbn [objs]. rewrite Hl. cbn [mbind option_bind]. rewrite Ei. cbn [mbind option_bind].
    rewrite bool_decide_eq_true_2 by done. by eexists _, vs.
  - destruct (setValue_spec f h (prog ⊎ owns vs) gs vs 0 l i o p) as (h' & gs' & vs' & ds & E & (C' & _) & R' & T & Hds); try done.
    { multiset_solver. } { intros x Hx. specialize (Hp x Hx). multiset_solver. }
    rewrite !Z.add_0_l in E. rewrite E. cbn. eexists _, vs'. split; [done|]. by eapply sound_told.
Qed.

Lemma sound_close f prog m vs : sound prog m vs -> enough f m -> garbs m <> [] ->
  exists m' vs', close_scope f m = Some m' /\ sound prog m' vs'.
Proof.
  intros [C R K N O] Hf Hne. destruct m as [h n gs]. unfold enough in Hf. cbn [objs obj_cnt garbs] in *. subst n.
  destruct R as [|g v gs vs Rg R]; [done|]. inversion K as [|? ? Kv Kvs]; subst. inversion N as [|? ? Nv Nvs]; subst.
  rewrite owns_cons in C. assert (prog ⊎ (own v ⊎ owns vs) = own v ⊎ (prog ⊎ owns vs)) as Ec by multiset_solver. rewrite Ec in C.
  pose proof (size_td _ _ Rg). destruct (close_scope_spec f h (prog ⊎ owns vs) (g :: gs) v vs 0) as (h' & gs' & vt' & E & C' & R' & _ & ds & T & Hds);
    try done; [lia|by constructor|]. rewrite !Z.add_0_l in E. eexists _, vt'. split; [done|]. by eapply sound_told.
Qed.

(** Every command that is permitted succeeds and keeps the counts exact. *)
Lemma sound_command f c prog prog' m vs : sound prog m vs -> permits prog m c prog' -> enough f m ->
  exists m' vs', run_command f c m = Some m' /\ sound prog' m' vs'.
Proof.
  intros S P Hf. destruct P as [l n Hl Hk Hb|l [o Hl]|l prog' ->|l|l i p o Hac Hl Hi Hlp Hp|n Hn [g Hg]|Hne].
  - by eapply sound_new.
  - destruct S as [C R K N O]. cbn [run_command]. rewrite (incrRefCount_spec l m o Hl (c_quiet _ _ _ _ C _ _ Hl)).
    unfold with_objs. eexists _, vs. split; [done|].
    split; cbn [objs garbs obj_cnt]; try done.
    + rewrite <- (assoc_L (⊎)). by apply counted_incr.
    + rewrite map_size_insert_Some by eauto. done.
  - by eapply sound_release.
  - destruct S as [C R K N O]. cbn [run_command]. unfold keep. destruct (keepObject_reps (garbs m) vs l true R) as (gs' & -> & R').
    cbn [mbind option_bind]. eexists _, (s_keepObject l true vs). split; [done|]. split; cbn [objs garbs obj_cnt]; try done.
    + assert ((if to_delete l (garbs m) then {[+ l +]} ⊎ prog else prog) ⊎ owns (s_keepObject l true vs) = prog ⊎ owns vs) as ->.
      { pose proof (owns_keep (garbs m) vs l R) as E. destruct (to_delete l (garbs m)); [|rewrite (left_id ∅ (⊎)) in E]; rewrite <- E; multiset_solver. }
      eapply counted_scopes; [done|]. intros v. apply dels_keep.
    + by apply (keep_fields l vs (fun k _ => k = false)).
    + by apply (keep_fields l vs (fun _ n => Z.pos n < 2 ^ 32)).
  - by eapply sound_set.
  - destruct S as [C R K N O]. cbn [run_command]. unfold open_scope. rewrite Hg. cbn [mbind option_bind].
    pose proof (init_rep _ _ _ Hn Hg) as Rg. eexists _, (mk_scope ∅ ∅ false false ∅ 1 :: vs). split; [done|]. split; cbn [objs garbs obj_cnt].
    + rewrite owns_cons. assert (own (mk_scope ∅ ∅ false false ∅ 1) = ∅) as -> by done. rewrite (left_id ∅ (⊎)).
      destruct C as [C1 C2 C3 C4 C5]. split; try done. intros a v Ha [->|Hv]%elem_of_cons; [set_solver|by apply C5].
    + by constructor.
    + by constructor.
    + by constructor.
    + done.
  - by eapply sound_close.
Qed.

Lemma session_sound prog m : session prog m -> exists vs, sound prog m vs.
Proof.
  induction 1 as [|f c prog prog' m m' _ [vs S] P Hf E].
  - exists []. split; [|constructor|constructor..|done].
    split; try (intros l o Hl; cbn in Hl; by rewrite lookup_empty in Hl). intros l.
    unfold owns, refs. cbn [objs foldr]. rewrite map_fold_empty. multiset_solver.
  - destruct (sound_command f c prog prog' m vs S P Hf) as (m1 & vs' & E' & S'). exists vs'. congruence.
Qed.

(** *** Theorems *)

(** C11: the counts of references are exact whatever the graph of objects is, cycles
    included: releasing an object the program holds succeeds, with counts that are
    exact again, no use of a freed object and no count below zero; what is left is
    made of the objects there were, one pointer to the object released being erased
    when it is in a cycle. Calls as nested as there are objects are enough. *)
Theorem release_keeps_counts f h ext gs vs n l :
  counted None h ({[+ l +]} ⊎ ext) vs -> reps gs vs -> (S (size h) < f)%nat ->
  exists h0 h' gs' vs', release f l (mk_memory h (n + Z.of_nat (size h)) gs) = Some (mk_memory h' (n + Z.of_nat (size h')) gs')
    /\ counted None h' ext vs' /\ reps gs' vs'
    /\ (h0 = h \/ erased l l h h0)
    /\ (forall p o', h' !! p = Some o' -> exists o, h0 !! p = Some o /\ o' = set_refcnt (gbx_refcnt o') o).
Proof.
  intros C R Hf. destruct (release_general f h ext gs vs n l C R Hf) as (h0 & h' & gs' & vs' & E & H0 & Rl & R').
  exists h0, h', gs', vs'. split_and!; try done; apply Rl.
Qed.

(** In a graph of objects without cycles, releasing an object frees exactly the
    objects that the references still held do not reach: none is lost and none that
    is in use is freed. *)
Theorem release_collects f h ext gs vs n l :
  acyclic h -> counted None h ({[+ l +]} ⊎ ext) vs -> reps gs vs -> (S (size h) < f)%nat ->
  exists h' gs', release f l (mk_memory h (n + Z.of_nat (size h)) gs) = Some (mk_memory h' (n + Z.of_nat (size h')) gs')
    /\ (forall p, is_Some (h' !! p) <-> exists r, r ∈ ext /\ rtc (edge h) r p)
    /\ (forall p o', h' !! p = Some o' -> exists o, h !! p = Some o /\ o' = set_refcnt (gbx_refcnt o') o).
Proof.
  intros Hac C R Hf. destruct (release_general f h ext gs vs n l C R Hf) as (h0 & h' & gs' & vs' & E & H0 & Rl & R').
  destruct H0 as [->|He]; [|by apply acyclic_erased in He]. exists h', gs'. split_and!; [done| |apply Rl].
  intros p. by apply released_reachable with (1 := Hac) (2 := Rl).
Qed.

(** C27: setting an indirect attribute, in a graph without cycles and between objects
    that the program holds, stores the pointer, counts it and gives the old one back:
    exactly the objects that the references held reach in the new graph are left. *)
Theorem set_indirect_attribute f h ext gs vs n l i o new :
  counted None h ext vs -> reps gs vs -> acyclic h -> h !! l = Some o ->
  is_Some (slots o !! i) -> slots o !! i <> Some new -> l ∈ ext -> (forall p, new = Some p -> p ∈ ext) -> (S (size h) < f)%nat ->
  exists h' gs' vs', setValue f l i new true (mk_memory h (n + Z.of_nat (size h)) gs)
      = Some (Success, mk_memory h' (n + Z.of_nat (size h')) gs')
    /\ set_result h l i new o h' ext vs' /\ reps gs' vs'.
Proof.
  intros C R Hac Hl Hi Hne Hlx Hp Hf.
  destruct (setValue_spec f h ext gs vs n l i o new C R Hac Hl Hi Hne Hlx Hp Hf) as (h' & gs' & vs' & _ & E & S & R' & _).
  by exists h', gs', vs'.
Qed.

(** SetValue gives the old object back before it counts the new one: setting
    an attribute to an object that is reached only through the pointer it replaces,
    as in list->next = list->next->next, uses the new object once it is freed. *)
Theorem borrowed_object_freed f h ext gs vs n l i o q p :
  counted None h ext vs -> reps gs vs -> acyclic h -> h !! l = Some o -> slots o !! i = Some (Some q) -> l ∈ ext ->
  is_Some (h !! p) -> p <> q -> (forall r, r ∈ ext -> ~ rtc (edge (<[l := set_slot i None o]> h)) r p) -> (S (size h) < f)%nat ->
  setValue f l i (Some p) true (mk_memory h (n + Z.of_nat (size h)) gs) = None.
Proof.
  intros C R Hac Hl Hi Hlx [po Hpo] Hpq Hun Hf.
  destruct (release_old f h ext gs vs n l i o (Some q)) as (h1 & gs1 & vs1 & E & Rl & R1); try done.
  unfold setValue. cbn [objs]. rewrite Hl. cbn [mbind option_bind]. rewrite Hi. cbn [mbind option_bind].
  rewrite bool_decide_eq_false_2 by congruence. rewrite Hpo. cbn [mbind option_bind].
  destruct (c_quiet _ _ _ _ C _ _ Hpo) as (_ & _ & -> & _). rewrite E. cbn [mbind option_bind].
  assert (acyclic (<[l := set_slot i None o]> h)) as Hacs.
  { destruct Hac as [rank Hr]. exists rank. intros a b He. exact (Hr _ _ (edge_cleared h l i o Hl _ _ He)). }
  unfold incrRefCount, update. cbn [objs]. rewrite plain_lookup. destruct (h1 !! p) eqn:E1; [|done].
  assert (is_Some (h1 !! p)) as Hs by eauto. apply (released_reachable _ _ _ _ _ _ Hacs Rl) in Hs as (r & Hr & Hpath).
  by apply Hun in Hpath.
Qed.

(** C23: closing a scope gives back the objects created in it that were not kept:
    the counts stay exact, and in a graph without cycles exactly the objects that the
    references still held reach are left; the scope asserts no wrong count and follows
    no pointer to a freed object. *)
Theorem close_scope_collects f h ext gs v vt n :
  keep_all v = false -> Z.of_nat (size (td v)) < 2 ^ 32 ->
  counted None h (own v ⊎ ext) (v :: vt) -> reps gs (v :: vt) -> (S (size h) < f)%nat ->
  exists h' gs' vt', close_scope f (mk_memory h (n + Z.of_nat (size h)) gs) = Some (mk_memory h' (n + Z.of_nat (size h')) gs')
    /\ counted None h' ext vt' /\ reps gs' vt'
    /\ (acyclic h -> forall p, is_Some (h' !! p) <-> exists r, r ∈ ext /\ rtc (edge h) r p).
Proof.
  intros Hk Hsz C R Hf. destruct (close_scope_spec f h ext gs v vt n Hk Hsz C R Hf) as (h' & gs' & vt' & E & C' & R' & Hr & _).
  by exists h', gs', vt'.
Qed.


(** *** Examples *)

Module Example.

#[local] Instance quiet_dec o : Decision (quiet o).
Proof. unfold quiet. apply _. Defined.

Definition exact (ext : gmultiset Z) h : Prop :=
  map_Forall (fun l o => quiet o /\ gbx_refcnt o = Z.of_nat (multiplicity l (ext ⊎ refs h)) /\ 0 < gbx_refcnt o) h
  /\ Forall (fun l => is_Some (h !! l)) (elements (ext ⊎ refs h)).
#[local] Instance exact_dec ext h : Decision (exact ext h).
Proof. unfold exact. apply _. Defined.

Lemma exact_counted ext h vs : bool_decide (exact ext h) = true -> Forall (fun v => dels v = ∅) vs -> counted None h ext vs.
Proof.
  intros [H1 H2]%bool_decide_eq_true Hv. split.
  - intros l o Hl. by apply H1 in Hl as (? & ? & ?).
  - intros l o Hl. by apply H1 in Hl as (? & ? & ?).
  - intros l Hl. eapply Forall_forall in H2; [done|]. by apply gmultiset_elem_of_elements.
  - intros l o Hl _. by apply H1 in Hl as (? & ? & ?).
  - intros l v _ Hin. eapply Forall_forall in Hv; [|done]. cbn in Hv. rewrite Hv. set_solver.
Qed.

(** Addresses that grow along the pointers. *)
Definition upwards h : Prop :=
  map_Forall (fun l o => Forall (fun q : option Z => from_option (fun p => 0 <= l < p) True q) (slots o)) h.
#[local] Instance upwards_dec h : Decision (upwards h).
Proof.
  apply map_Forall_dec. intros l o. apply Forall_dec. intros [p|]; cbn; apply _.
Defined.
Lemma upwards_acyclic h : bool_decide (upwards h) = true -> acyclic h.
Proof.
  intros H%bool_decide_eq_true. exists Z.to_nat. intros l p (o & Hl & Hp). apply H in Hl.
  eapply Forall_forall in Hl; [|done]. cbn in Hl. lia.
Qed.

Definition obj (n : Z) (s : list (option Z)) : gbxObject := mk_object ValidObject n false false false false s.

(** A list 1 -> 2 -> 3 whose head the program holds, and 4 that it holds too. *)
Definition chain : gmap Z gbxObject :=
  <[1 := obj 1 [Some 2]]> (<[2 := obj 1 [Some 3]]> (<[3 := obj 1 [None]]> (<[4 := obj 1 [None]]> ∅))).
Lemma chain_counted : counted None chain ({[+ 1 +]} ⊎ {[+ 4 +]}) [].
Proof. apply exact_counted; [vm_compute; reflexivity|constructor]. Qed.
Lemma chain_acyclic : acyclic chain.
Proof. apply upwards_acyclic. vm_compute. reflexivity. Qed.

Lemma release_keeps_counts_witness :
  exists h' gs' vs', release 6 1 (mk_memory chain (0 + 4) []) = Some (mk_memory h' (0 + Z.of_nat (size h')) gs')
    /\ counted None h' {[+ 4 +]} vs'.
Proof.
  destruct (release_keeps_counts 6 chain {[+ 4 +]} [] [] 0 1 chain_counted) as (h0 & h' & gs' & vs' & E & C & _).
  - constructor.
  - vm_compute. lia.
  - exists h', gs', vs'. split; [exact E|exact C].
Defined.

Lemma release_collects_witness :
  exists h' gs', release 6 1 (mk_memory chain (0 + 4) []) = Some (mk_memory h' (0 + Z.of_nat (size h')) gs')
    /\ forall p, is_Some (h' !! p) <-> exists r, r ∈ ({[+ 4 +]} : gmultiset Z) /\ rtc (edge chain) r p.
Proof.
  destruct (release_collects 6 chain {[+ 4 +]} [] [] 0 1 chain_acyclic chain_counted) as (h' & gs' & E & H & _).
  - constructor.
  - vm_compute. lia.
  - exists h', gs'. split; [exact E|exact H].
Defined.

Lemma set_indirect_attribute_witness :
  exists h' gs' vs', setValue 6 1 0 (Some 4) true (mk_memory chain (0 + 4) []) = Some (Success, mk_memory h' (0 + Z.of_nat (size h')) gs')
    /\ set_result chain 1 0 (Some 4) (obj 1 [Some 2]) h' ({[+ 1 +]} ⊎ {[+ 4 +]}) vs'.
Proof.
  destruct (set_indirect_attribute 6 chain _ [] [] 0 1 0 (obj 1 [Some 2]) (Some 4) chain_counted) as (h' & gs' & vs' & E & H & _).
  - constructor.
  - exact chain_acyclic.
  - vm_compute. reflexivity.
  - exists (Some 2). reflexivity.
  - discriminate.
  - multiset_solver.
  - intros p [= <-]. multiset_solver.
  - vm_compute. lia.
  - exists h', gs', vs'. split; [exact E|exact H].
Defined.

Lemma no_way h l p : (forall q, ~ edge h l q) -> rtc (edge h) l p -> p = l.
Proof. intros Hn Hp. destruct Hp as [|a b c He _]; [done|]. by apply Hn in He. Qed.

(** list->next = list->next->next *)
Lemma borrowed_object_freed_witness : setValue 6 1 0 (Some 3) true (mk_memory chain (0 + 4) []) = None.
Proof.
  apply (borrowed_object_freed 6 chain _ [] [] 0 1 0 (obj 1 [Some 2]) 2 3 chain_counted).
  - constructor.
  - exact chain_acyclic.
  - vm_compute. reflexivity.
  - reflexivity.
  - multiset_solver.
  - exists (obj 1 [None]). vm_compute. reflexivity.
  - lia.
  - assert (forall l, l = 1 \/ l = 4 -> forall q, ~ edge (<[1 := set_slot 0 None (obj 1 [Some 2])]> chain) l q) as Hn.
    { intros l [-> | ->] q (o & Ho & Hq); vm_compute in Ho; injection Ho as <-; set_solver. }
    intros r [->%gmultiset_elem_of_singleton| ->%gmultiset_elem_of_singleton]%gmultiset_elem_of_disj_union Hp;
      apply no_way in Hp; auto; lia.
  - vm_compute. lia.
Defined.

(** A scope in which 16 was created, and set in 1 that the program holds. *)
Definition scope_heap : gmap Z gbxObject := <[1 := obj 1 [Some 16; None]]> (<[16 := obj 2 [None]]> ∅).
Definition scope_v : list scope := s_addObject 16 [mk_scope ∅ ∅ false false ∅ 1].

Lemma close_scope_collects_witness :
  exists gs h' gs', addObject 16 [new_garb NoType 4] = Some gs
    /\ close_scope 4 (mk_memory scope_heap (0 + 2) gs) = Some (mk_memory h' (0 + Z.of_nat (size h')) gs')
    /\ forall p, is_Some (h' !! p) <-> exists r, r ∈ ({[+ 1 +]} : gmultiset Z) /\ rtc (edge scope_heap) r p.
Proof.
  destruct (addObject_reps [new_garb NoType 4] [mk_scope ∅ ∅ false false ∅ 1] 16) as (gs & E & R).
  - apply Forall2_cons_2, Forall2_nil_2. by apply (new_garb_rep NoType 2).
  - intros v [= <-]. split; [reflexivity|set_solver].
  - destruct (close_scope_collects 4 scope_heap {[+ 1 +]} gs (s_add 16 (mk_scope ∅ ∅ false false ∅ 1)) [] 0) as (h' & gs' & _ & Ec & _ & _ & H).
    + reflexivity.
    + vm_compute. reflexivity.
    + apply exact_counted; [vm_compute; reflexivity|]. constructor; [reflexivity|constructor].
    + exact R.
    + vm_compute. lia.
    + exists gs, h', gs'. split; [exact E|]. split; [exact Ec|]. apply H, upwards_acyclic. vm_compute. reflexivity.
Defined.


(** Outside of the discipline. The next and prev attributes of two objects point to
    each other: resetting one of them gives the object back while the pointer is still
    there, its cycle is found and its count goes below zero. *)
Definition pair_heap : gmap Z gbxObject := <[1 := obj 2 [Some 2]]> (<[2 := obj 1 [Some 1]]> ∅).
Example reset_in_cycle_aborts : setValue 6 1 0 None true (mk_memory pair_heap 2 []) = None.
Proof. vm_compute. reflexivity. Qed.

(** An object in a cycle, held twice: giving one reference back erases the pointer of
    the cycle, though the object is still in use. *)
Definition held_twice : gmap Z gbxObject := <[1 := obj 3 [Some 2]]> (<[2 := obj 1 [Some 1]]> ∅).
Example cycle_erased_in_use :
  (m ← release 6 1 (mk_memory held_twice 2 []); o1 ← objs m !! 1; o2 ← objs m !! 2; Some (gbx_refcnt o1, slots o2))
  = Some (1, [None]).
Proof. vm_compute. reflexivity. Qed.

(** Two cycles through one object: one is found, and the object and the other one leak. *)
Definition two_cycles : gmap Z gbxObject := <[1 := obj 3 [Some 2; Some 3]]> (<[2 := obj 1 [Some 1]]> (<[3 := obj 1 [Some 1]]> ∅)).
Example second_cycle_leaks :
  (m ← release 6 1 (mk_memory two_cycles 3 []); Some (size (objs m))) = Some 3%nat.
Proof. vm_compute. reflexivity. Qed.

(** One cycle is collected. *)
Example cycle_collected :
  (m ← release 6 1 (mk_memory pair_heap 2 []); Some (size (objs m), obj_cnt m)) = Some (0%nat, 0).
Proof. vm_compute. reflexivity. Qed.

(** In a scope, an address that is used again looks like a deleted object: what it
    points to is not given back. *)
Example reused_address_leaks :
  (m ← open_scope 4 (mk_memory ∅ 0 []); m ← new_object 16 0 m; m ← release 6 16 m;
   m ← new_object 16 0 m; m ← new_object 32 1 m; '(_, m) ← setValue 6 32 0 (Some 16) true m;
   m ← release 6 16 m; m ← release 6 32 m; Some (bool_decide (is_Some (objs m !! 16)), bool_decide (is_Some (objs m !! 32)))) = Some (true, false).
Proof. vm_compute. reflexivity. Qed.

End Example.
