(* ===== verification/OqlContext.v ===== *)
(** * OQL: the symbol table

    The symbols of an OQL session: [oqmlContext], [oqmlSymbolTable] and
    [oqmlSymbolEntry] of src/eyedb/oqlbase.cc, the identifier nodes of
    oqlident.cc and oqlop.cc that use them, and the frame of a function call
    (oqlfunc.cc). Entries live in a heap because the table and the local tables
    share them; [None] is an access to an entry that was deleted or a failed
    assertion. Types and atoms are parameters: the table only stores them. *)

From Stdlib Require Import Ascii String.
From S2P Require Import Prelude.

Abbreviation loc := positive.

(** oqmlStatus: success or an error message. *)
Inductive oqmlStatus := oqmlSuccess | oqmlError (msg : string).

#[export] Instance oqmlStatus_dec : EqDecision oqmlStatus.
Proof. solve_decision. Defined.

Definition oqml_global_scope : string := "::".
Definition oqml_is_global_ident (ident : string) : bool := String.prefix oqml_global_scope ident.
(** [&ident[oqml_global_scope_len]] *)
Definition strip_scope (ident : string) : string :=
  match ident with String _ (String _ s) => s | _ => EmptyString end.
Definition add_scope (ident : string) : string := (oqml_global_scope ++ ident)%string.

Section Table.
Context {T A : Type} (st_atom_type : T).

Record oqmlSymbolEntry := mk_entry {
  ident : string; type : T; at_ : option A; global : bool; system : bool;
  level : Z; popped : bool }.

(** The fields of oqmlContext that symbols use, with its table; [table] is the
    chain from [sfirst] to [slast], [locals] has [locals[local_cnt-1]] first;
    [variables] is the list of the oql$variables atom and [variables_cnt] its
    [cnt]. *)
Record oqmlContext := mk_context {
  heap : gmap loc oqmlSymbolEntry; fresh : loc;
  table : list loc; locals : list (list loc);
  arg_level : Z; is_popping : bool;
  variables : list string; variables_cnt : Z }.

Implicit Types (c : oqmlContext) (s : oqmlSymbolEntry) (l : loc) (id : string).

Definition new_context : oqmlContext := mk_context ∅ 1%positive [] [] 0 false [] 0.

Definition local_cnt c : Z := Z.of_nat (length (locals c)).
Definition getLocalTable c : bool := 0 <? local_cnt c.

Definition set_heap c h : oqmlContext :=
  mk_context h (fresh c) (table c) (locals c) (arg_level c) (is_popping c) (variables c) (variables_cnt c).
Definition set_table c t : oqmlContext :=
  mk_context (heap c) (fresh c) t (locals c) (arg_level c) (is_popping c) (variables c) (variables_cnt c).
Definition set_locals c ls : oqmlContext :=
  mk_context (heap c) (fresh c) (table c) ls (arg_level c) (is_popping c) (variables c) (variables_cnt c).
Definition set_popping c b : oqmlContext :=
  mk_context (heap c) (fresh c) (table c) (locals c) (arg_level c) b (variables c) (variables_cnt c).
Definition set_variables c v n : oqmlContext :=
  mk_context (heap c) (fresh c) (table c) (locals c) (arg_level c) (is_popping c) v n.

Definition pushArgLevel c : oqmlContext :=
  mk_context (heap c) (fresh c) (table c) (locals c) (arg_level c + 1) (is_popping c) (variables c) (variables_cnt c).
Definition popArgLevel c : oqmlContext :=
  mk_context (heap c) (fresh c) (table c) (locals c) (arg_level c - 1) (is_popping c) (variables c) (variables_cnt c).

(** ** Entries *)

Definition set_value (ty : option T) (a : option A) s : oqmlSymbolEntry :=
  mk_entry (ident s) (default st_atom_type ty) a (global s) (system s) (level s) (popped s).
Definition set_popped s : oqmlSymbolEntry :=
  mk_entry (ident s) (type s) (at_ s) (global s) (system s) (level s) true.

Definition clear_value s : oqmlSymbolEntry :=
  mk_entry (ident s) (type s) None (global s) (system s) (level s) (popped s).

(** oqmlSymbolEntry::set: without [force] a null atom only changes the type. *)
Definition entry_set (ty : option T) (a : option A) (force : bool) s : oqmlSymbolEntry :=
  match a with
  | Some _ => set_value ty a s
  | None => if force then set_value ty None s else set_value ty (at_ s) s
  end.

(** oqml_suppress removes the first one and leaves [cnt]. *)
Fixpoint suppress (id : string) (v : list string) : list string :=
  match v with
  | [] => []
  | x :: v => if String.eqb x id then v else x :: suppress id v
  end.

(** The constructor: the entry, in the heap, in oql$variables when it is a
    prefixed global, in the current local table when it is local. *)
Definition new_entry c id (ty : option T) (a : option A) (global system : bool)
    : loc * oqmlContext :=
  let l := fresh c in
  let level := if global then 0 else local_cnt c in
  let s := mk_entry id (default st_atom_type ty) a global system level false in
  let c := mk_context (<[l := s]> (heap c)) (Pos.succ l) (table c) (locals c)
             (arg_level c) (is_popping c) (variables c) (variables_cnt c) in
  let c := if global && oqml_is_global_ident id
           then set_variables c (variables c ++ [id]) (variables_cnt c + 1) else c in
  let c := if negb global
           then match locals c with
                | t :: ls => set_locals c ((t ++ [l]) :: ls)
                | [] => c
                end
           else c in
  (l, c).

(** The destructor. *)
Definition delete_entry c l : option oqmlContext :=
  s ← heap c !! l;
  let c := if global s && oqml_is_global_ident (ident s)
           then set_variables c (suppress (ident s) (variables c)) (variables_cnt c) else c in
  Some (set_heap c (delete l (heap c))).

(** A walk along the table: the first entry that satisfies [p]. *)
Fixpoint find_entry (h : gmap loc oqmlSymbolEntry) (p : oqmlSymbolEntry -> bool) (t : list loc)
    : option (option (loc * oqmlSymbolEntry)) :=
  match t with
  | [] => Some None
  | l :: t => s ← h !! l; if p s then Some (Some (l, s)) else find_entry h p t
  end.

(** The entries setSymbolRealize, popSymbolRealize and getSymbolEntry stop at. *)
Definition set_matches (cnt : Z) id (glob : bool) s : bool :=
  String.eqb (ident s) id
  && (global s || (negb glob && negb (global s) && (level s =? cnt))).
Definition pop_matches (cnt : Z) id (glob : bool) s : bool :=
  String.eqb (ident s) id && Bool.eqb (global s) glob && (global s || (level s =? cnt)).
Definition visible (cnt arg : Z) id s : bool :=
  String.eqb (ident s) id
  && (global s || (level s =? cnt) || (negb (arg =? 0) && (level s <? cnt))).

(** ** Private operations *)

Definition pushSymbolRealize c id ty a (global system : bool) : option (oqmlStatus * oqmlContext) :=
  let '(l, c) := new_entry c id ty a global system in
  Some (oqmlSuccess, set_table c (table c ++ [l])).

Definition setSymbolRealize c id ty a (glob system_ : bool) : option (oqmlStatus * oqmlContext) :=
  r ← find_entry (heap c) (set_matches (local_cnt c) id glob)
        (if glob then table c else reverse (table c));
  match r with
  | Some (l, s) =>
      if system s && negb system_ then
        Some (oqmlError ("'" ++ id ++ "' is a system variable: it cannot be modified."), c)
      else Some (oqmlSuccess, set_heap c (<[l := entry_set ty a true s]> (heap c)))
  | None => pushSymbolRealize c id ty a glob system_
  end.

Definition popSymbolRealize c id (glob : bool) : option (oqmlStatus * oqmlContext) :=
  r ← find_entry (heap c) (pop_matches (local_cnt c) id glob) (reverse (table c));
  match r with
  | Some (l, s) =>
      let c := set_heap c (<[l := clear_value s]> (heap c)) in
      let c := set_table c (filter (fun k => k <> l) (table c)) in
      if getLocalTable c && negb (is_popping c) then
        s ← heap c !! l;
        Some (oqmlSuccess, set_heap c (<[l := set_popped s]> (heap c)))
      else
        c ← delete_entry c l; Some (oqmlSuccess, c)
  | None => None
  end.

(** ** Local tables *)

Definition pushLocalTable c : oqmlContext := set_locals c ([] :: locals c).

(** The scan of the last local table by popLocalTable; an entry may have been
    deleted with the identifier of an earlier one. *)
Fixpoint pop_entries c (t : list loc) : option (oqmlStatus * oqmlContext) :=
  match t with
  | [] => Some (oqmlSuccess, c)
  | l :: t =>
      s ← heap c !! l;
      if global s then None
      else if popped s then c ← delete_entry c l; pop_entries c t
      else
        '(st, c) ← popSymbolRealize c (ident s) false;
        match st with oqmlSuccess => pop_entries c t | _ => Some (st, c) end
  end.

Definition popLocalTable c : option (oqmlStatus * oqmlContext) :=
  match locals c with
  | [] => None
  | t :: ls =>
      '(st, c) ← pop_entries (set_popping c true) t;
      match st with
      | oqmlSuccess => Some (oqmlSuccess, set_locals (set_popping c false) ls)
      | _ => Some (st, c)
      end
  end.

(** ** Search *)

Definition getSymbolEntry c id : option (option (loc * oqmlSymbolEntry)) :=
  find_entry (heap c) (visible (local_cnt c) (arg_level c) id) (reverse (table c)).

Definition getSymbol c id : option (option (T * option A * bool)) :=
  match getSymbolEntry c id with
  | None => None
  | Some None => Some None
  | Some (Some (_, s)) => Some (Some (type s, at_ s, global s))
  end.

End Table.

Arguments oqmlSymbolEntry : clear implicits.
Arguments oqmlContext : clear implicits.

(** ** The operations the rest of the evaluator is written with

    The private operations, getSymbol, the local tables and the levels of the
    evaluation of arguments, for any implementation of the table. *)
Class Symbols (T A C : Type) := {
  has_local_table : C -> bool;
  push_symbol : C -> string -> option T -> option A -> bool -> bool -> option (oqmlStatus * C);
  set_symbol : C -> string -> option T -> option A -> bool -> bool -> option (oqmlStatus * C);
  pop_symbol : C -> string -> bool -> option (oqmlStatus * C);
  get_symbol : C -> string -> option (option (T * option A * bool));
  push_local_table : C -> C;
  pop_local_table : C -> option (oqmlStatus * C);
  push_arg_level : C -> C;
  pop_arg_level : C -> C }.

#[export] Instance oqmlContext_symbols {T A} (st_atom_type : T) : Symbols T A (oqmlContext T A) := {|
  has_local_table := getLocalTable;
  push_symbol := pushSymbolRealize st_atom_type;
  set_symbol := setSymbolRealize st_atom_type;
  pop_symbol := popSymbolRealize;
  get_symbol := getSymbol;
  push_local_table := pushLocalTable;
  pop_local_table := popLocalTable;
  push_arg_level := pushArgLevel;
  pop_arg_level := popArgLevel |}.

Section Nodes.
Context {T A C : Type} `{S : !Symbols T A C} (atom_type : A -> T).

Implicit Types (c : C) (id : string) (a : option A).

(** ** Public operations

    A global symbol has two entries, with and without the scope prefix; in a
    function an identifier without it is local. *)

Definition then_ (r : option (oqmlStatus * C))
    (k : C -> option (oqmlStatus * C)) : option (oqmlStatus * C) :=
  '(st, c) ← r; match st with oqmlSuccess => k c | _ => Some (st, c) end.

Definition both (f : C -> string -> bool -> option (oqmlStatus * C))
    c id (glob : bool) : option (oqmlStatus * C) :=
  if glob then
    if oqml_is_global_ident id then
      then_ (f c (strip_scope id) true) (fun c => f c id true)
    else if negb (has_local_table c) then
      then_ (f c (add_scope id) true) (fun c => f c id true)
    else f c id false
  else f c id false.

Definition setSymbol c id ty a (glob sys : bool) :=
  both (fun c id glob => set_symbol c id ty a glob sys) c id glob.
Definition pushSymbol c id ty a (glob sys : bool) :=
  both (fun c id glob => push_symbol c id ty a glob sys) c id glob.
Definition popSymbol c id (glob : bool) := both pop_symbol c id glob.

(** ** The identifier nodes *)

(** oqmlAssign::eval once the right value [a] is known and the left value is the
    identifier [id]. *)
Definition assign_ident c id a : option (oqmlStatus * C) :=
  r ← get_symbol c id;
  let glob := match r with
              | None => true
              | Some (_, _, g) => g || oqml_is_global_ident id
              end in
  setSymbol c id (atom_type <$> a) a glob false.

Definition push_ident c id : option (oqmlStatus * C) :=
  pushSymbol c id None None false false.

Definition pop_ident c id : option (oqmlStatus * C) :=
  r ← get_symbol c id;
  match r with
  | None => Some (oqmlError ("uninitialized identifier '" ++ id ++ "'"), c)
  | Some (_, _, true) => Some (oqmlError ("cannot pop global symbol '" ++ id ++ "'"), c)
  | Some (_, _, false) => popSymbol c id false
  end.

(** oqmlUnset drops the status of popSymbol. *)
Definition unset_ident c id : option (oqmlStatus * C) :=
  r ← get_symbol c id;
  match r with
  | None => Some (oqmlSuccess, c)
  | Some (_, _, false) => Some (oqmlError ("cannot unset local symbol '" ++ id ++ "'"), c)
  | Some (_, _, true) => '(_, c) ← popSymbol c id true; Some (oqmlSuccess, c)
  end.

Definition isset_ident c id : option bool :=
  r ← get_symbol c id; Some (bool_decide (is_Some r)).

Definition scopeof_ident c id : option (string + string) :=
  r ← get_symbol c id;
  match r with
  | None => Some (inl ("uninitialized identifier '" ++ id ++ "'")%string)
  | Some (_, _, g) => Some (inr (if g : bool then "global" else "local")%string)
  end.

(** oqmlValRefOf::makeIdent *)
Definition makeIdent c id : option string :=
  if oqml_is_global_ident id then Some id
  else
    r ← get_symbol c id;
    match r with
    | None | Some (_, _, true) => Some (add_scope id)
    | Some (_, _, false) => Some id
    end.

(** ** Commands

    What the evaluation of a statement does to the symbols: the identifier nodes,
    the loop of oqmlForEach over the atoms of a collection and the frame of
    oqmlCall::realize, where the effects of an argument's expression happen in
    the new frame. *)

Inductive cmd :=
| Skip | Raise (msg : string) | Seq (x y : cmd)
| Assign (id : string) (a : option A) | Push (id : string) | Pop (id : string) | Unset (id : string)
| ForEach (id : string) (xs : list A) (body : cmd)
| Call (ps : params) (body : cmd)
with params :=
| NoParam
| Param (id : string) (arg : cmd) (a : option A) (ps : params).

(** oqmlForEach::eval: the symbol is popped before the status is tested. *)
Definition for_each (run_body : C -> option (oqmlStatus * C)) (id : string)
    : list A -> C -> option (oqmlStatus * C) :=
  fix go xs c :=
    match xs with
    | [] => Some (oqmlSuccess, c)
    | x :: xs =>
        '(_, c) ← pushSymbol c id (Some (atom_type x)) (Some x) false false;
        '(st, c) ← run_body c;
        '(_, c) ← popSymbol c id false;
        match st with oqmlSuccess => go xs c | _ => Some (st, c) end
    end.

Fixpoint run (x : cmd) (c : C) : option (oqmlStatus * C) :=
  match x with
  | Skip => Some (oqmlSuccess, c)
  | Raise msg => Some (oqmlError msg, c)
  | Seq x y => then_ (run x c) (run y)
  | Assign id a => assign_ident c id a
  | Push id => push_ident c id
  | Pop id => pop_ident c id
  | Unset id => unset_ident c id
  | ForEach id xs body => for_each (run body) id xs c
  | Call ps body =>
      '(st, c) ← then_ (run_params ps (push_local_table c)) (run body);
      '(_, c) ← pop_local_table c;
      Some (st, c)
  end
with run_params (ps : params) (c : C) : option (oqmlStatus * C) :=
  match ps with
  | NoParam => Some (oqmlSuccess, c)
  | Param id arg a ps =>
      '(st, c) ← run arg (push_arg_level c);
      let c := pop_arg_level c in
      match st with
      | oqmlSuccess =>
          '(_, c) ← pushSymbol c id (atom_type <$> a) a false false;
          run_params ps c
      | _ => Some (st, c)
      end
  end.

Lemma run_Call ps body c :
  run (Call ps body) c =
  ('(st, c) ← then_ (run_params ps (push_local_table c)) (run body);
   '(_, c) ← pop_local_table c; Some (st, c)).
Proof. done. Qed.

Lemma run_params_Param id arg a ps c :
  run_params (Param id arg a ps) c =
  ('(st, c) ← run arg (push_arg_level c);
   match st with
   | oqmlSuccess =>
       '(_, c) ← pushSymbol (pop_arg_level c) id (atom_type <$> a) a false false;
       run_params ps c
   | _ => Some (st, pop_arg_level c)
   end).
Proof. done. Qed.

End Nodes.

Arguments cmd : clear implicits.
Arguments params : clear implicits.

(** oqmlAssign::eval when the left value is a reference to the entry [l]. *)
Definition assign_entry {T A} (st_atom_type : T) (atom_type : A -> T)
    (c : oqmlContext T A) (l : loc) (a : option A) : option (oqmlStatus * oqmlContext T A) :=
  s ← heap c !! l;
  if global s then
    setSymbol (S := oqmlContext_symbols st_atom_type) c (ident s) (atom_type <$> a) a true false
  else Some (oqmlSuccess, set_heap c (<[l := entry_set st_atom_type (atom_type <$> a) a false s]> (heap c))).
