(* ===== verification/OqlEnv.v ===== *)
(** * OQL: the symbol table, abstractly

    The symbols of a session as one list, the most recent first, without heap,
    table links or local tables: [env]. Each operation of [OqlContext] refines
    the one of the same name here; leaving a frame drops the symbols of its
    level. *)

From Stdlib Require Import Ascii String.
From S2P Require Import Prelude OqlContext.

#[local] Set Warnings "-register-all".
#[local] Arguments reverse : simpl never.

Section Env.
Context {T A : Type} (st_atom_type : T).

Abbreviation sym := (oqmlSymbolEntry T A).
Abbreviation context := (oqmlContext T A).
Implicit Types (c : context) (s : sym) (l : loc) (id : string).

Record env := mk_env {
  syms : list sym; depth : nat; args : Z; vars : list string; vcnt : Z }.

Implicit Types e : env.

Definition with_syms e ss : env := mk_env ss (depth e) (args e) (vars e) (vcnt e).

Fixpoint find_sym (p : sym -> bool) (ss : list sym) : option sym :=
  match ss with [] => None | s :: ss => if p s then Some s else find_sym p ss end.
Fixpoint upd_sym (p : sym -> bool) (f : sym -> sym) (ss : list sym) : list sym :=
  match ss with [] => [] | s :: ss => if p s then f s :: ss else s :: upd_sym p f ss end.
Fixpoint rem_sym (p : sym -> bool) (ss : list sym) : list sym :=
  match ss with [] => [] | s :: ss => if p s then ss else s :: rem_sym p ss end.

(** The search of a global symbol starts from the oldest one. *)
Definition oriented (glob : bool) (ss : list sym) : list sym := if glob then reverse ss else ss.

Definition cnt_of e : Z := Z.of_nat (depth e).

Definition env_push e id ty a (glob sys : bool) : oqmlStatus * env :=
  let s := mk_entry id (default st_atom_type ty) a glob sys (if glob then 0 else cnt_of e) false in
  let up := glob && oqml_is_global_ident id in
  (oqmlSuccess,
   mk_env (s :: syms e) (depth e) (args e)
     (if up then vars e ++ [id] else vars e) (if up then vcnt e + 1 else vcnt e)).

Definition env_set e id ty a (glob sys : bool) : oqmlStatus * env :=
  let p := set_matches (cnt_of e) id glob in
  match find_sym p (oriented glob (syms e)) with
  | Some s =>
      if system s && negb sys then
        (oqmlError ("'" ++ id ++ "' is a system variable: it cannot be modified."), e)
      else (oqmlSuccess,
            with_syms e (oriented glob (upd_sym p (entry_set st_atom_type ty a true) (oriented glob (syms e)))))
  | None => env_push e id ty a glob sys
  end.

(** A prefixed global leaves oql$variables only when it is removed outside of a
    function. *)
Definition env_pop e id (glob : bool) : option (oqmlStatus * env) :=
  let p := pop_matches (cnt_of e) id glob in
  if decide (is_Some (find_sym p (syms e))) then
    let v := if glob && oqml_is_global_ident id && (depth e =? 0)%nat then suppress id (vars e) else vars e in
    Some (oqmlSuccess, mk_env (rem_sym p (syms e)) (depth e) (args e) v (vcnt e))
  else None.

(** The symbols of a level. *)
Definition in_level (k : Z) s : bool := negb (global s) && (level s =? k).
Definition frame_syms (k : Z) (ss : list sym) : list sym := filter (fun s => in_level k s = true) ss.
Definition other_syms (k : Z) (ss : list sym) : list sym := filter (fun s => in_level k s = false) ss.

Definition env_push_frame e : env := mk_env (syms e) (S (depth e)) (args e) (vars e) (vcnt e).

(** Leaving a frame fails when two of its symbols have the same identifier. *)
Definition env_pop_frame e : option (oqmlStatus * env) :=
  match depth e with
  | O => None
  | S d =>
      if decide (NoDup (ident <$> frame_syms (cnt_of e) (syms e)))
      then Some (oqmlSuccess, mk_env (other_syms (cnt_of e) (syms e)) d (args e) (vars e) (vcnt e))
      else None
  end.

Definition env_get e id : option sym := find_sym (visible (cnt_of e) (args e) id) (syms e).

Definition env_getSymbol e id : option (option (T * option A * bool)) :=
  Some ((fun s => (type s, at_ s, global s)) <$> env_get e id).

Definition env_args e n : env := mk_env (syms e) (depth e) n (vars e) (vcnt e).

#[local] Instance env_symbols : Symbols T A env := {|
  has_local_table e := (0 <? cnt_of e);
  push_symbol e id ty a glob sys := Some (env_push e id ty a glob sys);
  set_symbol e id ty a glob sys := Some (env_set e id ty a glob sys);
  pop_symbol := env_pop;
  get_symbol := env_getSymbol;
  push_local_table := env_push_frame;
  pop_local_table := env_pop_frame;
  push_arg_level e := env_args e (args e + 1);
  pop_arg_level e := env_args e (args e - 1) |}.

(** ** Representation *)

Definition at_level (h : gmap loc sym) (k : Z) (l : loc) : bool :=
  match h !! l with Some s => in_level k s | None => false end.

(** The local table of level [k] holds symbols of that level, those that are not
    popped being the ones of the table, in order. *)
Record frame_ok c (k : Z) (t : list loc) : Prop := {
  frame_nodup : NoDup t;
  frame_entry : forall l, l ∈ t ->
    exists s, heap c !! l = Some s /\ in_level k s = true /\ (popped s = false <-> l ∈ table c);
  frame_table : filter (fun l => l ∈ table c) t = filter (fun l => at_level (heap c) k l = true) (table c) }.

(** [ls]: the local tables that are still to be popped. *)
Record context_ok c (ls : list (list loc)) : Prop := {
  ok_fresh : forall l s, heap c !! l = Some s -> (l < fresh c)%positive;
  ok_entry : forall l, l ∈ table c ->
    exists s, heap c !! l = Some s /\ popped s = false
      /\ 0 <= level s <= local_cnt c /\ (global s = true -> level s = 0);
  ok_nodup : NoDup (table c);
  ok_frame : forall i t, ls !! i = Some t -> frame_ok c (Z.of_nat (length ls - i)) t }.

Definition entries (h : gmap loc sym) : list loc -> list sym -> Prop :=
  Forall2 (fun l s => h !! l = Some s).

Record repr c e : Prop := {
  repr_ok : context_ok c (locals c);
  repr_popping : is_popping c = false;
  repr_syms : entries (heap c) (reverse (table c)) (syms e);
  repr_depth : length (locals c) = depth e;
  repr_args : arg_level c = args e;
  repr_vars : variables c = vars e;
  repr_vcnt : variables_cnt c = vcnt e }.

Definition refines (r : option (oqmlStatus * context)) (q : option (oqmlStatus * env)) : Prop :=
  match r, q with
  | Some (st, c), Some (st', e) => st = st' /\ repr c e
  | None, None => True
  | _, _ => False
  end.

(** ** Lemmas on the walk along the table *)

Lemma find_entry_spec h p t ss :
  entries h t ss ->
  match find_sym p ss with
  | None => find_entry h p t = Some None
  | Some s => exists l t1 t2 ss1 ss2, find_entry h p t = Some (Some (l, s))
      /\ t = t1 ++ l :: t2 /\ ss = ss1 ++ s :: ss2
      /\ entries h t1 ss1
      /\ entries h t2 ss2
      /\ h !! l = Some s /\ p s = true /\ Forall (fun s => p s = false) ss1
  end.
Proof.
  induction 1 as [|l s t ss Hl Ht IH]; cbn [find_sym find_entry]; [done|].
  rewrite Hl; cbn. destruct (p s) eqn:Hp.
  - exists l, [], t, [], ss. cbn. repeat split; auto; constructor.
  - destruct (find_sym p ss) as [s'|]; [|done].
    destruct IH as (l' & t1 & t2 & ss1 & ss2 & E & -> & -> & ? & ? & ? & ? & ?).
    exists l', (l :: t1), t2, (s :: ss1), ss2. cbn. repeat split; auto. by constructor.
Qed.

Lemma upd_sym_split p f ss1 s ss2 :
  Forall (fun s => p s = false) ss1 -> p s = true ->
  upd_sym p f (ss1 ++ s :: ss2) = ss1 ++ f s :: ss2.
Proof.
  induction 1 as [|x ss1 Hx _ IH]; cbn; intros Hs; [by rewrite Hs|].
  by rewrite Hx, IH.
Qed.

Lemma rem_sym_split p ss1 s ss2 :
  Forall (fun s => p s = false) ss1 -> p s = true ->
  rem_sym p (ss1 ++ s :: ss2) = ss1 ++ ss2.
Proof.
  induction 1 as [|x ss1 Hx _ IH]; cbn; intros Hs; [by rewrite Hs|].
  by rewrite Hx, IH.
Qed.

Lemma find_sym_true p ss s : find_sym p ss = Some s -> p s = true.
Proof.
  induction ss as [|x ss IH]; cbn; [done|]. destruct (p x) eqn:Hx; [|done]. by intros [= <-].
Qed.

(** Changing an entry that is not in a list of entries. *)
Lemma entries_insert (h : gmap loc sym) t ss l s :
  l ∉ t -> entries h t ss ->
  entries (<[l := s]> h) t ss.
Proof.
  intros Hl H. induction H as [|k x t ss Hk Ht IH]; [by constructor|].
  apply not_elem_of_cons in Hl as [Hne Hl]. constructor; [|by apply IH].
  by rewrite lookup_insert_ne.
Qed.

Lemma entries_delete (h : gmap loc sym) t ss l :
  l ∉ t -> entries h t ss ->
  entries (delete l h) t ss.
Proof.
  intros Hl H. induction H as [|k x t ss Hk Ht IH]; [by constructor|].
  apply not_elem_of_cons in Hl as [Hne Hl]. constructor; [|by apply IH].
  by rewrite lookup_delete_ne.
Qed.

Lemma entries_filter h k t ss :
  entries h t ss ->
  entries h (filter (fun l => at_level h k l = true) t) (frame_syms k ss).
Proof.
  induction 1 as [|l s t ss Hl Ht IH]; [by constructor|].
  assert (at_level h k l = in_level k s) as E by (unfold at_level; by rewrite Hl).
  unfold frame_syms. destruct (in_level k s) eqn:Hk.
  - rewrite !filter_cons_True by congruence. by constructor.
  - by rewrite !filter_cons_False by congruence.
Qed.

(** ** Frames *)

Lemma fresh_not_in_table c ls : context_ok c ls -> fresh c ∉ table c.
Proof.
  intros H Hin. destruct (ok_entry _ _ H _ Hin) as (s & Hs & _).
  pose proof (ok_fresh _ _ H _ _ Hs). lia.
Qed.

Lemma frame_notin c k t l : frame_ok c k t -> heap c !! l = None -> l ∉ t.
Proof. intros H Hn Hin. destruct (frame_entry _ _ _ H _ Hin) as (s & Hs & _). congruence. Qed.

(** A new entry at the end of the table, of another level, or of this one and at
    the end of the local table. *)
Lemma frame_new c c' k t l s :
  heap c !! l = None -> l ∉ table c -> popped s = false ->
  heap c' = <[l := s]> (heap c) -> table c' = table c ++ [l] ->
  frame_ok c k t ->
  frame_ok c' k (if in_level k s then t ++ [l] else t).
Proof.
  intros Hl Hlt Hp Hh Ht H. pose proof (frame_notin _ _ _ _ H Hl) as Hnt.
  assert (forall x, x <> l -> at_level (heap c') k x = at_level (heap c) k x) as Eat.
  { intros x Hx. unfold at_level. by rewrite Hh, lookup_insert_ne. }
  assert (forall x, x ∈ t -> exists s0, heap c' !! x = Some s0 /\ in_level k s0 = true
            /\ (popped s0 = false <-> x ∈ table c')) as Hent.
  { intros x Hx. destruct (frame_entry _ _ _ H _ Hx) as (s0 & Hs0 & Hlv & Hpop).
    exists s0. rewrite Hh, lookup_insert_ne by congruence.
    rewrite Ht, elem_of_app, list_elem_of_singleton.
    assert (x <> l) by congruence. tauto. }
  assert (filter (fun x => x ∈ table c') t
          = filter (fun x => at_level (heap c') k x = true) (table c)) as Hft.
  { rewrite (filter_ext_in _ (fun x => x ∈ table c)).
    - rewrite (frame_table _ _ _ H). apply filter_ext_in. intros x Hx.
      rewrite Eat; [done|congruence].
    - intros x Hx. rewrite Ht, elem_of_app, list_elem_of_singleton.
      assert (x <> l) by congruence. tauto. }
  assert (at_level (heap c') k l = in_level k s) as El.
  { unfold at_level. by rewrite Hh, lookup_insert_eq. }
  destruct (in_level k s) eqn:Hin; split.
  - apply NoDup_app. split; [apply H|]. split; [|apply NoDup_singleton].
    intros x Hx ->%list_elem_of_singleton. done.
  - intros x [Hx|Hx%list_elem_of_singleton]%elem_of_app; [auto|]. subst x.
    exists s. rewrite Hh, lookup_insert_eq, Ht, elem_of_app, list_elem_of_singleton. tauto.
  - assert (l ∈ table c') by (rewrite Ht, elem_of_app, list_elem_of_singleton; auto).
    transitivity (filter (fun x => at_level (heap c') k x = true) (table c ++ [l])).
    + rewrite !filter_app, Hft. f_equal. by rewrite !filter_cons_True.
    + by rewrite Ht.
  - apply H.
  - auto.
  - rewrite Hft.
    transitivity (filter (fun x => at_level (heap c') k x = true) (table c ++ [l])).
    + rewrite filter_app, (filter_cons_False _ l), filter_nil, app_nil_r; [done|congruence].
    + by rewrite Ht.
Qed.

(** A change of an entry that keeps its scope. *)
Lemma frame_value c c' k t l s s' :
  heap c !! l = Some s -> global s' = global s -> level s' = level s -> popped s' = popped s ->
  heap c' = <[l := s']> (heap c) -> table c' = table c ->
  frame_ok c k t -> frame_ok c' k t.
Proof.
  intros Hl Hg Hlv Hp Hh Ht H.
  assert (forall x, at_level (heap c') k x = at_level (heap c) k x) as Eat.
  { intros x. unfold at_level. rewrite Hh. destruct (decide (x = l)) as [->|].
    - rewrite lookup_insert_eq, Hl. unfold in_level. by rewrite Hg, Hlv.
    - by rewrite lookup_insert_ne. }
  split.
  - apply H.
  - intros x Hx. destruct (frame_entry _ _ _ H _ Hx) as (s0 & Hs0 & Hin & Hpop).
    rewrite Ht, Hh. destruct (decide (x = l)) as [->|].
    + exists s'. rewrite lookup_insert_eq. assert (s0 = s) by congruence; subst s0.
      unfold in_level in *. rewrite Hg, Hlv, Hp. auto.
    + exists s0. by rewrite lookup_insert_ne.
  - rewrite Ht, (frame_table _ _ _ H). apply filter_ext_in. intros; by rewrite Eat.
Qed.

(** ** Refinement of the private operations *)

Lemma push_ok c e id ty a glob sys c' :
  repr c e -> pushSymbolRealize st_atom_type c id ty a glob sys = Some (oqmlSuccess, c') ->
  context_ok c' (locals c').
Proof.
  intros [H _ _ _ _ _ _] E. pose proof (fresh_not_in_table _ _ H) as Hnew.
  assert (heap c !! fresh c = None) as Hnone.
  { destruct (heap c !! fresh c) eqn:Hs; [|done]. pose proof (ok_fresh _ _ H _ _ Hs). lia. }
  set (s := mk_entry id (default st_atom_type ty) a glob sys (if glob then 0 else local_cnt c) false).
  assert (heap c' = <[fresh c := s]> (heap c) /\ fresh c' = Pos.succ (fresh c)
    /\ table c' = table c ++ [fresh c]
    /\ locals c' = match locals c with
                   | t :: ls => (if glob then t else t ++ [fresh c]) :: ls
                   | [] => []
                   end) as (Hh & Hf & Ht & Hl).
  { revert E. unfold pushSymbolRealize, new_entry.
    destruct glob, (locals c) eqn:El, (oqml_is_global_ident id); intros [= <-]; cbn; rewrite ?El; done. }
  assert (length (locals c') = length (locals c)) as Hlen by (rewrite Hl; by destruct (locals c)).
  assert (0 <= local_cnt c) by (unfold local_cnt; lia).
  split.
  - intros l x. rewrite Hh, Hf. destruct (decide (l = fresh c)) as [->|Hne]; [lia|].
    rewrite lookup_insert_ne by done. intros Hx. pose proof (ok_fresh _ _ H _ _ Hx). lia.
  - intros l. rewrite Ht, elem_of_app, list_elem_of_singleton, Hh.
    unfold local_cnt. rewrite Hlen. intros [Hin| ->].
    + rewrite lookup_insert_ne by congruence. exact (ok_entry _ _ H _ Hin).
    + exists s. rewrite lookup_insert_eq. unfold s, local_cnt in *. cbn.
      destruct glob; repeat split; intros; try discriminate; lia.
  - rewrite Ht. apply NoDup_app. split; [apply H|]. split; [|apply NoDup_singleton].
    intros x Hx ->%list_elem_of_singleton. done.
  - intros i t Hi. rewrite Hlen.
    assert (forall k t0, frame_ok c k t0 ->
              frame_ok c' k (if in_level k s then t0 ++ [fresh c] else t0)) as Hframe.
    { intros. by apply (frame_new c c' _ _ (fresh c) s). }
    assert (forall k, in_level k s = negb glob && (local_cnt c =? k)) as Elv.
    { intros k. unfold in_level, s; cbn. by destruct glob. }
    rewrite Hl in Hi. destruct (locals c) as [|t0 ls] eqn:El; [done|].
    destruct i as [|i]; cbn in Hi.
    + injection Hi as <-. specialize (Hframe _ _ (ok_frame _ _ H 0%nat t0 eq_refl)).
      revert Hframe. rewrite Elv. unfold local_cnt. rewrite El. cbn.
      rewrite Z.eqb_refl. by destruct glob.
    + specialize (Hframe _ _ (ok_frame _ _ H (S i) t Hi)). revert Hframe.
      rewrite Elv. unfold local_cnt. rewrite El. cbn [length].
      assert (i < length ls)%nat by (by eapply lookup_lt_Some).
      assert ((Z.of_nat (S (length ls)) =? Z.of_nat (S (length ls) - S i)) = false) as ->
        by (apply Z.eqb_neq; lia).
      by rewrite andb_false_r.
Qed.

Lemma push_refines c e id ty a glob sys :
  repr c e ->
  refines (pushSymbolRealize st_atom_type c id ty a glob sys) (Some (env_push e id ty a glob sys)).
Proof.
  intros Hr. pose proof (push_ok c e id ty a glob sys) as Hok.
  destruct (pushSymbolRealize _ _ _ _ _ _ _) as [[st c']|] eqn:E; cycle 1.
  { revert E. unfold pushSymbolRealize. by destruct (new_entry _ _ _ _ _ _ _). }
  assert (st = oqmlSuccess) as ->.
  { revert E. unfold pushSymbolRealize. destruct (new_entry _ _ _ _ _ _ _). by intros [= <-]. }
  specialize (Hok c' Hr eq_refl). split; [done|]. destruct Hr as [H Hpop Hs Hd Ha Hv Hc].
  assert (heap c !! fresh c = None) as Hnone.
  { destruct (heap c !! fresh c) eqn:Hx; [|done]. pose proof (ok_fresh _ _ H _ _ Hx). lia. }
  pose proof (fresh_not_in_table _ _ H) as Hnew.
  assert (cnt_of e = local_cnt c) as Ecnt by (unfold cnt_of, local_cnt; by rewrite Hd).
  revert E Hok. unfold pushSymbolRealize, new_entry.
  destruct glob, (locals c) eqn:El, (oqml_is_global_ident id); intros [= <-] Hok;
    split; try exact Hok; cbn in *; rewrite ?El in *; rewrite ?Hv, ?Hc; try done;
    rewrite reverse_app; constructor;
    rewrite ?lookup_insert_eq, ?Ecnt; try done; apply entries_insert; auto;
    by rewrite elem_of_reverse.
Qed.

(** A new value for an entry of the table. *)
Lemma value_repr c e l s s' t1 t2 ss1 ss2 :
  repr c e -> heap c !! l = Some s ->
  global s' = global s -> level s' = level s -> popped s' = popped s ->
  reverse (table c) = t1 ++ l :: t2 -> syms e = ss1 ++ s :: ss2 ->
  entries (heap c) t1 ss1 -> entries (heap c) t2 ss2 ->
  repr (set_heap c (<[l := s']> (heap c))) (with_syms e (ss1 ++ s' :: ss2)).
Proof.
  intros [H Hpop Hs Hd Ha Hv Hc] Hl Hg Hlv Hp Et Es H1 H2.
  assert (NoDup (t1 ++ l :: t2)) as Hnd by (rewrite <- Et, reverse_Permutation; apply H).
  apply NoDup_app in Hnd as (_ & Hn1 & [Hn2 _]%NoDup_cons).
  split; cbn; try done.
  - split; cbn.
    + intros k x. destruct (decide (k = l)) as [->|]; rewrite ?lookup_insert_eq, ?lookup_insert_ne by done.
      * intros _. exact (ok_fresh _ _ H _ _ Hl).
      * apply H.
    + intros k Hk. destruct (ok_entry _ _ H _ Hk) as (x & Hx & Hpx & Hlx).
      destruct (decide (k = l)) as [->|].
      * exists s'. rewrite lookup_insert_eq. assert (x = s) by congruence; subst x.
        rewrite Hlv, Hg, Hp. auto.
      * exists x. by rewrite lookup_insert_ne.
    + apply H.
    + intros i t Hi. by eapply frame_value; [exact Hl| | | | | |exact (ok_frame _ _ H i t Hi)].
  - rewrite Et. apply Forall2_app; [|constructor].
    + apply entries_insert; [|done]. intros Hin. apply (Hn1 l Hin). by left.
    + by rewrite lookup_insert_eq.
    + by apply entries_insert.
Qed.

Lemma entry_set_keeps ty a f s :
  let s' := entry_set st_atom_type ty a f s in
  ident s' = ident s /\ global s' = global s /\ level s' = level s /\ popped s' = popped s
  /\ system s' = system s.
Proof. unfold entry_set. by destruct a, f. Qed.

Lemma set_refines c e id ty a glob sys :
  repr c e ->
  refines (setSymbolRealize st_atom_type c id ty a glob sys) (Some (env_set e id ty a glob sys)).
Proof.
  intros Hr. pose proof Hr as [H Hpop Hs Hd Ha Hv Hc].
  assert (cnt_of e = local_cnt c) as Ecnt by (unfold cnt_of, local_cnt; by rewrite Hd).
  unfold setSymbolRealize, env_set. rewrite Ecnt.
  assert (entries (heap c) (if glob then table c else reverse (table c)) (oriented glob (syms e))) as Ho.
  { destruct glob; [|done]. cbn. rewrite <- (reverse_involutive (table c)). by apply Forall2_reverse. }
  pose proof (find_entry_spec _ (set_matches (local_cnt c) id glob) _ _ Ho) as Hf.
  destruct (find_sym _ _) as [s|].
  - destruct Hf as (l & t1 & t2 & ss1 & ss2 & -> & Et & Es & H1 & H2 & Hl & Hp & Hn).
    cbn. destruct (system s && negb sys); [done|]. split; [done|].
    pose proof (entry_set_keeps ty a true s) as (Ei & Eg & Elv & Ep & _).
    rewrite Es, upd_sym_split by done. destruct glob; cbn in *.
    + rewrite reverse_app, reverse_cons, <- (app_assoc _ [_]).
      apply (value_repr c e l s _ (reverse t2) (reverse t1)); auto.
      * by rewrite Et, reverse_app, reverse_cons, <- (app_assoc _ [_]).
      * by rewrite <- (reverse_involutive (syms e)), Es, reverse_app, reverse_cons, <- (app_assoc _ [_]).
      * by apply Forall2_reverse.
      * by apply Forall2_reverse.
    + by apply (value_repr c e l s _ t1 t2).
  - rewrite Hf. cbn. by apply push_refines.
Qed.

(** An entry that leaves the table: kept as popped, or deleted. *)
Lemma frame_popped c c' k t l s s' :
  heap c !! l = Some s -> heap c' !! l = Some s' ->
  global s' = global s -> level s' = level s -> popped s' = true ->
  (forall x, x <> l -> heap c' !! x = heap c !! x) ->
  table c' = filter (fun x => x <> l) (table c) ->
  frame_ok c k t -> frame_ok c' k t.
Proof.
  intros Hl Hl' Hg Hlv Hp Hh Ht H.
  assert (forall x, at_level (heap c') k x = at_level (heap c) k x) as Eat.
  { intros x. unfold at_level. destruct (decide (x = l)) as [->|Hne]; [|by rewrite Hh].
    rewrite Hl, Hl'. unfold in_level. by rewrite Hg, Hlv. }
  split.
  - apply H.
  - intros x Hx. destruct (frame_entry _ _ _ H _ Hx) as (s0 & Hs0 & Hin & Hpop).
    assert (x ∈ table c' <-> x <> l /\ x ∈ table c) as Hin'.
    { by rewrite Ht, list_elem_of_filter. }
    destruct (decide (x = l)) as [->|Hne].
    + exists s'. assert (s0 = s) by congruence; subst s0. unfold in_level in *.
      rewrite Hg, Hlv, Hp. split; [done|]. split; [done|]. split; [done|tauto].
    + exists s0. rewrite Hh by done. tauto.
  - transitivity (filter (fun x => x <> l) (filter (fun x => x ∈ table c) t)).
    + rewrite list_filter_filter. apply filter_ext_in. intros x _.
      rewrite Ht, list_elem_of_filter. tauto.
    + rewrite (frame_table _ _ _ H), filter_comm, Ht. apply filter_ext_in.
      intros; by rewrite Eat.
Qed.

Lemma frame_deleted c c' k t l :
  (forall x, x <> l -> heap c' !! x = heap c !! x) ->
  table c' = filter (fun x => x <> l) (table c) ->
  frame_ok c k t -> frame_ok c' k (filter (fun x => x <> l) t).
Proof.
  intros Hh Ht H. split.
  - apply NoDup_filter, H.
  - intros x [Hne Hx]%list_elem_of_filter.
    destruct (frame_entry _ _ _ H _ Hx) as (s0 & Hs0 & Hin & Hpop).
    assert (x ∈ table c' <-> x <> l /\ x ∈ table c) as Hin'.
    { by rewrite Ht, list_elem_of_filter. }
    exists s0. rewrite Hh by done. tauto.
  - transitivity (filter (fun x => x <> l) (filter (fun x => x ∈ table c) t)).
    + rewrite !list_filter_filter. apply filter_ext_in. intros x _.
      rewrite Ht, list_elem_of_filter. tauto.
    + rewrite (frame_table _ _ _ H), filter_comm, Ht. apply filter_ext_in.
      intros x [Hne _]%list_elem_of_filter. unfold at_level. by rewrite Hh.
Qed.

(** The table without its entry [l]. *)
Lemma table_split c ls l t1 t2 :
  context_ok c ls -> reverse (table c) = t1 ++ l :: t2 ->
  reverse (filter (fun x => x <> l) (table c)) = t1 ++ t2 /\ (l ∉ t1) /\ (l ∉ t2).
Proof.
  intros H Et.
  assert (NoDup (t1 ++ l :: t2)) as Hnd by (rewrite <- Et, reverse_Permutation; apply H).
  apply NoDup_app in Hnd as (_ & Hn1 & [Hn2 _]%NoDup_cons).
  assert (l ∉ t1) as Hn0. { intros Hin. apply (Hn1 l Hin). by left. }
  split; [|done]. rewrite <- filter_reverse, Et, filter_app, filter_cons_False by tauto.
  f_equal; apply filter_all; intros x Hx ->; done.
Qed.

Lemma in_table_filter c ls l x :
  context_ok c ls -> x ∈ filter (fun k => k <> l) (table c) ->
  x <> l /\ exists s, heap c !! x = Some s /\ popped s = false
    /\ 0 <= level s <= local_cnt c /\ (global s = true -> level s = 0).
Proof. intros H [Hne Hx]%list_elem_of_filter. split; [done|]. by apply (ok_entry _ _ H). Qed.

Lemma delete_entry_eq c l s :
  heap c !! l = Some s ->
  delete_entry c l =
  Some (mk_context (delete l (heap c)) (fresh c) (table c) (locals c) (arg_level c) (is_popping c)
          (if global s && oqml_is_global_ident (ident s)
           then suppress (ident s) (variables c) else variables c) (variables_cnt c)).
Proof. intros H. unfold delete_entry. rewrite H; cbn. by destruct (_ && _). Qed.

(** What popSymbolRealize does to the entry it finds. *)
Definition after_pop c l s : option context :=
  let c := set_table (set_heap c (<[l := clear_value s]> (heap c))) (filter (fun k => k <> l) (table c)) in
  if getLocalTable c && negb (is_popping c)
  then Some (set_heap c (<[l := set_popped (clear_value s)]> (heap c)))
  else delete_entry c l.

Lemma popSymbolRealize_find c ls ss id glob :
  context_ok c ls -> entries (heap c) (reverse (table c)) ss ->
  match find_sym (pop_matches (local_cnt c) id glob) ss with
  | None => popSymbolRealize c id glob = None
  | Some s => exists l t1 t2 ss1 ss2,
      popSymbolRealize c id glob = (c' ← after_pop c l s; Some (oqmlSuccess, c'))
      /\ reverse (table c) = t1 ++ l :: t2 /\ ss = ss1 ++ s :: ss2
      /\ entries (heap c) t1 ss1 /\ entries (heap c) t2 ss2 /\ heap c !! l = Some s
      /\ pop_matches (local_cnt c) id glob s = true
      /\ Forall (fun s => pop_matches (local_cnt c) id glob s = false) ss1
  end.
Proof.
  intros H Hs. unfold popSymbolRealize.
  pose proof (find_entry_spec _ (pop_matches (local_cnt c) id glob) _ _ Hs) as Hf.
  destruct (find_sym _ _) as [s|]; [|by rewrite Hf].
  destruct Hf as (l & t1 & t2 & ss1 & ss2 & -> & Hrest).
  exists l, t1, t2, ss1, ss2. split; [|done]. cbn. unfold after_pop.
  change (getLocalTable (set_table _ _)) with (getLocalTable c).
  change (is_popping (set_table _ _)) with (is_popping c).
  cbn. destruct (getLocalTable c && negb (is_popping c)); [|done].
  by rewrite lookup_insert_eq.
Qed.

Lemma entries_remove c c' l t1 t2 ss1 ss2 :
  (forall x, x <> l -> heap c' !! x = heap c !! x) -> l ∉ t1 -> l ∉ t2 ->
  entries (heap c) t1 ss1 -> entries (heap c) t2 ss2 ->
  entries (heap c') (t1 ++ t2) (ss1 ++ ss2).
Proof.
  intros Hh Hn1 Hn2 H1 H2.
  assert (forall t ss, l ∉ t -> entries (heap c) t ss -> entries (heap c') t ss) as Hmono.
  { intros t ss Hn Ht. induction Ht as [|x y t ss Hx Ht IH]; [by constructor|].
    apply not_elem_of_cons in Hn as [Hne Hn]. constructor; [by rewrite Hh|by apply IH]. }
  apply Forall2_app; by apply Hmono.
Qed.

(** Everything but the frames after an entry left the table. *)
Lemma removed_ok c c' ls ls' l :
  context_ok c ls -> (forall x, x <> l -> heap c' !! x = heap c !! x) ->
  (is_Some (heap c' !! l) -> is_Some (heap c !! l)) ->
  fresh c' = fresh c -> local_cnt c' = local_cnt c ->
  table c' = filter (fun x => x <> l) (table c) ->
  (forall i t, ls' !! i = Some t -> frame_ok c' (Z.of_nat (length ls' - i)) t) ->
  context_ok c' ls'.
Proof.
  intros H Hh Hl Hf Hcnt Ht Hframe. split; [| | |done].
  - intros k x Hx. rewrite Hf. destruct (decide (k = l)) as [->|Hne].
    + destruct Hl as [y Hy]; [by eexists|]. exact (ok_fresh _ _ H _ _ Hy).
    + rewrite Hh in Hx by done. exact (ok_fresh _ _ H _ _ Hx).
  - intros k Hk. rewrite Ht in Hk. destruct (in_table_filter _ _ _ _ H Hk) as (Hne & x & Hx & Hr).
    exists x. by rewrite Hh, Hcnt.
  - rewrite Ht. apply NoDup_filter, H.
Qed.

Lemma pop_refines c e id glob :
  repr c e -> refines (popSymbolRealize c id glob) (env_pop e id glob).
Proof.
  intros Hr. pose proof Hr as [H Hpop Hs Hd Ha Hv Hc].
  assert (cnt_of e = local_cnt c) as Ecnt by (unfold cnt_of, local_cnt; by rewrite Hd).
  pose proof (popSymbolRealize_find c _ (syms e) id glob H Hs) as Hf.
  unfold env_pop. rewrite Ecnt. destruct (find_sym _ _) as [s|]; cycle 1.
  { rewrite Hf, decide_False; [done|]. by intros [? ?]. }
  rewrite decide_True by eauto.
  destruct Hf as (l & t1 & t2 & ss1 & ss2 & -> & Et & Es & H1 & H2 & Hl & Hp & Hn).
  destruct (table_split _ _ _ _ _ H Et) as (Et' & Hn1 & Hn2).
  rewrite Es, rem_sym_split by done.
  unfold pop_matches in Hp. apply andb_true_iff in Hp as [[Hid Hg]%andb_true_iff _].
  apply String.eqb_eq in Hid. apply Bool.eqb_prop in Hg.
  unfold after_pop. change (getLocalTable (set_table _ _)) with (getLocalTable c).
  change (is_popping (set_table _ _)) with (is_popping c). rewrite Hpop, andb_true_r.
  unfold getLocalTable, local_cnt. destruct (locals c) as [|t0 ls] eqn:El.
  - (* outside of a function: the entry is deleted *)
    change (0 <? Z.of_nat (length [])) with false. cbn [andb].
    erewrite delete_entry_eq by (cbn; apply lookup_insert_eq). cbn [mbind option_bind].
    cbn [global ident clear_value heap fresh table locals arg_level is_popping variables variables_cnt
         set_table set_heap]. rewrite Hg, Hid, <- Hd. cbn [length Nat.eqb].
    rewrite andb_true_r, delete_insert_eq, El.
    set (c' := mk_context _ _ _ _ _ _ _ _). split; [done|].
    assert (forall x, x <> l -> heap c' !! x = heap c !! x) as Hh.
    { intros x Hx. cbn. by rewrite lookup_delete_ne. }
    split; try done.
    + apply (removed_ok c c' [] [] l); try done; [..|by unfold local_cnt; rewrite El].
    + change (table c') with (filter (fun x => x <> l) (table c)). rewrite Et'.
      by apply (entries_remove c c' l).
    + cbn. by rewrite Hv.
  - rewrite (proj2 (Z.ltb_lt 0 _)) by (cbn; lia). cbn [andb].
    set (c' := set_heap _ _). split; [done|].
    assert (forall x, x <> l -> heap c' !! x = heap c !! x) as Hh.
    { intros x Hx. unfold c'. cbn. by rewrite insert_insert_eq, lookup_insert_ne. }
    assert (heap c' !! l = Some (set_popped (clear_value s))) as Hl'.
    { unfold c'; cbn. by rewrite lookup_insert_eq. }
    split; try done.
    + apply (removed_ok c c' (locals c) (locals c') l); try done.
      * by rewrite El.
      * intros i t Hi. eapply (frame_popped c c' _ t l s); try done.
        change (locals c') with (locals c) in *. rewrite El in Hi |- *. exact (ok_frame _ _ H i t Hi).
    + change (table c') with (filter (fun x => x <> l) (table c)). rewrite Et'.
      by apply (entries_remove c c' l).
    + cbn. by rewrite El.
    + cbn. rewrite <- Hd. cbn. by rewrite andb_false_r.
Qed.

(** ** Frames *)

Lemma at_level_above c ls k :
  context_ok c ls -> local_cnt c < k -> filter (fun l => at_level (heap c) k l = true) (table c) = [].
Proof.
  intros H Hk. apply filter_none. intros l Hl.
  destruct (ok_entry _ _ H _ Hl) as (s & Hs & _ & Hlv & Hg). unfold at_level, in_level. rewrite Hs.
  rewrite andb_true_iff, Z.eqb_eq. lia.
Qed.

Lemma push_frame_refines c e : repr c e -> repr (pushLocalTable c) (env_push_frame e).
Proof.
  intros [H Hpop Hs Hd Ha Hv Hc].
  assert (forall k t, frame_ok c k t -> frame_ok (pushLocalTable c) k t) as Hframe.
  { intros k t [? ? ?]. by split. }
  split; cbn; try done; [|by rewrite Hd].
  split; cbn; try apply H.
  - intros l Hl. destruct (ok_entry _ _ H _ Hl) as (s & ? & ? & Hlv & ?).
    exists s. repeat split; auto; unfold local_cnt in *; cbn; lia.
  - intros [|i] t Hi; cbn in Hi.
    + injection Hi as <-. split; [constructor| |].
      * by intros l ?%not_elem_of_nil.
      * symmetry. apply (at_level_above c (locals c)); [done|]. unfold local_cnt. lia.
    + apply Hframe. exact (ok_frame _ _ H i t Hi).
Qed.

(** The scan of popLocalTable stops at an entry that does not exist any more. *)
Lemma find_entry_alive h p t l s : find_entry h p t = Some (Some (l, s)) -> h !! l = Some s.
Proof.
  induction t as [|k t IH]; cbn; [done|]. destruct (h !! k) as [x|] eqn:Hx; cbn; [|done].
  destruct (p x); [by intros [= <- <-]|done].
Qed.

Lemma delete_entry_dead c c' k l :
  delete_entry c k = Some c' -> heap c !! l = None -> heap c' !! l = None.
Proof.
  unfold delete_entry. destruct (heap c !! k); cbn; [|done]. intros [= <-] Hl; cbn.
  assert (forall c0, heap c0 = heap c -> delete k (heap c0) !! l = None) as Hdel.
  { intros c0 ->. destruct (decide (l = k)) as [->|]; [by rewrite lookup_delete_eq|].
    by rewrite lookup_delete_ne. }
  apply Hdel. by destruct (_ && _).
Qed.

Lemma popSymbolRealize_dead c id glob st c' l :
  popSymbolRealize c id glob = Some (st, c') -> heap c !! l = None -> heap c' !! l = None.
Proof.
  unfold popSymbolRealize. destruct (find_entry _ _ _) as [[[k s]|]|] eqn:Hf; cbn; [|done..].
  apply find_entry_alive in Hf. intros E Hl. assert (l <> k) by congruence.
  destruct (_ && _).
  - rewrite lookup_insert_eq in E; cbn in E. injection E as _ <-. cbn.
    by rewrite !lookup_insert_ne.
  - destruct (delete_entry _ _) as [c0|] eqn:Hdel; [|done]. cbn in E. injection E as _ <-.
    apply (delete_entry_dead _ _ _ _ Hdel). cbn. by rewrite lookup_insert_ne.
Qed.

Lemma popSymbolRealize_status c id glob st c' :
  popSymbolRealize c id glob = Some (st, c') -> st = oqmlSuccess.
Proof.
  unfold popSymbolRealize. destruct (find_entry _ _ _) as [[[k s]|]|]; cbn; [|done..].
  destruct (_ && _).
  - rewrite lookup_insert_eq. cbn. congruence.
  - destruct (delete_entry _ _); cbn; congruence.
Qed.

Lemma pop_entries_dead t : forall c l, l ∈ t -> heap c !! l = None -> pop_entries c t = None.
Proof.
  induction t as [|k t IH]; intros c l Hin Hl; [by apply not_elem_of_nil in Hin|].
  cbn [pop_entries]. destruct (decide (l = k)) as [->|Hne]; [by rewrite Hl|].
  assert (l ∈ t) by (apply elem_of_cons in Hin; tauto).
  destruct (heap c !! k) as [s|]; cbn; [|done]. destruct (global s); [done|].
  destruct (popped s).
  - destruct (delete_entry c k) as [c'|] eqn:E; cbn; [|done].
    apply (IH _ l); [done|]. by eapply delete_entry_dead.
  - destruct (popSymbolRealize c (ident s) false) as [[st c']|] eqn:E; cbn; [|done].
    destruct st.
    + apply (IH _ l); [done|]. by eapply popSymbolRealize_dead.
    + by apply popSymbolRealize_status in E.
Qed.

(** ** Leaving a frame *)

Lemma find_sym_none p ss x : find_sym p ss = None -> x ∈ ss -> p x = false.
Proof.
  induction ss as [|y ss IH]; cbn; [by intros _ ?%not_elem_of_nil|].
  destruct (p y) eqn:Hy; [done|]. intros H [->|Hx]%elem_of_cons; auto.
Qed.

Lemma entries_elem h t ss l s : entries h t ss -> l ∈ t -> h !! l = Some s -> s ∈ ss.
Proof.
  induction 1 as [|k x t ss Hk Ht IH]; [by intros ?%not_elem_of_nil|].
  intros [->|Hin]%elem_of_cons Hl; [|right; auto].
  assert (s = x) as -> by congruence. by left.
Qed.

Lemma entries_idents_inj h t ss l l' s s' :
  entries h t ss -> NoDup (ident <$> ss) -> l ∈ t -> l' ∈ t ->
  h !! l = Some s -> h !! l' = Some s' -> ident s = ident s' -> l = l'.
Proof.
  intros H Hnd. revert l l' s s'. induction H as [|k x t ss Hk Ht IH]; [by intros ???? ?%not_elem_of_nil|].
  cbn in Hnd. apply NoDup_cons in Hnd as [Hx Hnd].
  assert (forall l s, l ∈ t -> h !! l = Some s -> ident s <> ident x) as Hne.
  { intros l s Hl Hs E. apply Hx. rewrite <- E. apply list_elem_of_fmap_2. by eapply entries_elem. }
  intros l l' s s' [->|Hl]%elem_of_cons [->|Hl']%elem_of_cons Hs Hs' E; [done|..|by eapply IH].
  - assert (s = x) by congruence; subst. exfalso. by eapply (Hne l').
  - assert (s' = x) by congruence; subst. exfalso. by eapply (Hne l).
Qed.

Lemma frame_syms_nil k ss : frame_syms k ss = [] -> other_syms k ss = ss.
Proof.
  intros H. apply filter_all. intros s Hs. destruct (in_level k s) eqn:E; [|done].
  assert (s ∈ frame_syms k ss) as Hin by (unfold frame_syms; by rewrite list_elem_of_filter).
  rewrite H in Hin. by apply not_elem_of_nil in Hin.
Qed.

(** The only copy of an element ends the list. *)
Lemma snoc_pivot {X} (a b d : list X) x : a ++ [x] = b ++ x :: d -> x ∉ d -> d = [].
Proof.
  destruct d as [|y d _] using rev_ind; [done|]. intros E Hx.
  rewrite app_comm_cons, app_assoc in E. apply app_inj_tail in E as [_ ->].
  exfalso. apply Hx. rewrite elem_of_app. right. by left.
Qed.

(** The local symbol found for the oldest entry of a frame that is not popped:
    itself, and then no other entry of the frame has its identifier, or another
    entry of the frame. *)
Lemma oldest_in_frame c ls l s l' s' t t1 t2 ss1 ss2 :
  let k := local_cnt c in
  context_ok c ls -> frame_ok c k (l :: t) -> heap c !! l = Some s -> in_level k s = true ->
  l ∈ table c -> reverse (table c) = t1 ++ l' :: t2 ->
  entries (heap c) t1 ss1 -> entries (heap c) t2 ss2 -> heap c !! l' = Some s' ->
  pop_matches k (ident s) false s' = true ->
  Forall (fun x => pop_matches k (ident s) false x = false) ss1 ->
  (l' = l /\ frame_syms k ss2 = []
     /\ (NoDup (ident <$> frame_syms k (ss1 ++ s :: ss2)) <-> NoDup (ident <$> frame_syms k (ss1 ++ ss2))))
  \/ (l' <> l /\ l' ∈ t /\ ~ NoDup (ident <$> frame_syms k (ss1 ++ s' :: ss2))).
Proof.
  intros k H Hf Hl Hin Hlt Et H1 H2 Hl' Hp Hn.
  destruct (table_split _ _ _ _ _ H Et) as (_ & Hn1 & Hn2).
  unfold pop_matches in Hp. apply andb_true_iff in Hp as [[Hid%String.eqb_eq Hg%Bool.eqb_prop]%andb_true_iff Hlv].
  assert (in_level k s' = true) as Hin'.
  { unfold in_level. rewrite Hg in *. done. }
  pose proof (frame_table _ _ _ Hf) as Eft. rewrite filter_cons_True in Eft by done.
  destruct (decide (l' = l)) as [->|Hne].
  - left. assert (s' = s) by congruence; subst s'. split; [done|].
    assert (frame_syms k ss2 = []) as E2.
    { pose proof (entries_filter _ k _ _ H2) as H2'.
      assert (filter (fun x => at_level (heap c) k x = true) t2 = []) as E.
      { apply (f_equal reverse) in Eft. rewrite reverse_cons, <- (filter_reverse _ (table c)), Et, filter_app in Eft.
        rewrite (filter_cons_True _ l) in Eft by (unfold at_level; by rewrite Hl).
        apply (snoc_pivot _ _ _ _ Eft). rewrite list_elem_of_filter. tauto. }
      rewrite E in H2'. by inversion H2'. }
    split; [done|]. unfold frame_syms in *. rewrite !filter_app, filter_cons_True, E2, app_nil_r by done.
    rewrite fmap_app. cbn. rewrite NoDup_app. split; [tauto|]. intros Hnd.
    split; [done|]. split; [|apply NoDup_singleton].
    intros x [y [-> [Hy Hyin]%list_elem_of_filter]]%list_elem_of_fmap Hx%list_elem_of_singleton.
    rewrite Forall_forall in Hn. apply Hn in Hyin. revert Hyin. unfold pop_matches, in_level in *.
    apply andb_true_iff in Hy as [Hgy Hly]. rewrite Hx, String.eqb_refl, Hly, orb_true_r.
    by destruct (global y).
  - right. split; [done|].
    assert (l' ∈ table c) as Hlt'.
    { rewrite <- elem_of_reverse, Et, elem_of_app. right. by left. }
    assert (l' ∈ l :: filter (fun x => x ∈ table c) t) as Hft.
    { rewrite Eft, list_elem_of_filter. unfold at_level. by rewrite Hl'. }
    apply elem_of_cons in Hft as [?|[_ Hft]%list_elem_of_filter]; [done|]. split; [done|].
    intros Hnd. apply Hne. symmetry.
    assert (entries (heap c) (reverse (table c)) (ss1 ++ s' :: ss2)) as Hall.
    { rewrite Et. apply Forall2_app; [done|]. by constructor. }
    apply (entries_idents_inj _ _ _ _ _ s s' (entries_filter _ k _ _ Hall) Hnd); try done;
      rewrite list_elem_of_filter, elem_of_reverse; unfold at_level; [by rewrite Hl|by rewrite Hl'].
Qed.

(** The context after an entry of the frame being left was deleted. *)
Lemma frame_step c c' ls l t :
  context_ok c ((l :: t) :: ls) -> local_cnt c = Z.of_nat (S (length ls)) ->
  heap c' = delete l (heap c) -> fresh c' = fresh c -> local_cnt c' = local_cnt c ->
  table c' = filter (fun x => x <> l) (table c) ->
  context_ok c' (t :: ls).
Proof.
  intros H Hk Hh Hf Hcnt Ht.
  assert (forall x, x <> l -> heap c' !! x = heap c !! x) as Hother.
  { intros x Hx. by rewrite Hh, lookup_delete_ne. }
  apply (removed_ok c c' ((l :: t) :: ls) (t :: ls) l); try done.
  { rewrite Hh, lookup_delete_eq. by intros [? ?]. }
  pose proof (ok_frame _ _ H 0%nat (l :: t) eq_refl) as H0.
  intros [|i] t0 Hi; cbn in Hi.
  - injection Hi as <-. apply (frame_deleted c c' _ _ l) in H0; try done.
    pose proof (frame_nodup _ _ _ H0) as Hnd. revert H0 Hnd.
    rewrite filter_cons_False by tauto. rewrite filter_all; [done|].
    intros x Hx ->. pose proof (frame_nodup _ _ _ (ok_frame _ _ H 0%nat (l :: t) eq_refl)) as Hnd.
    by apply NoDup_cons in Hnd as [? _].
  - pose proof (ok_frame _ _ H (S i) t0 Hi) as H1.
    apply (frame_deleted c c' _ _ l) in H1; try done. revert H1. rewrite filter_all; [done|].
    intros x Hx ->. pose proof (ok_frame _ _ H (S i) t0 Hi) as H1.
    destruct (frame_entry _ _ _ H1 l Hx) as (s & Hs & Hlv & _).
    destruct (frame_entry _ _ _ H0 l (list_elem_of_here _ _)) as (s' & Hs' & Hlv' & _).
    assert (s' = s) by congruence; subst s'. unfold in_level in *.
    apply andb_true_iff in Hlv as [_ Hlv], Hlv' as [_ Hlv']. apply Z.eqb_eq in Hlv, Hlv'.
    assert (i < length ls)%nat by (by eapply lookup_lt_Some). cbn [length] in *. lia.
Qed.

Lemma pop_entries_spec ls t : forall c ss,
  let k := local_cnt c in
  context_ok c (t :: ls) -> is_popping c = true -> k = Z.of_nat (S (length ls)) ->
  entries (heap c) (reverse (table c)) ss ->
  if decide (NoDup (ident <$> frame_syms k ss)) then
    exists c', pop_entries c t = Some (oqmlSuccess, c') /\ context_ok c' ([] :: ls)
      /\ entries (heap c') (reverse (table c')) (other_syms k ss)
      /\ (locals c', arg_level c', is_popping c', variables c', variables_cnt c')
         = (locals c, arg_level c, true, variables c, variables_cnt c)
  else pop_entries c t = None.
Proof.
  induction t as [|l t IH]; intros c ss k H Hpop Hk Hs; cbn [pop_entries].
  - pose proof (ok_frame _ _ H 0%nat [] eq_refl) as [_ _ Hft]. cbn [length] in Hft.
    rewrite Nat.sub_0_r, <- Hk, filter_nil in Hft.
    assert (frame_syms k ss = []) as E.
    { pose proof (entries_filter _ k _ _ Hs) as Hs'. unfold k in *.
      rewrite filter_reverse, <- Hft in Hs'. by inversion Hs'. }
    rewrite E, decide_True by constructor. rewrite (frame_syms_nil _ _ E).
    exists c. by rewrite Hpop.
  - pose proof (ok_frame _ _ H 0%nat (l :: t) eq_refl) as Hf. cbn [length] in Hf.
    rewrite Nat.sub_0_r, <- Hk in Hf.
    destruct (frame_entry _ _ _ Hf l (list_elem_of_here _ _)) as (s & Hl & Hin & Hp).
    rewrite Hl; cbn. pose proof Hin as Hg. unfold in_level in Hg.
    apply andb_true_iff in Hg as [Hg%negb_true_iff Hlv]. rewrite Hg.
    destruct (popped s) eqn:Hps.
    + (* already out of the table *)
      assert (l ∉ table c) as Hlt by (intros ?; by apply Hp in H0).
      rewrite (delete_entry_eq _ _ _ Hl), Hg. cbn.
      set (c' := mk_context _ _ _ _ _ _ _ _).
      assert (context_ok c' (t :: ls)) as H'.
      { apply (frame_step c c' ls l t); try done.
        cbn. symmetry. apply filter_all. by intros x Hx ->. }
      specialize (IH c' ss H' Hpop Hk). apply IH. cbn.
      apply entries_delete; [by rewrite elem_of_reverse|done].
    + assert (l ∈ table c) as Hlt by (by apply Hp).
      pose proof (popSymbolRealize_find c _ ss (ident s) false H Hs) as Hfind.
      destruct (find_sym _ _) as [s'|] eqn:Efs; cycle 1.
      { assert (s ∈ ss) as Hss by (eapply entries_elem; [done|by rewrite elem_of_reverse|done]).
        pose proof (find_sym_none _ _ _ Efs Hss) as Hc. revert Hc. unfold pop_matches.
        fold k. rewrite String.eqb_refl, Hg, Hlv. done. }
      destruct Hfind as (l' & t1 & t2 & ss1 & ss2 & -> & Et & Es & H1 & H2 & Hl' & Hpm & Hn).
      unfold after_pop. change (is_popping (set_table _ _)) with (is_popping c).
      rewrite Hpop, andb_false_r.
      erewrite delete_entry_eq by (cbn; apply lookup_insert_eq). cbn [mbind option_bind].
      destruct (oldest_in_frame c _ l s l' s' t t1 t2 ss1 ss2 H Hf Hl Hin Hlt Et H1 H2 Hl' Hpm Hn)
        as [(-> & E2 & Hnd)|(Hne & Hint & Hnd)].
      * assert (s' = s) by congruence; subst s'. cbn. rewrite Hg, delete_insert_eq. cbn.
        set (c' := mk_context _ _ _ _ _ _ _ _).
        assert (context_ok c' (t :: ls)) as H' by (by apply (frame_step c c' ls l t)).
        destruct (table_split _ _ _ _ _ H Et) as (Et' & Hn1 & Hn2).
        assert (entries (heap c') (reverse (table c')) (ss1 ++ ss2)) as Hs'.
        { change (table c') with (filter (fun x => x <> l) (table c)). rewrite Et'.
          apply (entries_remove c c' l); try done.
          intros x Hx. cbn. by rewrite lookup_delete_ne. }
        specialize (IH c' _ H' Hpop Hk Hs'). change (local_cnt c') with k in IH.
        assert (other_syms k ss = other_syms k (ss1 ++ ss2)) as Eo.
        { unfold other_syms. rewrite Es, !filter_app, filter_cons_False; [done|].
          fold k in Hin. congruence. }
        rewrite Eo, Es. fold k in Hnd.
        destruct (decide (NoDup (ident <$> frame_syms k (ss1 ++ ss2)))).
        -- rewrite decide_True by tauto. exact IH.
        -- rewrite decide_False by tauto. exact IH.
      * rewrite Es, decide_False by done.
        apply (pop_entries_dead _ _ l'); [done|]. cbn. by rewrite lookup_delete_eq.
Qed.

Lemma pop_frame_refines c e : repr c e -> refines (popLocalTable c) (env_pop_frame e).
Proof.
  intros [H Hpop Hs Hd Ha Hv Hc]. unfold popLocalTable, env_pop_frame.
  assert (cnt_of e = local_cnt c) as -> by (unfold cnt_of, local_cnt; by rewrite Hd).
  destruct (locals c) as [|t ls] eqn:El; cbn in Hd; rewrite <- Hd; [done|].
  assert (local_cnt c = Z.of_nat (S (length ls))) as Hk by (unfold local_cnt; by rewrite El).
  set (c0 := set_popping c true).
  assert (context_ok c0 (t :: ls)) as H0.
  { split; [apply H|apply H|apply H|]. intros i t0 Hi.
    destruct (ok_frame _ _ H i t0 Hi). by split. }
  pose proof (pop_entries_spec ls t c0 (syms e) H0 eq_refl Hk Hs) as Hspec.
  change (local_cnt c0) with (local_cnt c) in Hspec.
  destruct (decide _); [|by rewrite Hspec].
  destruct Hspec as (c' & -> & H' & Hs' & Efields). cbn. split; [done|].
  injection Efields as El' Ea' _ Ev' Ec'.
  assert (local_cnt c' = local_cnt c) as Hcnt by (unfold local_cnt; by rewrite El').
  split; cbn; try done; [|congruence..].
  split; cbn; try apply H'.
  - intros l Hl. destruct (ok_entry _ _ H' _ Hl) as (s & Hls & Hp & Hlv & Hg).
    exists s. split; [done|]. split; [done|]. split; [|done]. rewrite Hcnt, Hk in Hlv.
    unfold local_cnt; cbn.
    assert (level s <> Z.of_nat (S (length ls))) as Hne.
    { intros E. pose proof (ok_frame _ _ H' 0%nat [] eq_refl) as [_ _ Hft]. cbn in Hft.
      assert (l ∈ filter (fun x => at_level (heap c') (Z.of_nat (S (length ls))) x = true) (table c')) as Hin.
      { rewrite list_elem_of_filter. unfold at_level, in_level. rewrite Hls, E, Z.eqb_refl.
        split; [|done]. destruct (global s) eqn:Hgl; [|done]. specialize (Hg eq_refl). lia. }
      unfold at_level in Hft. cbn in Hft. unfold at_level in Hin.
      rewrite <- Hft in Hin. by apply not_elem_of_nil in Hin. }
    lia.
  - intros i t0 Hi. pose proof (ok_frame _ _ H' (S i) t0 Hi) as [? ? ?]. by split.
Qed.

(** ** Refinement of the evaluator's operations *)

Lemma repr_cnt c e : repr c e -> cnt_of e = local_cnt c.
Proof. intros Hr. unfold cnt_of, local_cnt. by rewrite (repr_depth _ _ Hr). Qed.

Lemma get_refines c e id : repr c e -> getSymbol c id = env_getSymbol e id.
Proof.
  intros Hr. unfold getSymbol, getSymbolEntry, env_getSymbol, env_get.
  rewrite (repr_cnt _ _ Hr), <- (repr_args _ _ Hr).
  pose proof (find_entry_spec _ (visible (local_cnt c) (arg_level c) id) _ _ (repr_syms _ _ Hr)) as Hf.
  destruct (find_sym _ _) as [s|]; [|by rewrite Hf].
  by destruct Hf as (l & t1 & t2 & ss1 & ss2 & -> & _).
Qed.

Lemma args_refines c e n :
  repr c e -> repr (mk_context (heap c) (fresh c) (table c) (locals c) n (is_popping c)
                      (variables c) (variables_cnt c)) (env_args e n).
Proof.
  intros [[H1 H2 H3 H4] Hpop Hs Hd Ha Hv Hc]. split; try done. split; try done.
  intros i t Hi. destruct (H4 i t Hi). by split.
Qed.

Lemma refines_then r q k k' :
  refines r q -> (forall c e, repr c e -> refines (k c) (k' e)) -> refines (then_ r k) (then_ q k').
Proof.
  destruct r as [[st c]|], q as [[st' e]|]; cbn; try done.
  intros [-> Hr] Hk. destruct st'; cbn; auto.
Qed.

(** The status is dropped. *)
Lemma refines_bind r q k k' :
  refines r q -> (forall st c e, repr c e -> refines (k (st, c)) (k' (st, e))) ->
  refines (r ≫= k) (q ≫= k').
Proof.
  destruct r as [[st c]|], q as [[st' e]|]; cbn; try done. intros [-> Hr] Hk. auto.
Qed.

Lemma both_refines f g :
  (forall c e id glob, repr c e -> refines (f c id glob) (g e id glob)) ->
  forall c e id glob, repr c e ->
  refines (both (S := oqmlContext_symbols st_atom_type) f c id glob) (both g e id glob).
Proof.
  intros Hf c e id glob Hr. unfold both. cbn [has_local_table oqmlContext_symbols env_symbols].
  unfold getLocalTable. rewrite (repr_cnt _ _ Hr).
  destruct glob, (oqml_is_global_ident id), (0 <? local_cnt c); cbn [negb]; auto using refines_then.
Qed.

Section Commands.
Context (atom_type : A -> T).
#[local] Existing Instance oqmlContext_symbols.
Abbreviation S := (oqmlContext_symbols st_atom_type).

Lemma setSymbol_refines c e id ty a glob sys :
  repr c e -> refines (setSymbol (S := S) c id ty a glob sys) (setSymbol e id ty a glob sys).
Proof. intros Hr. apply both_refines; [|done]. intros. by apply set_refines. Qed.

Lemma pushSymbol_refines c e id ty a glob sys :
  repr c e -> refines (pushSymbol (S := S) c id ty a glob sys) (pushSymbol e id ty a glob sys).
Proof. intros Hr. apply both_refines; [|done]. intros. by apply push_refines. Qed.

Lemma popSymbol_refines c e id glob :
  repr c e -> refines (popSymbol (S := S) c id glob) (popSymbol e id glob).
Proof. intros Hr. apply both_refines; [|done]. intros. by apply pop_refines. Qed.

Lemma ident_refines c e id a :
  repr c e ->
  refines (assign_ident (S := S) atom_type c id a) (assign_ident atom_type e id a)
  /\ refines (push_ident (S := S) c id) (push_ident e id)
  /\ refines (pop_ident (S := S) c id) (pop_ident e id)
  /\ refines (unset_ident (S := S) c id) (unset_ident e id).
Proof.
  intros Hr. unfold assign_ident, push_ident, pop_ident, unset_ident.
  cbn [get_symbol oqmlContext_symbols env_symbols]. rewrite (get_refines _ _ _ Hr).
  unfold env_getSymbol; cbn [mbind option_bind].
  refine (conj _ (conj _ (conj _ _))).
  - by apply setSymbol_refines.
  - by apply pushSymbol_refines.
  - destruct (env_get e id) as [s|]; cbn; [|done]. destruct (global s); [done|].
    by apply pop_refines.
  - destruct (env_get e id) as [s|]; cbn; [|done]. destruct (global s); [|done].
    apply (refines_bind _ _ (fun '(_, c) => Some (oqmlSuccess, c)) (fun '(_, e) => Some (oqmlSuccess, e)));
      [exact (popSymbol_refines c e id true Hr)|done].
Qed.

Lemma for_each_refines f g id xs :
  (forall c e, repr c e -> refines (f c) (g e)) ->
  forall c e, repr c e ->
  refines (for_each (S := S) atom_type f id xs c) (for_each atom_type g id xs e).
Proof.
  intros Hf. induction xs as [|x xs IH]; intros c e Hr; [done|].
  cbn [for_each]. apply refines_bind; [by apply pushSymbol_refines|]. intros _ c1 e1 Hr1.
  apply refines_bind; [by apply Hf|]. intros st c2 e2 Hr2.
  apply refines_bind; [by apply popSymbol_refines|]. intros _ c3 e3 Hr3.
  destruct st; [by apply IH|done].
Qed.

Scheme cmd_rect2 := Induction for cmd Sort Prop
with params_rect2 := Induction for params Sort Prop.
Combined Scheme cmd_params_ind from cmd_rect2, params_rect2.

Lemma run_refines_both :
  (forall (x : cmd A) c e, repr c e ->
     refines (run (S := S) atom_type x c) (run atom_type x e))
  /\ (forall (ps : params A) c e, repr c e ->
     refines (run_params (S := S) atom_type ps c) (run_params atom_type ps e)).
Proof.
  apply cmd_params_ind; cbn [run run_params].
  - done.
  - done.
  - intros x IHx y IHy c e Hr. apply refines_then; auto.
  - intros id a c e Hr. by apply ident_refines.
  - intros id c e Hr. by apply (ident_refines _ _ _ None).
  - intros id c e Hr. by apply (ident_refines _ _ _ None).
  - intros id c e Hr. by apply (ident_refines _ _ _ None).
  - intros id xs body IH c e Hr. by apply for_each_refines.
  - intros ps IHps body IH c e Hr. apply refines_bind.
    + apply refines_then; [|done]. apply IHps. by apply push_frame_refines.
    + intros st c1 e1 Hr1. apply refines_bind; [by apply pop_frame_refines|done].
  - done.
  - intros id arg IH a ps IHps c e Hr. apply refines_bind.
    + apply IH. pose proof (repr_args _ _ Hr) as Ha. cbn. rewrite <- Ha. by apply args_refines.
    + intros st c1 e1 Hr1.
      assert (repr (popArgLevel c1) (env_args e1 (args e1 - 1))) as Hr2.
      { rewrite <- (repr_args _ _ Hr1). by apply args_refines. }
      destruct st; [|done].
      apply refines_bind; [by apply pushSymbol_refines|]. intros _ c2 e2 Hr3. by apply IHps.
Qed.

End Commands.

(** ** The empty session *)

Definition new_env : env := mk_env [] 0 0 [] 0.

Lemma new_context_repr : repr new_context new_env.
Proof.
  split; try done; [|constructor]. split; cbn.
  - intros l s. by rewrite lookup_empty.
  - by intros l ?%not_elem_of_nil.
  - constructor.
  - by intros [|i] t.
Qed.

End Env.

Arguments env : clear implicits.
