(* ===== verification/OqlScope.v ===== *)
(** * OQL: scopes

    What the statements of a session do to its symbols, proved on the abstract
    table of [OqlEnv] and carried to the table of [OqlContext]: programs of
    assignments, loops and calls cannot break the table nor change a system
    variable, a call gives its caller's local symbols back, an assigned identifier
    reads as assigned. The examples at the end are the cases left out. *)

From Stdlib Require Import Ascii String.
From S2P Require Import Prelude OqlContext OqlEnv.

#[local] Arguments reverse : simpl never.
#[local] Set Warnings "-clear-no-such-hyp".

Section Scope.
Context {T A : Type} (st_atom_type : T) (atom_type : A -> T).

#[local] Instance symbols_env : Symbols T A (env T A) := env_symbols st_atom_type.
#[local] Instance symbols_context : Symbols T A (oqmlContext T A) := oqmlContext_symbols st_atom_type.

Abbreviation sym := (oqmlSymbolEntry T A).
Implicit Types (c : oqmlContext T A) (e : env T A) (s : sym) (id : string) (x : cmd A).

(** ** What a command may do to the symbols of the other levels *)

(** No symbol is of a level above the current one. *)
Definition levels_ok e : Prop :=
  Forall (fun s => 0 <= level s <= cnt_of e /\ (global s = true -> level s = 0)) (syms e).

Lemma repr_levels c e : repr c e -> levels_ok e.
Proof.
  intros Hr. pose proof (repr_ok _ _ Hr) as H. pose proof (repr_syms _ _ Hr) as Hs.
  unfold levels_ok. rewrite (repr_cnt _ _ Hr), Forall_forall. intros s Hin.
  apply list_elem_of_lookup in Hin as [i Hi].
  destruct (Forall2_lookup_r _ _ _ _ _ Hs Hi) as (l & Hl & Hls).
  assert (l ∈ table c) as Hlt by (rewrite <- elem_of_reverse; by eapply list_elem_of_lookup_2).
  destruct (ok_entry _ _ H _ Hlt) as (s' & Hs' & _ & ? & ?). by assert (s' = s) as -> by congruence.
Qed.

(** The local symbols of the levels other than [k]. *)
Definition locals_but (k : Z) (ss : list sym) : list sym :=
  filter (fun s => negb (global s) && negb (level s =? k) = true) ss.
Definition local_syms (ss : list sym) : list sym := filter (fun s => global s = false) ss.

Lemma upd_filter (P : sym -> Prop) `{!forall s, Decision (P s)} p f (ss : list sym) :
  (forall s, p s = true -> ~ P s /\ ~ P (f s)) ->
  filter P (upd_sym p f ss) = filter P ss.
Proof.
  intros Hp. induction ss as [|s ss IH]; [done|]. cbn [upd_sym].
  destruct (p s) eqn:E.
  - destruct (Hp s E). by rewrite !filter_cons_False.
  - by rewrite !filter_cons, IH.
Qed.

Lemma rem_filter (P : sym -> Prop) `{!forall s, Decision (P s)} p (ss : list sym) :
  (forall s, p s = true -> ~ P s) -> filter P (rem_sym p ss) = filter P ss.
Proof.
  intros Hp. induction ss as [|s ss IH]; [done|]. cbn [rem_sym].
  destruct (p s) eqn:E.
  - rewrite filter_cons_False; [done|]. by apply Hp.
  - by rewrite !filter_cons, IH.
Qed.

Lemma oriented_filter (P : sym -> Prop) `{!forall s, Decision (P s)} b (f : list sym -> list sym) ss :
  (forall ss, filter P (f ss) = filter P ss) ->
  filter P (oriented b (f (oriented b ss))) = filter P ss.
Proof.
  intros Hf. destruct b; cbn; [|by apply Hf].
  by rewrite filter_reverse, Hf, filter_reverse, reverse_involutive.
Qed.

Lemma upd_Forall (P : sym -> Prop) p f (ss : list sym) :
  (forall s, P s -> P (f s)) -> Forall P ss -> Forall P (upd_sym p f ss).
Proof.
  intros Hf. induction 1 as [|s ss Hs Hss IH]; cbn; [constructor|].
  destruct (p s); constructor; auto.
Qed.

Lemma rem_Forall (P : sym -> Prop) p (ss : list sym) : Forall P ss -> Forall P (rem_sym p ss).
Proof.
  induction 1 as [|s ss Hs Hss IH]; cbn; [constructor|]. destruct (p s); [done|by constructor].
Qed.

Lemma oriented_Forall (P : sym -> Prop) b ss : Forall P (oriented b ss) <-> Forall P ss.
Proof. destruct b; cbn; [|done]. apply Forall_reverse. Qed.

(** The relation between the table before and after a command of a function. *)
Record keeps_scope e e' : Prop := {
  ks_depth : depth e' = depth e;
  ks_args : args e' = args e;
  ks_levels : levels_ok e';
  ks_locals : locals_but (cnt_of e) (syms e') = locals_but (cnt_of e) (syms e) }.

Lemma keeps_refl e : levels_ok e -> keeps_scope e e.
Proof. by split. Qed.

Lemma keeps_trans e1 e2 e3 : keeps_scope e1 e2 -> keeps_scope e2 e3 -> keeps_scope e1 e3.
Proof.
  intros [D1 A1 L1 S1] [D2 A2 L2 S2].
  assert (cnt_of e2 = cnt_of e1) as E by (unfold cnt_of; by rewrite D1).
  split; [congruence..|done|]. rewrite E in S2. congruence.
Qed.

Lemma env_push_keeps e id ty a glob sys :
  levels_ok e -> keeps_scope e (env_push st_atom_type e id ty a glob sys).2.
Proof.
  intros H. unfold env_push. split; cbn; try done.
  - apply List.Forall_cons; [|done]. unfold cnt_of. cbn. destruct glob; cbn; lia.
  - unfold locals_but. rewrite decide_False; [done|].
    destruct glob; cbn; [done|]. by rewrite Z.eqb_refl.
Qed.

Lemma matches_level e id glob s :
  set_matches (cnt_of e) id glob s = true \/ pop_matches (cnt_of e) id glob s = true ->
  ~ (negb (global s) && negb (level s =? cnt_of e) = true).
Proof.
  unfold set_matches, pop_matches. destruct (String.eqb _ _), (global s), glob, (level s =? cnt_of e);
    cbn; intros [?|?] ?; done.
Qed.

Lemma env_set_keeps e id ty a glob sys :
  levels_ok e -> keeps_scope e (env_set st_atom_type e id ty a glob sys).2.
Proof.
  intros H. unfold env_set. destruct (find_sym _ _) as [s|]; [|by apply env_push_keeps].
  destruct (system s && negb sys); [by apply keeps_refl|]. split; cbn; try done.
  - apply oriented_Forall, upd_Forall; [|by apply oriented_Forall].
    intros s0 Hs0. pose proof (entry_set_keeps st_atom_type ty a true s0) as (_ & -> & -> & _). done.
  - unfold locals_but. apply oriented_filter. intros ss. apply upd_filter. intros s0 Hs0.
    pose proof (entry_set_keeps st_atom_type ty a true s0) as (_ & -> & -> & _).
    split; apply (matches_level e id glob); auto.
Qed.

Lemma env_pop_keeps e id glob st e' :
  levels_ok e -> env_pop e id glob = Some (st, e') -> keeps_scope e e'.
Proof.
  intros H. unfold env_pop. destruct (decide _); [|done]. intros [= _ <-]. split; cbn; try done.
  - by apply rem_Forall.
  - apply rem_filter. intros s Hs. apply (matches_level e id glob); auto.
Qed.

(** ** Every command keeps the scopes *)

Definition preserves (R : env T A -> env T A -> Prop) (f : env T A -> option (oqmlStatus * env T A)) : Prop :=
  forall e st e', levels_ok e -> f e = Some (st, e') -> R e e'.

Abbreviation keeping := (preserves keeps_scope).

Lemma keeping_then f k : keeping f -> keeping k -> keeping (fun e => then_ (f e) k).
Proof.
  intros Hf Hk e st e' H. unfold then_. destruct (f e) as [[st1 e1]|] eqn:E; cbn; [|done].
  specialize (Hf _ _ _ H E). destruct st1; [|by intros [= _ <-]].
  intros E2. eapply keeps_trans; [done|]. eapply Hk; [|done]. apply Hf.
Qed.

Lemma keeping_bind f k :
  keeping f -> (forall st, keeping (fun e => k (st, e))) -> keeping (fun e => f e ≫= k).
Proof.
  intros Hf Hk e st e' H. destruct (f e) as [[st1 e1]|] eqn:E; cbn; [|done].
  specialize (Hf _ _ _ H E). intros E2. eapply keeps_trans; [done|].
  eapply (Hk st1); [|done]. apply Hf.
Qed.

Lemma keeping_ret st : keeping (fun e => Some (st, e)).
Proof. intros e st' e' H [= _ <-]. by apply keeps_refl. Qed.

Lemma both_keeping f :
  (forall id glob, keeping (fun e => f e id glob)) ->
  forall id glob, keeping (fun e => both f e id glob).
Proof.
  intros Hf id glob e st e' H. unfold both.
  destruct glob; [|by apply Hf]. destruct (oqml_is_global_ident id).
  - by apply (keeping_then (fun e => f e (strip_scope id) true) (fun e => f e id true)).
  - destruct (negb _); [|by apply Hf].
    by apply (keeping_then (fun e => f e (add_scope id) true) (fun e => f e id true)).
Qed.

Lemma some_snd (p : oqmlStatus * env T A) st e' : Some p = Some (st, e') -> e' = p.2.
Proof. by intros [= ->]. Qed.

Lemma setSymbol_keeping id ty a glob sys : keeping (fun e => setSymbol e id ty a glob sys).
Proof.
  apply (both_keeping (fun e id glob => set_symbol e id ty a glob sys)).
  intros id' glob' e st e' H ->%some_snd. by apply env_set_keeps.
Qed.

Lemma pushSymbol_keeping id ty a glob sys : keeping (fun e => pushSymbol e id ty a glob sys).
Proof.
  apply (both_keeping (fun e id glob => push_symbol e id ty a glob sys)).
  intros id' glob' e st e' H ->%some_snd. by apply env_push_keeps.
Qed.

Lemma popSymbol_keeping id glob : keeping (fun e => popSymbol e id glob).
Proof.
  apply (both_keeping pop_symbol). intros id' glob' e st e' H. by apply env_pop_keeps.
Qed.

Lemma ident_keeping id a :
  keeping (fun e => assign_ident atom_type e id a) /\ keeping (fun e => push_ident e id)
  /\ keeping (fun e => pop_ident e id) /\ keeping (fun e => unset_ident e id).
Proof.
  refine (conj _ (conj _ (conj _ _))); intros e st e' H; unfold assign_ident, push_ident, pop_ident, unset_ident;
    cbn [get_symbol symbols_env env_symbols]; unfold env_getSymbol; cbn [mbind option_bind].
  - by apply setSymbol_keeping.
  - by apply pushSymbol_keeping.
  - destruct (env_get e id) as [s|]; cbn [fmap option_fmap option_map].
    + destruct (global s); [by apply keeping_ret|by apply popSymbol_keeping].
    + by apply keeping_ret.
  - destruct (env_get e id) as [s|]; cbn [fmap option_fmap option_map]; [|by apply keeping_ret].
    destruct (global s); [|by apply keeping_ret].
    apply (keeping_bind (fun e => popSymbol e id true) (fun '(_, e) => Some (oqmlSuccess, e))); [|..|done].
    + apply popSymbol_keeping.
    + intros _. apply keeping_ret.
Qed.

(** ** The frame of a call *)

Lemma in_level_but k s : negb (in_level k s) && negb (global s) = negb (global s) && negb (level s =? k).
Proof. unfold in_level. by destruct (global s), (level s =? k). Qed.

Lemma locals_split k ss :
  local_syms (other_syms k ss) = locals_but k ss.
Proof.
  unfold local_syms, other_syms, locals_but. rewrite list_filter_filter.
  apply filter_ext_in. intros s _. unfold in_level.
  destruct (global s), (level s =? k); cbn; naive_solver.
Qed.

Lemma locals_below e : levels_ok e -> locals_but (cnt_of e + 1) (syms e) = local_syms (syms e).
Proof.
  intros H. apply filter_ext_in. intros s Hs. unfold levels_ok in H. rewrite Forall_forall in H.
  destruct (H s Hs) as [? _]. assert ((level s =? cnt_of e + 1) = false) as -> by (apply Z.eqb_neq; lia).
  destruct (global s); cbn; naive_solver.
Qed.

Lemma push_frame_levels e : levels_ok e -> levels_ok (env_push_frame e).
Proof.
  intros H. eapply (List.Forall_impl _ _ H). Unshelve.
  unfold cnt_of; cbn. intros s [? ?]. split; [lia|done].
Qed.

Lemma cnt_push_frame e : cnt_of (env_push_frame e) = cnt_of e + 1.
Proof. unfold cnt_of; cbn; lia. Qed.

(** Whatever happens in the frame, leaving it gives the local symbols of the
    caller back. *)
Lemma leave_frame e e1 e2 st :
  levels_ok e -> keeps_scope (env_push_frame e) e1 -> env_pop_frame e1 = Some (st, e2) ->
  depth e2 = depth e /\ args e2 = args e /\ levels_ok e2 /\ local_syms (syms e2) = local_syms (syms e).
Proof.
  intros H [Hd Ha Hl Hs]. unfold env_pop_frame. cbn in Hd. rewrite Hd.
  destruct (decide _); [|done]. intros [= _ <-]. cbn.
  assert (cnt_of e1 = cnt_of e + 1) as Ecnt by (unfold cnt_of; rewrite Hd; lia).
  rewrite cnt_push_frame in Hs. change (syms (env_push_frame e)) with (syms e) in Hs. split; [done|]. split; [done|]. split.
  - unfold levels_ok in *. cbn. rewrite Forall_forall in Hl |- *.
    intros s [Hs1 Hs2]%list_elem_of_filter. destruct (Hl s Hs2) as [? Hg].
    unfold in_level in Hs1. rewrite Ecnt in *. unfold cnt_of; cbn. split; [|done].
    fold (cnt_of e). destruct (global s); [rewrite (Hg eq_refl); unfold cnt_of; lia|].
    cbn in Hs1. apply Z.eqb_neq in Hs1. lia.
  - by rewrite Ecnt, locals_split, Hs, locals_below.
Qed.

Lemma local_keeps e e' :
  depth e' = depth e -> args e' = args e -> levels_ok e' ->
  local_syms (syms e') = local_syms (syms e) -> keeps_scope e e'.
Proof.
  intros Hd Ha Hl Hs. split; try done.
  assert (forall ss, locals_but (cnt_of e) ss = filter (fun s => (level s =? cnt_of e) = false) (local_syms ss)) as E.
  { intros ss. unfold locals_but, local_syms. rewrite list_filter_filter. apply filter_ext_in.
    intros s _. destruct (global s), (level s =? cnt_of e); cbn; naive_solver. }
  by rewrite !E, Hs.
Qed.

Lemma run_keeping :
  (forall x, keeping (run atom_type x)) /\ (forall ps : params A, keeping (run_params atom_type ps)).
Proof.
  apply cmd_params_ind; try (cbn [run run_params]; apply keeping_ret).
  - intros msg. apply keeping_ret.
  - intros x IHx y IHy. cbn [run]. by apply keeping_then.
  - intros id a. apply ident_keeping.
  - intros id. by apply (ident_keeping id None).
  - intros id. by apply (ident_keeping id None).
  - intros id. by apply (ident_keeping id None).
  - intros id xs body IH. induction xs as [|y xs IHxs]; [apply keeping_ret|].
    cbn [for_each].
    apply (keeping_bind _ (fun '(_, e) => _)); [apply pushSymbol_keeping|]. intros _.
    apply (keeping_bind _ (fun '(st, e) => _)); [apply IH|]. intros st.
    apply (keeping_bind _ (fun '(_, e) => _)); [apply popSymbol_keeping|]. intros _.
    destruct st; [apply IHxs|apply keeping_ret].
  - intros ps IHps body IH e st e' H. rewrite run_Call.
    destruct (then_ _ _) as [[st1 e1]|] eqn:E1; cbn; [|done].
    assert (keeps_scope (env_push_frame e) e1) as Hk.
    { apply (keeping_then _ _ IHps IH _ st1 _ (push_frame_levels _ H) E1). }
    destruct (env_pop_frame e1) as [[st2 e2]|] eqn:E2; cbn; [|done]. intros [= _ <-].
    destruct (leave_frame _ _ _ _ H Hk E2) as (? & ? & ? & ?). by apply local_keeps.
  - intros id arg IH a ps IHps e st e' H. rewrite run_params_Param.
    destruct (run (C := env T A) atom_type arg _) as [[st1 e1]|] eqn:E1;
      cbn [mbind option_bind]; [|done].
    assert (keeps_scope e (env_args e1 (args e1 - 1))) as Hk.
    { apply IH in E1; [|exact H]. destruct E1 as [Hd Ha Hl Hs]. split; try done. cbn. rewrite Ha. cbn. lia. }
    destruct st1; [|by intros [= _ <-]].
    destruct (pushSymbol (C := env T A) _ id _ _ _ _) as [[st2 e2]|] eqn:E2;
      cbn [mbind option_bind]; [|done].
    intros E3. eapply keeps_trans; [exact Hk|].
    pose proof (pushSymbol_keeping _ _ _ _ _ _ _ _ (ks_levels _ _ Hk) E2) as Hk2.
    eapply keeps_trans; [exact Hk2|]. eapply IHps; [|exact E3]. apply Hk2.
Qed.

Lemma call_locals e ps body st e' :
  levels_ok e -> run atom_type (Call ps body) e = Some (st, e') ->
  depth e' = depth e /\ args e' = args e /\ local_syms (syms e') = local_syms (syms e).
Proof.
  intros H. rewrite run_Call.
  destruct (then_ _ _) as [[st1 e1]|] eqn:E1; cbn; [|done].
  assert (keeps_scope (env_push_frame e) e1) as Hk.
  { apply (keeping_then _ _ (proj2 run_keeping ps) (proj1 run_keeping body) _ st1 _
             (push_frame_levels _ H) E1). }
  destruct (env_pop_frame e1) as [[st2 e2]|] eqn:E2; cbn; [|done]. intros [= _ <-].
  by destruct (leave_frame _ _ _ _ H Hk E2) as (? & ? & ? & ?).
Qed.

(** ** Programs that cannot break the table

    No push, pop or unset; the parameters of a call are distinct and no argument
    assigns one of them. *)

(** The identifiers a command assigns in its own frame. *)
Fixpoint assigns (x : cmd A) : list string :=
  match x with
  | Assign id _ | Push id => [id]
  | Seq x y => assigns x ++ assigns y
  | ForEach _ _ body => assigns body
  | _ => []
  end.

Fixpoint param_ids (ps : params A) : list string :=
  match ps with NoParam => [] | Param id _ _ ps => id :: param_ids ps end.
Fixpoint param_assigns (ps : params A) : list string :=
  match ps with NoParam => [] | Param _ arg _ ps => assigns arg ++ param_assigns ps end.

Fixpoint safe (x : cmd A) : Prop :=
  match x with
  | Skip | Raise _ | Assign _ _ => True
  | Seq x y => safe x /\ safe y
  | Push _ | Pop _ | Unset _ => False
  | ForEach _ _ body => safe body
  | Call ps body =>
      safe_params ps /\ NoDup (param_ids ps)
      /\ Forall (fun id => id ∉ param_assigns ps) (param_ids ps) /\ safe body
  end
with safe_params (ps : params A) : Prop :=
  match ps with NoParam => True | Param _ arg _ ps => safe arg /\ safe_params ps end.

(** A symbol after some assignments: the same one, with its value if it is a
    system symbol. *)
Definition same_sym s s' : Prop :=
  ident s' = ident s /\ global s' = global s /\ level s' = level s /\ system s' = system s
  /\ (system s = true -> s' = s).

Definition new_sym (k : Z) (names : list string) s : Prop :=
  (global s = true /\ level s = 0) \/ (global s = false /\ level s = k /\ ident s ∈ names).

Definition frame_idents (k : Z) (ss : list sym) : list string := ident <$> frame_syms k ss.

(** [e'] is [e] with other values and with new symbols on top of it, the local
    ones among [names] and with identifiers of their own. *)
Record extends e e' (names : list string) : Prop := {
  ex_depth : depth e' = depth e;
  ex_args : args e' = args e;
  ex_syms : exists new old, syms e' = new ++ old /\ Forall2 same_sym (syms e) old
    /\ Forall (new_sym (cnt_of e) names) new
    /\ NoDup (frame_idents (cnt_of e) new)
    /\ Forall (fun id => id ∉ frame_idents (cnt_of e) (syms e)) (frame_idents (cnt_of e) new) }.

Lemma same_sym_refl s : same_sym s s.
Proof. by repeat split. Qed.

Lemma same_sym_trans s1 s2 s3 : same_sym s1 s2 -> same_sym s2 s3 -> same_sym s1 s3.
Proof.
  intros (I1 & G1 & L1 & Y1 & E1) (I2 & G2 & L2 & Y2 & E2).
  repeat split; try congruence. intros Hs. rewrite E2 by congruence. by apply E1.
Qed.

Lemma same_syms_refl ss : Forall2 same_sym ss ss.
Proof. apply Forall_Forall2_diag, Forall_true. apply same_sym_refl. Qed.

Lemma same_idents k ss ss' : Forall2 same_sym ss ss' -> frame_idents k ss' = frame_idents k ss.
Proof.
  induction 1 as [|s s' ss ss' (Hi & Hg & Hl & _) H IH]; [done|].
  unfold frame_idents, frame_syms in *. rewrite !filter_cons.
  assert (in_level k s' = in_level k s) as E by (unfold in_level; by rewrite Hg, Hl).
  rewrite E. case_decide; cbn; by rewrite ?Hi, IH.
Qed.

Lemma frame_idents_app k ss ss' : frame_idents k (ss ++ ss') = frame_idents k ss ++ frame_idents k ss'.
Proof. unfold frame_idents, frame_syms. by rewrite filter_app, fmap_app. Qed.

Lemma elem_frame_idents k ss id :
  id ∈ frame_idents k ss <-> exists s, s ∈ ss /\ in_level k s = true /\ ident s = id.
Proof.
  unfold frame_idents, frame_syms. rewrite list_elem_of_fmap. split.
  - intros (s & -> & [? ?]%list_elem_of_filter). eauto.
  - intros (s & ? & ? & <-). exists s. by rewrite list_elem_of_filter.
Qed.

Lemma new_sym_mono k names names' s : names ⊆ names' -> new_sym k names s -> new_sym k names' s.
Proof. intros H [?|(? & ? & ?)]; [by left|right; auto]. Qed.

Lemma new_sym_same k names s s' : same_sym s s' -> new_sym k names s -> new_sym k names s'.
Proof. intros (Hi & Hg & Hl & _) H. unfold new_sym. by rewrite Hi, Hg, Hl. Qed.

Lemma extends_refl e names : extends e e names.
Proof.
  split; try done. exists [], (syms e). split; [done|]. split; [apply same_syms_refl|].
  by repeat constructor.
Qed.

Lemma extends_mono e e' names names' : names ⊆ names' -> extends e e' names -> extends e e' names'.
Proof.
  intros Hn [Hd Ha (new & old & ? & ? & H & ?)]. split; try done.
  exists new, old. split; [done|]. split; [done|]. split; [|done].
  eapply Forall_impl; [exact H|]. intros s. by apply new_sym_mono.
Qed.

Lemma extends_trans e1 e2 e3 n1 n2 :
  extends e1 e2 n1 -> extends e2 e3 n2 -> extends e1 e3 (n1 ++ n2).
Proof.
  intros [D1 A1 (new1 & old1 & S1 & O1 & N1 & U1 & F1)] [D2 A2 (new2 & old2 & S2 & O2 & N2 & U2 & F2)].
  assert (cnt_of e2 = cnt_of e1) as Ecnt by (unfold cnt_of; by rewrite D1). rewrite Ecnt in *.
  split; [congruence..|].
  rewrite S1 in O2. apply Forall2_app_inv_l in O2 as (new1' & old1' & On & Oo & ->).
  exists (new2 ++ new1'), old1'. split; [by rewrite <- app_assoc|]. split; [|split; [|split]].
  - revert Oo. clear -O1. revert old1'. induction O1; intros old1' Oo; inversion Oo; subst; constructor; auto.
    by eapply same_sym_trans.
  - apply Forall_app. split.
    + eapply Forall_impl; [exact N2|]. intros s. apply new_sym_mono. set_solver.
    + clear -N1 On. induction On; inversion N1; subst; constructor; auto.
      eapply new_sym_same; [done|]. eapply new_sym_mono; [|done]. set_solver.
  - rewrite frame_idents_app, (same_idents _ _ _ On). apply NoDup_app. split; [done|]. split; [|done].
    intros id Hid Hid1. rewrite Forall_forall in F2. apply (F2 id Hid).
    rewrite S1, frame_idents_app. set_solver.
  - rewrite frame_idents_app, (same_idents _ _ _ On). apply Forall_app. split; [|done].
    eapply Forall_impl; [exact F2|]. intros id Hid Hin. apply Hid.
    rewrite S1, frame_idents_app, (same_idents _ _ _ O1). set_solver.
Qed.

(** A new symbol on top. *)
Lemma env_push_extends e id ty a glob sys :
  (glob = false -> id ∉ frame_idents (cnt_of e) (syms e)) ->
  extends e (env_push st_atom_type e id ty a glob sys).2 (if glob then [] else [id]).
Proof.
  intros Hid. split; cbn; try done. eexists [_], (syms e). split; [done|].
  split; [apply same_syms_refl|].
  assert (frame_idents (cnt_of e)
            [mk_entry id (default st_atom_type ty) a glob sys (if glob then 0 else cnt_of e) false]
          = if glob then [] else [id]) as E.
  { unfold frame_idents, frame_syms. destruct glob.
    - by rewrite filter_cons_False.
    - rewrite filter_cons_True; [done|]. unfold in_level; cbn. apply Z.eqb_refl. }
  rewrite E. split; [|split].
  - apply List.Forall_cons; [|constructor]. unfold new_sym. cbn. destruct glob; [by left|right].
    split; [done|]. split; [done|]. by left.
  - destruct glob; [constructor|apply NoDup_singleton].
  - destruct glob; [constructor|]. apply List.Forall_cons; [auto|constructor].
Qed.

Lemma find_upd_same p f s ss :
  find_sym p ss = Some s -> same_sym s (f s) -> Forall2 same_sym ss (upd_sym p f ss).
Proof.
  induction ss as [|x ss IH]; cbn; [done|]. destruct (p x).
  - intros [= ->] H. constructor; [done|apply same_syms_refl].
  - intros. constructor; [apply same_sym_refl|auto].
Qed.

Lemma oriented_Forall2 (R : sym -> sym -> Prop) b ss ss' :
  Forall2 R ss ss' -> Forall2 R (oriented b ss) (oriented b ss').
Proof. destruct b; cbn; [apply Forall2_reverse|done]. Qed.

Lemma oriented_oriented b (ss : list sym) : oriented b (oriented b ss) = ss.
Proof. destruct b; cbn; [apply reverse_involutive|done]. Qed.

Lemma entry_set_same ty a f s : system s = false -> same_sym s (entry_set st_atom_type ty a f s).
Proof.
  intros Hs. destruct (entry_set_keeps st_atom_type ty a f s) as (? & ? & ? & ? & ?).
  repeat split; try done. by rewrite Hs.
Qed.

Lemma env_set_extends e id ty a glob :
  extends e (env_set st_atom_type e id ty a glob false).2 (if glob then [] else [id]).
Proof.
  unfold env_set. destruct (find_sym _ _) as [s|] eqn:E.
  - rewrite andb_true_r. destruct (system s) eqn:Hs; [apply extends_refl|]. cbn.
    split; cbn; try done. eexists [], _. split; [done|]. split; [|by repeat constructor].
    rewrite <- (oriented_oriented glob (syms e)) at 1. apply oriented_Forall2.
    apply (find_upd_same _ _ _ _ E). by apply entry_set_same.
  - apply env_push_extends. intros -> (s & Hs & Hl & Hid)%elem_frame_idents. cbn in E.
    pose proof (find_sym_none _ _ _ E Hs) as Hn. revert Hn. unfold set_matches, in_level in *.
    rewrite Hid, String.eqb_refl. destruct (global s); [done|]. cbn in *. by rewrite Hl.
Qed.

(** An assignment returns, and extends. *)
Lemma then_extends (f k : env T A -> option (oqmlStatus * env T A)) e n1 n2 :
  (exists st e1, f e = Some (st, e1) /\ extends e e1 n1) ->
  (forall e1, extends e e1 n1 -> exists st e2, k e1 = Some (st, e2) /\ extends e1 e2 n2) ->
  exists st e', then_ (f e) k = Some (st, e') /\ extends e e' (n1 ++ n2).
Proof.
  intros (st & e1 & E & H1) Hk. unfold then_. rewrite E. cbn.
  destruct st.
  - destruct (Hk e1 H1) as (st & e2 & E2 & H2). exists st, e2. split; [done|].
    by eapply extends_trans.
  - eexists _, e1. split; [done|]. eapply extends_mono; [|done]. set_solver.
Qed.

Lemma set_extends_exists e id ty a glob :
  exists st e', set_symbol e id ty a glob false = Some (st, e')
    /\ extends e e' (if glob then [] else [id]).
Proof.
  pose proof (env_set_extends e id ty a glob) as H. cbn [set_symbol symbols_env env_symbols].
  destruct (env_set _ _ _ _ _ _ _) as [st e']. eauto.
Qed.

Lemma setSymbol_extends e id ty a glob :
  exists st e', setSymbol e id ty a glob false = Some (st, e') /\ extends e e' [id].
Proof.
  assert (forall e id', exists st e', then_ (set_symbol e id' ty a true false)
            (fun e => set_symbol e id ty a true false) = Some (st, e') /\ extends e e' [id]) as H2.
  { intros e0 id'.
    destruct (then_extends (fun e => set_symbol e id' ty a true false)
                (fun e => set_symbol e id ty a true false) e0 [] []) as (st & e1 & E & H1).
    - apply set_extends_exists.
    - intros. apply (set_extends_exists _ _ _ _ true).
    - exists st, e1. split; [done|]. eapply extends_mono; [|done]. set_solver. }
  unfold setSymbol, both. destruct glob; [|apply (set_extends_exists _ _ _ _ false)].
  destruct (oqml_is_global_ident id); [apply H2|].
  destruct (negb _); [apply H2|apply (set_extends_exists _ _ _ _ false)].
Qed.

Lemma assign_extends e id a :
  exists st e', assign_ident atom_type e id a = Some (st, e') /\ extends e e' [id].
Proof.
  unfold assign_ident. cbn [get_symbol symbols_env env_symbols].
  unfold env_getSymbol. cbn [mbind option_bind]. apply setSymbol_extends.
Qed.

(** Popping the symbol of a loop removes the one the loop pushed. *)
Lemma pop_pushed e e1 id ty a names st e2 :
  pushSymbol e id ty a false false = Some (st, e1) -> extends e1 e2 names ->
  exists st' e3, popSymbol e2 id false = Some (st', e3) /\ extends e e3 names.
Proof.
  intros E [Hd Ha (new & old & S & O & N & U & F)]. cbn in E. injection E as _ <-.
  cbn [syms depth args andb] in S, O, N, U, F, Hd, Ha. inversion O as [|? s' ? old' Hs' O' E1 E2]; subst.
  set (s0 := mk_entry id _ a false false _ false) in *.
  change (cnt_of _) with (cnt_of e) in *.
  assert (cnt_of e2 = cnt_of e) as Ecnt by (unfold cnt_of; by rewrite Hd).
  assert (frame_idents (cnt_of e) (s0 :: syms e) = id :: frame_idents (cnt_of e) (syms e)) as Ef.
  { unfold frame_idents, frame_syms. rewrite filter_cons_True; [done|].
    unfold in_level; cbn. apply Z.eqb_refl. }
  assert (Forall (fun s => pop_matches (cnt_of e) id false s = false) new) as Hnew.
  { rewrite Forall_forall in F. rewrite Forall_forall in N. apply Forall_forall. intros s Hs. unfold pop_matches.
    destruct (N s Hs) as [[Hg _]|(Hg & Hl & _)]; rewrite Hg; [by rewrite andb_false_r|].
    destruct (String.eqb_spec (ident s) id) as [Hid|]; [|done]. exfalso.
    apply (F (ident s)); [|rewrite Ef, Hid; by left].
    apply elem_frame_idents. exists s. unfold in_level. by rewrite Hg, Hl, Z.eqb_refl. }
  assert (pop_matches (cnt_of e) id false s' = true) as Hp.
  { destruct Hs' as (Hi & Hg & Hl & _). unfold pop_matches. rewrite Hi, Hg, Hl. cbn.
    by rewrite String.eqb_refl, Z.eqb_refl. }
  cbn. unfold env_pop. rewrite Ecnt, S. rewrite decide_True.
  - eexists _, _. split; [done|]. split; cbn; try done.
    exists new, old'. rewrite rem_sym_split by done. split; [done|]. split; [done|]. split; [done|].
    split; [done|]. eapply Forall_impl; [exact F|]. intros id' Hid. rewrite Ef in Hid. set_solver.
  - clear -Hnew Hp. induction Hnew as [|s new Hs _ IH]; cbn; [rewrite Hp|rewrite Hs]; eauto.
Qed.

(** What a safe command does, in any frame. *)
Definition runs_safely (x : cmd A) : Prop :=
  forall e, levels_ok e ->
  exists st e', run atom_type x e = Some (st, e') /\ extends e e' (assigns x).

Lemma for_each_safe id xs body :
  runs_safely body -> runs_safely (ForEach id xs body).
Proof.
  intros Hb. unfold runs_safely. cbn [run assigns].
  induction xs as [|y xs IH]; intros e He; cbn [for_each].
  { eexists _, e. split; [done|apply extends_refl]. }
  destruct (pushSymbol e id (Some (atom_type y)) (Some y) false false) as [[st1 e1]|] eqn:E1; [|done].
  cbn [mbind option_bind].
  pose proof (pushSymbol_keeping _ _ _ _ _ _ _ _ He E1) as K1.
  destruct (Hb e1 (ks_levels _ _ K1)) as (st2 & e2 & E2 & X2). rewrite E2. cbn [mbind option_bind].
  pose proof (proj1 run_keeping body e1 _ _ (ks_levels _ _ K1) E2) as K2.
  destruct (pop_pushed _ _ _ _ _ _ _ _ E1 X2) as (st3 & e3 & E3 & X3). rewrite E3. cbn [mbind option_bind].
  pose proof (popSymbol_keeping _ _ _ _ _ (ks_levels _ _ K2) E3) as K3.
  destruct st2; [|eauto].
  destruct (IH e3 (ks_levels _ _ K3)) as (st4 & e4 & E4 & X4).
  exists st4, e4. split; [done|]. eapply extends_mono; [|by eapply extends_trans]. set_solver.
Qed.

Lemma extends_args e e' n m names :
  extends (env_args e n) e' names -> m = args e -> extends e (env_args e' m) names.
Proof. intros [Hd Ha H] ->. by split. Qed.

(** The parameters: each is pushed after the effects of its argument. *)
Definition params_safely (ps : params A) : Prop :=
  forall e, levels_ok e -> NoDup (param_ids ps) ->
  Forall (fun id => (id ∉ param_assigns ps) /\ (id ∉ frame_idents (cnt_of e) (syms e))) (param_ids ps) ->
  exists st e', run_params atom_type ps e = Some (st, e')
    /\ extends e e' (param_ids ps ++ param_assigns ps).

Lemma extends_fresh e e' names id :
  extends e e' names -> id ∉ names -> id ∉ frame_idents (cnt_of e) (syms e) ->
  id ∉ frame_idents (cnt_of e') (syms e').
Proof.
  intros [Hd Ha (new & old & S & O & N & U & F)] Hn Hf.
  assert (cnt_of e' = cnt_of e) as -> by (unfold cnt_of; by rewrite Hd).
  rewrite S, frame_idents_app, (same_idents _ _ _ O), elem_of_app. intros [Hin|Hin]; [|done].
  apply elem_frame_idents in Hin as (s & Hs & Hl & Hid). rewrite Forall_forall in N.
  unfold in_level in Hl. destruct (N s Hs) as [[Hg _]|(_ & _ & Hi)]; [by rewrite Hg in Hl|].
  congruence.
Qed.

Lemma param_safe id arg a ps :
  runs_safely arg -> params_safely ps -> params_safely (Param id arg a ps).
Proof.
  intros Harg Hps e He. cbn [param_ids param_assigns]. intros [Hid Hnd]%NoDup_cons Hall.
  rewrite run_params_Param.
  destruct (Harg (env_args e (args e + 1)) He) as (st1 & e1 & E1 & X1). change (push_arg_level e) with (env_args e (args e + 1)).
  rewrite E1. cbn [mbind option_bind].
  apply (extends_args _ _ _ (args e1 - 1)) in X1;
    [|rewrite (ex_args _ _ _ X1); cbn; lia].
  assert (levels_ok (env_args e1 (args e1 - 1))) as H1.
  { pose proof (proj1 run_keeping arg (env_args e (args e + 1)) _ _ He E1) as K. apply K. }
  destruct st1; [|eexists _, _; split; [done|]; eapply extends_mono; [|exact X1]; set_solver].
  cbn [pop_arg_level symbols_env env_symbols]. set (e2 := env_args e1 (args e1 - 1)) in *.
  assert (id ∉ frame_idents (cnt_of e2) (syms e2)) as Hfresh.
  { apply Forall_cons in Hall as [[Ha Hf] _]. eapply extends_fresh; [exact X1| |done]. set_solver. }
  destruct (pushSymbol e2 id (atom_type <$> a) a false false) as [[st3 e3]|] eqn:E3; [|done].
  cbn [mbind option_bind].
  assert (extends e2 e3 [id]) as X3.
  { cbn in E3. injection E3 as _ <-. by apply (env_push_extends e2 id _ _ false false). }
  pose proof (pushSymbol_keeping _ _ _ _ _ _ _ _ H1 E3) as K3.
  destruct (Hps e3 (ks_levels _ _ K3) Hnd) as (st4 & e4 & E4 & X4).
  - apply Forall_cons in Hall as [_ Hall]. rewrite Forall_forall in Hall |- *.
    intros id' Hin. destruct (Hall id' Hin) as [Ha Hf]. split; [set_solver|].
    eapply extends_fresh; [exact X3|set_solver|]. eapply extends_fresh; [exact X1|set_solver|done].
  - exists st4, e4. split; [done|]. eapply extends_mono; [|eapply extends_trans; [exact X1|];
      eapply extends_trans; [exact X3|exact X4]]. set_solver.
Qed.

Lemma frame_idents_above e : levels_ok e -> frame_idents (cnt_of e + 1) (syms e) = [].
Proof.
  intros H. unfold frame_idents, frame_syms. rewrite filter_none; [done|].
  intros s Hs. unfold levels_ok in H. rewrite Forall_forall in H. destruct (H s Hs) as [? _].
  unfold in_level. assert ((level s =? cnt_of e + 1) = false) as -> by (apply Z.eqb_neq; lia).
  by rewrite andb_false_r.
Qed.

Lemma frame_idents_nil k ss : frame_idents k ss = [] -> other_syms k ss = ss.
Proof. intros H. by apply frame_syms_nil, fmap_nil_inv with (f := ident). Qed.

(** Leaving the frame of a safe call. *)
Lemma leave_safely e e1 names :
  levels_ok e -> extends (env_push_frame e) e1 names ->
  exists e2, env_pop_frame e1 = Some (oqmlSuccess, e2) /\ extends e e2 [].
Proof.
  intros He [Hd Ha (new & old & S & O & N & U & F)]. cbn in Hd, Ha, O.
  rewrite cnt_push_frame in *.
  assert (cnt_of e1 = cnt_of e + 1) as Ecnt by (unfold cnt_of; rewrite Hd; lia).
  assert (frame_idents (cnt_of e + 1) old = []) as Eold.
  { by rewrite (same_idents _ _ _ O), frame_idents_above. }
  unfold env_pop_frame. rewrite Hd, decide_True.
  - eexists. split; [done|]. rewrite Ecnt, S. unfold other_syms. rewrite filter_app.
    change (filter _ old) with (other_syms (cnt_of e + 1) old).
    rewrite (frame_idents_nil _ _ Eold). split; cbn; try done.
    eexists _, old. split; [done|]. split; [done|].
    assert (Forall (fun s => global s = true /\ level s = 0)
              (filter (fun s => in_level (cnt_of e + 1) s = false) new)) as Hglob.
    { rewrite Forall_forall in N. apply Forall_forall. intros s [Hs Hin]%list_elem_of_filter.
      destruct (N s Hin) as [?|(Hg & Hl & _)]; [done|]. unfold in_level in Hs.
      rewrite Hg, Hl, Z.eqb_refl in Hs. done. }
    assert (frame_idents (cnt_of e) (filter (fun s => in_level (cnt_of e + 1) s = false) new) = []) as E.
    { unfold frame_idents, frame_syms. rewrite filter_none; [done|]. intros s Hs.
      rewrite Forall_forall in Hglob. destruct (Hglob s Hs) as [Hg _]. unfold in_level. by rewrite Hg. }
    rewrite E. split; [|split; constructor].
    eapply Forall_impl; [exact Hglob|]. intros s ?. by left.
  - change (NoDup (frame_idents (cnt_of e1) (syms e1))).
    by rewrite Ecnt, S, frame_idents_app, Eold, app_nil_r.
Qed.

Lemma run_safe :
  (forall x, safe x -> runs_safely x) /\ (forall ps : params A, safe_params ps -> params_safely ps).
Proof.
  apply cmd_params_ind.
  - intros _ e He. eexists _, e. split; [done|apply extends_refl].
  - intros msg _ e He. eexists _, e. split; [done|apply extends_refl].
  - intros x IHx y IHy [Hx Hy] e He. cbn [run assigns].
    destruct (IHx Hx e He) as (st1 & e1 & E1 & X1). unfold then_. rewrite E1. cbn [mbind option_bind].
    destruct st1; [|eexists _, _; split; [done|]; eapply extends_mono; [|exact X1]; set_solver].
    pose proof (proj1 run_keeping x _ _ _ He E1) as K1.
    destruct (IHy Hy e1 (ks_levels _ _ K1)) as (st2 & e2 & E2 & X2).
    exists st2, e2. split; [done|]. by eapply extends_trans.
  - intros id a _ e He. apply assign_extends.
  - done.
  - done.
  - done.
  - intros id xs body IH Hb. by apply for_each_safe, IH.
  - intros ps IHps body IH (Hps & Hnd & Hall & Hb) e He. rewrite run_Call.
    pose proof (push_frame_levels _ He) as H0.
    destruct (IHps Hps (env_push_frame e) H0 Hnd) as (st1 & e1 & E1 & X1).
    { rewrite Forall_forall in Hall |- *. intros id Hid. split; [by apply Hall|].
      rewrite cnt_push_frame. change (syms (env_push_frame e)) with (syms e).
      rewrite frame_idents_above by done. apply not_elem_of_nil. }
    assert (exists st2 e2 names, then_ (run_params atom_type ps (push_local_table e)) (run atom_type body)
              = Some (st2, e2) /\ extends (env_push_frame e) e2 names) as (st2 & e2 & names & E2 & X2).
    { unfold then_. change (push_local_table e) with (env_push_frame e). rewrite E1. cbn [mbind option_bind].
      destruct st1; [|eauto].
      pose proof (proj2 run_keeping ps _ _ _ H0 E1) as K1.
      destruct (IH Hb e1 (ks_levels _ _ K1)) as (st2 & e2 & E2 & X2).
      exists st2, e2. eexists. split; [done|]. by eapply extends_trans. }
    rewrite E2. cbn [mbind option_bind].
    destruct (leave_safely _ _ _ He X2) as (e3 & E3 & X3).
    change (pop_local_table e2) with (env_pop_frame e2). rewrite E3. cbn. eauto.
  - intros _ e He _ _. eexists _, e. split; [done|apply extends_refl].
  - intros id arg IH a ps IHps [Harg Hps]. apply param_safe; auto.
Qed.

(** ** Reading what was assigned *)

(** The two names of a global symbol. *)
Definition other_spelling (id : string) : string :=
  if oqml_is_global_ident id then strip_scope id else add_scope id.

(** Outside of the arguments of a call: one global symbol per identifier, and
    local symbols without the scope prefix. *)
Record consistent e : Prop := {
  cons_args : args e = 0;
  cons_unique : NoDup (ident <$> filter (fun s => global s = true) (syms e));
  cons_prefix : Forall (fun s => global s = false -> oqml_is_global_ident (ident s) = false) (syms e) }.

Lemma find_sym_app p (ss ss' : list sym) :
  find_sym p (ss ++ ss') = match find_sym p ss with Some s => Some s | None => find_sym p ss' end.
Proof. induction ss as [|s ss IH]; cbn; [done|]. by destruct (p s). Qed.

Lemma find_sym_split p (ss : list sym) s :
  find_sym p ss = Some s ->
  exists ss1 ss2, ss = ss1 ++ s :: ss2 /\ Forall (fun s => p s = false) ss1 /\ p s = true.
Proof.
  induction ss as [|x ss IH]; cbn; [done|]. destruct (p x) eqn:E.
  - intros [= ->]. by exists [], ss.
  - intros H. destruct (IH H) as (ss1 & ss2 & -> & ? & ?). exists (x :: ss1), ss2. auto.
Qed.

Lemma find_sym_ext p q (ss : list sym) : (forall s, p s = q s) -> find_sym p ss = find_sym q ss.
Proof. intros H. induction ss as [|s ss IH]; cbn; [done|]. by rewrite H, IH. Qed.

(** The symbol env_set writes, seen from the table. *)
Lemma env_set_cases e id ty a glob e' :
  env_set st_atom_type e id ty a glob false = (oqmlSuccess, e') ->
  depth e' = depth e /\ args e' = args e /\
  ((exists ss1 s ss2, syms e = ss1 ++ s :: ss2
      /\ syms e' = ss1 ++ entry_set st_atom_type ty a true s :: ss2
      /\ set_matches (cnt_of e) id glob s = true
      /\ Forall (fun s => set_matches (cnt_of e) id glob s = false) (if glob then ss2 else ss1))
   \/ (Forall (fun s => set_matches (cnt_of e) id glob s = false) (syms e)
       /\ exists s, syms e' = s :: syms e /\ ident s = id /\ global s = glob /\ at_ s = a
          /\ type s = default st_atom_type ty /\ level s = (if glob then 0 else cnt_of e))).
Proof.
  unfold env_set. destruct (find_sym _ _) as [s|] eqn:E.
  - destruct (system s && negb false); [done|]. intros [= <-]. cbn. split; [done|]. split; [done|].
    left. destruct (find_sym_split _ _ _ E) as (ss1 & ss2 & Es & Hn & Hp). rewrite Es, upd_sym_split by done.
    destruct glob; cbn in *.
    + exists (reverse ss2), s, (reverse ss1).
      rewrite <- (reverse_involutive (syms e)), Es, !reverse_app, !reverse_cons, <- !(app_assoc _ [_]).
      split; [done|]. split; [done|]. split; [done|]. by apply Forall_reverse.
    + by exists ss1, s, ss2.
  - intros [= <-]. cbn. split; [done|]. split; [done|]. right. split; [|eauto 10].
    apply Forall_forall. intros s Hs. apply (find_sym_none _ _ _ E). destruct glob; cbn; [|done].
    by rewrite elem_of_reverse.
Qed.

Lemma matches_ident k id glob s : set_matches k id glob s = true -> ident s = id.
Proof. unfold set_matches. by intros [?%String.eqb_eq _]%andb_true_iff. Qed.

Lemma visible_ident k n id s : visible k n id s = true -> ident s = id.
Proof. unfold visible. by intros [?%String.eqb_eq _]%andb_true_iff. Qed.

Lemma visible_other k n id s : ident s <> id -> visible k n id s = false.
Proof. intros H. unfold visible. destruct (String.eqb_spec (ident s) id); done. Qed.

(** Other identifiers read as before. *)
Lemma env_set_others e id ty a glob e' id' :
  env_set st_atom_type e id ty a glob false = (oqmlSuccess, e') -> id' <> id ->
  env_get e' id' = env_get e id'.
Proof.
  intros E Hne. destruct (env_set_cases _ _ _ _ _ _ E) as (Hd & Ha & Hcases).
  unfold env_get. assert (cnt_of e' = cnt_of e) as -> by (unfold cnt_of; by rewrite Hd). rewrite Ha.
  destruct Hcases as [(ss1 & s & ss2 & -> & -> & Hp & _)|(_ & s & -> & Hid & _)].
  - apply matches_ident in Hp. rewrite !find_sym_app. destruct (find_sym _ ss1); [done|]. cbn.
    destruct (entry_set_keeps st_atom_type ty a true s) as (Hi & _).
    rewrite !visible_other by congruence. done.
  - cbn. by rewrite visible_other by congruence.
Qed.

Lemma entry_set_value ty a s :
  type (entry_set st_atom_type ty a true s) = default st_atom_type ty
  /\ at_ (entry_set st_atom_type ty a true s) = a.
Proof. unfold entry_set. by destruct a. Qed.

Lemma find_first p (ss1 : list sym) s ss2 :
  Forall (fun s => p s = false) ss1 -> p s = true -> find_sym p (ss1 ++ s :: ss2) = Some s.
Proof. induction 1 as [|x ss1 Hx _ IH]; cbn; intros Hs; [by rewrite Hs|rewrite Hx; auto]. Qed.

(** The identifier reads as assigned; when it is set as a global one, provided it
    was not hidden by a local symbol. *)
Lemma env_set_read e id ty a glob e' :
  consistent e -> env_set st_atom_type e id ty a glob false = (oqmlSuccess, e') ->
  (glob = true -> forall s, env_get e id = Some s -> global s = true) ->
  exists s, env_get e' id = Some s /\ type s = default st_atom_type ty /\ at_ s = a.
Proof.
  intros [Hargs Hu _] E Hvis. destruct (env_set_cases _ _ _ _ _ _ E) as (Hd & Ha & Hcases).
  unfold env_get. assert (cnt_of e' = cnt_of e) as -> by (unfold cnt_of; by rewrite Hd). rewrite Ha, Hargs.
  destruct Hcases as [(ss1 & s & ss2 & Es & -> & Hp & Hn)|(_ & s & -> & Hid & Hg & Hat & Hty & Hl)].
  - destruct (entry_set_value ty a s) as [Hty Hat].
    exists (entry_set st_atom_type ty a true s). split; [|done].
    destruct (entry_set_keeps st_atom_type ty a true s) as (Hi & Hg & Hl & _).
    assert (visible (cnt_of e) 0 id s = true) as Hvs.
    { revert Hp. unfold set_matches, visible. destruct (String.eqb _ _), (global s), (level s =? cnt_of e), glob; done. }
    apply find_first; [|revert Hvs; unfold visible; by rewrite Hi, Hg, Hl].
    destruct glob.
    + apply Forall_forall. intros x Hx. destruct (visible (cnt_of e) 0 id x) eqn:Hvx; [|done]. exfalso.
      destruct (find_sym (visible (cnt_of e) 0 id) ss1) as [y|] eqn:Ey.
      2: { by rewrite (find_sym_none _ _ _ Ey Hx) in Hvx. }
      assert (global y = true) as Hgy.
      { apply (Hvis eq_refl). unfold env_get. by rewrite Hargs, Es, find_sym_app, Ey. }
      destruct (find_sym_split _ _ _ Ey) as (t1 & t2 & -> & _ & Hvy).
      apply visible_ident in Hvy. pose proof (matches_ident _ _ _ _ Hp) as Hid.
      assert (global s = true) as Hgs.
      { revert Hp. unfold set_matches. by destruct (String.eqb _ _), (global s). }
      revert Hu. rewrite Es, <- app_assoc, filter_app. cbn [app]. rewrite filter_cons_True by done.
      rewrite filter_app, filter_cons_True by done. rewrite fmap_app, NoDup_app. cbn.
      intros (_ & _ & [Hnin _]%NoDup_cons). apply Hnin. rewrite fmap_app, elem_of_app. right. cbn.
      replace (ident y) with (ident s) by congruence. by left.
    + eapply Forall_impl; [exact Hn|]. intros x. unfold set_matches, visible.
      by destruct (String.eqb _ _), (global x), (level x =? cnt_of e).
  - exists s. cbn. unfold visible. rewrite Hid, String.eqb_refl, Hg, Hl.
    destruct glob; cbn; [done|]. by rewrite Z.eqb_refl.
Qed.

Lemma env_set_consistent e id ty a e' :
  consistent e -> env_set st_atom_type e id ty a true false = (oqmlSuccess, e') -> consistent e'.
Proof.
  intros [Hargs Hu Hp] E. destruct (env_set_cases _ _ _ _ _ _ E) as (Hd & Ha & Hcases).
  destruct Hcases as [(ss1 & s & ss2 & Es & Es' & Hm & _)|(Hno & s & Es' & Hid & Hg & _)];
    split; try congruence; rewrite Es'.
  - destruct (entry_set_keeps st_atom_type ty a true s) as (Hi & Hgl & _).
    revert Hu. rewrite Es, !filter_app, !fmap_app, !filter_cons, Hgl. by case_decide; cbn; rewrite ?Hi.
  - rewrite Es in Hp. apply Forall_app in Hp as [Hp1 Hp2]. apply Forall_app. split; [done|].
    apply Forall_cons in Hp2 as [Hs Hp2]. apply List.Forall_cons; [|done].
    destruct (entry_set_keeps st_atom_type ty a true s) as (Hi & Hgl & _). by rewrite Hi, Hgl.
  - rewrite filter_cons_True by done. cbn. apply NoDup_cons. split; [|done].
    intros [y [Hy [Hgy Hin]%list_elem_of_filter]]%list_elem_of_fmap.
    rewrite Forall_forall in Hno. specialize (Hno y Hin). revert Hno. unfold set_matches.
    by rewrite <- Hy, Hid, String.eqb_refl, Hgy.
  - apply List.Forall_cons; [by rewrite Hg|done].
Qed.

Lemma add_scope_ne id : add_scope id <> id.
Proof.
  intros E. apply (f_equal String.length) in E.
  change (String.length (add_scope id)) with (S (S (String.length id))) in E. lia.
Qed.

Lemma strip_scope_ne id : oqml_is_global_ident id = true -> strip_scope id <> id.
Proof.
  destruct id as [|c1 [|c2 id]]; [done| |].
  - unfold oqml_is_global_ident; cbn. by destruct (ascii_dec ":" c1).
  - intros _ E. apply (f_equal String.length) in E. cbn in E. lia.
Qed.

Lemma other_spelling_ne id : other_spelling id <> id.
Proof.
  unfold other_spelling. destruct (oqml_is_global_ident id) eqn:E; [by apply strip_scope_ne|].
  apply add_scope_ne.
Qed.

(** The two settings of a global symbol. *)
Lemma set_both_read e id ty a e' :
  consistent e ->
  then_ (set_symbol e (other_spelling id) ty a true false) (fun e => set_symbol e id ty a true false)
    = Some (oqmlSuccess, e') ->
  (forall s, env_get e id = Some s -> global s = true) ->
  (exists s, env_get e' id = Some s /\ type s = default st_atom_type ty /\ at_ s = a)
  /\ forall id', id' <> id -> id' <> other_spelling id -> env_get e' id' = env_get e id'.
Proof.
  intros Hc. unfold then_. cbn [set_symbol symbols_env env_symbols mbind option_bind].
  destruct (env_set st_atom_type e (other_spelling id) ty a true false) as [[|msg] e1] eqn:E1; [|done].
  intros [= E2] Hvis.
  split.
  - apply (env_set_read e1 id ty a true e'); [by eapply env_set_consistent|done|].
    intros _ s. rewrite (env_set_others _ _ _ _ _ _ id E1); [auto|].
    intros Heq. by apply (other_spelling_ne id).
  - intros id' H1 H2. by rewrite (env_set_others _ _ _ _ _ _ id' E2), (env_set_others _ _ _ _ _ _ id' E1).
Qed.

Lemma assign_read e id a e' :
  consistent e -> assign_ident atom_type e id a = Some (oqmlSuccess, e') ->
  (exists s, env_get e' id = Some s /\ type s = default st_atom_type (atom_type <$> a) /\ at_ s = a)
  /\ forall id', id' <> id -> id' <> other_spelling id -> env_get e' id' = env_get e id'.
Proof.
  intros Hc. unfold assign_ident. cbn [get_symbol symbols_env env_symbols]. unfold env_getSymbol.
  cbn [mbind option_bind]. 
  match goal with |- context [setSymbol _ _ _ _ ?g _] => set (glob := g) end.
  assert (glob = true -> oqml_is_global_ident id = true \/ forall s, env_get e id = Some s -> global s = true) as Hglob.
  { unfold glob. destruct (env_get e id) as [s|]; cbn; [|by right]. intros [Hg|?]%orb_true_iff; [|by left].
    right. by intros s0 [= <-]. }
  assert (set_symbol e id (atom_type <$> a) a false false = Some (oqmlSuccess, e') ->
    (exists s, env_get e' id = Some s /\ type s = default st_atom_type (atom_type <$> a) /\ at_ s = a)
    /\ forall id', id' <> id -> id' <> other_spelling id -> env_get e' id' = env_get e id') as Hlocal.
  { cbn. intros [= E]. split; [by eapply env_set_read|]. intros id' ? _. by eapply env_set_others. }
  unfold setSymbol, both. destruct glob; [|exact Hlocal].
  destruct (oqml_is_global_ident id) eqn:Epre.
  - intros E. apply (set_both_read e id _ a e'); [done|unfold other_spelling; by rewrite Epre|].
    intros s Hs. destruct (global s) eqn:Hg; [done|]. exfalso.
    unfold env_get in Hs. apply find_sym_split in Hs as (ss1 & ss2 & Es & _ & Hv).
    apply visible_ident in Hv. pose proof (cons_prefix _ Hc) as Hp. rewrite Es in Hp.
    apply Forall_app in Hp as [_ [Hp _]%Forall_cons]. rewrite Hv, Epre in Hp. by specialize (Hp Hg).
  - destruct (negb _); [|exact Hlocal].
    intros E. apply (set_both_read e id _ a e'); [done|unfold other_spelling; by rewrite Epre|].
    by destruct (Hglob eq_refl).
Qed.

Lemma get_repr c e id r :
  repr c e -> getSymbol c id = Some r -> (fun s => (type s, at_ s, global s)) <$> env_get e id = r.
Proof. intros Hr. rewrite (get_refines _ _ _ Hr). unfold env_getSymbol. by intros [= ->]. Qed.

(** An assignment in a function, seen on the table. *)
Lemma assign_local e id a e' :
  consistent e -> (0 < depth e)%nat -> oqml_is_global_ident id = false ->
  assign_ident atom_type e id a = Some (oqmlSuccess, e') ->
  env_get e' (add_scope id) = env_get e (add_scope id)
  /\ (forall s, env_get e id = Some s -> exists s', env_get e' id = Some s' /\ global s' = global s).
Proof.
  intros Hc Hd Hpre. unfold assign_ident. cbn [get_symbol symbols_env env_symbols]. unfold env_getSymbol.
  cbn [mbind option_bind]. match goal with |- context [setSymbol _ _ _ _ ?g _] => set (glob := g) end.
  unfold setSymbol, both. cbn [has_local_table symbols_env env_symbols]. rewrite Hpre.
  assert ((0 <? cnt_of e) = true) as -> by (apply Z.ltb_lt; unfold cnt_of; lia).
  assert (forall b : bool, (if b then
      if negb true then
        then_ (set_symbol e (add_scope id) (atom_type <$> a) a true false)
          (fun e => set_symbol e id (atom_type <$> a) a true false)
      else set_symbol e id (atom_type <$> a) a false false
    else set_symbol e id (atom_type <$> a) a false false)
    = set_symbol e id (atom_type <$> a) a false false) as -> by (by intros []).
  cbn [set_symbol symbols_env env_symbols]. intros [= E]. split.
  - apply (env_set_others _ _ _ _ _ _ _ E), add_scope_ne.
  - intros s Hs. destruct (env_set_cases _ _ _ _ _ _ E) as (Hd' & Ha' & Hcases).
    assert (forall s0, visible (cnt_of e) (args e) id s0 = set_matches (cnt_of e) id false s0) as Ev.
    { intros s0. rewrite (cons_args _ Hc). unfold set_matches, visible.
      by destruct (String.eqb _ _), (global s0), (level s0 =? cnt_of e). }
    unfold env_get in *. assert (cnt_of e' = cnt_of e) as -> by (unfold cnt_of; by rewrite Hd').
    rewrite Ha', (find_sym_ext _ _ _ Ev). rewrite (find_sym_ext _ _ _ Ev) in Hs.
    destruct Hcases as [(ss1 & s1 & ss2 & Es & Es' & Hp & Hn)|(Hn & _)].
    + rewrite Es, (find_first _ _ _ _ Hn Hp) in Hs. injection Hs as ->.
      destruct (entry_set_keeps st_atom_type (atom_type <$> a) a true s) as (Hi & Hg & Hl & _).
      exists (entry_set st_atom_type (atom_type <$> a) a true s). split; [|done]. rewrite Es'.
      apply find_first; [done|]. revert Hp. unfold set_matches. by rewrite Hi, Hg, Hl.
    + destruct (find_sym_split _ _ _ Hs) as (ss1 & ss2 & Es & _ & Hp).
      rewrite Es in Hn. apply Forall_app in Hn as [_ [Hn _]%Forall_cons]. congruence.
Qed.

Lemma cmd_refines x c e : repr c e -> refines (run atom_type x c) (run atom_type x e).
Proof. apply (proj1 (run_refines_both st_atom_type atom_type)). Qed.

(** ** Properties *)

(** C13: the symbol table, its links, its local tables and its heap of entries,
    implements the list of symbols: every command on a context that represents a
    list has the status and leaves a context that represents the list of the same
    command on lists, and it crashes (entry used after its deletion, failed
    assertion) exactly when the command on lists is undefined. *)
Theorem symbol_table_refines x c e :
  repr c e -> refines (run atom_type x c) (run atom_type x e).
Proof. apply cmd_refines. Qed.

(** C35: programs of assignments, loops and calls (with distinct parameters, none
    of which is assigned by an argument), errors included, never crash: they
    return, in the same frame, with a table that is the old one with new values
    under the new symbols. *)
Theorem safe_programs x c e :
  repr c e -> safe x ->
  exists st c' e', run atom_type x c = Some (st, c') /\ repr c' e' /\ extends e e' (assigns x).
Proof.
  intros Hr Hx. destruct (proj1 run_safe x Hx e (repr_levels _ _ Hr)) as (st & e' & E & X).
  pose proof (cmd_refines x c e Hr) as H. rewrite E in H.
  destruct (run _ _ c) as [[st' c']|]; [|done]. destruct H as [-> H]. eauto 10.
Qed.

(** The system variables of a session keep their values: no such program
    changes a symbol that was set as a system one. *)
Theorem system_symbols_kept x c e st c' :
  repr c e -> safe x -> run atom_type x c = Some (st, c') ->
  exists e', repr c' e' /\ forall s, s ∈ syms e -> system s = true -> s ∈ syms e'.
Proof.
  intros Hr Hx E. destruct (proj1 run_safe x Hx e (repr_levels _ _ Hr)) as (st' & e' & E' & X).
  pose proof (cmd_refines x c e Hr) as H. rewrite E, E' in H. destruct H as [_ H].
  exists e'. split; [done|]. intros s Hs Hsys.
  destruct (ex_syms _ _ _ X) as (new & old & -> & O & _). apply elem_of_app. right.
  apply list_elem_of_lookup in Hs as [i Hi]. destruct (Forall2_lookup_l _ _ _ _ _ O Hi) as (s' & Hs' & Hsame).
  destruct Hsame as (_ & _ & _ & _ & Heq). rewrite <- (Heq Hsys). by eapply list_elem_of_lookup_2.
Qed.

(** Whatever the body of a function and its arguments do (references
    excepted), explicit pushes, pops and unsets included, a call that returns
    leaves the local symbols of its callers, of all levels, as they were. *)
Theorem call_gives_locals_back ps body c e st c' :
  repr c e -> run atom_type (Call ps body) c = Some (st, c') ->
  exists e', repr c' e' /\ length (locals c') = length (locals c) /\ arg_level c' = arg_level c
    /\ local_syms (syms e') = local_syms (syms e).
Proof.
  intros Hr E. pose proof (cmd_refines (Call ps body) c e Hr) as H.
  rewrite E in H. destruct (run _ _ e) as [[st' e']|] eqn:E'; [|done]. destruct H as [-> H].
  destruct (call_locals _ _ _ _ _ (repr_levels _ _ Hr) E') as (Hd & Ha & Hl).
  exists e'. split; [done|]. rewrite (repr_depth _ _ H), (repr_depth _ _ Hr), (repr_args _ _ H), (repr_args _ _ Hr).
  done.
Qed.

(** After an assignment the identifier reads as assigned, with the type of the
    value, and every identifier but it and its other spelling reads as before. *)
Theorem assign_reads_back c e id a c' :
  repr c e -> consistent e -> run atom_type (Assign id a) c = Some (oqmlSuccess, c') ->
  (exists g, getSymbol c' id = Some (Some (default st_atom_type (atom_type <$> a), a, g)))
  /\ forall id', id' <> id -> id' <> other_spelling id -> getSymbol c' id' = getSymbol c id'.
Proof.
  intros Hr Hc E. pose proof (cmd_refines (Assign id a) c e Hr) as H.
  rewrite E in H. destruct (run _ (Assign id a) e) as [[st e']|] eqn:E'; [|done].
  destruct H as [<- H]. destruct (assign_read e id a e' Hc E') as [(s & Hs & Ht & Ha) Ho].
  split.
  - exists (global s). rewrite (get_refines _ _ _ H). unfold env_getSymbol. rewrite Hs. cbn. congruence.
  - intros id' H1 H2. rewrite (get_refines _ _ _ H), (get_refines _ _ _ Hr). unfold env_getSymbol.
    by rewrite Ho.
Qed.

(** In a function, an assignment to an identifier without prefix leaves its
    prefixed spelling as it was, and writes the global symbol without prefix when
    this is what the identifier reads: the two spellings of the global differ
    afterwards, and the variable is not local. *)
Theorem function_assigns_global c e id a c' :
  repr c e -> consistent e -> 0 < local_cnt c -> oqml_is_global_ident id = false ->
  run atom_type (Assign id a) c = Some (oqmlSuccess, c') ->
  getSymbol c' (add_scope id) = getSymbol c (add_scope id)
  /\ forall t v, getSymbol c id = Some (Some (t, v, true)) ->
     exists t', getSymbol c' id = Some (Some (t', a, true)).
Proof.
  intros Hr Hc Hd Hpre E. pose proof (cmd_refines (Assign id a) c e Hr) as H.
  rewrite E in H. destruct (run _ (Assign id a) e) as [[st e']|] eqn:E'; [|done].
  destruct H as [<- H]. rewrite <- (repr_cnt _ _ Hr) in Hd. unfold cnt_of in Hd.
  destruct (assign_local e id a e' Hc ltac:(lia) Hpre E') as [Hsc Hg].
  destruct (assign_read e id a e' Hc E') as [(s & Hs & Ht & Ha) _].
  rewrite !(get_refines _ _ _ H), !(get_refines _ _ _ Hr). unfold env_getSymbol. rewrite Hsc. split; [done|].
  intros t v. destruct (env_get e id) as [s0|]; [|done]. cbn. intros [= <- <- Hg0].
  destruct (Hg s0 eq_refl) as (s' & Hs' & Hgs). exists (type s'). rewrite Hs'. cbn.
  assert (s' = s) as -> by congruence. by rewrite Ha, Hgs, Hg0.
Qed.

(** Leaving a function deletes the symbols of its frame and no other, exactly
    when those still in the table have distinct identifiers; otherwise the scan of
    the local table uses an entry it has deleted. *)
Theorem leaving_a_frame c e :
  repr c e -> 0 < local_cnt c ->
  (NoDup (ident <$> frame_syms (local_cnt c) (syms e)) ->
     exists c' e', popLocalTable c = Some (oqmlSuccess, c') /\ repr c' e'
       /\ syms e' = other_syms (local_cnt c) (syms e) /\ locals c' = tail (locals c))
  /\ (~ NoDup (ident <$> frame_syms (local_cnt c) (syms e)) -> popLocalTable c = None).
Proof.
  intros Hr Hd. pose proof (pop_frame_refines c e Hr) as H. rewrite <- (repr_cnt _ _ Hr) in *.
  unfold env_pop_frame, cnt_of in *. destruct (depth e) as [|d] eqn:Ed; [cbn in Hd; lia|].
  destruct (decide _) as [Hnd|Hnd]; (split; [intros Hnd'|intros Hnd']); try done.
  - destruct (popLocalTable c) as [[st c']|] eqn:E; [|done]. destruct H as [-> H].
    exists c'. eexists. split; [done|]. split; [exact H|]. split; [done|].
    unfold popLocalTable in E. destruct (locals c) as [|t ls]; [done|].
    destruct (pop_entries _ t) as [[st c1]|]; [|done]. cbn in E.
    destruct st; [|done]. by injection E as <-.
  - by destruct (popLocalTable c) as [[? ?]|].
Qed.

End Scope.

(** ** Examples

    Integers for atoms and their types. *)
Module Example.

#[local] Instance symbols : Symbols Z Z (oqmlContext Z Z) := oqmlContext_symbols 0.
Abbreviation session := (oqmlContext Z Z).

Definition exec (x : cmd Z) (c : session) : option (oqmlStatus * session) := run (fun _ => 1) x c.
Definition value (id : string) (r : option (oqmlStatus * session)) : option (option (Z * option Z * bool)) :=
  '(_, c) ← r; getSymbol c id.

Definition a := "a"%string.
Definition b := "b"%string.

(** [function f(a) { b := 1; for (i in list(1, 2)) b := 2; } a := 2; f(3);] *)
Definition program : cmd Z :=
  Seq (Assign a (Some 2))
      (Call (Param a Skip (Some 3) NoParam)
         (Seq (Assign b (Some 1)) (ForEach "i" [1; 2] (Assign b (Some 2))))).

Example program_runs : value a (exec program new_context) = Some (Some (1, Some 2, true)).
Proof. reflexivity. Qed.

(** [a := 2; function doit() { a := 1; } doit();] : the manual says that [a] is
    still 2; it is 1, and [::a] is 2. *)
Example function_assignment :
  let c := exec (Seq (Assign a (Some 2)) (Call NoParam (Assign a (Some 1)))) new_context in
  value a c = Some (Some (1, Some 1, true)) /\ value "::a" c = Some (Some (1, Some 2, true)).
Proof. by split. Qed.

(** [function f() { push a; push a; }] *)
Example double_push : exec (Call NoParam (Seq (Push a) (Push a))) new_context = None.
Proof. reflexivity. Qed.

(** [function f(a, b) { } f(b := 1, 2);] : the argument assigns [b] in the frame of
    the call, then the parameter [b] is pushed in it. *)
Example assigned_parameter :
  exec (Call (Param a (Assign b (Some 1)) (Some 1) (Param b Skip (Some 2) NoParam)) Skip) new_context
  = None.
Proof. reflexivity. Qed.

(** [a := 1; function f() { unset a; } f();] *)
Example unset_in_function :
  exec (Seq (Assign a (Some 1)) (Call NoParam (Unset a))) new_context = None.
Proof. reflexivity. Qed.

(** [::a := 1; function f() { unset ::a; } f();] : the symbol is gone and
    oql$variables still has it. *)
Example unset_leaks :
  let c := exec (Seq (Assign "::a" (Some 1)) (Call NoParam (Unset "::a"))) new_context in
  value "::a" c = Some None /\ (variables ∘ snd <$> c) = Some ["::a"%string].
Proof. by split. Qed.

(** [unset a] at the top level: oql$variables is empty and its count is one. *)
Example unset_count :
  (fun '(_, c) => (variables c, variables_cnt c)) <$>
    exec (Seq (Assign a (Some 1)) (Unset a)) new_context = Some ([], 1).
Proof. reflexivity. Qed.

(** In a function, [a := 1; ::a := 2] : the new global symbol hides the local one. *)
Example global_hides_local :
  value a (exec (Seq (Assign a (Some 1)) (Assign "::a" (Some 2))) (pushLocalTable new_context))
  = Some (Some (1, Some 2, true)).
Proof. reflexivity. Qed.

(** In a function, [a := 1; f(a := 2)] leaves [a] as it was. *)
Example argument_assignment :
  value a (exec (Seq (Assign a (Some 1)) (Call (Param "p" (Assign a (Some 2)) (Some 2) NoParam) Skip))
             (pushLocalTable new_context))
  = Some (Some (1, Some 1, false)).
Proof. reflexivity. Qed.

(** ** The properties at concrete sessions *)

Definition atom_type (v : Z) : Z := 1.
Abbreviation context_of r := (snd (default (oqmlSuccess, new_context) r)).
Abbreviation env_of r := (snd (default (oqmlSuccess, new_env) r)).
#[local] Instance env_syms : Symbols Z Z (env Z Z) := env_symbols 0.

Lemma context_of_status (r : option (oqmlStatus * session)) :
  fst <$> r = Some oqmlSuccess -> r = Some (oqmlSuccess, context_of r).
Proof. destruct r as [[st c]|]; cbn; [|done]. by intros [= ->]. Qed.

(** A session where [a] is 2 and oql$db is a system symbol, and the body of a
    function called from it. *)
Definition session0 : session :=
  context_of (setSymbol new_context "oql$db" (Some 7) (Some 5) true true).
Definition env0 : env Z Z := env_of (setSymbol new_env "oql$db" (Some 7) (Some 5) true true).
Definition session1 : session := context_of (exec (Assign a (Some 2)) session0).
Definition env1 : env Z Z := env_of (run atom_type (Assign a (Some 2)) env0).
Definition in_function : session := pushLocalTable session1.
Definition env_function : env Z Z := env_push_frame env1.

Lemma session0_repr : repr session0 env0.
Proof.
  exact (proj2 (setSymbol_refines 0 new_context new_env "oql$db" (Some 7) (Some 5) true true
                  new_context_repr)).
Qed.

Lemma session1_repr : repr session1 env1.
Proof. exact (proj2 (cmd_refines 0 atom_type (Assign a (Some 2)) session0 env0 session0_repr)). Qed.

Lemma in_function_repr : repr in_function env_function.
Proof. apply push_frame_refines, session1_repr. Qed.

Lemma in_function_consistent : consistent env_function.
Proof.
  split; [done| |].
  - apply (bool_decide_unpack _). by vm_compute.
  - cbn. repeat (apply List.Forall_cons; [done|]). constructor.
Qed.

Lemma program_safe : safe program.
Proof.
  split; [done|]. split; [done|]. split; [|split; [|done]].
  - cbn. repeat constructor. apply not_elem_of_nil.
  - cbn. repeat constructor. apply not_elem_of_nil.
Qed.

Lemma symbol_table_refines_witness :
  repr session0 env0 /\ refines (exec program session0) (run atom_type program env0).
Proof.
  split; [apply session0_repr|].
  exact (symbol_table_refines 0 atom_type program session0 env0 session0_repr).
Defined.

Lemma safe_programs_witness :
  safe program /\ exists st c' e', exec program session0 = Some (st, c') /\ repr c' e'
    /\ extends env0 e' (assigns program).
Proof.
  split; [apply program_safe|].
  exact (safe_programs 0 atom_type program session0 env0 session0_repr program_safe).
Defined.

Lemma system_symbols_kept_witness :
  exists e', repr (context_of (exec program session0)) e'
    /\ forall s, s ∈ syms env0 -> system s = true -> s ∈ syms e'.
Proof.
  apply (system_symbols_kept 0 atom_type program session0 env0 oqmlSuccess).
  - apply session0_repr.
  - apply program_safe.
  - by apply context_of_status; vm_compute.
Defined.

Lemma call_gives_locals_back_witness :
  exists e', repr (context_of (exec (Call NoParam (Seq (Push b) (Pop b))) in_function)) e'
    /\ local_syms (syms e') = local_syms (syms env_function).
Proof.
  destruct (call_gives_locals_back 0 atom_type NoParam (Seq (Push b) (Pop b)) in_function env_function
              oqmlSuccess (context_of (exec (Call NoParam (Seq (Push b) (Pop b))) in_function)))
    as (e' & ? & _ & _ & ?).
  - apply in_function_repr.
  - by apply context_of_status; vm_compute.
  - by exists e'.
Defined.

Lemma assign_reads_back_witness :
  exists g, getSymbol (context_of (exec (Assign b (Some 3)) in_function)) b = Some (Some (1, Some 3, g)).
Proof.
  apply (assign_reads_back 0 atom_type in_function env_function b (Some 3)).
  - apply in_function_repr.
  - apply in_function_consistent.
  - by apply context_of_status; vm_compute.
Defined.

Lemma function_assigns_global_witness :
  getSymbol (context_of (exec (Assign a (Some 3)) in_function)) "::a" = Some (Some (1, Some 2, true))
  /\ exists t, getSymbol (context_of (exec (Assign a (Some 3)) in_function)) a = Some (Some (t, Some 3, true)).
Proof.
  destruct (function_assigns_global 0 atom_type in_function env_function a (Some 3)
              (context_of (exec (Assign a (Some 3)) in_function))) as [H1 H2].
  - apply in_function_repr.
  - apply in_function_consistent.
  - reflexivity.
  - reflexivity.
  - by apply context_of_status; vm_compute.
  - split; [exact H1|]. apply (H2 1 (Some 2)). by vm_compute.
Defined.

Lemma leaving_a_frame_witness :
  let c := context_of (exec (Assign b (Some 3)) in_function) in
  exists c' e', popLocalTable c = Some (oqmlSuccess, c') /\ repr c' e' /\ locals c' = [].
Proof.
  destruct (leaving_a_frame (context_of (exec (Assign b (Some 3)) in_function))
              (env_of (run atom_type (Assign b (Some 3)) env_function))) as [H _].
  - exact (proj2 (cmd_refines 0 atom_type (Assign b (Some 3)) in_function env_function in_function_repr)).
  - reflexivity.
  - destruct H as (c' & e' & ? & ? & _ & ?); [|by exists c', e'].
    apply NoDup_singleton.
Defined.

End Example.
