(* ===== verification/OqlExpr.v ===== *)
(** * OQL: expressions

    The scalar expressions of OQL outside queries: the atoms of src/eyedb/oqlatom.cc
    and oqlinline.h, the operators of oqlop.cc, [binopCompile] and [binopEval] of
    oqlbase.cc and the comparisons ([oqmlComp], [oqmlAtomList::compare]).
    [compile] types an expression and folds its constant subexpressions, [eval]
    computes it. Collections, objects and ranges are not atoms here, and no
    identifier names a function. [None] is an undefined behaviour of C++: the
    overflow of a signed integer, a shift by more than the width, the quotient of
    the least integer by -1. *)

From Stdlib Require Import Ascii String SpecFloat.
From S2P Require Import Prelude Value.

#[local] Set Warnings "-register-all".

(** ** Atoms *)

Inductive oqmlATOMTYPE := UNKNOWN_TYPE | NIL | NULL_ | BOOL | INT | CHAR | DOUBLE | STRING.

#[export] Instance oqmlATOMTYPE_eq : EqDecision oqmlATOMTYPE.
Proof. solve_decision. Defined.

(** A string is the list of its bytes. *)
Inductive oqmlAtom :=
| oqmlAtom_nil | oqmlAtom_null | oqmlAtom_bool (b : bool) | oqmlAtom_int (i : Z)
| oqmlAtom_char (c : Z) | oqmlAtom_double (d : spec_float) | oqmlAtom_string (s : list Z).

Definition type (a : oqmlAtom) : oqmlATOMTYPE :=
  match a with
  | oqmlAtom_nil => NIL | oqmlAtom_null => NULL_ | oqmlAtom_bool _ => BOOL | oqmlAtom_int _ => INT
  | oqmlAtom_char _ => CHAR | oqmlAtom_double _ => DOUBLE | oqmlAtom_string _ => STRING
  end.

Definition bytes (s : string) : list Z := (fun c => Z.of_nat (nat_of_ascii c)) <$> list_ascii_of_string s.

(** [oqmlAtomType::getString] *)
Definition getString (t : oqmlATOMTYPE) : list Z :=
  bytes match t with
  | BOOL => "bool" | INT => "integer" | DOUBLE => "float" | CHAR => "char" | STRING => "string"
  | NULL_ => "NULL" | NIL => "nil" | UNKNOWN_TYPE => "<unknown>"
  end%string.

(** [double] *)
Definition double_of (z : Z) : spec_float := binary_normalize 53 1024 z 0 false.
Definition double_add := SFadd 53 1024.
Definition double_sub := SFsub 53 1024.
Definition double_mul := SFmul 53 1024.
Definition double_div := SFdiv 53 1024.
Definition double_is_zero (d : spec_float) : bool := match d with S754_zero _ => true | _ => false end.

(** ** Results

    [oqmlStatus]: success, or the message, whose arguments alone are kept. *)

Inductive oqmlStatus :=
| invalidBinop (left right : oqmlATOMTYPE)
| logical_error (t : option oqmlATOMTYPE)
| invalid_null (t : oqmlATOMTYPE)
| expected (t : oqmlATOMTYPE)
| invalid_comparison (left right : oqmlATOMTYPE)
| not_atomic (cnt : nat)
| uninitialized (name : string).

Inductive result (A : Type) := Ok (a : A) | Err (s : oqmlStatus).
Arguments Ok {A} a.
Arguments Err {A} s.

Abbreviation M A := (option (result A)).
Definition ret {A} (a : A) : M A := Some (Ok a).
Definition err {A} (s : oqmlStatus) : M A := Some (Err s).
Definition bind {A B} (f : A -> M B) (m : M A) : M B :=
  match m with Some (Ok a) => f a | Some (Err s) => Some (Err s) | None => None end.
(** A computation that can be undefined. *)
Definition defined {A} (o : option A) : M A := Ok <$> o.

Declare Scope oql_scope.
Delimit Scope oql_scope with oql.
Notation "x ← m ; k" := (bind (fun x => k) m) (at level 20, m at level 100, k at level 200) : oql_scope.
#[local] Open Scope oql_scope.

(** ** Operators *)

Inductive binop := Add | Sub | Mul | Div | Mod | AAnd | AOr | Xor | Shr | Shl.
Inductive compop := Equal | Diff | Inf | InfEq | Sup | SupEq.

(** oqmlBinopType *)
Definition oqmlDoubleOK (op : binop) : bool :=
  match op with Add | Sub | Mul | Div => true | _ => false end.
Definition oqmlConcatOK (op : binop) : bool := match op with Add => true | _ => false end.

Definition is_ (t t' : oqmlATOMTYPE) : bool :=
  match t, t' with
  | UNKNOWN_TYPE, UNKNOWN_TYPE | NIL, NIL | NULL_, NULL_ | BOOL, BOOL | INT, INT | CHAR, CHAR
  | DOUBLE, DOUBLE | STRING, STRING => true
  | _, _ => false
  end.

(** The type of an operation when both operands have one. *)
Definition binopCompile (op : binop) (left right : oqmlATOMTYPE) : M oqmlATOMTYPE :=
  if is_ UNKNOWN_TYPE left || is_ UNKNOWN_TYPE right then ret UNKNOWN_TYPE
  else if negb (oqmlDoubleOK op) && (is_ DOUBLE left || is_ DOUBLE right) then err (invalidBinop left right)
  else if negb (oqmlConcatOK op) && (is_ STRING left || is_ STRING right) then err (invalidBinop left right)
  else if is_ INT left && is_ DOUBLE right then ret right
  else if is_ DOUBLE left && (is_ INT right || is_ CHAR right) then ret left
  else if is_ DOUBLE right && (is_ INT left || is_ CHAR left) then ret right
  else if is_ INT left && is_ CHAR right then ret left
  else if is_ INT right && is_ CHAR left then ret right
  else if negb (is_ INT left) && negb (is_ CHAR left) && negb (is_ DOUBLE left) && negb (is_ STRING left)
  then err (invalidBinop left right)
  else ret left.

(** The operands after promotion: the first atom of each list. *)
Definition binopEval (op : binop) (al_left al_right : list oqmlAtom) : M (oqmlAtom * oqmlAtom) :=
  let aleft := default oqmlAtom_nil (head al_left) in
  let aright := default oqmlAtom_nil (head al_right) in
  let invalid := err (invalidBinop (type aleft) (type aright)) in
  if negb (oqmlDoubleOK op) && (is_ DOUBLE (type aleft) || is_ DOUBLE (type aright)) then invalid
  else if negb (oqmlConcatOK op) && (is_ STRING (type aleft) || is_ STRING (type aright)) then invalid
  else
    match aleft, aright with
    | oqmlAtom_int _, oqmlAtom_int _ | oqmlAtom_double _, oqmlAtom_double _
    | oqmlAtom_char _, oqmlAtom_char _ | oqmlAtom_string _, oqmlAtom_string _ => ret (aleft, aright)
    | oqmlAtom_int i, oqmlAtom_double _ => ret (oqmlAtom_double (double_of i), aright)
    | oqmlAtom_double _, oqmlAtom_int i => ret (aleft, oqmlAtom_double (double_of i))
    | oqmlAtom_double _, oqmlAtom_char c => ret (aleft, oqmlAtom_double (double_of c))
    | oqmlAtom_char c, oqmlAtom_double _ => ret (oqmlAtom_double (double_of c), aright)
    | oqmlAtom_int _, oqmlAtom_char c => ret (aleft, oqmlAtom_int c)
    | oqmlAtom_char c, oqmlAtom_int _ => ret (oqmlAtom_int c, aright)
    | _, _ => invalid
    end.

(** [check_right_nonzero] *)
Definition check_right_nonzero (a : oqmlAtom) : M unit :=
  match a with
  | oqmlAtom_int i => if i =? 0 then err (invalid_null INT) else ret tt
  | oqmlAtom_double d => if double_is_zero d then err (invalid_null DOUBLE) else ret tt
  | oqmlAtom_char c => if c =? 0 then err (invalid_null CHAR) else ret tt
  | _ => ret tt
  end.

(** The operators of C++ on integers of [w] bits. *)
Definition int_op (w : Z) (op : binop) (a b : Z) : option Z :=
  let exact z := if bool_decide (in_s w z) then Some z else None in
  match op with
  | Add => exact (a + b) | Sub => exact (a - b) | Mul => exact (a * b)
  | Div => if b =? 0 then None else exact (Z.quot a b)
  | Mod => if (b =? 0) || negb (bool_decide (in_s w (Z.quot a b))) then None else Some (Z.rem a b)
  | AAnd => Some (Z.land a b) | AOr => Some (Z.lor a b) | Xor => Some (Z.lxor a b)
  | Shr => if (0 <=? b) && (b <? w) then Some (Z.shiftr a b) else None
  | Shl => if (0 <=? b) && (b <? w) then Some (wrap_s w (Z.shiftl a b)) else None
  end.

Definition double_op (op : binop) (a b : spec_float) : option spec_float :=
  match op with
  | Add => Some (double_add a b) | Sub => Some (double_sub a b)
  | Mul => Some (double_mul a b) | Div => Some (double_div a b) | _ => None
  end.

(** The last part of the [eval]s of the operators: a [char] is an [int] in C++. *)
Definition binop_values (op : binop) (a b : oqmlAtom) : M oqmlAtom :=
  match a, b with
  | oqmlAtom_int i, oqmlAtom_int j => i ← defined (int_op 64 op i j); ret (oqmlAtom_int i)
  | oqmlAtom_char i, oqmlAtom_char j => i ← defined (int_op 32 op i j); ret (oqmlAtom_int i)
  | oqmlAtom_double d, oqmlAtom_double d' => d ← defined (double_op op d d'); ret (oqmlAtom_double d)
  | oqmlAtom_string s, oqmlAtom_string s' =>
      match op with Add => ret (oqmlAtom_string (s ++ s')) | _ => err (expected STRING) end
  | _, _ => err (expected (type a))
  end.
Definition binop_apply (op : binop) (a b : oqmlAtom) : M oqmlAtom :=
  match op with
  | Div | Mod => _ ← check_right_nonzero b; binop_values op a b
  | _ => binop_values op a b
  end.

(** [oqml_check_logical] *)
Definition oqml_check_logical (al : list oqmlAtom) : M bool :=
  match al with
  | [oqmlAtom_bool b] => ret b
  | [oqmlAtom_int i] => ret (negb (i =? 0))
  | [oqmlAtom_char c] => ret (negb (c =? 0))
  | [oqmlAtom_double d] => ret (negb (double_is_zero d))
  | [a] => err (logical_error (Some (type a)))
  | _ => err (logical_error None)
  end.

(** [oqml_check_type] *)
Definition oqml_check_type (t : oqmlATOMTYPE) : M unit :=
  match t with
  | UNKNOWN_TYPE | INT | CHAR | DOUBLE | BOOL => ret tt
  | _ => err (logical_error (Some t))
  end.

(** ** Comparisons *)

(** [__CMP__] on integers and on doubles. *)
Definition CMP (n o : Z) (op : compop) : bool :=
  match op with
  | Equal => n =? o | Diff => negb (n =? o) | Inf => n <? o | InfEq => n <=? o
  | Sup => o <? n | SupEq => o <=? n
  end.
Definition CMP_double (n o : spec_float) (op : compop) : bool :=
  match op with
  | Equal => SFeqb n o | Diff => negb (SFeqb n o) | Inf => SFltb n o | InfEq => SFleb n o
  | Sup => SFltb o n | SupEq => SFleb o n
  end.

(** The sign of [strcmp]. *)
Definition strcmp_sign (s s' : list Z) : Z := match strcmp s s' with Lt => -1 | Eq => 0 | Gt => 1 end.

Definition isEqualTo (x atom : oqmlAtom) : bool :=
  match x, atom with
  | oqmlAtom_nil, oqmlAtom_nil | oqmlAtom_null, oqmlAtom_null => true
  | oqmlAtom_bool b, oqmlAtom_bool b' => Bool.eqb b b'
  | oqmlAtom_int i, oqmlAtom_int j => i =? j
  | oqmlAtom_char c, oqmlAtom_char c' => c =? c'
  | oqmlAtom_double d, oqmlAtom_double d' => SFeqb d d'
  | oqmlAtom_string s, oqmlAtom_string s' => strcmp_sign s s' =? 0
  | _, _ => false
  end.

(** [.0001] *)
Definition epsilon : spec_float := S754_finite false 7378697629483821 (-66).

(** [oqmlAtom_double::compare] with the bytes of [nd]. *)
Definition double_compare (d nd : spec_float) (op : compop) : bool :=
  match op with
  | Equal =>
      let delta := double_sub nd d in
      let delta := if SFltb delta (S754_zero false) then SFopp delta else delta in
      SFltb delta epsilon
  | _ => CMP_double nd d op
  end.

(** [compare_atoms], for atoms of one type: the right one compares itself with the
    bytes of the left one. *)
Definition compare_atoms (aleft aright : oqmlAtom) (op : compop) : bool :=
  match op with
  | Equal => isEqualTo aleft aright
  | _ =>
      match aleft, aright with
      | oqmlAtom_bool b, oqmlAtom_bool b' => CMP (Z.b2z b') (Z.b2z b) op
      | oqmlAtom_int i, oqmlAtom_int j => CMP i j op
      | oqmlAtom_char c, oqmlAtom_char c' => CMP c c' op
      | oqmlAtom_double d, oqmlAtom_double d' => double_compare d' d op
      | oqmlAtom_string s, oqmlAtom_string s' => CMP (strcmp_sign s s') 0 op
      | _, _ => false
      end
  end.

Definition checkNull (aleft aright : oqmlAtom) (op : compop) : option bool :=
  let equal := match op with Equal => true | _ => false end in
  match aleft, aright with
  | oqmlAtom_null, oqmlAtom_null => Some equal
  | oqmlAtom_null, _ | _, oqmlAtom_null => Some (negb equal)
  | _, _ => None
  end.

Definition compare_double_int (a_int a_double : oqmlAtom) (op : compop) : option bool :=
  match a_int, a_double with
  | oqmlAtom_int i, oqmlAtom_double d => Some (double_compare d (double_of i) op)
  | _, _ => None
  end.

Definition swap (op : compop) : compop :=
  match op with SupEq => InfEq | Sup => Inf | InfEq => SupEq | Inf => Sup | _ => op end.

(** One turn of the loop of [oqmlAtomList::compare]: whether it goes on, and the
    operator for the next turn. *)
Definition compare_step (left_type right_type : oqmlATOMTYPE) (aleft aright : oqmlAtom) (op : compop) :
    M (bool * compop) :=
  if is_ NIL left_type && is_ NIL right_type
  then ret (match op with Equal | InfEq | SupEq => true | _ => false end, op)
  else if is_ NULL_ left_type || is_ NULL_ right_type
  then b ← defined (checkNull aleft aright op); ret (b, op)
  else if negb (is_ left_type right_type) then
    if is_ DOUBLE left_type && is_ INT right_type
    then b ← defined (compare_double_int aright aleft (swap op)); ret (b, swap op)
    else if is_ DOUBLE right_type && is_ INT left_type
    then b ← defined (compare_double_int aleft aright op); ret (b, op)
    else match op with
         | Equal => ret (false, op)
         | _ => err (invalid_comparison (type aleft) (type aright))
         end
  else ret (compare_atoms aleft aright op, op).

Fixpoint compare_loop (left_type right_type : oqmlATOMTYPE) (l al : list oqmlAtom) (op : compop) : M bool :=
  match l, al with
  | aleft :: l, aright :: al =>
      r ← compare_step left_type right_type aleft aright op;
      if (fst r : bool) then compare_loop left_type right_type l al (snd r) else ret false
  | [], [] => ret true
  | _, [] => ret (match op with Sup | SupEq => true | _ => false end)
  | [], _ => ret (match op with Sup | SupEq => false | _ => true end)
  end.

(** [oqmlAtomList::compare]; != is the negation of ==. *)
Definition compare_eq_or_order (l al : list oqmlAtom) (op : compop) : M bool :=
  match l, al with
  | [], [] => ret true
  | aleft :: _, aright :: _ =>
      if negb (length al =? length l)%nat && (match op with Equal => true | _ => false end) then ret false
      else compare_loop (type aleft) (type aright) l al op
  | _, _ => ret false
  end.
Definition compare (l al : list oqmlAtom) (op : compop) : M bool :=
  match op with
  | Diff => b ← compare_eq_or_order l al Equal; ret (negb b)
  | _ => compare_eq_or_order l al op
  end.

(** ** Expressions

    The nodes of an expression. A node keeps the type [compile] gives it and, once
    folded, the atoms of a constant operation. *)

Inductive oqmlNode :=
| oqmlString (s : list Z) | oqmlInt (i : Z) | oqmlChar (c : Z) | oqmlFloat (f : spec_float)
| oqmlNil | oqmlNull | oqmlTrue | oqmlFalse
| oqmlIdent (name : string) (eval_type : oqmlATOMTYPE)
| oqmlBinop (op : binop) (qleft qright : oqmlNode) (eval_type : oqmlATOMTYPE) (cst_list : option (list oqmlAtom))
| oqmlComp (op : compop) (qleft qright : oqmlNode) (eval_type : oqmlATOMTYPE) (cst_list : option (list oqmlAtom))
| oqmlLOr (qleft qright : oqmlNode) | oqmlLAnd (qleft qright : oqmlNode) | oqmlLNot (ql : oqmlNode)
| oqmlTilde (ql : oqmlNode) | oqmlComma (qleft qright : oqmlNode) | oqmlTypeOf (ql : oqmlNode).

(** The symbols: the type and the atom of an identifier ([oqmlContext::getSymbol]). *)
Abbreviation symbols := (string -> option (oqmlATOMTYPE * option oqmlAtom)).

Fixpoint isConstant (n : oqmlNode) : bool :=
  match n with
  | oqmlIdent _ _ | oqmlLOr _ _ | oqmlLAnd _ _ | oqmlComma _ _ => false
  | oqmlBinop _ l r _ _ | oqmlComp _ l r _ _ => isConstant l && isConstant r
  | oqmlLNot ql | oqmlTilde ql | oqmlTypeOf ql => isConstant ql
  | _ => true
  end.

Fixpoint evalType (n : oqmlNode) : oqmlATOMTYPE :=
  match n with
  | oqmlString _ | oqmlTypeOf _ => STRING
  | oqmlInt _ => INT
  | oqmlChar _ => CHAR
  | oqmlFloat _ => DOUBLE
  | oqmlNil | oqmlTilde _ => UNKNOWN_TYPE
  | oqmlNull => NULL_
  | oqmlTrue | oqmlFalse | oqmlLOr _ _ | oqmlLAnd _ _ | oqmlLNot _ => BOOL
  | oqmlIdent _ t | oqmlBinop _ _ _ t _ | oqmlComp _ _ _ t _ => t
  | oqmlComma _ r => evalType r
  end.

(** The [eval] of each node, from the results of its operands. *)
Definition eval_ident (ctx : symbols) (name : string) : M (list oqmlAtom) :=
  match ctx name with
  | Some (_, Some at_) => ret [at_]
  | Some (_, None) => ret []
  | None => err (uninitialized name)
  end.
Definition eval_binop (op : binop) (al_left al_right : list oqmlAtom) : M (list oqmlAtom) :=
  p ← binopEval op al_left al_right;
  a ← binop_apply op (fst p) (snd p);
  ret [a].
Definition eval_tilde (al : list oqmlAtom) : M (list oqmlAtom) :=
  match al with
  | [oqmlAtom_int i] => ret [oqmlAtom_int (Z.lnot i)]
  | [oqmlAtom_char c] => ret [oqmlAtom_int (Z.lnot c)]
  | [a] => err (expected (type a))
  | _ => err (not_atomic (length al))
  end.
Definition eval_typeof (al : list oqmlAtom) : list oqmlAtom :=
  [oqmlAtom_string match al with [] => bytes "nil" | a :: _ => getString (type a) end].

Fixpoint eval (ctx : symbols) (n : oqmlNode) : M (list oqmlAtom) :=
  match n with
  | oqmlString s => ret [oqmlAtom_string s]
  | oqmlInt i => ret [oqmlAtom_int i]
  | oqmlChar c => ret [oqmlAtom_char c]
  | oqmlFloat f => ret [oqmlAtom_double f]
  | oqmlNil => ret []
  | oqmlNull => ret [oqmlAtom_null]
  | oqmlTrue => ret [oqmlAtom_bool true]
  | oqmlFalse => ret [oqmlAtom_bool false]
  | oqmlIdent name _ => eval_ident ctx name
  | oqmlBinop _ _ _ _ (Some cst_list) | oqmlComp _ _ _ _ (Some cst_list) => ret cst_list
  | oqmlBinop op l r _ None =>
      al_left ← eval ctx l; al_right ← eval ctx r; eval_binop op al_left al_right
  | oqmlComp op l r _ None =>
      al_left ← eval ctx l; al_right ← eval ctx r;
      b ← compare al_left al_right op; ret [oqmlAtom_bool b]
  | oqmlLOr l r =>
      al_left ← eval ctx l; b ← oqml_check_logical al_left;
      if (b : bool) then ret [oqmlAtom_bool true]
      else al_right ← eval ctx r; b ← oqml_check_logical al_right; ret [oqmlAtom_bool b]
  | oqmlLAnd l r =>
      al_left ← eval ctx l; b ← oqml_check_logical al_left;
      if negb b then ret [oqmlAtom_bool false]
      else al_right ← eval ctx r; b ← oqml_check_logical al_right; ret [oqmlAtom_bool b]
  | oqmlLNot ql => al ← eval ctx ql; b ← oqml_check_logical al; ret [oqmlAtom_bool (negb b)]
  | oqmlTilde ql => al ← eval ctx ql; eval_tilde al
  | oqmlComma l r => _ ← eval ctx l; eval ctx r
  | oqmlTypeOf ql => al ← eval ctx ql; ret (eval_typeof al)
  end.

(** The checks of [compCompile], outside a query. *)
Definition compCompile (op : compop) (left right : oqmlATOMTYPE) : M oqmlATOMTYPE :=
  let cmp := is_ left right || is_ DOUBLE left && is_ INT right || is_ INT left && is_ DOUBLE right in
  if negb (is_ UNKNOWN_TYPE left) && negb (is_ UNKNOWN_TYPE right) && negb cmp
  then match op with Equal | Diff => ret BOOL | _ => err (invalid_comparison left right) end
  else ret BOOL.

(** An operation whose operands are constant is evaluated once and for all. *)
Definition fold_binop (ctx : symbols) (n : oqmlNode) : M oqmlNode :=
  match n with
  | oqmlBinop op l r t None =>
      if isConstant n then al ← eval ctx n; ret (oqmlBinop op l r t (Some al)) else ret n
  | oqmlComp op l r t _ =>
      if isConstant n then al ← eval ctx n; ret (oqmlComp op l r t (Some al)) else ret n
  | _ => ret n
  end.

Fixpoint compile (ctx : symbols) (n : oqmlNode) : M oqmlNode :=
  match n with
  | oqmlIdent name t => ret (oqmlIdent name match ctx name with Some (t, _) => t | None => UNKNOWN_TYPE end)
  | oqmlBinop op l r _ cst =>
      l ← compile ctx l; r ← compile ctx r;
      t ← binopCompile op (evalType l) (evalType r);
      fold_binop ctx (oqmlBinop op l r t cst)
  | oqmlComp op l r _ cst =>
      l ← compile ctx l; r ← compile ctx r;
      t ← compCompile op (evalType l) (evalType r);
      fold_binop ctx (oqmlComp op l r t cst)
  | oqmlLOr l r =>
      l ← compile ctx l; _ ← oqml_check_type (evalType l);
      r ← compile ctx r; _ ← oqml_check_type (evalType r); ret (oqmlLOr l r)
  | oqmlLAnd l r =>
      l ← compile ctx l; _ ← oqml_check_type (evalType l);
      r ← compile ctx r; _ ← oqml_check_type (evalType r); ret (oqmlLAnd l r)
  | oqmlLNot ql => ql ← compile ctx ql; _ ← oqml_check_type (evalType ql); ret (oqmlLNot ql)
  | oqmlTilde ql => ql ← compile ctx ql; ret (oqmlTilde ql)
  | oqmlComma l r => l ← compile ctx l; r ← compile ctx r; ret (oqmlComma l r)
  | oqmlTypeOf ql => ql ← compile ctx ql; ret (oqmlTypeOf ql)
  | n => ret n
  end.

#[local] Arguments fold_binop : simpl never.

(** ** The monad *)

Lemma bind_ok {A B} (f : A -> M B) (m : M A) b : bind f m = Some (Ok b) -> exists a, m = Some (Ok a) /\ f a = Some (Ok b).
Proof. destruct m as [[a|s]|]; cbn; try done. by exists a. Qed.

Lemma defined_ok {A} (o : option A) a : defined o = Some (Ok a) -> o = Some a.
Proof. destruct o; cbn; congruence. Qed.

Ltac monad :=
  repeat match goal with
  | H : bind _ _ = Some (Ok _) |- _ =>
      let a := fresh "r" in let E := fresh "E" in apply bind_ok in H as (a & E & H); cbn beta in H
  | H : defined _ = Some (Ok _) |- _ => apply defined_ok in H
  | H : ret _ = Some (Ok _) |- _ => injection H as H; try subst
  | H : err _ = Some (Ok _) |- _ => discriminate H
  end.

(** ** Folding *)

(** No operation is folded yet. *)
Fixpoint fresh (n : oqmlNode) : bool :=
  match n with
  | oqmlBinop _ l r _ c | oqmlComp _ l r _ c => fresh l && fresh r && bool_decide (c = None)
  | oqmlLOr l r | oqmlLAnd l r | oqmlComma l r => fresh l && fresh r
  | oqmlLNot ql | oqmlTilde ql | oqmlTypeOf ql => fresh ql
  | _ => true
  end.

Ltac split_bools :=
  repeat match goal with
  | H : Is_true (_ && _) |- _ => apply andb_True in H; destruct H
  | H : Is_true (bool_decide _) |- _ => apply bool_decide_unpack in H
  end.

Lemma eval_ext ctx ctx' n : (forall name, ctx name = ctx' name) -> eval ctx n = eval ctx' n.
Proof.
  intros H. induction n; cbn; rewrite ?IHn, ?IHn1, ?IHn2; try done. unfold eval_ident. by rewrite H.
Qed.

Lemma eval_constant ctx ctx' n : isConstant n -> eval ctx n = eval ctx' n.
Proof.
  induction n as [| | | | | | | |name t|op l IHl r IHr t c|op l IHl r IHr t c|l IHl r IHr|l IHl r IHr|ql IH|ql IH|l IHl r IHr|ql IH];
    cbn; intros Hc; split_bools; try done; try (by rewrite IH); destruct c; try done;
    by rewrite IHl, IHr.
Qed.

Lemma fold_binop_same ctx n n' :
  fold_binop ctx n = Some (Ok n') ->
  isConstant n' = isConstant n /\ evalType n' = evalType n.
Proof.
  unfold fold_binop. destruct n; intros; monad; try done; destruct cst_list; cbn in *; monad; try done;
    destruct (isConstant n1 && isConstant n2) eqn:E'; monad; cbn; done.
Qed.

Ltac compiled :=
  repeat match goal with
  | IH : forall n', compile ?ctx ?n = Some (Ok n') -> _, E : compile ?ctx ?n = Some (Ok _) |- _ =>
      specialize (IH _ E)
  end.

Lemma compile_constant ctx n : forall n', compile ctx n = Some (Ok n') -> isConstant n' = isConstant n.
Proof.
  induction n; cbn; intros n' E; monad; compiled; try done; cbn.
  - apply fold_binop_same in E as [-> _]. cbn. by rewrite IHn1, IHn2.
  - apply fold_binop_same in E as [-> _]. cbn. by rewrite IHn1, IHn2.
Qed.

Lemma fold_binop_eval ctx n n' ctx' :
  fold_binop ctx n = Some (Ok n') -> eval ctx' n' = eval ctx' n.
Proof.
  unfold fold_binop. destruct n; intros E; monad; try done; destruct cst_list; monad; try done;
    destruct (isConstant _) eqn:Ec in E; monad; try done;
    rewrite (eval_constant ctx' ctx (_ _ _ _ _ None)) by (by apply Is_true_true);
    by rewrite E0.
Qed.

(** C12: the expression that [compile] folds computes what the expression does,
    whatever the symbols are worth when it is compiled and when it is run. *)
Theorem constant_folding ctx ctx' n n' :
  fresh n -> compile ctx n = Some (Ok n') -> eval ctx' n' = eval ctx' n.
Proof.
  revert n'.
  induction n; cbn; intros n' Hf E; monad; split_bools; try done; cbn;
    repeat match goal with
    | IH : forall n', _ -> compile _ ?n = Some (Ok n') -> _, E : compile _ ?n = Some (Ok _) |- _ =>
        specialize (IH _ ltac:(done) E)
    end; try (by rewrite IHn); try (by rewrite IHn1, IHn2);
    subst cst_list; rewrite (fold_binop_eval _ _ _ ctx' E); cbn; by rewrite IHn1, IHn2.
Qed.

(** ** Types *)

(** An atom of the static type [t]: the operators make an integer of two characters. *)
Definition fits (t : oqmlATOMTYPE) (a : oqmlAtom) : Prop :=
  t = UNKNOWN_TYPE \/ t = type a \/ t = CHAR /\ type a = INT.

(** At most one atom, of the type. *)
Definition fits_list (t : oqmlATOMTYPE) (al : list oqmlAtom) : Prop :=
  match al with [] => True | [a] => fits t a | _ => False end.

(** The type of each symbol is that of its atom. *)
Definition typed (ctx : symbols) : Prop := forall name t a, ctx name = Some (t, Some a) -> t = type a.
Definition same_types (ctx ctx' : symbols) : Prop := forall name, fst <$> ctx name = fst <$> ctx' name.
Lemma same_types_refl ctx : same_types ctx ctx.
Proof. done. Qed.
#[local] Hint Resolve same_types_refl : core.

(** The type of an operation, from the types of its operands. *)
Definition promote (op : binop) (left right : oqmlATOMTYPE) : option oqmlATOMTYPE :=
  match left, right with
  | INT, INT | CHAR, CHAR | INT, CHAR | CHAR, INT => Some INT
  | DOUBLE, (INT | CHAR | DOUBLE) | (INT | CHAR), DOUBLE => if oqmlDoubleOK op then Some DOUBLE else None
  | STRING, STRING => if oqmlConcatOK op then Some STRING else None
  | _, _ => None
  end.

Lemma binop_apply_values op a b c : binop_apply op a b = Some (Ok c) -> binop_values op a b = Some (Ok c).
Proof. by destruct op; cbn [binop_apply]; intros; monad. Qed.

Lemma binop_apply_type op a b c : binop_apply op a b = Some (Ok c) -> promote op (type a) (type b) = Some (type c).
Proof.
  intros H%binop_apply_values. unfold binop_values in H. destruct a, b; cbn in *; monad; try done.
  all: destruct op; cbn in *; monad; done.
Qed.

Lemma binopEval_promote op al_left al_right p c :
  binopEval op al_left al_right = Some (Ok p) -> binop_apply op (fst p) (snd p) = Some (Ok c) ->
  exists a b, head al_left = Some a /\ head al_right = Some b /\ promote op (type a) (type b) = Some (type c).
Proof.
  unfold binopEval. intros E E'%binop_apply_type.
  destruct al_left as [|a al], al_right as [|b ar]; cbn in *.
  - by destruct op.
  - by destruct op, b.
  - by destruct op, a.
  - exists a, b. split; [done|]. split; [done|].
    repeat case_match; monad; done || (by destruct op; simplify_eq/=).
Qed.

Lemma promote_fits op tl tr t a b u :
  binopCompile op tl tr = Some (Ok t) -> fits tl a -> fits tr b -> promote op (type a) (type b) = Some u ->
  t = UNKNOWN_TYPE \/ t = u \/ t = CHAR /\ u = INT.
Proof.
  unfold fits. intros E Hl Hr P. revert E Hl Hr P.
  generalize (type a), (type b). intros ta tb E Hl Hr P.
  destruct Hl as [Hl|[Hl|[Hl Hl']]], Hr as [Hr|[Hr|[Hr Hr']]]; subst; destruct op;
    try destruct ta; try destruct tb; vm_compute in E, P; simplify_eq; auto.
Qed.

Lemma fold_binop_cases ctx n n' :
  fold_binop ctx n = Some (Ok n') -> n' = n \/ exists al, eval ctx n = Some (Ok al) /\ evalType n' = evalType n
    /\ forall ctx', eval ctx' n' = Some (Ok al).
Proof.
  unfold fold_binop. destruct n; intros E; monad; auto; destruct cst_list; monad; auto;
    destruct (isConstant _); monad; auto; right; by exists r.
Qed.

(** One lemma for the nodes whose result is a boolean. *)
Lemma fits_bool b : fits_list BOOL [oqmlAtom_bool b].
Proof. by right; left. Qed.
#[local] Hint Resolve fits_bool : core.

Lemma eval_binop_fits op tl tr t al ar al' :
  binopCompile op tl tr = Some (Ok t) -> fits_list tl al -> fits_list tr ar ->
  eval_binop op al ar = Some (Ok al') -> fits_list t al'.
Proof.
  intros Et Hl Hr E. unfold eval_binop in E. monad. cbn.
  destruct (binopEval_promote _ _ _ _ _ E0 E1) as (a & b & Ea & Eb & P).
  destruct al as [|? [|]], ar as [|? [|]]; try done. simplify_eq/=. by eapply promote_fits.
Qed.

Lemma compCompile_bool op tl tr t : compCompile op tl tr = Some (Ok t) -> t = BOOL.
Proof. unfold compCompile. intros. repeat case_match; by monad. Qed.

(** C20: the value of a compiled expression has the type that [compile] has given
    to it, as long as the symbols have the types they had: a character may be
    computed as an integer, and an unknown type says nothing. *)
Theorem eval_type_sound ctx ctx' n n' al :
  fresh n -> typed ctx -> typed ctx' -> same_types ctx ctx' ->
  compile ctx n = Some (Ok n') -> eval ctx' n' = Some (Ok al) -> fits_list (evalType n') al.
Proof.
  intros Hf Hc Hc' Hs E. revert ctx' al Hc' Hs. revert n' E.
  induction n; intros n' E ctx' al Hc' Hs Ev; cbn in *; monad; split_bools; cbn in *; monad;
    auto; try (by left); try (by right; left).
  - unfold eval_ident in Ev. specialize (Hs name). repeat case_match; monad; simplify_eq/=; auto; try (by left).
    right; left. by apply (Hc' name).
  - subst cst_list. apply fold_binop_cases in E as [->|(al' & E' & -> & E)].
    + cbn in Ev. monad. cbn. eapply eval_binop_fits; [eassumption| | |eassumption]; eauto.
    + rewrite E in Ev. simplify_eq. cbn in E'. monad. eapply eval_binop_fits; [eassumption| | |eassumption]; eauto.
  - subst cst_list. rewrite (compCompile_bool _ _ _ _ E2) in E.
    apply fold_binop_cases in E as [->|(al' & E' & -> & E)].
    + cbn in Ev. by monad.
    + rewrite E in Ev. simplify_eq. cbn in E'. by monad.
  - destruct r4; cbn in Ev; by monad.
  - destruct r4; cbn in Ev; by monad.
  - unfold eval_tilde in Ev. destruct r0 as [|[] [|]]; monad; by left.
  - eapply IHn2; eauto.
Qed.

(** ** Numeric expressions *)

Definition numeric (t : oqmlATOMTYPE) : bool := match t with INT | CHAR | DOUBLE => true | _ => false end.

(** Literals, symbols with a numeric value, and operations. *)
Fixpoint numeric_expr (ctx : symbols) (n : oqmlNode) : bool :=
  match n with
  | oqmlInt _ | oqmlChar _ | oqmlFloat _ => true
  | oqmlIdent name _ => match ctx name with Some (_, Some a) => numeric (type a) | _ => false end
  | oqmlBinop _ l r _ c => numeric_expr ctx l && numeric_expr ctx r && bool_decide (c = None)
  | _ => false
  end.

(** A numeric value, or the error of a null divisor. *)
Definition numeric_result (m : M (list oqmlAtom)) : Prop :=
  match m with
  | Some (Ok al) => exists a, al = [a] /\ numeric (type a)
  | Some (Err (invalid_null t)) => numeric t
  | Some (Err _) => False
  | None => True
  end.

Lemma binop_values_numeric op a b :
  numeric (type a) -> type b = type a -> (type a = DOUBLE -> oqmlDoubleOK op) ->
  numeric_result (a ← binop_values op a b; ret [a]).
Proof.
  intros Ha Hb Hd. destruct a, b; try done; unfold binop_values, defined.
  - destruct (int_op 64 op i i0); cbn; [by eexists|done].
  - destruct (int_op 32 op c c0); cbn; [by eexists|done].
  - destruct (double_op op d d0); cbn; [by eexists|done].
Qed.

Lemma binop_apply_numeric op a b :
  numeric (type a) -> type b = type a -> (type a = DOUBLE -> oqmlDoubleOK op) ->
  numeric_result (a ← binop_apply op a b; ret [a]).
Proof.
  intros Ha Hb Hd. pose proof (binop_values_numeric op a b Ha Hb Hd) as H.
  assert (numeric_result (a0 ← (_ ← check_right_nonzero b; binop_values op a b); ret [a0])) as H'.
  { unfold check_right_nonzero. rewrite <- Hb in Ha. destruct b; try done; case_match; done. }
  by destruct op.
Qed.

(** The types that evaluate to operands of a common numeric type. *)
Lemma binopEval_numeric op tl tr t a b :
  binopCompile op tl tr = Some (Ok t) -> fits tl a -> fits tr b -> numeric tl -> numeric tr ->
  numeric t /\ exists p, binopEval op [a] [b] = Some (Ok p) /\ numeric (type (fst p))
    /\ type (snd p) = type (fst p) /\ (type (fst p) = DOUBLE -> oqmlDoubleOK op).
Proof.
  unfold fits. intros E Hl Hr Nl Nr.
  destruct Hl as [Hl|[Hl|[Hl Hl']]], Hr as [Hr|[Hr|[Hr Hr']]]; subst; try done;
    destruct a, b, op; try done; vm_compute in E; simplify_eq; (split; [done|]); eexists; done.
Qed.

Lemma numeric_expr_fresh ctx n : numeric_expr ctx n -> fresh n.
Proof.
  induction n; cbn; intros; split_bools; try done. subst. rewrite !andb_True. auto.
Qed.

Lemma numeric_result_bind m (f : list oqmlAtom -> M (list oqmlAtom)) :
  numeric_result m -> (forall a, m = Some (Ok [a]) -> numeric_result (f [a])) -> numeric_result (bind f m).
Proof.
  destruct m as [[al|s]|]; cbn; try done. intros (a & -> & _) H. by apply H.
Qed.

Lemma eval_binop_numeric op tl tr t a b :
  binopCompile op tl tr = Some (Ok t) -> fits tl a -> fits tr b -> numeric tl -> numeric tr ->
  numeric_result (eval_binop op [a] [b]).
Proof.
  intros E Hl Hr Nl Nr. destruct (binopEval_numeric _ _ _ _ _ _ E Hl Hr Nl Nr) as (_ & p & Ep & Np & Tp & Dp).
  unfold eval_binop. rewrite Ep. by apply binop_apply_numeric.
Qed.

Lemma numeric_typed ctx n :
  typed ctx -> numeric_expr ctx n -> forall n', compile ctx n = Some (Ok n') ->
  numeric (evalType n') /\ numeric_result (eval ctx n').
Proof.
  intros Hc. induction n; cbn; intros Hn n' E; monad; split_bools; try done;
    try (split; [done|]; by eexists).
  - cbn. unfold eval_ident. destruct (ctx name) as [[t [a|]]|] eqn:En; try done.
    rewrite (Hc _ _ _ En). split; [done|]. by exists a.
  - subst cst_list. destruct (IHn1 H _ E0) as [Tl Rl], (IHn2 H1 _ E1) as [Tr Rr].
    assert (forall a, eval ctx r = Some (Ok [a]) -> fits (evalType r) a) as Fl
      by (intros a Ea; by apply (eval_type_sound ctx ctx n1 r [a] (numeric_expr_fresh _ _ H) Hc Hc)).
    assert (forall a, eval ctx r0 = Some (Ok [a]) -> fits (evalType r0) a) as Fr
      by (intros a Ea; by apply (eval_type_sound ctx ctx n2 r0 [a] (numeric_expr_fresh _ _ H1) Hc Hc)).
    assert (numeric_result (eval ctx (oqmlBinop op r r0 r1 None))) as R.
    { cbn. apply numeric_result_bind; [done|]. intros a Ea. apply numeric_result_bind; [done|]. intros b Eb.
      eapply eval_binop_numeric; eauto. }
    assert (numeric r1) as T.
    { destruct (evalType r) eqn:Etl, (evalType r0) eqn:Etr, op; try done; vm_compute in E2; by simplify_eq. }
    apply fold_binop_cases in E as [->|(al & Eal & -> & E)]; [done|]. rewrite E. by rewrite Eal in R.
Qed.

(** C33: a numeric expression that [compile] accepts has a number for value, or
    divides by zero, or overflows: it never meets operands of wrong types. *)
Theorem numeric_progress ctx n n' :
  typed ctx -> numeric_expr ctx n -> compile ctx n = Some (Ok n') -> numeric_result (eval ctx n').
Proof. intros Hc Hn E. by apply (numeric_typed ctx n). Qed.

(** ** Ranges *)

Definition in_range (a : oqmlAtom) : Prop :=
  match a with oqmlAtom_int i => in_s 64 i | oqmlAtom_char c => in_s 8 c | _ => True end.

(** The literals, and the folded atoms, are in range. *)
Fixpoint literals_in_range (n : oqmlNode) : Prop :=
  match n with
  | oqmlInt i => in_s 64 i
  | oqmlChar c => in_s 8 c
  | oqmlBinop _ l r _ c | oqmlComp _ l r _ c =>
      literals_in_range l /\ literals_in_range r /\ Forall in_range (default [] c)
  | oqmlLOr l r | oqmlLAnd l r | oqmlComma l r => literals_in_range l /\ literals_in_range r
  | oqmlLNot ql | oqmlTilde ql | oqmlTypeOf ql => literals_in_range ql
  | _ => True
  end.

Definition symbols_in_range (ctx : symbols) : Prop :=
  forall name t a, ctx name = Some (t, Some a) -> in_range a.

Lemma int_op_range w op a b c :
  0 < w -> in_s w a -> in_s w b -> int_op w op a b = Some c -> in_s w c.
Proof.
  intros Hw Ha Hb. destruct op; cbn; intros E; repeat case_match; simplify_eq; try (by case_bool_decide; simplify_eq).
  - apply orb_false_iff in H as [H%Z.eqb_neq _]. unfold in_s in *.
    pose proof (Z.rem_bound_abs a b H). pose proof (Z.rem_sign_mul a b H). nia.
  - by apply in_s_land.
  - by apply in_s_lor.
  - by apply in_s_lxor.
  - apply andb_true_iff in H as [H%Z.leb_le _]. unfold in_s in *. rewrite Z.shiftr_div_pow2 by done.
    pose proof (Z.pow_pos_nonneg 2 b ltac:(lia) H). split.
    + apply Z.div_le_lower_bound; nia.
    + apply Z.div_lt_upper_bound; nia.
  - by apply wrap_s_range.
Qed.

Lemma in_s_le w w' z : 0 < w <= w' -> in_s w z -> in_s w' z.
Proof. intros Hw [H1 H2]. unfold in_s. pose proof (Z.pow_le_mono_r 2 (w - 1) (w' - 1)). lia. Qed.

Lemma binopEval_range op al ar p :
  binopEval op al ar = Some (Ok p) -> Forall in_range al -> Forall in_range ar ->
  in_range (fst p) /\ in_range (snd p).
Proof.
  unfold binopEval. intros E Hl Hr.
  assert (in_range (default oqmlAtom_nil (head al)) /\ in_range (default oqmlAtom_nil (head ar))) as [Ha Hb].
  { split; [destruct al|destruct ar]; cbn; done || by apply Forall_cons in Hl as [? _] || by apply Forall_cons in Hr as [? _]. }
  generalize dependent (default oqmlAtom_nil (head ar)). generalize dependent (default oqmlAtom_nil (head al)).
  intros a Ha b Hb E. repeat case_match; monad; cbn in *; split; done || by apply (in_s_le 8).
Qed.

Lemma binop_values_range op a b c :
  binop_values op a b = Some (Ok c) -> in_range a -> in_range b -> in_range c.
Proof.
  destruct a, b; cbn; intros E Ha Hb; monad; try done; cbn.
  - by apply (int_op_range 64 op i i0).
  - apply (in_s_le 32); [lia|]. by apply (int_op_range 32 op c0 c1); [lia|apply (in_s_le 8)..|].
  - destruct op; monad; done.
Qed.

Lemma eval_binop_range op al ar al' :
  eval_binop op al ar = Some (Ok al') -> Forall in_range al -> Forall in_range ar -> Forall in_range al'.
Proof.
  unfold eval_binop. intros. monad. destruct (binopEval_range _ _ _ _ E) as [? ?]; [done..|].
  apply Forall_singleton. eapply binop_values_range; [by apply binop_apply_values|done..].
Qed.

Lemma lnot_range w z : 0 < w <= 64 -> in_s w z -> in_s 64 (Z.lnot z).
Proof. intros Hw H. apply (in_s_le w); [lia|]. unfold in_s, Z.lnot in *. lia. Qed.

Lemma eval_range ctx n al :
  literals_in_range n -> symbols_in_range ctx -> eval ctx n = Some (Ok al) -> Forall in_range al.
Proof.
  intros Hn Hc. revert al.
  induction n; intros al; cbn in *; intros Ev; monad; try (by repeat constructor); try (by apply Forall_singleton).
  - unfold eval_ident in Ev. repeat case_match; monad; [|done]. apply Forall_singleton. by eapply Hc.
  - destruct Hn as (? & ? & ?). destruct cst_list; monad; [done|]. eapply eval_binop_range; eauto.
  - destruct Hn as (? & ? & ?). destruct cst_list; monad; [done|]. by repeat constructor.
  - destruct r0; monad; by repeat constructor.
  - destruct r0; cbn in *; monad; by repeat constructor.
  - specialize (IHn Hn _ E). unfold eval_tilde in Ev.
    destruct r as [|[] [|]]; monad; apply Forall_singleton;
      apply Forall_cons in IHn as [IHn _]; cbn in *; [apply (lnot_range 64)|apply (lnot_range 8)]; done || lia.
  - destruct Hn. eauto.
Qed.

Lemma fold_binop_range ctx n n' :
  fold_binop ctx n = Some (Ok n') -> symbols_in_range ctx -> literals_in_range n -> literals_in_range n'.
Proof.
  unfold fold_binop. intros E Hc Hn.
  destruct n; monad; try done; destruct cst_list; monad; try done; destruct (isConstant _); monad; try done;
    apply eval_range in E0; try done; destruct Hn as (? & ? & ?); done.
Qed.

(** C37: no integer ever leaves its width: the value of an expression, compiled or
    not, is made of int64 and chars when its literals and the symbols are, and
    [compile] folds the literals into such values. *)
Theorem values_in_range ctx ctx' n n' :
  literals_in_range n -> symbols_in_range ctx -> symbols_in_range ctx' ->
  compile ctx n = Some (Ok n') ->
  forall al, eval ctx' n = Some (Ok al) \/ eval ctx' n' = Some (Ok al) -> Forall in_range al.
Proof.
  intros Hn Hc Hc' E al. assert (literals_in_range n') as Hn'; [|intros [?|?]; [by apply (eval_range ctx' n)|by apply (eval_range ctx' n')]].
  revert n' E. induction n; intros n' E; cbn in *; monad; try done; cbn; auto.
  - destruct Hn as (? & ? & ?). eapply fold_binop_range; [done..|]. cbn. auto.
  - destruct Hn as (? & ? & ?). eapply fold_binop_range; [done..|]. cbn. auto.
  - destruct Hn. auto.
  - destruct Hn. auto.
  - destruct Hn. auto.
Qed.

(** ** The order of atoms *)

(** Two integers, characters, strings or doubles in their order; two booleans, of which
    [oqmlAtom_bool::compare] exchanges the operands, in the opposite one. *)
Definition ordering (a b : oqmlAtom) : option comparison :=
  match a, b with
  | oqmlAtom_int i, oqmlAtom_int j => Some (i ?= j)
  | oqmlAtom_char c, oqmlAtom_char c' => Some (c ?= c')
  | oqmlAtom_string s, oqmlAtom_string s' => Some (strcmp s s')
  | oqmlAtom_double d, oqmlAtom_double d' => SFcompare d d'
  | oqmlAtom_bool b, oqmlAtom_bool b' => Some (Z.b2z b' ?= Z.b2z b)
  | _, _ => None
  end.

Definition holds (op : compop) (c : comparison) : bool :=
  match op, c with
  | Equal, Eq | Diff, (Lt | Gt) | Inf, Lt | InfEq, (Lt | Eq) | Sup, Gt | SupEq, (Gt | Eq) => true
  | _, _ => false
  end.

Lemma CMP_holds n o op : CMP n o op = holds op (n ?= o).
Proof.
  destruct op; cbn; rewrite ?Z.eqb_compare, ?Z.ltb_compare, ?Z.leb_compare, ?(Z.compare_antisym n o);
    by destruct (n ?= o).
Qed.

Lemma strcmp_sign_compare s s' : (strcmp_sign s s' ?= 0) = strcmp s s'.
Proof. unfold strcmp_sign. by destruct (strcmp s s'). Qed.

Lemma CMP_double_holds n o op c : SFcompare n o = Some c -> CMP_double n o op = holds op c.
Proof.
  intros E. assert (SFcompare o n = Some (CompOpp c)) as E'.
  { assert (n <> S754_nan) as Hn by (by destruct n). assert (o <> S754_nan) as Ho by (by destruct n, o).
    rewrite Value.double_compare in * by done. rewrite (strcmp_antisym (double_key n)). congruence. }
  unfold CMP_double, SFeqb, SFltb, SFleb. rewrite E, E'. by destruct op, c.
Qed.

Lemma compare_atoms_holds a b c op :
  ordering a b = Some c -> op <> Diff -> compare_atoms a b op = holds op c.
Proof.
  intros E Ho. destruct a, b; try done; [injection E as <-..| |injection E as <-].
  - destruct b, b0, op; done.
  - unfold compare_atoms. destruct op; rewrite ?CMP_holds; try done. cbn. by rewrite Z.eqb_compare; destruct (_ ?= _).
  - unfold compare_atoms. destruct op; rewrite ?CMP_holds; try done. cbn. by rewrite Z.eqb_compare; destruct (_ ?= _).
  - pose proof (CMP_double_holds _ _ op _ E) as H. by destruct op.
  - unfold compare_atoms. destruct op; rewrite ?CMP_holds, ?strcmp_sign_compare; try done.
    cbn [isEqualTo]. by rewrite Z.eqb_compare, strcmp_sign_compare.
Qed.

Lemma compare_step_same a b op :
  type a = type b -> ~ (type a = NIL \/ type a = NULL_) ->
  compare_step (type a) (type b) a b op = ret (compare_atoms a b op, op).
Proof. intros T N. destruct a, b; try done; exfalso; auto. Qed.

(** The six comparisons of two integers, characters, strings or doubles
    (but NaN) are those of their order, and those of two booleans of the order in which true is less than
    false. *)
Theorem comparison_order a b c op : ordering a b = Some c -> compare [a] [b] op = ret (holds op c).
Proof.
  intros E. assert (forall op, op <> Diff -> compare_eq_or_order [a] [b] op = ret (holds op c)) as H.
  { intros op' Ho. unfold compare_eq_or_order. cbn [length Nat.eqb negb andb].
    cbn [compare_loop]. rewrite compare_step_same by (destruct a, b; done || by intros [|]). cbn [bind ret fst snd]. rewrite (compare_atoms_holds _ _ _ _ E Ho).
    by destruct (holds op' c). }
  destruct op; unfold compare; try (by apply H). rewrite H by done. cbn. by destruct c.
Qed.

Lemma CMP_swap n o op : CMP n o op = CMP o n (swap op).
Proof. rewrite !CMP_holds, (Z.compare_antisym o n). by destruct op, (o ?= n). Qed.

Lemma CMP_double_swap n o op : CMP_double n o op = CMP_double o n (swap op).
Proof. by destruct op; cbn; rewrite ?(SFeqb_sym n o). Qed.

Lemma CMP_strcmp_swap s s' op : CMP (strcmp_sign s s') 0 op = CMP (strcmp_sign s' s) 0 (swap op).
Proof. rewrite !CMP_holds, !strcmp_sign_compare, (strcmp_antisym s'). by destruct op, (strcmp s' s). Qed.

Lemma compare_atoms_swap a b op :
  type a = type b -> op <> Diff -> compare_atoms a b op = compare_atoms b a (swap op).
Proof.
  intros T Ho. destruct a as [| |x| | | |], b as [| |y| | | |]; try done.
  - by destruct op.
  - by destruct op.
  - by destruct op, x, y.
  - pose proof (CMP_swap i i0 op). by destruct op.
  - pose proof (CMP_swap c c0 op). by destruct op.
  - pose proof (CMP_double_swap d d0 op). by destruct op.
  - pose proof (CMP_strcmp_swap s s0 op). by destruct op.
Qed.

Lemma compare_step_swap a b op r :
  op <> Diff -> compare_step (type a) (type b) a b op = Some (Ok r) ->
  exists op', compare_step (type b) (type a) b a (swap op) = Some (Ok (fst r, op')).
Proof.
  intros Ho. destruct (decide (type a = type b)) as [T|T].
  - pose proof (compare_atoms_swap a b op T Ho) as E. intros H.
    destruct (decide (type a = NIL \/ type a = NULL_)) as [N|N].
    + cbn in *. destruct a, b; try done; try (by destruct N); destruct op; try done; vm_compute in H; simplify_eq; by eexists.
    + rewrite compare_step_same in H by done. monad. cbn. rewrite E, compare_step_same by (by rewrite <- T).
      by eexists.
  - destruct a, b; try done; intros E; destruct op; try done; cbn in *; monad; by eexists.
Qed.

(** Exchanging the operands of a comparison that is valid and reversing it
    changes nothing, promotions and null values included. *)
Theorem comparison_swap a b op r :
  compare [a] [b] op = Some (Ok r) -> compare [b] [a] (swap op) = Some (Ok r).
Proof.
  assert (forall op, op <> Diff -> forall r, compare_eq_or_order [a] [b] op = Some (Ok r) ->
    compare_eq_or_order [b] [a] (swap op) = Some (Ok r)) as H.
  { intros op' Ho r'. unfold compare_eq_or_order. cbn [length Nat.eqb negb andb compare_loop]. intros E. monad.
    destruct (compare_step_swap _ _ _ _ Ho E0) as [op2 ->]. cbn. by destruct (fst r0). }
  destruct op; unfold compare, swap; try (by apply H); intros E; monad.
  apply (H Equal ltac:(done)) in E0. cbn [swap] in E0. by rewrite E0.
Qed.

(** ** Examples *)

Module Example.

(** x = 5, s = 'abc', u is a symbol without value. *)
Definition ctx : symbols := fun name =>
  if bool_decide (name = "x"%string) then Some (INT, Some (oqmlAtom_int 5))
  else if bool_decide (name = "s"%string) then Some (STRING, Some (oqmlAtom_string [97; 98; 99]))
  else if bool_decide (name = "u"%string) then Some (UNKNOWN_TYPE, None)
  else None.
Definition ctx' : symbols := fun name =>
  if bool_decide (name = "x"%string) then Some (INT, Some (oqmlAtom_int (-7))) else ctx name.

Definition x := oqmlIdent "x" UNKNOWN_TYPE.
Definition op2 op l r := oqmlBinop op l r UNKNOWN_TYPE None.
Definition cmp2 op l r := oqmlComp op l r UNKNOWN_TYPE None.
(** x * (2 + 'a') - 3 and its folded form. *)
Definition expr := op2 Sub (op2 Mul x (op2 Add (oqmlInt 2) (oqmlChar 97))) (oqmlInt 3).
Definition folded :=
  oqmlBinop Sub (oqmlBinop Mul (oqmlIdent "x" INT)
    (oqmlBinop Add (oqmlInt 2) (oqmlChar 97) INT (Some [oqmlAtom_int 99])) INT None) (oqmlInt 3) INT None.
(** 1.00005 *)
Definition nearly_one : spec_float := S754_finite false 4503824807351865 (-52).

Example compile_expr : compile ctx expr = ret folded.
Proof. vm_compute. reflexivity. Qed.
Example eval_expr : eval ctx' folded = ret [oqmlAtom_int (-696)].
Proof. vm_compute. reflexivity. Qed.
Example null_divisor : compile ctx (op2 Div (oqmlInt 1) (oqmlInt 0)) = err (invalid_null INT).
Proof. vm_compute. reflexivity. Qed.
Example overflow : eval ctx (op2 Add (oqmlInt (2 ^ 63 - 1)) (oqmlInt 1)) = None.
Proof. vm_compute. reflexivity. Qed.
Example short_circuit :
  eval ctx (oqmlLOr oqmlTrue (op2 Div (oqmlInt 1) (oqmlInt 0))) = ret [oqmlAtom_bool true].
Proof. vm_compute. reflexivity. Qed.

(** 'a' + 'b' is typed as a character and is the integer 195. *)
Example char_sum : compile ctx (op2 Add (oqmlChar 97) (oqmlChar 98))
  = ret (oqmlBinop Add (oqmlChar 97) (oqmlChar 98) CHAR (Some [oqmlAtom_int 195])).
Proof. vm_compute. reflexivity. Qed.

(** A string plus an integer is accepted by [compile] and refused by [eval]. *)
Example string_plus_int : exists n, compile ctx (op2 Add (oqmlIdent "s" UNKNOWN_TYPE) x) = ret n
  /\ evalType n = STRING /\ eval ctx n = err (invalidBinop STRING INT).
Proof. eexists. split; [by vm_compute|split; by vm_compute]. Qed.

(** false < true is false; 1 == 1.00005 and 1 < 1.00005; 1.0 == 1.00005 is false; NULL is
    both less and greater than 1; two symbols without value are less than each other. *)
Example strange_comparisons :
  eval ctx (cmp2 Inf oqmlFalse oqmlTrue) = ret [oqmlAtom_bool false]
  /\ eval ctx (cmp2 Equal (oqmlInt 1) (oqmlFloat nearly_one)) = ret [oqmlAtom_bool true]
  /\ eval ctx (cmp2 Inf (oqmlInt 1) (oqmlFloat nearly_one)) = ret [oqmlAtom_bool true]
  /\ eval ctx (cmp2 Equal (oqmlFloat (double_of 1)) (oqmlFloat nearly_one)) = ret [oqmlAtom_bool false]
  /\ eval ctx (cmp2 Inf oqmlNull (oqmlInt 1)) = ret [oqmlAtom_bool true]
  /\ eval ctx (cmp2 Sup oqmlNull (oqmlInt 1)) = ret [oqmlAtom_bool true]
  /\ eval ctx (cmp2 Inf oqmlNil (oqmlIdent "u" UNKNOWN_TYPE)) = ret [oqmlAtom_bool true].
Proof. repeat split; by vm_compute. Qed.

Lemma ctx_typed : typed ctx.
Proof. intros name t a. unfold ctx. repeat case_bool_decide; by intros [= <- <-]. Qed.
Lemma ctx'_typed : typed ctx'.
Proof. intros name t a. unfold ctx', ctx. repeat case_bool_decide; by intros [= <- <-]. Qed.

Lemma constant_folding_witness : eval ctx' folded = ret [oqmlAtom_int (-696)].
Proof. rewrite (constant_folding ctx ctx' expr folded); by vm_compute. Defined.

Lemma eval_type_sound_witness : fits_list INT [oqmlAtom_int (-696)].
Proof.
  apply (eval_type_sound ctx ctx' expr folded);
    [done|apply ctx_typed|apply ctx'_typed| |by vm_compute..].
  intros name. unfold ctx', ctx. by repeat case_bool_decide.
Defined.

Lemma numeric_progress_witness : numeric_result (eval ctx folded).
Proof. apply (numeric_progress ctx expr); [apply ctx_typed|by vm_compute..]. Defined.

Lemma values_in_range_witness : Forall in_range [oqmlAtom_int (-696)].
Proof.
  assert (symbols_in_range ctx /\ symbols_in_range ctx') as [H H'].
  { split; intros name t a; unfold ctx', ctx; repeat case_bool_decide; intros [= <- <-]; cbn; unfold in_s; done || lia. }
  apply (values_in_range ctx ctx' expr folded); [|done|done|by vm_compute|right; by vm_compute].
  cbn. unfold in_s. repeat split; done || lia.
Defined.

Lemma comparison_order_witness :
  compare [oqmlAtom_string [97]] [oqmlAtom_string [97; 98]] InfEq = ret true
  /\ compare [oqmlAtom_bool false] [oqmlAtom_bool true] Sup = ret true.
Proof.
  split; [apply (comparison_order _ _ Lt)|apply (comparison_order _ _ Gt)]; done.
Defined.

Lemma comparison_swap_witness :
  compare [oqmlAtom_double nearly_one] [oqmlAtom_int 1] Sup = ret true.
Proof. apply (comparison_swap (oqmlAtom_int 1) _ Inf). by vm_compute. Defined.

End Example.
