(* ===== verification/OqlFlow.v ===== *)
(** * OQL: statements

    The statements of OQL, src/eyedb/oqlflwctl.cc, with the sequences of oqlop.cc and
    the calls and returns of oqlfunc.cc: [eval]. A break is an error status with a
    reserved message that travels up to the loop whose level is [oqmlBreakLevel];
    a return is another one. [exec] is the same language with structured jumps,
    and no global variables. The expressions, the atoms and the symbols are the
    classes [Atoms], [Expressions] and [Symbols]. [None] is an undefined behaviour,
    such as the use of a list that was not set, or an exhausted fuel. Interrupts,
    unevaluated parameters and the compilation of nodes are left out. *)

From Stdlib Require Import Ascii String.
From S2P Require Import Prelude OqlContext.

#[local] Set Warnings "-register-all,-clear-no-such-hyp".

(** What the statements look at in the atoms of a list. [check_logical] is
    [oqml_check_logical] of a list of one atom: a boolean, or the message. *)
Class Atoms (A : Type) := {
  as_coll : A -> option (list A);
  as_string : A -> option string;
  check_logical : A -> bool + string
}.

(** The evaluation of an expression: atoms, or the message of an error. *)
Class Expressions (X A C : Type) := {
  eval_expr : X -> C -> option ((list A + string) * C)
}.

Definition OQML_BREAK_MAGIC : string := "$oqml$break$magic$".
Definition OQML_RETURN_MAGIC : string := "$oqml$return$magic$".

Section Flow.
Context {T A C X : Type} `{SY : !Symbols T A C} `{AT : !Atoms A} `{EX : !Expressions X A C} (atom_type : A -> T).

Inductive oqmlNode :=
| oqmlExpr (x : X)
| oqmlComma (qleft qright : oqmlNode)
| oqmlCompoundStatement (node : option oqmlNode)
| oqmlIf (qcond : oqmlNode) (qthen qelse : option oqmlNode) (is_cond_expr : bool)
| oqmlForEach (ident : string) (in_ : oqmlNode) (action : option oqmlNode)
| oqmlWhile (qleft : oqmlNode) (qright : option oqmlNode)
| oqmlDoWhile (qleft : oqmlNode) (qright : option oqmlNode)
| oqmlForDo (ident : option string) (start cond next body : option oqmlNode)
| oqmlThrow (ql : oqmlNode)
| oqmlBreak (level : option Z)
| oqmlReturn (ql : option oqmlNode)
| oqmlCall (f : string) (args : list oqmlNode).

(** A function: its parameters, with their default values, and its body. *)
Record oqmlFunction := mk_function { params : list (string * option oqmlNode); body : option oqmlNode }.
Context (functions : string -> option oqmlFunction).

(** A status, with the atom a return carries. *)
Inductive status := Success | Status (msg : string) (returnAtom : option A).

Record state := mk_state { oqmlLoopLevel : Z; oqmlBreakLevel : Z; oqmlCallLevel : Z; ctx : C }.
Implicit Types (s : state) (c : C).

Definition set_ctx s c : state := mk_state (oqmlLoopLevel s) (oqmlBreakLevel s) (oqmlCallLevel s) c.
Definition incr_loop s (n : Z) : state :=
  mk_state (oqmlLoopLevel s + n) (oqmlBreakLevel s) (oqmlCallLevel s) (ctx s).
Definition incr_call s (n : Z) : state :=
  mk_state (oqmlLoopLevel s) (oqmlBreakLevel s) (oqmlCallLevel s + n) (ctx s).
Definition set_break s (n : Z) : state := mk_state (oqmlLoopLevel s) n (oqmlCallLevel s) (ctx s).

Definition oqml_is_break (st : status) : bool :=
  match st with Status msg _ => String.eqb msg OQML_BREAK_MAGIC | Success => false end.
Definition oqml_is_return (st : status) : bool :=
  match st with Status msg _ => String.eqb msg OQML_RETURN_MAGIC | Success => false end.
Definition error (msg : string) : status := Status msg None.

(** A result: the status, the list of atoms when it was set, and the state. *)
Abbreviation R := (option (status * option (list A) * state)).
Abbreviation evaluator := (oqmlNode -> state -> R).

(** Evaluates a node that may be missing; [k] goes on after a success. *)
Definition then_ (r : R) (k : option (list A) -> state -> R) : R :=
  '(st, al, s) ← r; match st with Success => k al s | _ => Some (st, al, s) end.
Definition eval_opt (ev : evaluator) (n : option oqmlNode) s (k : state -> R) : R :=
  match n with Some n => then_ (ev n s) (fun _ s => k s) | None => k s end.

(** oqml_check_logical of a list. *)
Definition condition (al : option (list A)) : option (bool + string) :=
  al ← al;
  match al with
  | [a] => Some (check_logical a)
  | _ => Some (inr "bool, int, char or double expected"%string)
  end.

(** Symbols are pushed and popped without looking at the status. *)
Definition push s (ident : string) (a : option A) : option state :=
  '(_, c) ← pushSymbol (ctx s) ident (atom_type <$> a) a false false; Some (set_ctx s c).
Definition pop s (ident : string) : option state :=
  '(_, c) ← popSymbol (ctx s) ident false; Some (set_ctx s c).
Definition push_opt s (ident : option string) : option state :=
  match ident with Some ident => push s ident None | None => Some s end.
Definition pop_opt s (ident : option string) : option state :=
  match ident with Some ident => pop s ident | None => Some s end.

(** The end of a loop of level [level], where [--oqmlLoopLevel] is done. *)
Definition leave (level : Z) (st : status) s : R :=
  if oqml_is_break st && (oqmlBreakLevel s =? level) then Some (Success, Some [], s)
  else Some (st, Some [], s).

(** The loop of oqmlForEach. *)
Fixpoint each (ev : evaluator) (ident : string) (action : oqmlNode) (xs : list A) s : R :=
  match xs with
  | [] => Some (Success, None, s)
  | x :: xs =>
      s ← push s ident (Some x);
      '(st, _, s) ← ev action s;
      s ← pop s ident;
      match st with Success => each ev ident action xs s | _ => Some (st, None, s) end
  end.

(** Tests the value of a condition. *)
Definition check (r : R) (k : bool -> state -> R) : R :=
  then_ r (fun al s =>
    r ← condition al;
    match r with inl b => k b s | inr msg => Some (error msg, None, s) end).

(** The loops, with the number of turns they may do. *)
Fixpoint while (k : nat) (ev : evaluator) (cond : oqmlNode) (body : option oqmlNode) s : R :=
  match k with
  | O => None
  | S k =>
      check (ev cond s) (fun b s =>
        if b then eval_opt ev body s (while k ev cond body) else Some (Success, None, s))
  end.

Fixpoint do_while (k : nat) (ev : evaluator) (cond : oqmlNode) (body : option oqmlNode) s : R :=
  match k with
  | O => None
  | S k =>
      eval_opt ev body s (fun s =>
        check (ev cond s) (fun b s => if b then do_while k ev cond body s else Some (Success, None, s)))
  end.

(** The loop of oqmlForDo, and whether it returns from the middle of it. *)
Fixpoint for_do (k : nat) (ev : evaluator) (cond next body : option oqmlNode) s : option (bool * status * state) :=
  match k with
  | O => None
  | S k =>
      let turn s :=
        '(st, _, s) ← eval_opt ev body s (fun s => eval_opt ev next s (fun s => Some (Success, None, s)));
        match st with Success => for_do k ev cond next body s | _ => Some (false, st, s) end in
      match cond with
      | None => turn s
      | Some cond =>
          '(st, al, s) ← ev cond s;
          match st with
          | Success =>
              r ← condition al;
              match r with
              | inl true => turn s
              | inl false => Some (false, Success, s)
              | inr msg => Some (false, error msg, s)
              end
          | _ => Some (true, st, s)
          end
      end
  end.

(** The parameters of a call: each is evaluated and pushed in the new frame. *)
Fixpoint bind_params (ev : evaluator) (ps : list (string * option oqmlNode)) (args : list oqmlNode) s :
    option (status * state) :=
  match ps with
  | [] => Some (Success, s)
  | (ident, default_) :: ps =>
      let s := set_ctx s (push_arg_level (ctx s)) in
      '(st, al, s) ← match args, default_ with
                     | arg :: _, _ => ev arg s
                     | [], Some arg => ev arg s
                     | [], None => Some (error ("mandatory parameter '" ++ ident ++ "' is missing"), None, s)
                     end;
      let s := set_ctx s (pop_arg_level (ctx s)) in
      match st with
      | Success =>
          al ← al;
          s ← push s ident (head al);
          bind_params ev ps (tail args) s
      | _ => Some (st, s)
      end
  end.

(** oqmlCall::realize *)
Definition realize (ev : evaluator) (f : oqmlFunction) (args : list oqmlNode) s : R :=
  let s := set_ctx s (push_local_table (ctx s)) in
  '(st, s) ← bind_params ev (params f) args s;
  '(st, al, s) ← match st with
                 | Success => match body f with Some b => ev b s | None => Some (Success, None, s) end
                 | _ => Some (st, None, s)
                 end;
  '(_, c) ← pop_local_table (ctx s);
  Some (st, al, set_ctx s c).

(** ** The evaluation *)

Fixpoint eval (fuel : nat) (n : oqmlNode) s : R :=
  match fuel with
  | O => None
  | S fuel =>
    let ev := eval fuel in
    match n with
    | oqmlExpr x =>
        '(r, c) ← eval_expr x (ctx s);
        Some match r with
             | inl al => (Success, Some al, set_ctx s c)
             | inr msg => (error msg, None, set_ctx s c)
             end
    | oqmlComma l r =>
        then_ (ev l s) (fun al_left s =>
          _ ← al_left;
          then_ (ev r s) (fun al_right s => _ ← al_right; Some (Success, al_right, s)))
    | oqmlCompoundStatement None => Some (Success, None, s)
    | oqmlCompoundStatement (Some n) => then_ (ev n s) (fun _ s => Some (Success, Some [], s))
    | oqmlIf qcond qthen qelse is_cond_expr =>
        then_ (ev qcond s) (fun al s =>
          al ← al;
          r ← match al with
              | [] => Some (inl false)
              | [a] => Some (check_logical a)
              | _ => match qthen with None => Some (inl true) | Some _ => None end
              end;
          match r with
          | inr msg => Some (error msg, None, s)
          | inl b =>
              match if (b : bool) then qthen else qelse with
              | None => Some (Success, Some [], s)
              | Some n =>
                  then_ (ev n s) (fun al s => Some (Success, if is_cond_expr then al else Some [], s))
              end
          end)
    | oqmlForEach ident in_ action =>
        then_ (ev in_ s) (fun al s =>
          al ← al;
          let s := incr_loop s 1 in
          let level := oqmlLoopLevel s in
          let xs := match al with a :: _ => default [a] (as_coll a) | [] => [] end in
          '(st, _, s) ← match action with
                        | Some action => each ev ident action xs s
                        | None => Some (Success, None, s)
                        end;
          leave level st (incr_loop s (-1)))
    | oqmlWhile cond body =>
        let s := incr_loop s 1 in
        let level := oqmlLoopLevel s in
        '(st, _, s) ← while fuel ev cond body s;
        leave level st (incr_loop s (-1))
    | oqmlDoWhile cond body =>
        let s := incr_loop s 1 in
        let level := oqmlLoopLevel s in
        '(st, _, s) ← do_while fuel ev cond body s;
        leave level st (incr_loop s (-1))
    | oqmlForDo ident start cond next body =>
        s ← push_opt s ident;
        eval_opt ev start s (fun s =>
          let s := incr_loop s 1 in
          '(early, st, s) ← for_do fuel ev cond next body s;
          if (early : bool) then Some (st, None, s)
          else
            s ← pop_opt (incr_loop s (-1)) ident;
            Some (if oqml_is_break st then Success else st, Some [], s))
    | oqmlThrow ql =>
        then_ (ev ql s) (fun al s =>
          al ← al;
          Some (error match al with
                      | [a] => default "string expected"%string (as_string a)
                      | _ => "string argument expected"
                      end, None, s))
    | oqmlBreak level =>
        let level := s32 (default 1 level) in
        if oqmlLoopLevel s <? level then Some (error "level is too deep", None, s)
        else Some (error OQML_BREAK_MAGIC, None, set_break s (oqmlLoopLevel s - level + 1))
    | oqmlReturn ql =>
        if oqmlCallLevel s =? 0 then Some (error "return must be performed in a function", None, s)
        else
          match ql with
          | None => Some (Status OQML_RETURN_MAGIC None, None, s)
          | Some ql =>
              then_ (ev ql s) (fun al s => al ← al; Some (Status OQML_RETURN_MAGIC (head al), None, s))
          end
    | oqmlCall name args =>
        match functions name with
        | None => Some (error ("unknown function '" ++ name ++ "'"), None, s)
        | Some f =>
            '(st, al, s) ← realize ev f args (incr_call s 1);
            let s := incr_call s (-1) in
            Some match st with
                 | Status _ r => if oqml_is_return st then (Success, Some (option_list r), s) else (st, al, s)
                 | Success => (Success, al, s)
                 end
        end
    end
  end.

(** ** Structured jumps

    The reference: a node ends with atoms, leaves [k] loops, returns an atom or
    fails. [in_call] is whether it is in a function. A message that is reserved has
    no meaning. *)

Inductive outcome := Normal (al : option (list A)) | Broken (k : Z) | Returned (r : option A) | Failed (msg : string).
Abbreviation X_ := (option (outcome * C)).

Definition reserved (msg : string) : bool :=
  String.eqb msg OQML_BREAK_MAGIC || String.eqb msg OQML_RETURN_MAGIC.
Definition fail (msg : string) c : X_ := if reserved msg then None else Some (Failed msg, c).

Definition next_ (x : X_) (k : option (list A) -> C -> X_) : X_ :=
  '(o, c) ← x; match o with Normal al => k al c | _ => Some (o, c) end.
Definition next_opt (ex : oqmlNode -> C -> X_) (n : option oqmlNode) c (k : C -> X_) : X_ :=
  match n with Some n => next_ (ex n c) (fun _ c => k c) | None => k c end.

(** What a loop makes of the outcome of its body. *)
Definition out_of_loop (o : outcome) : outcome :=
  match o with
  | Normal _ => Normal (Some [])
  | Broken k => if k =? 1 then Normal (Some []) else Broken (k - 1)
  | _ => o
  end.
Definition loop_end (x : X_) : X_ := '(o, c) ← x; Some (out_of_loop o, c).

Definition push_x c (ident : string) (a : option A) : option C :=
  '(_, c) ← pushSymbol c ident (atom_type <$> a) a false false; Some c.
Definition pop_x c (ident : string) : option C := '(_, c) ← popSymbol c ident false; Some c.

Fixpoint each_x (ex : oqmlNode -> C -> X_) (ident : string) (action : oqmlNode) (xs : list A) c : X_ :=
  match xs with
  | [] => Some (Normal None, c)
  | x :: xs =>
      c ← push_x c ident (Some x);
      '(o, c) ← ex action c;
      c ← pop_x c ident;
      match o with Normal _ => each_x ex ident action xs c | _ => Some (o, c) end
  end.

(** Evaluates a condition, that continues with a boolean. *)
Definition test (x : X_) (k : bool -> C -> X_) : X_ :=
  next_ x (fun al c => r ← condition al; match r with inl b => k b c | inr msg => fail msg c end).

Fixpoint while_x (k : nat) (ex : oqmlNode -> C -> X_) (cond : oqmlNode) (body : option oqmlNode) c : X_ :=
  match k with
  | O => None
  | S k =>
      test (ex cond c) (fun b c =>
        if b then next_opt ex body c (while_x k ex cond body) else Some (Normal None, c))
  end.
Fixpoint do_while_x (k : nat) (ex : oqmlNode -> C -> X_) (cond : oqmlNode) (body : option oqmlNode) c : X_ :=
  match k with
  | O => None
  | S k =>
      next_opt ex body c (fun c =>
        test (ex cond c) (fun b c => if b then do_while_x k ex cond body c else Some (Normal None, c)))
  end.
(** A condition that does not end normally leaves at once, with its variable. *)
Fixpoint for_do_x (k : nat) (ex : oqmlNode -> C -> X_) (cond next body : option oqmlNode) c :
    option (bool * outcome * C) :=
  match k with
  | O => None
  | S k =>
      let turn c :=
        '(o, c) ← next_opt ex body c (fun c => next_opt ex next c (fun c => Some (Normal None, c)));
        match o with Normal _ => for_do_x k ex cond next body c | _ => Some (false, o, c) end in
      match cond with
      | None => turn c
      | Some cond =>
          '(o, c) ← ex cond c;
          match o with
          | Normal al =>
              r ← condition al;
              match r with
              | inl true => turn c
              | inl false => Some (false, Normal None, c)
              | inr msg => '(o, c) ← fail msg c; Some (false, o, c)
              end
          | _ => Some (true, o, c)
          end
      end
  end.
Fixpoint bind_params_x (ex : oqmlNode -> C -> X_) (ps : list (string * option oqmlNode)) (args : list oqmlNode) c : X_ :=
  match ps with
  | [] => Some (Normal None, c)
  | (ident, default_) :: ps =>
      '(o, c) ← match args, default_ with
                | arg :: _, _ | [], Some arg => ex arg (push_arg_level c)
                | [], None => fail ("mandatory parameter '" ++ ident ++ "' is missing") (push_arg_level c)
                end;
      let c := pop_arg_level c in
      match o with
      | Normal al => al ← al; c ← push_x c ident (head al); bind_params_x ex ps (tail args) c
      | _ => Some (o, c)
      end
  end.
Definition realize_x (ex : oqmlNode -> C -> X_) (f : oqmlFunction) (args : list oqmlNode) c : X_ :=
  '(o, c) ← next_ (bind_params_x ex (params f) args (push_local_table c))
              (fun _ c => match body f with Some b => ex b c | None => Some (Normal None, c) end);
  '(_, c) ← pop_local_table c;
  Some (o, c).

Fixpoint exec (fuel : nat) (in_call : bool) (n : oqmlNode) c : X_ :=
  match fuel with
  | O => None
  | S fuel =>
    let ex := exec fuel in_call in
    match n with
    | oqmlExpr x =>
        '(r, c) ← eval_expr x c;
        match r with inl al => Some (Normal (Some al), c) | inr msg => fail msg c end
    | oqmlComma l r =>
        next_ (ex l c) (fun al_left c =>
          _ ← al_left; next_ (ex r c) (fun al_right c => _ ← al_right; Some (Normal al_right, c)))
    | oqmlCompoundStatement None => Some (Normal None, c)
    | oqmlCompoundStatement (Some n) => next_ (ex n c) (fun _ c => Some (Normal (Some []), c))
    | oqmlIf qcond qthen qelse is_cond_expr =>
        next_ (ex qcond c) (fun al c =>
          al ← al;
          r ← match al with
              | [] => Some (inl false)
              | [a] => Some (check_logical a)
              | _ => match qthen with None => Some (inl true) | Some _ => None end
              end;
          match r with
          | inr msg => fail msg c
          | inl b =>
              match if (b : bool) then qthen else qelse with
              | None => Some (Normal (Some []), c)
              | Some n => next_ (ex n c) (fun al c => Some (Normal (if is_cond_expr then al else Some []), c))
              end
          end)
    | oqmlForEach ident in_ action =>
        next_ (ex in_ c) (fun al c =>
          al ← al;
          let xs := match al with a :: _ => default [a] (as_coll a) | [] => [] end in
          loop_end match action with
                   | Some action => each_x ex ident action xs c
                   | None => Some (Normal None, c)
                   end)
    | oqmlWhile cond body => loop_end (while_x fuel ex cond body c)
    | oqmlDoWhile cond body => loop_end (do_while_x fuel ex cond body c)
    | oqmlForDo ident start cond next body =>
        c ← match ident with Some ident => push_x c ident None | None => Some c end;
        next_opt ex start c (fun c =>
          '(early, o, c) ← for_do_x fuel ex cond next body c;
          if (early : bool) then Some (o, c)
          else
            c ← match ident with Some ident => pop_x c ident | None => Some c end;
            Some (out_of_loop o, c))
    | oqmlThrow ql =>
        next_ (ex ql c) (fun al c =>
          al ← al;
          fail match al with
               | [a] => default "string expected"%string (as_string a)
               | _ => "string argument expected"
               end c)
    | oqmlBreak level => Some (Broken (s32 (default 1 level)), c)
    | oqmlReturn ql =>
        if negb in_call then fail "return must be performed in a function" c
        else
          match ql with
          | None => Some (Returned None, c)
          | Some ql => next_ (ex ql c) (fun al c => al ← al; Some (Returned (head al), c))
          end
    | oqmlCall name args =>
        match functions name with
        | None => fail ("unknown function '" ++ name ++ "'") c
        | Some f =>
            '(o, c) ← realize_x (exec fuel true) f args c;
            Some (match o with Returned r => Normal (Some (option_list r)) | _ => o end, c)
        end
    end
  end.

(** ** Nested jumps

    A program whose breaks leave at most the [d] loops around them, of which the
    innermost [oqmlForDo] hides the others, and whose returns are in functions. *)
Fixpoint nested (d : Z) (r : bool) (n : oqmlNode) {struct n} : bool :=
  let opt d r n := match n with Some n => nested d r n | None => true end in
  match n with
  | oqmlExpr _ => true
  | oqmlComma l r' => nested d r l && nested d r r'
  | oqmlCompoundStatement n => opt d r n
  | oqmlIf qcond qthen qelse _ => nested 0 false qcond && opt d r qthen && opt d r qelse
  | oqmlForEach _ in_ action => nested 0 false in_ && opt (d + 1) r action
  | oqmlWhile cond body | oqmlDoWhile cond body => nested 0 false cond && opt (d + 1) r body
  | oqmlForDo _ start cond next body => opt 0 false start && opt 0 false cond && opt 0 false next && opt 1 r body
  | oqmlThrow ql => nested 0 false ql
  | oqmlBreak level => (1 <=? s32 (default 1 level)) && (s32 (default 1 level) <=? d)
  | oqmlReturn ql => r && opt 0 false ql
  | oqmlCall _ args => forallb (nested 0 false) args
  end.
Definition nested_opt (d : Z) (r : bool) (n : option oqmlNode) : bool :=
  match n with Some n => nested d r n | None => true end.
Definition nested_function (f : oqmlFunction) : bool :=
  forallb (fun p => nested_opt 0 false (snd p)) (params f) && nested_opt 0 true (body f).

(** ** The code implements the structured jumps *)

Definition ok s (L cl : Z) c : Prop := oqmlLoopLevel s = L /\ oqmlCallLevel s = cl /\ ctx s = c.

(** A result of the code stands for an outcome, in [d] loops of the [L] that run. *)
Definition sim (L cl d : Z) (r : bool) (o : outcome) c (st : status) (al : option (list A)) s : Prop :=
  match o with
  | Normal al' => st = Success /\ al = al' /\ ok s L cl c
  | Broken k => 1 <= k <= d /\ st = error OQML_BREAK_MAGIC /\ oqmlBreakLevel s = L - k + 1 /\ ok s L cl c
  | Returned a => r = true /\ st = Status OQML_RETURN_MAGIC a /\ ok s L cl c
  | Failed msg => st = error msg /\ reserved msg = false /\ ctx s = c
  end.
Definition related (L cl d : Z) (r : bool) (x : X_) (y : R) : Prop :=
  forall o c, x = Some (o, c) -> exists st al s, y = Some (st, al, s) /\ sim L cl d r o c st al s.

Lemma related_none L cl d r y : related L cl d r None y.
Proof. by intros o c. Qed.

Lemma related_normal L cl d r al c s : ok s L cl c -> related L cl d r (Some (Normal al, c)) (Some (Success, al, s)).
Proof. intros H o c' [= <- <-]. by eexists _, _, _. Qed.

Lemma related_fail L cl d r msg c al s : ctx s = c -> related L cl d r (fail msg c) (Some (error msg, al, s)).
Proof.
  intros H o c'. unfold fail. destruct (reserved msg) eqn:E; [done|]. intros [= <- <-]. by eexists _, _, _.
Qed.

Lemma related_weaken L cl d d' (r r' : bool) x y :
  d <= d' -> (r -> r') -> related L cl d r x y -> related L cl d' r' x y.
Proof.
  intros Hd Hr H o c E. destruct (H o c E) as (st & al & s & -> & Hs). eexists _, _, _. split; [done|].
  destruct o; cbn in *; [done| | |done].
  - destruct Hs as [? ?]. split; [lia|done].
  - destruct Hs as [-> ?]. split; [|done]. by destruct r'; [|exfalso; apply Hr].
Qed.

Lemma related_next L cl d r x y k k' :
  related L cl d r x y ->
  (forall al c s, ok s L cl c -> related L cl d r (k al c) (k' al s)) ->
  related L cl d r (next_ x k) (then_ y k').
Proof.
  intros H Hk o c E. unfold next_ in E. destruct x as [[o1 c1]|]; [|done]. cbn in E.
  destruct (H o1 c1 eq_refl) as (st & al & s & -> & Hs). unfold then_. cbn.
  destruct o1; cbn in Hs; simplify_eq.
  - destruct Hs as (-> & -> & Hok). by apply (Hk al0 c1 s).
  - exists st, al, s. split; [by destruct Hs as (_ & -> & _)|done].
  - exists st, al, s. split; [by destruct Hs as (_ & -> & _)|done].
  - exists st, al, s. split; [by destruct Hs as (-> & _)|done].
Qed.

Lemma sim_ctx L cl d r o c st al s : sim L cl d r o c st al s -> ctx s = c.
Proof. destruct o; cbn; unfold ok; intuition. Qed.

Definition is_normal (o : outcome) : bool := match o with Normal _ => true | _ => false end.

(** A jump does not depend on the list, and passes the symbols that are popped. *)
Lemma sim_jump L cl d r o c st al s c' al' :
  sim L cl d r o c st al s -> is_normal o = false ->
  sim L cl d r o c' st al' (set_ctx s c') /\ exists msg a, st = Status msg a.
Proof.
  destruct o; cbn; unfold ok; intros Hs E; try done.
  - destruct Hs as (? & -> & ?). split; [naive_solver|by eexists _, _].
  - destruct Hs as (? & -> & ?). split; [naive_solver|by eexists _, _].
  - destruct Hs as (-> & ?). split; [naive_solver|by eexists _, _].
Qed.

Lemma related_jump L cl d r o c st al s c' :
  sim L cl d r o c st al s -> is_normal o = false ->
  related L cl d r (Some (o, c')) (Some (st, None, set_ctx s c')).
Proof. intros Hs E o' c2 [= <- <-]. eexists _, _, _. split; [done|]. by eapply sim_jump. Qed.

(** [ev] simulates [ex] in calls of depth [cl]. *)
Definition simulates (cl : Z) (ex : oqmlNode -> C -> X_) (ev : evaluator) : Prop :=
  forall L n d r s c, nested d r n -> 0 <= d <= L -> ok s L cl c -> related L cl d r (ex n c) (ev n s).

Lemma push_eq s ident a : push s ident a = (c ← push_x (ctx s) ident a; Some (set_ctx s c)).
Proof. unfold push, push_x. by destruct (pushSymbol _ _ _ _ _ _) as [[? ?]|]. Qed.
Lemma pop_eq s ident : pop s ident = (c ← pop_x (ctx s) ident; Some (set_ctx s c)).
Proof. unfold pop, pop_x. by destruct (popSymbol _ _ _) as [[? ?]|]. Qed.

Section Simulates.
Context (cl : Z) (ex : oqmlNode -> C -> X_) (ev : evaluator) (H : simulates cl ex ev).

Lemma related_opt L d r n s c k k' :
  nested_opt d r n -> 0 <= d <= L -> ok s L cl c ->
  (forall c s, ok s L cl c -> related L cl d r (k c) (k' s)) ->
  related L cl d r (next_opt ex n c k) (eval_opt ev n s k').
Proof.
  intros Hn Hd Hs Hk. destruct n as [n|]; cbn in *; [|by apply Hk].
  apply related_next; [by apply H|]. intros. by apply Hk.
Qed.

Lemma related_loop_end L d r x y :
  related (L + 1) cl (d + 1) r x y ->
  related L cl d r (loop_end x) ('(st, _, s) ← y; leave (L + 1) st (incr_loop s (-1))).
Proof.
  intros Hx o c E. unfold loop_end in E. destruct x as [[o1 c1]|]; [|done]. cbn in E. injection E as <- <-.
  destruct (Hx o1 c1 eq_refl) as (st & al & s & -> & Hs). cbn [mbind option_bind]. unfold leave.
  destruct o1; cbn in Hs.
  - destruct Hs as (-> & _ & Hok & ? & ?). eexists _, _, _. split; [done|]. cbn. split; [done|]. split; [done|].
    split; cbn; [lia|done].
  - destruct Hs as (Hk & -> & Hb & Hok & ? & ?). cbn [oqml_is_break error]. rewrite String.eqb_refl. cbn [andb incr_loop oqmlBreakLevel].
    rewrite Hb. cbn [out_of_loop]. destruct (Z.eqb_spec (L + 1 - k + 1) (L + 1)), (Z.eqb_spec k 1); try lia.
    + eexists _, _, _. split; [done|]. cbn. split; [done|]. split; [done|]. split; cbn; [lia|done].
    + eexists _, _, _. split; [done|]. cbn. split; [lia|]. split; [done|]. split; [lia|]. split; cbn; [lia|done].
  - destruct Hs as (-> & -> & Hok & ? & ?). eexists _, _, _. split; [done|]. cbn. split; [done|]. split; [done|].
    split; cbn; [lia|done].
  - destruct Hs as (-> & Hr & Hc). eexists _, _, _. split.
    + unfold reserved in Hr. apply orb_false_iff in Hr as [Hr _]. cbn [oqml_is_break error]. by rewrite Hr.
    + by cbn.
Qed.

Lemma ok_set_ctx s L c c' : ok s L cl c -> ok (set_ctx s c') L cl c'.
Proof. by intros (? & ? & ?). Qed.

Lemma push_related L d r ident a c s k k' :
  ok s L cl c -> (forall c s, ok s L cl c -> related L cl d r (k c) (k' s)) ->
  related L cl d r (push_x c ident a ≫= k) (push s ident a ≫= k').
Proof.
  intros Hs Hk. rewrite push_eq. destruct Hs as (? & ? & E) eqn:Es. rewrite E.
  destruct (push_x c ident a) as [c'|]; [|apply related_none]. apply Hk. by apply (ok_set_ctx s L c).
Qed.

Lemma each_related L d r ident action xs : nested d r action -> 0 <= d <= L -> forall c s,
  ok s L cl c -> related L cl d r (each_x ex ident action xs c) (each ev ident action xs s).
Proof.
  intros Hn Hd. induction xs as [|x xs IH]; intros c s Hs; cbn [each each_x];
    [by apply related_normal|].
  rewrite push_eq. destruct Hs as (? & ? & E). rewrite E.
  destruct (push_x c ident (Some x)) as [c'|]; [|apply related_none]. cbn [mbind option_bind].
  pose proof (H L action d r (set_ctx s c') c' Hn Hd ltac:(done)) as Ha.
  intros o c2 E2. destruct (ex action c') as [[o1 c1]|] eqn:E1; [|done]. cbn [mbind option_bind] in E2.
  destruct (Ha o1 c1 eq_refl) as (st & al & s1 & -> & Hs1). cbn [mbind option_bind].
  rewrite pop_eq, (sim_ctx _ _ _ _ _ _ _ _ _ Hs1). destruct (pop_x c1 ident) as [c3|]; [|done].
  cbn [mbind option_bind] in *. destruct (is_normal o1) eqn:En.
  - destruct o1; try done. destruct Hs1 as (-> & _ & Hok). apply (IH c3 (set_ctx s1 c3)); [by apply (ok_set_ctx s1 L c1)|done].
  - destruct (sim_jump _ _ _ _ _ _ _ _ _ c3 None Hs1 En) as [_ (msg & a & ->)].
    apply (related_jump _ _ _ _ _ _ _ _ _ c3 Hs1 En). by destruct o1.
Qed.

(** A condition is tested where no jump can leave it. *)
Lemma related_nested L d r n s c :
  nested 0 false n -> 0 <= d <= L -> ok s L cl c -> related L cl d r (ex n c) (ev n s).
Proof. intros Hn Hd Hs. apply (related_weaken L cl 0 d false r); [lia|done|]. apply H; [done|lia|done]. Qed.

Lemma test_related L d r n s c k k' :
  nested 0 false n -> 0 <= d <= L -> ok s L cl c ->
  (forall b c s, ok s L cl c -> related L cl d r (k b c) (k' b s)) ->
  related L cl d r (test (ex n c) k) (check (ev n s) k').
Proof.
  intros Hn Hd Hs Hk. apply related_next; [by apply related_nested|]. intros al c1 s1 Hok.
  destruct (condition al) as [[b|msg]|]; [by apply Hk| |apply related_none].
  apply related_fail. by destruct Hok as (_ & _ & ->).
Qed.

Lemma while_related L d r cond body k : nested 0 false cond -> nested_opt d r body -> 0 <= d <= L ->
  forall c s, ok s L cl c -> related L cl d r (while_x k ex cond body c) (while k ev cond body s).
Proof.
  intros Hc Hb Hd. induction k as [|k IH]; intros c s Hs; [apply related_none|]. cbn [while while_x].
  apply test_related; [done..|]. intros [|] c1 s1 Hok; [by apply related_opt|by apply related_normal].
Qed.

Lemma do_while_related L d r cond body k : nested 0 false cond -> nested_opt d r body -> 0 <= d <= L ->
  forall c s, ok s L cl c -> related L cl d r (do_while_x k ex cond body c) (do_while k ev cond body s).
Proof.
  intros Hc Hb Hd. induction k as [|k IH]; intros c s Hs; [apply related_none|]. cbn [do_while do_while_x].
  apply related_opt; [done..|]. intros c1 s1 Hok. apply test_related; [done..|].
  intros [|] c2 s2 Hok2; [by apply IH|by apply related_normal].
Qed.

(** The loop of oqmlForDo at level [L], which only a failure leaves early. *)
Definition related_for L r (x : option (bool * outcome * C)) (y : option (bool * status * state)) : Prop :=
  forall early o c, x = Some (early, o, c) -> exists st al s, y = Some (early, st, s)
    /\ sim L cl 1 r o c st al s /\ (early = true -> exists msg, o = Failed msg).

Lemma for_do_related L r cond next body k :
  nested_opt 0 false cond -> nested_opt 0 false next -> nested_opt 1 r body -> 1 <= L ->
  forall c s, ok s L cl c -> related_for L r (for_do_x k ex cond next body c) (for_do k ev cond next body s).
Proof.
  intros Hc Hn Hb HL. induction k as [|k IH]; intros c s Hs; [by intros ? ? ?|]. cbn [for_do for_do_x].
  assert (forall c s, ok s L cl c -> related_for L r
    ('(o, c) ← next_opt ex body c (fun c => next_opt ex next c (fun c => Some (Normal None, c)));
     match o with Normal _ => for_do_x k ex cond next body c | _ => Some (false, o, c) end)
    ('(st, _, s) ← eval_opt ev body s (fun s => eval_opt ev next s (fun s => Some (Success, None, s)));
     match st with Success => for_do k ev cond next body s | _ => Some (false, st, s) end)) as Hturn.
  { clear c s Hs. intros c s Hs early o c2 E.
    assert (related L cl 1 r (next_opt ex body c (fun c => next_opt ex next c (fun c => Some (Normal None, c))))
      (eval_opt ev body s (fun s => eval_opt ev next s (fun s => Some (Success, None, s))))) as Hr.
    { apply related_opt; [done|lia|done|]. intros c1 s1 Hok. destruct next as [n|]; cbn [next_opt eval_opt].
      - apply related_next; [apply related_nested; done || lia|]. intros. by apply related_normal.
      - by apply related_normal. }
    destruct (next_opt _ _ _ _) as [[o1 c1]|]; [|done]. destruct (Hr o1 c1 eq_refl) as (st & al & s1 & -> & Hs1).
    cbn [mbind option_bind] in *. destruct (is_normal o1) eqn:En.
    - destruct o1; try done. destruct Hs1 as (-> & _ & Hok). by apply (IH c1 s1).
    - destruct (sim_jump _ _ _ _ _ _ _ _ _ c1 None Hs1 En) as [_ (msg & a & ->)].
      assert (Some (false, o1, c1) = Some (early, o, c2)) as [= <- <- <-] by (by destruct o1).
      by exists (Status msg a), al, s1. }
  destruct cond as [n|]; [|by apply Hturn].
  pose proof (related_nested L 1 r n s c Hc ltac:(lia) Hs) as Hr.
  pose proof (H L n 0 false s c Hc ltac:(lia) Hs) as Hr0.
  intros early o c2 E. destruct (ex n c) as [[o1 c1]|]; [|done].
  destruct (Hr o1 c1 eq_refl) as (st & al & s1 & Ev & Hs1), (Hr0 o1 c1 eq_refl) as (st0 & al0 & s0 & Ev0 & Hs0).
  rewrite Ev. cbn [mbind option_bind] in *. destruct o1; cbn in Hs1, Hs0.
  - destruct Hs1 as (-> & -> & Hok). destruct (condition al1) as [[[|]|msg]|]; [| | |done]; cbn [mbind option_bind] in *.
    + by apply (Hturn c1 s1).
    + simplify_eq. by exists Success, None, s1.
    + pose proof (related_fail L cl 1 r msg c1 None s1 (proj2 (proj2 Hok))) as Hf.
      destruct (fail msg c1) as [[o2 c3]|]; [|done]. cbn in E. simplify_eq.
      destruct (Hf o c2 eq_refl) as (st & al & s2 & [= <- <- <-] & Hs2). by exists (error msg), None, s1.
  - lia.
  - by destruct Hs0.
  - simplify_eq. exists st, al, s1. split; [by destruct Hs1 as (-> & _)|]. split; [done|]. by exists msg.
Qed.

Lemma bind_params_related L ps : 0 <= L -> Forall (fun p => nested_opt 0 false (snd p)) ps ->
  forall args c s, Forall (fun n => nested 0 false n) args -> ok s L cl c ->
  related L cl 0 true (bind_params_x ex ps args c)
    ('(st, s) ← bind_params ev ps args s; Some (st, None, s)).
Proof.
  intros HL. induction ps as [|[ident default_] ps IH]; intros Hps args c s Ha Hs; cbn [bind_params bind_params_x];
    [by apply related_normal|].
  apply Forall_cons in Hps as [Hp Hps]. cbn [snd] in Hp.
  assert (ok (set_ctx s (push_arg_level (ctx s))) L cl (push_arg_level c)) as Hs'
    by (destruct Hs as (? & ? & ->); done).
  set (s' := set_ctx s (push_arg_level (ctx s))) in *. set (c' := push_arg_level c) in *.
  assert (related L cl 0 true
    (match args, default_ with
     | arg :: _, _ | [], Some arg => ex arg c'
     | [], None => fail ("mandatory parameter '" ++ ident ++ "' is missing") c'
     end)
    (match args, default_ with
     | arg :: _, _ => ev arg s'
     | [], Some arg => ev arg s'
     | [], None => Some (error ("mandatory parameter '" ++ ident ++ "' is missing"), None, s')
     end)) as Hr.
  { destruct args as [|arg args]; [destruct default_ as [arg|]|].
    - by apply related_nested.
    - apply related_fail. by destruct Hs' as (_ & _ & ->).
    - apply Forall_cons in Ha as [Ha _]. by apply related_nested. }
  intros o c2 E. destruct (match args with [] => _ | _ => _ end) as [[o1 c1]|] in E, Hr; [|done].
  destruct (Hr o1 c1 eq_refl) as (st & al & s1 & -> & Hs1). cbn [mbind option_bind] in *.
  rewrite (sim_ctx _ _ _ _ _ _ _ _ _ Hs1). destruct (is_normal o1) eqn:En.
  - destruct o1; try done. destruct Hs1 as (-> & <- & Hok). destruct al as [al|]; [|done]. cbn [mbind option_bind] in *.
    revert E. rewrite push_eq. cbn [set_ctx ctx].
    destruct (push_x (pop_arg_level c1) ident (head al)) as [c3|]; [|done]. cbn [mbind option_bind]. intros E.
    refine (IH Hps (tail args) c3 _ _ _ o c2 E).
    + by destruct args; [|apply Forall_cons in Ha as [_ Ha]].
    + by apply (ok_set_ctx _ L (pop_arg_level c1)), (ok_set_ctx s1 L c1).
  - destruct (sim_jump _ _ _ _ _ _ _ _ _ (pop_arg_level c1) None Hs1 En) as [Hs2 (msg & a & ->)].
    assert (Some (o1, pop_arg_level c1) = Some (o, c2)) as [= <- <-] by (by destruct o1).
    by eexists _, _, _.
Qed.

Lemma realize_related L f args c s :
  0 <= L -> nested_function f -> Forall (fun n => nested 0 false n) args -> ok s L cl c ->
  related L cl 0 true (realize_x ex f args c) (realize ev f args s).
Proof.
  intros HL [Hp%forallb_True Hb]%andb_True Ha Hs o c2 E. unfold realize, realize_x in *.
  assert (ok (set_ctx s (push_local_table (ctx s))) L cl (push_local_table c)) as Hs'
    by (destruct Hs as (? & ? & ->); done).
  pose proof (bind_params_related L (params f) HL Hp args _ _ Ha Hs') as Hr.
  set (s' := set_ctx s (push_local_table (ctx s))) in *.
  assert (related L cl 0 true
    (next_ (bind_params_x ex (params f) args (push_local_table c))
       (fun _ c => match body f with Some b => ex b c | None => Some (Normal None, c) end))
    ('(st, s) ← bind_params ev (params f) args s';
     match st with
     | Success => match body f with Some b => ev b s | None => Some (Success, None, s) end
     | _ => Some (st, None, s)
     end)) as Hb'.
  { intros o1 c1 E1. unfold next_ in E1. destruct (bind_params_x _ _ _ _) as [[o3 c3]|]; [|done].
    destruct (Hr o3 c3 eq_refl) as (st & al & s3 & Ey & Hs3). destruct (bind_params _ _ _ _) as [[st' s4]|]; [|done].
    injection Ey as -> <- ->. cbn [mbind option_bind] in *. destruct (is_normal o3) eqn:En.
    - destruct o3; try done. destruct Hs3 as (-> & _ & Hok). destruct (body f) as [b|].
      + by apply (H L b 0 true s3 c3 Hb).
      + by apply (related_normal L cl 0 true None c3 s3).
    - destruct (sim_jump _ _ _ _ _ _ _ _ _ c3 None Hs3 En) as [_ (msg & a & ->)].
      assert (Some (o3, c3) = Some (o1, c1)) as [= <- <-] by (by destruct o3). by eexists _, _, _. }
  destruct (next_ _ _) as [[o1 c1]|]; [|done]. destruct (Hb' o1 c1 eq_refl) as (st & al & s1 & Ey & Hs1).
  cbn [mbind option_bind] in *. destruct (bind_params _ _ _ _) as [[st0 s0]|]; [|done]. cbn [mbind option_bind] in *.
  rewrite Ey. cbn [mbind option_bind]. rewrite (sim_ctx _ _ _ _ _ _ _ _ _ Hs1).
  destruct (pop_local_table c1) as [[st3 c3]|]; [|done]. cbn [mbind option_bind] in *. injection E as -> ->.
  exists st, al, (set_ctx s1 c2). split; [done|]. destruct (is_normal o) eqn:En.
  - destruct o; try done. destruct Hs1 as (-> & -> & Hok). split; [done|]. split; [done|]. by apply (ok_set_ctx s1 L c1).
  - by eapply sim_jump.
Qed.

End Simulates.

Lemma related_call L cl d r f args c s fuel :
  simulates (cl + 1) (exec fuel true) (eval fuel) -> 0 <= L -> 0 <= d -> nested_function f ->
  Forall (fun n => nested 0 false n) args -> ok s L cl c ->
  related L cl d r
    ('(o, c) ← realize_x (exec fuel true) f args c;
     Some (match o with Returned r => Normal (Some (option_list r)) | _ => o end, c))
    ('(st, al, s) ← realize (eval fuel) f args (incr_call s 1);
     let s := incr_call s (-1) in
     Some match st with
          | Status _ r => if oqml_is_return st then (Success, Some (option_list r), s) else (st, al, s)
          | Success => (Success, al, s)
          end).
Proof.
  intros Hsim HL Hd Hf Ha Hs o c2 E.
  assert (ok (incr_call s 1) L (cl + 1) c) as Hs' by (destruct Hs as (<- & <- & <-); done).
  pose proof (realize_related (cl + 1) _ _ Hsim L f args c _ HL Hf Ha Hs') as Hr.
  destruct (realize_x _ _ _ _) as [[o1 c1]|]; [|done]. destruct (Hr o1 c1 eq_refl) as (st & al & s1 & -> & Hs1).
  cbn [mbind option_bind] in *. injection E as <- <-.
  assert (forall s, ok s L (cl + 1) c1 -> ok (incr_call s (-1)) L cl c1) as Hok
    by (intros s2 (? & ? & ?); split_and!; cbn; done || lia).
  destruct o1; cbn in Hs1.
  - destruct Hs1 as (-> & -> & ?). eexists _, _, _. split; [done|]. cbn. auto.
  - lia.
  - destruct Hs1 as (_ & -> & ?). cbn [oqml_is_return]. rewrite String.eqb_refl.
    eexists _, _, _. split; [done|]. cbn. auto.
  - destruct Hs1 as (-> & Hm & ?). cbn [oqml_is_return error]. unfold reserved in Hm.
    pose proof Hm as [_ ->]%orb_false_iff. eexists _, _, _. split; [done|]. by cbn.
Qed.

(** Every function is nested. *)
Context (Hfunctions : forall name f, functions name = Some f -> nested_function f).

Lemma push_opt_related L cl d r ident c s k k' :
  ok s L cl c -> (forall c s, ok s L cl c -> related L cl d r (k c) (k' s)) ->
  related L cl d r ((match ident with Some ident => push_x c ident None | None => Some c end) ≫= k)
    (push_opt s ident ≫= k').
Proof.
  intros Hs Hk. destruct ident as [ident|]; cbn [push_opt]; [by apply push_related|by apply Hk].
Qed.

Lemma for_do_end L cl d r ident x y :
  related_for cl (L + 1) r x y -> 0 <= d ->
  related L cl d r
    ('(early, o, c) ← x;
     if (early : bool) then Some (o, c)
     else c ← match ident with Some ident => pop_x c ident | None => Some c end; Some (out_of_loop o, c))
    ('(early, st, s) ← y;
     if (early : bool) then Some (st, None, s)
     else s ← pop_opt (incr_loop s (-1)) ident; Some (if oqml_is_break st then Success else st, Some [], s)).
Proof.
  intros H Hd o c E. destruct x as [[[early o1] c1]|]; [|done]. destruct (H early o1 c1 eq_refl) as (st & al & s & -> & Hs & He).
  cbn [mbind option_bind] in *. destruct early.
  { injection E as <- <-. destruct (He eq_refl) as [msg ->]. by exists st, None, s. }
  assert (pop_opt (incr_loop s (-1)) ident
    = (c ← match ident with Some ident => pop_x c1 ident | None => Some c1 end; Some (set_ctx (incr_loop s (-1)) c))) as ->.
  { destruct ident; cbn [pop_opt]; [rewrite pop_eq; cbn; by rewrite (sim_ctx _ _ _ _ _ _ _ _ _ Hs)|].
    cbn. rewrite <- (sim_ctx _ _ _ _ _ _ _ _ _ Hs). by destruct s. }
  destruct (match ident with Some _ => _ | None => _ end) as [c3|]; [|done]. cbn [mbind option_bind] in *. injection E as <- <-.
  assert (forall c, ok s (L + 1) cl c1 -> ok (set_ctx (incr_loop s (-1)) c) L cl c) as Hok
    by (intros c (? & ? & ?); split_and!; cbn; done || lia).
  destruct o1; cbn in Hs.
  - destruct Hs as (-> & _ & ?). eexists _, _, _. split; [done|]. cbn. auto.
  - destruct Hs as (Hk & -> & _ & ?). assert (k = 1) as -> by lia. cbn [oqml_is_break error]. rewrite String.eqb_refl.
    eexists _, _, _. split; [done|]. cbn. auto.
  - destruct Hs as (-> & -> & ?). eexists _, _, _. split; [done|]. cbn. auto.
  - destruct Hs as (-> & Hm & ?). eexists _, _, _. split; [done|]. unfold reserved in Hm.
    pose proof Hm as [Hb _]%orb_false_iff. cbn [oqml_is_break error]. rewrite Hb. by cbn.
Qed.

Lemma simulation fuel : forall cl, 0 <= cl -> simulates cl (exec fuel (negb (cl =? 0))) (eval fuel).
Proof.
  induction fuel as [|fuel IH]; intros cl Hcl L n d r s c Hn Hd Hs; [apply related_none|].
  pose proof (IH cl Hcl) as H. cbn [exec eval]. pose proof Hs as (EL & Ecl & Ec).
  assert (ok (incr_loop s 1) (L + 1) cl c) as Hs1 by (split_and!; cbn; done || lia).
  destruct n as [x|n1 n2|[n|]|qcond qthen qelse b|ident in_ action|cond body|cond body|ident start cond next body|ql|level|ql|f args];
    cbn [nested] in Hn; rewrite ?andb_True in Hn.
  - rewrite Ec. destruct (eval_expr x c) as [[[al|msg] c']|]; cbn [mbind option_bind]; [| |apply related_none].
    + apply related_normal. by apply (ok_set_ctx cl s L c).
    + by apply related_fail.
  - destruct Hn as [Hn1 Hn2]. apply related_next; [by apply H|]. intros al c1 s1 Hok1.
    destruct al as [al|]; [|apply related_none]. cbn [mbind option_bind].
    apply related_next; [by apply H|]. intros al2 c2 s2 Hok2. destruct al2; [|apply related_none]. by apply related_normal.
  - apply related_next; [by apply H|]. intros. by apply related_normal.
  - by apply related_normal.
  - destruct Hn as [[Hc Ht] He]. apply related_next; [by eapply related_nested|]. intros al c1 s1 Hok.
    destruct al as [al|]; [|apply related_none]. cbn [mbind option_bind].
    destruct (match al with [] => _ | _ => _ end) as [[b0|msg]|]; cbn [mbind option_bind]; [| |apply related_none].
    + destruct (if b0 then qthen else qelse) as [n|] eqn:En; [|by apply related_normal].
      apply related_next; [apply H; [by destruct b0; subst|done..]|]. intros. by apply related_normal.
    + apply related_fail. by destruct Hok as (_ & _ & ->).
  - destruct Hn as [Hi Ha]. apply related_next; [by eapply related_nested|]. intros al c1 s1 Hok.
    destruct al as [al|]; [|apply related_none]. cbn [mbind option_bind].
    assert (ok (incr_loop s1 1) (L + 1) cl c1) as Hok1
      by (destruct Hok as (? & ? & ?); split_and!; cbn; done || lia).
    replace (oqmlLoopLevel (incr_loop s1 1)) with (L + 1) by (by destruct Hok1 as (-> & _)).
    apply related_loop_end. destruct action as [n|]; [|by apply related_normal].
    apply each_related; done || lia.
  - destruct Hn as [Hc Hb]. replace (oqmlLoopLevel (incr_loop s 1)) with (L + 1) by (by destruct Hs1 as (-> & _)).
    apply related_loop_end, while_related; done || lia.
  - destruct Hn as [Hc Hb]. replace (oqmlLoopLevel (incr_loop s 1)) with (L + 1) by (by destruct Hs1 as (-> & _)).
    apply related_loop_end, do_while_related; done || lia.
  - destruct Hn as [[[Hst Hc] Hnx] Hb]. apply push_opt_related; [done|]. intros c1 s1 Hok.
    assert (forall c s, ok s L cl c -> ok (incr_loop s 1) (L + 1) cl c) as Hincr
      by (intros c' s' (? & ? & ?); split_and!; cbn; done || lia).
    destruct start as [n|]; cbn [next_opt eval_opt].
    + apply related_next; [by eapply related_nested|]. intros _ c2 s2 Hok2.
      apply for_do_end; [|lia]. apply for_do_related; try done; [lia|by apply Hincr].
    + apply for_do_end; [|lia]. apply for_do_related; try done; [lia|by apply Hincr].
  - apply related_next; [by eapply related_nested|]. intros al c1 s1 Hok. destruct al as [al|]; [|apply related_none].
    apply related_fail. by destruct Hok as (_ & _ & ->).
  - destruct Hn as [Hk1 Hk2]. apply Is_true_true in Hk1, Hk2. apply Z.leb_le in Hk1, Hk2.
    rewrite EL. destruct (Z.ltb_spec L (s32 (default 1 level))); [lia|].
    intros o c2 [= <- <-]. eexists _, _, _. split; [done|]. cbn. split_and!; done || lia.
  - rewrite Ecl. destruct (cl =? 0); cbn [negb]; [by apply related_fail|].
    destruct Hn as [Hr Hq]. apply Is_true_true in Hr. subst r. destruct ql as [n|].
    + apply related_next; [by eapply related_nested|]. intros al c1 s1 Hok. destruct al as [al|]; [|apply related_none].
      intros o c2 [= <- <-]. eexists _, _, _. split; [done|]. by cbn.
    + intros o c2 [= <- <-]. eexists _, _, _. split; [done|]. by cbn.
  - destruct (functions f) as [fn|] eqn:Ef; [|by apply related_fail].
    apply forallb_True in Hn. apply related_call; [|lia|lia|by eapply Hfunctions|done|done].
    replace true with (negb (cl + 1 =? 0)) by (by destruct (Z.eqb_spec (cl + 1) 0); [lia|]). apply IH. lia.
Qed.

(** C10: whenever a program with nested jumps, its functions included, has an outcome by
    structured jumps, the code gives that outcome, with the global levels as they were:
    a break of [k] leaves [k] loops and no more, a return its function. The jumps are
    nested when a return is in a function and in no expression, and a break of [k] is
    in [k] loops at least, of which none but the outermost is a for: a break that
    should leave more than a for is hidden by it ([break_hidden_by_for]). *)
Theorem structured_jumps fuel d r n s o c :
  nested d r n -> 0 <= d <= oqmlLoopLevel s -> 0 <= oqmlCallLevel s ->
  exec fuel (negb (oqmlCallLevel s =? 0)) n (ctx s) = Some (o, c) ->
  exists st al s', eval fuel n s = Some (st, al, s')
    /\ sim (oqmlLoopLevel s) (oqmlCallLevel s) d r o c st al s'.
Proof. intros Hn Hd Hc. by apply (simulation fuel _ Hc _ n d r s). Qed.

(** ** Fuel *)

Definition below {B} (x y : option B) : Prop := forall r, x = Some r -> y = Some r.

Lemma below_refl {B} (x : option B) : below x x.
Proof. by intros r. Qed.
Lemma below_bind {B D} (x y : option B) (f g : B -> option D) :
  below x y -> (forall a, below (f a) (g a)) -> below (x ≫= f) (y ≫= g).
Proof. intros H Hf r. destruct x as [a|]; [|done]. rewrite (H a eq_refl). apply Hf. Qed.
Lemma below_then x y k k' :
  below x y -> (forall al s, below (k al s) (k' al s)) -> below (then_ x k) (then_ y k').
Proof. intros H Hk. unfold then_. apply below_bind; [done|]. intros [[[] al] s]; [apply Hk|apply below_refl]. Qed.

#[local] Hint Resolve below_refl : core.

(** Compares two evaluations of the same shape. *)
Ltac below :=
  repeat match goal with
  | |- below (then_ _ _) (then_ _ _) => apply below_then; [|intros]
  | |- below (_ ≫= _) (_ ≫= _) => apply below_bind; [|intros]
  | |- below (match ?x with _ => _ end) _ => destruct x
  | _ => solve [auto]
  end.

Section Below.
Context (ev ev' : evaluator) (H : forall n s, below (ev n s) (ev' n s)).

Lemma eval_opt_below n s k k' : (forall s, below (k s) (k' s)) -> below (eval_opt ev n s k) (eval_opt ev' n s k').
Proof. intros. unfold eval_opt. below. Qed.

Lemma each_below ident action xs : forall s, below (each ev ident action xs s) (each ev' ident action xs s).
Proof. induction xs; intros s; cbn [each]; below. Qed.

Lemma check_below n s k k' : (forall b s, below (k b s) (k' b s)) -> below (check (ev n s) k) (check (ev' n s) k').
Proof. intros. unfold check. below. Qed.

Lemma while_below cond body k k' : (k <= k')%nat -> forall s,
  below (while k ev cond body s) (while k' ev' cond body s).
Proof.
  revert k'. induction k as [|k IH]; intros [|k'] Hk s; cbn [while]; try done; try lia.
  apply check_below. intros [|] s1; [|done]. apply eval_opt_below. intros. apply IH. lia.
Qed.

Lemma do_while_below cond body k k' : (k <= k')%nat -> forall s,
  below (do_while k ev cond body s) (do_while k' ev' cond body s).
Proof.
  revert k'. induction k as [|k IH]; intros [|k'] Hk s; cbn [do_while]; try done; try lia.
  apply eval_opt_below. intros s1. apply check_below. intros [|] s2; [|done]. apply IH. lia.
Qed.

Lemma for_do_below cond next body k k' : (k <= k')%nat -> forall s,
  below (for_do k ev cond next body s) (for_do k' ev' cond next body s).
Proof.
  revert k'. induction k as [|k IH]; intros [|k'] Hk s; cbn [for_do]; try done; try lia.
  assert (forall s, below
    ('(st, _, s) ← eval_opt ev body s (fun s => eval_opt ev next s (fun s => Some (Success, None, s)));
     match st with Success => for_do k ev cond next body s | _ => Some (false, st, s) end)
    ('(st, _, s) ← eval_opt ev' body s (fun s => eval_opt ev' next s (fun s => Some (Success, None, s)));
     match st with Success => for_do k' ev' cond next body s | _ => Some (false, st, s) end)) as Hturn.
  { intros s1. apply below_bind; [do 2 (apply eval_opt_below; intros); done|].
    intros [[[] ?] s2]; [|done]. apply IH. lia. }
  destruct cond as [n|]; [|apply Hturn]. apply below_bind; [apply H|]. intros [[[] al] s1]; [|done].
  apply below_bind; [done|]. intros [[|]|]; [apply Hturn|done..].
Qed.

Lemma bind_params_below ps : forall args s, below (bind_params ev ps args s) (bind_params ev' ps args s).
Proof. induction ps as [|[ident default_] ps IH]; intros args s; cbn [bind_params]; below. Qed.

Lemma realize_below f args s : below (realize ev f args s) (realize ev' f args s).
Proof.
  unfold realize. apply below_bind; [apply bind_params_below|]. intros [st s1]. below.
Qed.

End Below.

Lemma eval_below fuel fuel' : (fuel <= fuel')%nat -> forall n s, below (eval fuel n s) (eval fuel' n s).
Proof.
  revert fuel'. induction fuel as [|fuel IH]; intros [|fuel'] Hf n s; try done; try lia.
  assert (forall n s, below (eval fuel n s) (eval fuel' n s)) as H by (intros; apply IH; lia).
  assert (fuel <= fuel')%nat as Hle by lia.
  pose proof (each_below _ _ H). pose proof (fun n b => while_below _ _ H n b _ _ Hle).
  pose proof (fun n b => do_while_below _ _ H n b _ _ Hle). pose proof (fun n n' b => for_do_below _ _ H n n' b _ _ Hle).
  pose proof (realize_below _ _ H).
  destruct n as [x|n1 n2|[n|]|qcond qthen qelse b|ident in_ action|cond body|cond body|ident start cond next body|ql|level|ql|f args];
    cbn [eval]; below.
  apply eval_opt_below; [done|]. intros. below.
Qed.

Lemma while_ends (I : state -> Prop) (Q : state -> Prop) (m : state -> nat) fuel cond body s :
  (forall s, I s -> exists al b s1, eval fuel cond s = Some (Success, al, s1) /\ condition al = Some (inl b)
    /\ if (b : bool)
       then exists al2 s2, eval fuel body s1 = Some (Success, al2, s2) /\ I s2 /\ (m s2 < m s)%nat
       else Q s1) ->
  I (incr_loop s 1) ->
  exists fuel' s', eval fuel' (oqmlWhile cond (Some body)) s = Some (Success, Some [], incr_loop s' (-1)) /\ Q s'.
Proof.
  intros Hstep HI. assert (forall k s, I s -> (m s < k)%nat ->
    exists s', while k (eval fuel) cond (Some body) s = Some (Success, None, s') /\ Q s') as Hw.
  { induction k as [|k IH]; intros s1 H1 Hm; [lia|]. cbn [while].
    destruct (Hstep s1 H1) as (al & b & s2 & Ec & Eb & Hb). unfold check, then_. rewrite Ec. cbn [mbind option_bind].
    rewrite Eb. cbn [mbind option_bind]. destruct b; [|by exists s2].
    destruct Hb as (al2 & s3 & E3 & H3 & Hm3). cbn [eval_opt]. unfold then_. rewrite E3. cbn [mbind option_bind].
    apply IH; [done|lia]. }
  set (k := S (m (incr_loop s 1))). destruct (Hw k _ HI ltac:(lia)) as (s' & E & HQ).
  exists (S (fuel + k)), s'. split; [|done]. cbn [eval].
  rewrite (while_below (eval fuel) (eval (fuel + k)) (eval_below fuel (fuel + k) ltac:(lia)) cond (Some body) k
    (fuel + k) ltac:(lia) _ _ E). done.
Qed.

(** C26: a while loop whose condition has a boolean value and whose body succeeds
    and decreases a measure ends, with the state in which the condition is false. *)
Theorem while_terminates (I : state -> Prop) (Q : state -> Prop) (m : state -> nat) fuel cond body s :
  (forall s, I s -> exists al b s1, eval fuel cond s = Some (Success, al, s1) /\ condition al = Some (inl b)
    /\ if (b : bool)
       then exists al2 s2, eval fuel body s1 = Some (Success, al2, s2) /\ I s2 /\ (m s2 < m s)%nat
       else Q s1) ->
  I (incr_loop s 1) ->
  exists fuel' s', eval fuel' (oqmlWhile cond (Some body)) s = Some (Success, Some [], incr_loop s' (-1)) /\ Q s'.
Proof. apply while_ends. Qed.

(** ** Breaks out of for loops *)

(** while (x) for (;;) break 2; *)
Definition while_for_break (x : X) : oqmlNode :=
  oqmlWhile (oqmlExpr x) (Some (oqmlForDo None None None None (Some (oqmlBreak (Some 2))))).

Lemma for_break_2 fuel s :
  1 <= oqmlLoopLevel s -> below (eval fuel (oqmlForDo None None None None (Some (oqmlBreak (Some 2)))) s)
    (Some (Success, Some [], set_break s (oqmlLoopLevel s))).
Proof.
  intros Hl r. do 2 (destruct fuel as [|fuel]; [done|]).
  cbn. change (s32 2) with 2. destruct (Z.ltb_spec (oqmlLoopLevel s + 1) 2); [lia|]. cbn.
  intros [= <-]. unfold set_break, incr_loop. cbn. do 3 f_equal; lia.
Qed.

(** A break that should leave a for loop and the while loop around it only
    leaves the for loop: with a condition that is true the program runs for ever. *)
Theorem break_hidden_by_for x a :
  (forall c, eval_expr x c = Some (inl [a], c)) -> check_logical a = inl true ->
  (forall c, exec 5 false (while_for_break x) c = Some (Normal (Some []), c))
  /\ forall fuel s, 0 <= oqmlLoopLevel s -> eval fuel (while_for_break x) s = None.
Proof.
  intros Hx Ha. split; [intros c; cbn; rewrite Hx; cbn; rewrite Ha; cbn; change (s32 2) with 2; done|].
  intros [|fuel] s Hs; [done|]. unfold while_for_break. cbn [eval].
  assert (forall k s, 1 <= oqmlLoopLevel s ->
    while k (eval fuel) (oqmlExpr x) (Some (oqmlForDo None None None None (Some (oqmlBreak (Some 2))))) s = None) as ->;
    [|done|cbn; lia].
  clear s Hs. induction k as [|k IH]; intros s Hs; [done|]. cbn [while]. destruct fuel as [|fuel]; [done|].
  assert (eval (S fuel) (oqmlExpr x) s = Some (Success, Some [a], set_ctx s (ctx s))) as Ex by (cbn; by rewrite Hx).
  unfold check, then_ at 1. rewrite Ex. cbn [mbind option_bind condition]. rewrite Ha.
  cbn [mbind option_bind eval_opt]. unfold then_ at 1.
  pose proof (for_break_2 (S fuel) (set_ctx s (ctx s)) Hs) as Hb.
  destruct (eval (S fuel) (oqmlForDo None None None None _) (set_ctx s (ctx s))) as [r|]; [|done].
  specialize (Hb r eq_refl). injection Hb as <-. cbn [mbind option_bind]. by apply IH.
Qed.

End Flow.

(** ** The properties at concrete programs

    The symbols are a counter, that expressions test and decrement. *)
Module Example.

Inductive expression := Constant (b : bool) | Positive | Decrement | Name (s : string).
Inductive atom := Truth (b : bool) | Text (s : string).

#[local] Instance counter_symbols : Symbols unit atom Z := {|
  has_local_table _ := false;
  push_symbol c _ _ _ _ _ := Some (oqmlSuccess, c);
  set_symbol c _ _ _ _ _ := Some (oqmlSuccess, c);
  pop_symbol c _ _ := Some (oqmlSuccess, c);
  get_symbol c _ := Some None;
  push_local_table c := c;
  pop_local_table c := Some (oqmlSuccess, c);
  push_arg_level c := c;
  pop_arg_level c := c |}.
#[local] Instance atoms : Atoms atom := {|
  as_coll _ := None;
  as_string a := match a with Text s => Some s | Truth _ => None end;
  check_logical a := match a with Truth b => inl b | Text _ => inr "bool expected"%string end |}.
#[local] Instance expressions : Expressions expression atom Z := {|
  eval_expr x c := Some match x with
                        | Constant b => (inl [Truth b], c)
                        | Positive => (inl [Truth (0 <? c)], c)
                        | Decrement => (inl [], c - 1)
                        | Name s => (inl [Text s], c)
                        end |}.

Abbreviation node := (oqmlNode (X := expression)).
Definition test (b : bool) : node := oqmlExpr (Constant b).
Definition no_type (_ : atom) : unit := tt.

(** function f(x) { while (true) return "a"; } *)
Definition f : oqmlFunction (X := expression) :=
  mk_function [("x"%string, None)] (Some (oqmlWhile (test true) (Some (oqmlReturn (Some (oqmlExpr (Name "a"))))))).
Definition functions (name : string) : option (oqmlFunction (X := expression)) :=
  if String.eqb name "f" then Some f else None.
Definition start (c : Z) : state (C := Z) := mk_state 0 0 0 c.
Abbreviation run := (eval no_type functions).

(** while (true) { while (true) break 2; } *)
Definition break_two : node := oqmlWhile (test true) (Some (oqmlWhile (test true) (Some (oqmlBreak (Some 2))))).

Example break_two_runs : run 5 break_two (start 0) = Some (Success, Some [], mk_state 0 1 0 0).
Proof. reflexivity. Qed.

Example call_returns :
  run 6 (oqmlCall "f" [test false]) (start 0) = Some (Success, Some [Text "a"], start 0).
Proof. reflexivity. Qed.

Example return_at_top : run 2 (oqmlReturn None) (start 0)
  = Some (error "return must be performed in a function", None, start 0).
Proof. reflexivity. Qed.

Example too_deep : run 2 (oqmlBreak None) (start 0) = Some (error "level is too deep", None, start 0).
Proof. reflexivity. Qed.

(** break 0 in a loop is not a jump: it leaves every loop with the reserved message. *)
Example break_zero :
  run 4 (oqmlWhile (test true) (Some (oqmlBreak (Some 0)))) (start 0)
  = Some (error OQML_BREAK_MAGIC, Some [], mk_state 0 2 0 0).
Proof. reflexivity. Qed.

(** for (;;) throw "a" *)
Example throw_in_for :
  run 5 (oqmlForDo None None None None (Some (oqmlThrow (oqmlExpr (Name "a"))))) (start 0)
  = Some (error "a", Some [], start 0).
Proof. reflexivity. Qed.

(** A condition that fails leaves the loop level of a for as it was in the loop. *)
Example for_condition_fails :
  run 5 (oqmlForDo None None (Some (oqmlThrow (oqmlExpr (Name "a")))) None None) (start 0)
  = Some (error "a", None, incr_loop (start 0) 1).
Proof. reflexivity. Qed.

Lemma f_nested name g : functions name = Some g -> nested_function g.
Proof. unfold functions. destruct (String.eqb name "f"); [|done]. by intros [= <-]. Qed.

Lemma structured_jumps_witness :
  exists st al s', run 5 break_two (start 0) = Some (st, al, s')
    /\ sim 0 0 0 false (Normal (Some [])) 0 st al s'.
Proof.
  apply (structured_jumps no_type functions f_nested 5 0 false break_two (start 0) (Normal (Some [])) 0);
    cbn; try done; vm_compute; done.
Defined.

Lemma while_terminates_witness :
  exists fuel s', run fuel (oqmlWhile (oqmlExpr Positive) (Some (oqmlExpr Decrement))) (start 3)
    = Some (Success, Some [], incr_loop s' (-1)) /\ ctx s' <= 0.
Proof.
  apply (while_terminates no_type functions (fun _ => True) (fun s => ctx s <= 0) (fun s => Z.to_nat (ctx s)) 1
           (oqmlExpr Positive) (oqmlExpr Decrement) (start 3)); [|done].
  intros s _. exists (Some [Truth (0 <? ctx s)]), (0 <? ctx s), s. split; [by destruct s|]. split; [done|].
  destruct (Z.ltb_spec 0 (ctx s)); [|done].
  exists (Some []), (set_ctx s (ctx s - 1)). split; [done|]. split; [done|]. cbn. lia.
Defined.

Lemma break_hidden_by_for_witness :
  exec no_type functions 5 false (while_for_break (Constant true)) 0 = Some (Normal (Some []), 0)
  /\ run 100 (while_for_break (Constant true)) (start 0) = None.
Proof.
  destruct (break_hidden_by_for no_type functions (Constant true) (Truth true)) as [H1 H2]; [done|done|].
  split; [apply H1|]. by apply H2.
Defined.

End Example.
