(* ===== verification/OqlRefine.v ===== *)
(** * OQL: statements over an abstract symbol table

    The evaluator of OqlFlow only uses the interface [Symbols]: over two
    implementations of it that simulate each other ([Simulation]), a program has the
    same status, the same atoms and the same levels, and leaves related symbols. The
    table of OqlContext and the list of symbols of OqlEnv are such implementations. *)

From Stdlib Require Import Ascii String.
From S2P Require Import Prelude OqlContext OqlEnv OqlFlow.

#[local] Set Warnings "-register-all".
#[local] Arguments option_bind : simpl never.

(** Both are undefined, or their results are related. *)
Abbreviation both_or_none := option_Forall2.

Lemma bind_both {B B' D D'} (P : B -> B' -> Prop) (Q : D -> D' -> Prop) x y f g :
  both_or_none P x y -> (forall a b, P a b -> both_or_none Q (f a) (g b)) ->
  both_or_none Q (x ≫= f) (y ≫= g).
Proof. intros [a b H|] Hf; [by apply Hf|constructor]. Qed.

Lemma some_both {B B'} (P : B -> B' -> Prop) a b : P a b -> both_or_none P (Some a) (Some b).
Proof. by constructor. Qed.
Lemma none_both {B B'} (P : B -> B' -> Prop) : both_or_none P None None.
Proof. constructor. Qed.

(** A value that is related, with the rest of a result. *)
Definition and_ {B C C'} (rel : C -> C' -> Prop) (p : B * C) (q : B * C') : Prop := p.1 = q.1 /\ rel p.2 q.2.

(** What a table promises to the evaluator about another one. *)
Class Simulation {T A C E} `{SC : !Symbols T A C} `{SE : !Symbols T A E} (rel : C -> E -> Prop) := {
  sim_push c e id ty a glob sys :
    rel c e -> both_or_none (and_ rel) (pushSymbol c id ty a glob sys) (pushSymbol e id ty a glob sys);
  sim_set c e id ty a glob sys :
    rel c e -> both_or_none (and_ rel) (setSymbol c id ty a glob sys) (setSymbol e id ty a glob sys);
  sim_pop c e id glob : rel c e -> both_or_none (and_ rel) (popSymbol c id glob) (popSymbol e id glob);
  sim_get c e id : rel c e -> get_symbol c id = get_symbol e id;
  sim_push_frame c e : rel c e -> rel (push_local_table c) (push_local_table e);
  sim_pop_frame c e : rel c e -> both_or_none (and_ rel) (pop_local_table c) (pop_local_table e);
  sim_push_arg c e : rel c e -> rel (push_arg_level c) (push_arg_level e);
  sim_pop_arg c e : rel c e -> rel (pop_arg_level c) (pop_arg_level e) }.

Section Simulated.
Context {T A C E X : Type} `{SC : !Symbols T A C} `{SE : !Symbols T A E} `{AT : !Atoms A}.
Context `{XC : !Expressions X A C} `{XE : !Expressions X A E} (rel : C -> E -> Prop) `{SIM : !Simulation rel}.
Context (sim_expr : forall x c e, rel c e -> both_or_none (and_ rel) (eval_expr x c) (eval_expr x e)).
Context (atom_type : A -> T) (functions : string -> option (oqmlFunction (X := X))).

Abbreviation state := (state (C := C)).
Abbreviation state' := (OqlFlow.state (C := E)).
Abbreviation node := (oqmlNode (X := X)).

Definition same (s : state) (s' : state') : Prop :=
  oqmlLoopLevel s = oqmlLoopLevel s' /\ oqmlBreakLevel s = oqmlBreakLevel s'
  /\ oqmlCallLevel s = oqmlCallLevel s' /\ rel (ctx s) (ctx s').
Abbreviation both_same := (both_or_none same).
Abbreviation both_results := (both_or_none (and_ same)).

Lemma same_set_ctx s s' c e : same s s' -> rel c e -> same (set_ctx s c) (set_ctx s' e).
Proof. unfold same. cbn. intuition. Qed.
Lemma same_incr_loop s s' n : same s s' -> same (incr_loop s n) (incr_loop s' n).
Proof. unfold same. cbn. intuition congruence. Qed.
Lemma same_incr_call s s' n : same s s' -> same (incr_call s n) (incr_call s' n).
Proof. unfold same. cbn. intuition congruence. Qed.
Lemma same_set_break s s' n : same s s' -> same (set_break s n) (set_break s' n).
Proof. unfold same. cbn. intuition congruence. Qed.
Lemma same_ctx s s' : same s s' -> rel (ctx s) (ctx s').
Proof. unfold same. intuition. Qed.
Lemma same_loop s s' : same s s' -> oqmlLoopLevel s = oqmlLoopLevel s'.
Proof. unfold same. intuition. Qed.
Lemma same_break s s' : same s s' -> oqmlBreakLevel s = oqmlBreakLevel s'.
Proof. unfold same. intuition. Qed.
Lemma same_call s s' : same s s' -> oqmlCallLevel s = oqmlCallLevel s'.
Proof. unfold same. intuition. Qed.
Lemma same_push_frame s s' : same s s' ->
  same (set_ctx s (push_local_table (ctx s))) (set_ctx s' (push_local_table (ctx s'))).
Proof. intros H. apply same_set_ctx; [done|]. by apply sim_push_frame, same_ctx. Qed.
Lemma same_push_arg s s' : same s s' -> same (set_ctx s (push_arg_level (ctx s))) (set_ctx s' (push_arg_level (ctx s'))).
Proof. intros H. apply same_set_ctx; [done|]. by apply sim_push_arg, same_ctx. Qed.
Lemma same_pop_arg s s' : same s s' -> same (set_ctx s (pop_arg_level (ctx s))) (set_ctx s' (pop_arg_level (ctx s'))).
Proof. intros H. apply same_set_ctx; [done|]. by apply sim_pop_arg, same_ctx. Qed.
#[local] Hint Resolve same_set_ctx same_incr_loop same_incr_call same_set_break same_ctx
  same_push_frame same_push_arg same_pop_arg : core.

(** Follows two evaluations of the same shape. *)
Ltac follow :=
  repeat match goal with
  | |- both_or_none _ (Some _) (Some _) => apply some_both
  | |- both_or_none _ None None => apply none_both
  | |- and_ _ _ _ => split; [done|cbn; solve [auto]]
  | |- both_or_none _ (match ?x with _ => _ end) (match ?x with _ => _ end) => destruct x
  | |- and_ _ (match ?x with _ => _ end) (match ?x with _ => _ end) => destruct x
  | _ => solve [auto]
  end.

Lemma push_same s s' ident a : same s s' -> both_same (push atom_type s ident a) (push atom_type s' ident a).
Proof.
  intros H. unfold push. eapply bind_both; [by apply sim_push, same_ctx|].
  intros [st c] [st' e] [_ Hr]. apply some_both. by apply same_set_ctx.
Qed.
Lemma pop_same s s' ident : same s s' -> both_same (pop s ident) (pop s' ident).
Proof.
  intros H. unfold pop. eapply bind_both; [by apply sim_pop, same_ctx|].
  intros [st c] [st' e] [_ Hr]. apply some_both. by apply same_set_ctx.
Qed.

Lemma then_same x y k k' :
  both_results x y -> (forall al s s', same s s' -> both_results (k al s) (k' al s')) ->
  both_results (then_ (A := A) x k) (then_ (A := A) y k').
Proof.
  intros H Hk. unfold then_. eapply bind_both; [done|]. intros [[st al] s] [[st' al'] s'] [[= <- <-] Hs].
  destruct st; [by apply Hk|]. by apply some_both.
Qed.

(** A list that was not set is an undefined behaviour of both. *)
Lemma option_both {B D D'} (P : D -> D' -> Prop) (o : option B) f g :
  (forall b, both_or_none P (f b) (g b)) -> both_or_none P (o ≫= f) (o ≫= g).
Proof. intros H. destruct o; [apply H|constructor]. Qed.

Lemma check_same x y k k' :
  both_results x y -> (forall b s s', same s s' -> both_results (k b s) (k' b s')) ->
  both_results (check (A := A) x k) (check (A := A) y k').
Proof.
  intros H Hk. unfold check. apply then_same; [done|]. intros al s s' Hs. apply option_both. intros [b|msg]; [by apply Hk|].
  follow.
Qed.

Lemma leave_same level st s s' : same s s' -> both_results (leave (A := A) level st s) (leave (A := A) level st s').
Proof. intros H. unfold leave. rewrite (same_break _ _ H). follow. Qed.

Section Evaluators.
Context (ev : node -> state -> option (status (A := A) * option (list A) * state)).
Context (ev' : node -> state' -> option (status (A := A) * option (list A) * state')).
Context (H : forall n s s', same s s' -> both_results (ev n s) (ev' n s')).

Lemma eval_opt_same n s s' k k' :
  same s s' -> (forall s s', same s s' -> both_results (k s) (k' s')) ->
  both_results (eval_opt ev n s k) (eval_opt ev' n s' k').
Proof. intros Hs Hk. destruct n as [n|]; cbn [eval_opt]; [|by apply Hk]. apply then_same; auto. Qed.

Lemma each_same ident action xs : forall s s', same s s' ->
  both_results (each atom_type ev ident action xs s) (each atom_type ev' ident action xs s').
Proof.
  induction xs as [|x xs IH]; intros s s' Hs; cbn [each]; [follow|].
  eapply bind_both; [by apply push_same|]. intros s1 s1' H1. eapply bind_both; [by apply H|].
  intros [[st al] s2] [[st' al'] s2'] [[= <- <-] H2]. eapply bind_both; [by apply pop_same|]. intros s3 s3' H3.
  destruct st; [by apply IH|]. follow.
Qed.

Lemma while_same cond body k : forall s s', same s s' ->
  both_results (while k ev cond body s) (while k ev' cond body s').
Proof.
  induction k as [|k IH]; intros s s' Hs; cbn [while]; [follow|].
  apply check_same; [by apply H|]. intros [|] s1 s1' H1; [|follow]. by apply eval_opt_same.
Qed.

Lemma do_while_same cond body k : forall s s', same s s' ->
  both_results (do_while k ev cond body s) (do_while k ev' cond body s').
Proof.
  induction k as [|k IH]; intros s s' Hs; cbn [do_while]; [follow|].
  apply eval_opt_same; [done|]. intros s1 s1' H1. apply check_same; [by apply H|].
  intros [|] s2 s2' H2; [by apply IH|follow].
Qed.

Lemma for_do_same cond next body k : forall s s', same s s' ->
  both_or_none (and_ same) (for_do k ev cond next body s) (for_do k ev' cond next body s').
Proof.
  induction k as [|k IH]; intros s s' Hs; cbn [for_do]; [follow|].
  assert (forall s s', same s s' -> both_results
    ('(st, _, s) ← eval_opt ev body s (fun s => eval_opt ev next s (fun s => Some (Success, None, s)));
     match st with Success => for_do k ev cond next body s | _ => Some (false, st, s) end)
    ('(st, _, s) ← eval_opt ev' body s' (fun s => eval_opt ev' next s (fun s => Some (Success, None, s)));
     match st with Success => for_do k ev' cond next body s | _ => Some (false, st, s) end)) as Hturn.
  { intros s1 s1' H1. eapply bind_both.
    - apply eval_opt_same; [done|]. intros s2 s2' H2. apply eval_opt_same; [done|]. intros s3 s3' H3. follow.
    - intros [[st al] s2] [[st' al'] s2'] [[= <- <-] H2]. destruct st; [by apply IH|follow]. }
  destruct cond as [n|]; [|by apply Hturn]. eapply bind_both; [by apply H|].
  intros [[st al] s1] [[st' al'] s1'] [[= <- <-] H1]. destruct st; [|follow].
  apply option_both. intros [[|]|]; [by apply Hturn|follow..].
Qed.

Lemma bind_params_same ps : forall args s s', same s s' ->
  both_results (bind_params atom_type ev ps args s) (bind_params atom_type ev' ps args s').
Proof.
  induction ps as [|[ident default_] ps IH]; intros args s s' Hs; cbn [bind_params]; [follow|].
  eapply bind_both.
  - destruct args as [|arg args], default_ as [d|]; try (apply H; auto); follow.
  - intros [[st al] s1] [[st' al'] s1'] [[= <- <-] H1]. destruct st; [|follow].
    apply option_both. intros l. eapply bind_both; [apply push_same; auto|]. intros s2 s2' H2. by apply IH.
Qed.

Lemma realize_same f args s s' : same s s' ->
  both_results (realize atom_type ev f args s) (realize atom_type ev' f args s').
Proof.
  intros Hs. unfold realize. eapply bind_both; [apply bind_params_same; auto|].
  intros [st s1] [st' s1'] [[= <-] H1]. eapply (bind_both (and_ same)).
  - destruct st; [|follow]. destruct (body f); [by apply H|follow].
  - intros [[st2 al] s2] [[st2' al'] s2'] [[= <- <-] H2]. eapply bind_both; [by apply sim_pop_frame, same_ctx|].
    intros [? c] [? e] [_ Hr]. follow.
Qed.

End Evaluators.

Lemma push_opt_same s s' ident : same s s' ->
  both_same (push_opt atom_type s ident) (push_opt atom_type s' ident).
Proof. intros Hs. destruct ident; cbn [push_opt]; [by apply push_same|follow]. Qed.
Lemma pop_opt_same s s' ident : same s s' -> both_same (pop_opt s ident) (pop_opt s' ident).
Proof. intros Hs. destruct ident; cbn [pop_opt]; [by apply pop_same|follow]. Qed.

Lemma eval_same fuel : forall n s s', same s s' ->
  both_results (eval atom_type functions fuel n s) (eval atom_type functions fuel n s').
Proof.
  induction fuel as [|fuel IH]; intros n s s' Hs; [apply none_both|].
  destruct n as [x|n1 n2|[n|]|qcond qthen qelse b|ident in_ action|cond body|cond body|ident start cond next body
    |ql|level|ql|f args]; cbn [eval].
  - eapply bind_both; [by apply sim_expr, same_ctx|]. intros [r c] [r' e] [[= <-] Hr]. follow.
  - apply then_same; [auto|]. intros. apply option_both. intros. apply then_same; [auto|]. intros.
    apply option_both. intros. follow.
  - apply then_same; [auto|]. intros. follow.
  - follow.
  - apply then_same; [auto|]. intros al s1 s1' H1. apply option_both. intros l. apply option_both.
    intros [v|msg]; [|follow]. destruct (if v then qthen else qelse); [|follow].
    apply then_same; [auto|]. intros. follow.
  - apply then_same; [auto|]. intros al s1 s1' H1. apply option_both. intros l. eapply bind_both.
    + destruct action; [apply each_same; auto|follow].
    + intros [[st al2] s2] [[st' al2'] s2'] [[= <- <-] H2]. cbn [oqmlLoopLevel incr_loop].
      rewrite (same_loop _ _ H1). apply leave_same. auto.
  - eapply bind_both; [apply while_same; auto|]. intros [[st al2] s2] [[st' al2'] s2'] [[= <- <-] H2].
    cbn [oqmlLoopLevel incr_loop]. rewrite (same_loop _ _ Hs). apply leave_same. auto.
  - eapply bind_both; [apply do_while_same; auto|]. intros [[st al2] s2] [[st' al2'] s2'] [[= <- <-] H2].
    cbn [oqmlLoopLevel incr_loop]. rewrite (same_loop _ _ Hs). apply leave_same. auto.
  - eapply bind_both; [by apply push_opt_same|]. intros s1 s1' H1. apply eval_opt_same; [auto..|].
    intros s2 s2' H2. eapply bind_both; [apply for_do_same; auto|].
    intros [[early st] s3] [[early' st'] s3'] [[= <- <-] H3]. destruct early; [follow|].
    eapply bind_both; [apply pop_opt_same; auto|]. intros s4 s4' H4. follow.
  - apply then_same; [auto|]. intros. apply option_both. intros. follow.
  - rewrite (same_loop _ _ Hs). follow.
  - rewrite (same_call _ _ Hs). destruct (oqmlCallLevel s' =? 0); [follow|]. destruct ql; [|follow].
    apply then_same; [auto|]. intros. apply option_both. intros. follow.
  - destruct (functions f); [|follow]. eapply bind_both; [apply realize_same; auto|].
    intros [[st al] s1] [[st' al'] s1'] [[= <- <-] H1]. follow.
Qed.

End Simulated.

(** ** The table and the list of symbols *)

Section Tables.
Context {T A : Type} (st_atom_type : T).

Lemma refines_both (r : option (OqlContext.oqmlStatus * oqmlContext T A)) q :
  refines r q -> both_or_none (and_ repr) r q.
Proof.
  destruct r as [[st c]|], q as [[st' e]|]; cbn; try done; [|intros _; by apply none_both].
  intros [-> H]. by apply some_both.
Qed.

#[export] Instance repr_simulation :
  Simulation (SC := oqmlContext_symbols (A := A) st_atom_type) (SE := env_symbols st_atom_type) repr.
Proof.
  split.
  - intros. by apply refines_both, pushSymbol_refines.
  - intros. by apply refines_both, setSymbol_refines.
  - intros. by apply refines_both, popSymbol_refines.
  - intros. by apply get_refines.
  - intros. by apply push_frame_refines.
  - intros. by apply refines_both, pop_frame_refines.
  - intros c e Hr. cbn. rewrite <- (repr_args _ _ Hr). by apply args_refines.
  - intros c e Hr. cbn. rewrite <- (repr_args _ _ Hr). by apply args_refines.
Qed.

End Tables.
