(* ===== verification/OqlProgram.v ===== *)
(** * OQL: programs

    The evaluator put together: the statements of OqlFlow, the expressions of
    OqlExpr and the symbol table of OqlContext. An expression of a statement is a
    scalar one that reads its identifiers in the table, an assignment, or the
    construction of a list (oqlop.cc, oqllist.cc). The text of an error is the
    parameter [message]: it has the printed node in it. *)

From Stdlib Require Import Ascii String.
From S2P Require Import Prelude OqlExpr OqlContext OqlEnv OqlScope OqlFlow OqlRefine.

#[local] Set Warnings "-register-all".
#[local] Arguments option_bind : simpl never.

(** ** Values *)

(** An atom: a scalar, or the list of an oqmlAtom_list. *)
Inductive value := Scalar (a : oqmlAtom) | Coll (l : list value).
Inductive value_type := Scalar_type (t : oqmlATOMTYPE) | LIST.
Inductive value_error := Expression_error (s : OqlExpr.oqmlStatus) | logical_error_list.

Definition type_of (v : value) : value_type :=
  match v with Scalar a => Scalar_type (OqlExpr.type a) | Coll _ => LIST end.

Definition string_of_bytes (s : list Z) : string :=
  string_of_list_ascii ((fun b => ascii_of_nat (Z.to_nat b)) <$> s).

Inductive expression :=
| oqmlScalar (n : OqlExpr.oqmlNode)
| oqmlAssign (ident : string) (qright : expression)
| oqmlListColl (list_ : list expression).

(** The induction principle of the nested lists. *)
Section Induction.
Context (P : expression -> Prop) (Hscalar : forall n, P (oqmlScalar n))
  (Hassign : forall ident x, P x -> P (oqmlAssign ident x))
  (Hlist : forall l, Forall P l -> P (oqmlListColl l)).
Fixpoint expression_nested_ind (x : expression) : P x :=
  match x with
  | oqmlScalar n => Hscalar n
  | oqmlAssign ident x => Hassign ident x (expression_nested_ind x)
  | oqmlListColl l =>
      Hlist l ((fix go l := match l return Forall P l with
                            | [] => Forall_nil_2 P
                            | x :: l => @List.Forall_cons _ P x l (expression_nested_ind x) (go l)
                            end) l)
  end.
End Induction.

(** The identifiers of a scalar expression. *)
Fixpoint idents (n : OqlExpr.oqmlNode) : list string :=
  match n with
  | oqmlIdent name _ => [name]
  | oqmlBinop _ l r _ _ | oqmlComp _ l r _ _ | oqmlLOr l r | oqmlLAnd l r | OqlExpr.oqmlComma l r => idents l ++ idents r
  | oqmlLNot ql | oqmlTilde ql | oqmlTypeOf ql => idents ql
  | _ => []
  end.

Section Program.
Context (message : value_error -> string).

(** oqml_check_logical of the list of one atom. *)
Definition value_logical (v : value) : bool + string :=
  match v with
  | Scalar a =>
      match oqml_check_logical [a] with
      | Some (Ok b) => inl b
      | Some (Err s) => inr (message (Expression_error s))
      | None => inr ""%string
      end
  | Coll _ => inr (message logical_error_list)
  end.

#[export] Instance value_atoms : Atoms value := {|
  as_coll v := match v with Coll l => Some l | Scalar _ => None end;
  as_string v := match v with Scalar (oqmlAtom_string s) => Some (string_of_bytes s) | _ => None end;
  check_logical := value_logical |}.

Section Expressions.
Context {C : Type} `{SY : !Symbols value_type value C}.
Implicit Types c : C.

(** What a scalar expression reads: a symbol whose value is a list has no meaning in
    it. *)
Definition scalar (c : C) (name : string) : option (oqmlATOMTYPE * option oqmlAtom) :=
  match get_symbol c name with
  | Some (Some (Scalar_type t, Some (Scalar a), _)) => Some (t, Some a)
  | Some (Some (Scalar_type t, None, _)) => Some (t, None)
  | _ => None
  end.
Definition readable (c : C) (name : string) : bool :=
  match get_symbol c name with
  | Some None | Some (Some (Scalar_type _, None, _)) | Some (Some (Scalar_type _, Some (Scalar _), _)) => true
  | _ => false
  end.

Definition eval_scalar (n : OqlExpr.oqmlNode) c : option ((list value + string) * C) :=
  if forallb (readable c) (idents n) then
    r ← OqlExpr.eval (scalar c) n;
    Some (match r with
          | Ok al => inl (map Scalar al)
          | Err s => inr (message (Expression_error s))
          end, c)
  else None.

(** The atom that the right list of an assignment makes. *)
Definition right_atom (al_right : list value) : option value :=
  match al_right with [] => None | [a] => Some a | _ => Some (Coll al_right) end.

Fixpoint evaluate (x : expression) c : option ((list value + string) * C) :=
  match x with
  | oqmlScalar n => eval_scalar n c
  | oqmlAssign ident qright =>
      '(r, c) ← evaluate qright c;
      match r with
      | inr msg => Some (inr msg, c)
      | inl al_right =>
          let a := right_atom al_right in
          '(st, c) ← assign_ident type_of c ident a;
          Some (match st with oqmlSuccess => inl (option_list a) | oqmlError msg => inr msg end, c)
      end
  | oqmlListColl l =>
      let fix append l c : option ((list value + string) * C) :=
        match l with
        | [] => Some (inl [], c)
        | x :: l =>
            '(r, c) ← evaluate x c;
            match r with
            | inr msg => Some (inr msg, c)
            | inl al =>
                '(r, c) ← append l c;
                Some (match r with inl al' => inl (al ++ al') | inr msg => inr msg end, c)
            end
        end in
      '(r, c) ← append l c;
      Some (match r with inl al => inl [Coll al] | inr msg => inr msg end, c)
  end.

#[export] Instance program_expressions : Expressions expression value C := {| eval_expr := evaluate |}.

End Expressions.

(** ** Over the list of symbols *)

Section Simulated.
Context {C E : Type} `{SC : !Symbols value_type value C} `{SE : !Symbols value_type value E}.
Context (rel : C -> E -> Prop) `{SIM : !Simulation rel}.

Lemma eval_scalar_same n c e : rel c e -> both_or_none (and_ rel) (eval_scalar n c) (eval_scalar n e).
Proof.
  intros H. assert (forall name, scalar c name = scalar e name) as Hs by (intros; unfold scalar; by rewrite (sim_get _ e)).
  assert (forall l, forallb (readable c) l = forallb (readable e) l) as Hr.
  { induction l as [|name l IH]; cbn; [done|]. unfold readable at 1 3. by rewrite (sim_get _ e), IH. }
  unfold eval_scalar. rewrite Hr. destruct (forallb _ _); [|apply none_both].
  rewrite (eval_ext (scalar c) (scalar e) n Hs). apply option_both. intros r. by apply some_both.
Qed.

Lemma assign_same c e id a :
  rel c e -> both_or_none (and_ rel) (assign_ident type_of c id a) (assign_ident type_of e id a).
Proof.
  intros H. unfold assign_ident. rewrite (sim_get c e id H). apply option_both. intros r. by apply sim_set.
Qed.

Lemma evaluate_same x : forall c e, rel c e -> both_or_none (and_ rel) (evaluate x c) (evaluate x e).
Proof.
  induction x as [n|ident x IH|l IH] using expression_nested_ind; intros c e H; cbn [evaluate].
  - by apply eval_scalar_same.
  - eapply bind_both; [by apply IH|]. intros [r c1] [r' e1] [[= <-] H1]. destruct r as [al|msg]; [|by apply some_both].
    eapply bind_both; [by apply assign_same|]. intros [st c2] [st' e2] [[= <-] H2]. by apply some_both.
  - eapply (bind_both (and_ rel)); [|intros [r c1] [r' e1] [[= <-] H1]; by apply some_both].
    revert c e H. induction IH as [|x l Hx _ IHl]; intros c e H; [by apply some_both|].
    eapply bind_both; [by apply Hx|]. intros [r c1] [r' e1] [[= <-] H1]. destruct r as [al|msg]; [|by apply some_both].
    eapply bind_both; [by apply IHl|]. intros [r c2] [r' e2] [[= <-] H2]. by apply some_both.
Qed.

End Simulated.

(** ** Sessions *)

Abbreviation session := (oqmlContext value_type value).
Abbreviation symbols := (env value_type value).
#[local] Existing Instance oqmlContext_symbols.
#[local] Existing Instance env_symbols.
(** The type of an entry without value. *)
Definition default_type : value_type := Scalar_type UNKNOWN_TYPE.
#[local] Instance session_symbols : Symbols value_type value session := oqmlContext_symbols default_type.
#[local] Instance list_symbols : Symbols value_type value symbols := env_symbols default_type.

Context (functions : string -> option (oqmlFunction (X := expression))).

Definition run_session := OqlFlow.eval (C := session) type_of functions.
Definition run_list := OqlFlow.eval (C := symbols) type_of functions.

Lemma run_same fuel n (s : OqlFlow.state (C := session)) (s' : OqlFlow.state (C := symbols)) :
  same repr s s' -> both_or_none (and_ (same repr)) (run_session fuel n s) (run_list fuel n s').
Proof.
  apply eval_same; [apply repr_simulation|]. intros x c e H. apply evaluate_same; [apply repr_simulation|done].
Qed.

Definition at_start {C} (c : C) : OqlFlow.state (C := C) := mk_state 0 0 0 c.

(** A program run on the symbol table, with its heap, its links and its local
    tables, does what it does on a list of symbols: the same status, the same atoms,
    the same levels of loops and calls, and it is undefined on both or on none. *)
Theorem program_on_table fuel n c e :
  repr c e -> both_or_none (and_ (same repr)) (run_session fuel n (at_start c)) (run_list fuel n (at_start e)).
Proof. intros H. apply run_same. by split_and!. Qed.

(** C6: what a program whose jumps are nested means by structured jumps on a list of
    symbols is what it does on the symbol table with the global levels and the
    reserved messages. *)
Theorem structured_programs fuel n c e o e' :
  (forall name f, functions name = Some f -> nested_function f) -> nested 0 false n -> repr c e ->
  exec (C := symbols) type_of functions fuel false n e = Some (o, e') ->
  exists st al s, run_session fuel n (at_start c) = Some (st, al, s) /\ repr (ctx s) e'
    /\ match o with
       | Normal al' => st = Success /\ al = al' /\ oqmlLoopLevel s = 0 /\ oqmlCallLevel s = 0
       | Failed msg => st = error msg
       | _ => False
       end.
Proof.
  intros Hf Hn Hr E.
  destruct (simulation type_of functions Hf fuel 0 ltac:(done) 0 n 0 false (at_start e) e Hn ltac:(done) ltac:(done) o e' E)
    as (st & al & s & Es & Hsim).
  pose proof (run_same fuel n (at_start c) (at_start e) ltac:(by split_and!)) as H.
  unfold run_list in H. rewrite Es in H. inversion H as [[[st' al'] s'] ? [Heq Hs] E1 E2|]. subst.
  injection Heq as -> ->. exists st, al, s'. split; [done|]. split.
  - apply same_ctx in Hs. cbn in Hs. apply (sim_ctx functions) in Hsim. by rewrite Hsim in Hs.
  - destruct Hs as (Hl & _ & Hc & _). cbn in Hl, Hc. destruct o; cbn in Hsim.
    + destruct Hsim as (-> & -> & H1 & H2 & _). by rewrite Hl, Hc.
    + lia.
    + by destruct Hsim.
    + by destruct Hsim as (-> & _).
Qed.

(** ** Assignments out of any function *)

(** A variable that is no system one and that no explicit push has made local. *)
Definition user_symbol id (s : oqmlSymbolEntry value_type value) : Prop :=
  ident s = id -> system s = false /\ global s = true.
Definition user_variable (e : symbols) (id : string) : Prop :=
  Forall (user_symbol id) (syms e) /\ Forall (user_symbol (add_scope id)) (syms e).
Definition top_level (e : symbols) : Prop := consistent e /\ depth e = O.
Definition reads (e : symbols) (id : string) (v : value) : Prop :=
  exists g, env_getSymbol e id = Some (Some (type_of v, Some v, g)).
Definition plain (id : string) : Prop := oqml_is_global_ident id = false.

Implicit Types (e : symbols) (id : string) (v : value).

(** The symbols of [e'] are those of [e], with other values, and new ones named [id]. *)
Definition sets id e e' : Prop := forall P : oqmlSymbolEntry value_type value -> Prop,
  (forall s, P s -> forall ty a, P (entry_set default_type ty a true s)) ->
  (forall s, ident s = id -> system s = false -> global s = true -> P s) -> Forall P (syms e) -> Forall P (syms e').

Lemma env_set_user e id ty a :
  Forall (user_symbol id) (syms e) ->
  exists e', env_set default_type e id ty a true false = (oqmlSuccess, e') /\ sets id e e'.
Proof.
  intros Hsys. unfold env_set. destruct (find_sym _ _) as [s|] eqn:E.
  - destruct (find_sym_split _ _ _ E) as (ss1 & ss2 & Es & Hn & Hp). cbn [oriented] in *.
    assert (syms e = reverse (ss1 ++ s :: ss2)) as Es' by (by rewrite <- Es, reverse_involutive).
    assert (system s = false) as ->.
    { rewrite Forall_forall in Hsys. apply Hsys; [|by eapply matches_ident].
      rewrite Es'. apply elem_of_reverse, elem_of_app. right. by left. }
    eexists. split; [done|]. intros P Hset _ HP. cbn. rewrite Es, upd_sym_split by done.
    apply Forall_reverse. rewrite Es' in HP. apply (proj1 (Forall_reverse _ _)) in HP.
    apply Forall_app in HP as [H1 HP]. apply Forall_cons in HP as [H2 H3]. apply Forall_app. split; [done|].
    apply Forall_cons. auto.
  - eexists. split; [done|]. intros P _ Hnew HP. cbn. apply Forall_cons. auto.
Qed.

Lemma sets_user id e e' id' : sets id e e' -> Forall (user_symbol id') (syms e) -> Forall (user_symbol id') (syms e').
Proof.
  intros H. apply H; [|done]. unfold user_symbol. intros s Hs ty' a'.
  destruct (entry_set_keeps default_type ty' a' true s) as (-> & -> & _ & _ & ->). done.
Qed.

(** An assignment sets both spellings. *)
Lemma top_assign e id v :
  top_level e -> user_variable e id -> plain id ->
  exists e', assign_ident type_of e id (Some v) = Some (oqmlSuccess, e') /\ top_level e' /\ reads e' id v
    /\ (forall id', user_variable e id' -> user_variable e' id')
    /\ forall id', id' <> id -> id' <> add_scope id -> env_getSymbol e' id' = env_getSymbol e id'.
Proof.
  intros [Hc Hd] [Hu Hu'] Hp.
  destruct (env_set_user e (add_scope id) (Some (type_of v)) (Some v) Hu') as (e1 & E1 & S1).
  destruct (env_set_user e1 id (Some (type_of v)) (Some v) (sets_user _ _ _ _ S1 Hu)) as (e2 & E2 & S2).
  exists e2. pose proof (env_set_cases _ _ _ _ _ _ _ E1) as (D1 & _). pose proof (env_set_cases _ _ _ _ _ _ _ E2) as (D2 & _).
  assert (assign_ident type_of e id (Some v) = setSymbol e id (Some (type_of v)) (Some v) true false) as Ea.
  { unfold assign_ident. cbn [get_symbol list_symbols env_symbols]. unfold env_getSymbol. cbn.
    destruct (env_get e id) as [s|] eqn:Eg; cbn; [|done]. 
    destruct (find_sym_split _ _ _ Eg) as (ss1 & ss2 & Es & _ & Hv). apply visible_ident in Hv.
    rewrite Es in Hu. apply Forall_app in Hu as [_ Hu]. apply Forall_cons in Hu as [Hu _].
    by destruct (Hu Hv) as [_ ->]. }
  assert (assign_ident type_of e id (Some v) = Some (oqmlSuccess, e2)) as E3.
  { rewrite Ea. unfold setSymbol, both. rewrite Hp. cbn [has_local_table list_symbols env_symbols]. unfold cnt_of. rewrite Hd.
    change (negb (0 <? Z.of_nat 0)) with true. unfold OqlContext.then_. cbn [set_symbol list_symbols env_symbols].
    rewrite E1. exact (f_equal Some E2). }
  split; [done|split; [|split; [|split]]].
  - split; [|congruence]. by eapply env_set_consistent, E2; eapply env_set_consistent, E1.
  - destruct (assign_read default_type type_of e id (Some v) e2 Hc E3) as [(s & Hs & Ht & Hat) _].
    exists (global s). unfold env_getSymbol. rewrite Hs. cbn. by rewrite Ht, Hat.
  - intros id' [H H']. split; by apply (sets_user _ _ _ _ S2), (sets_user _ _ _ _ S1).
  - intros id' H1 H2. unfold env_getSymbol.
    by rewrite (env_set_others _ _ _ _ _ _ _ id' E2), (env_set_others _ _ _ _ _ _ _ id' E1).
Qed.

(** ** A counting loop

    [s := 0; i := 0; while (i < n) { s := s + i; i := i + 1 }] *)

Definition int (z : Z) : value := Scalar (oqmlAtom_int z).
Definition variable (id : string) : OqlExpr.oqmlNode := oqmlIdent id UNKNOWN_TYPE.
Definition plus (l r : OqlExpr.oqmlNode) : OqlExpr.oqmlNode := oqmlBinop Add l r UNKNOWN_TYPE None.
Definition assign (id : string) (n : OqlExpr.oqmlNode) : OqlFlow.oqmlNode (X := expression) :=
  oqmlExpr (oqmlAssign id (oqmlScalar n)).
Definition sum_condition (n : Z) : OqlFlow.oqmlNode :=
  oqmlExpr (oqmlScalar (oqmlComp Inf (variable "i") (oqmlInt n) UNKNOWN_TYPE None)).
Definition sum_body : OqlFlow.oqmlNode :=
  oqmlCompoundStatement (Some (OqlFlow.oqmlComma
    (assign "s" (plus (variable "s") (variable "i"))) (assign "i" (plus (variable "i") (oqmlInt 1))))).
Definition sum_program (n : Z) : OqlFlow.oqmlNode :=
  OqlFlow.oqmlComma (assign "s" (oqmlInt 0)) (OqlFlow.oqmlComma (assign "i" (oqmlInt 0))
    (oqmlWhile (sum_condition n) (Some sum_body))).

(** An assignment of a scalar expression that has a value. *)
Lemma assign_step fuel (s : OqlFlow.state (C := symbols)) id n a :
  forallb (readable (ctx s)) (idents n) -> OqlExpr.eval (scalar (ctx s)) n = Some (Ok [a]) ->
  top_level (ctx s) -> user_variable (ctx s) id -> plain id ->
  exists e', run_list (S fuel) (assign id n) s = Some (Success, Some [Scalar a], set_ctx s e')
    /\ top_level e' /\ reads e' id (Scalar a)
    /\ (forall id', user_variable (ctx s) id' -> user_variable e' id')
    /\ forall id' v, id' <> id -> id' <> add_scope id -> reads (ctx s) id' v -> reads e' id' v.
Proof.
  intros Hr Ev Ht Hu Hp. destruct (top_assign _ id (Scalar a) Ht Hu Hp) as (e' & E & Ht' & Hre & Hus & Ho).
  exists e'. split; [|split; [done|split; [done|split; [done|]]]].
  - apply Is_true_true in Hr. assert (eval_scalar n (ctx s) = Some (inl [Scalar a], ctx s)) as Es
      by (unfold eval_scalar; by rewrite Hr, Ev).
    unfold run_list, assign. cbn [OqlFlow.eval eval_expr program_expressions evaluate]. rewrite Es.
    unfold mbind, option_bind. cbn [right_atom option_list]. by rewrite E.
  - intros id' v H1 H2 [g Hg]. exists g. by rewrite Ho.
Qed.

Lemma reads_scalar e id a : reads e id (Scalar a) -> scalar e id = Some (OqlExpr.type a, Some a) /\ readable e id.
Proof. intros [g Hg]. unfold scalar, readable. cbn [get_symbol list_symbols env_symbols]. by rewrite Hg. Qed.

Lemma triangle k : (k + 1) * k / 2 = k * (k - 1) / 2 + k.
Proof. replace ((k + 1) * k) with (k * (k - 1) + k * 2) by lia. by rewrite Z.div_add. Qed.

Lemma sum_bound n : 0 <= n -> n * (n - 1) / 2 < 2 ^ 63 -> n < 2 ^ 33.
Proof.
  intros H Hs. destruct (Z.lt_ge_cases n (2 ^ 33)) as [|Hn]; [done|].
  assert (2 ^ 33 * (2 ^ 33 - 1) <= n * (n - 1)) by (apply Z.mul_le_mono_nonneg; lia).
  assert (2 ^ 63 <= n * (n - 1) / 2) by (apply Z.div_le_lower_bound; lia). lia.
Qed.

(** What holds at the head of the loop, after [k] turns. *)
Definition sum_state (n : Z) (s : OqlFlow.state (C := symbols)) : Prop :=
  top_level (ctx s) /\ user_variable (ctx s) "s" /\ user_variable (ctx s) "i" /\ oqmlLoopLevel s = 1 /\ oqmlCallLevel s = 0
  /\ exists k, 0 <= k <= n /\ reads (ctx s) "i" (int k) /\ reads (ctx s) "s" (int (k * (k - 1) / 2)).

Lemma comma_step fuel (l r : OqlFlow.oqmlNode) (s s1 : OqlFlow.state (C := symbols)) al :
  run_list fuel l s = Some (Success, Some al, s1) ->
  run_list (S fuel) (OqlFlow.oqmlComma l r) s =
  OqlFlow.then_ (run_list fuel r s1) (fun al_right s => _ ← al_right; Some (Success, al_right, s)).
Proof. intros E. unfold run_list in *. cbn [OqlFlow.eval]. unfold OqlFlow.then_ at 1. by rewrite E. Qed.

Lemma sum_turn n k (s : OqlFlow.state (C := symbols)) :
  top_level (ctx s) -> user_variable (ctx s) "s" -> user_variable (ctx s) "i" -> 0 <= k < n -> n * (n - 1) / 2 < 2 ^ 63 ->
  reads (ctx s) "i" (int k) -> reads (ctx s) "s" (int (k * (k - 1) / 2)) ->
  exists e', run_list 3 sum_body s = Some (Success, Some [], set_ctx s e')
    /\ top_level e' /\ user_variable e' "s" /\ user_variable e' "i"
    /\ reads e' "i" (int (k + 1)) /\ reads e' "s" (int ((k + 1) * k / 2)).
Proof.
  intros Ht Hs Hi Hk Hn Ri Rs. destruct (reads_scalar _ _ _ Ri) as [Ei Bi]. destruct (reads_scalar _ _ _ Rs) as [Es Bs].
  assert (0 <= k * (k - 1) / 2 /\ (k + 1) * k / 2 <= n * (n - 1) / 2) as [H1 H2].
  { split; [apply Z.div_pos; nia|]. apply Z.div_le_mono; nia. }
  pose proof (triangle k) as Hk2. pose proof (sum_bound n ltac:(lia) Hn) as Hb.
  destruct (assign_step 0 s "s" (plus (variable "s") (variable "i")) (oqmlAtom_int ((k + 1) * k / 2)))
    as (e1 & E1 & T1 & R1 & U1 & O1); [| |done..|].
  { cbn. by rewrite andb_true_r, andb_True. }
  { cbn. unfold eval_ident. rewrite Es, Ei. cbn. rewrite bool_decide_true by (unfold in_s; lia). by rewrite Hk2. }
  pose proof (O1 "i"%string _ ltac:(done) ltac:(done) Ri) as Ri1.
  destruct (reads_scalar _ _ _ Ri1) as [Ei1 Bi1].
  destruct (assign_step 0 (set_ctx s e1) "i" (plus (variable "i") (oqmlInt 1)) (oqmlAtom_int (k + 1)))
    as (e2 & E2 & T2 & R2 & U2 & O2); cbn [ctx set_ctx]; [| |by auto..|].
  { cbn. by rewrite andb_true_r. }
  { cbn. unfold eval_ident. rewrite Ei1. cbn. rewrite bool_decide_true by (unfold in_s; lia). done. }
  exists e2. split; [|split; [done|split; [by auto|split; [by auto|split; [done|]]]]].
  - change (run_list 3 sum_body s) with (OqlFlow.then_ (run_list 2 (OqlFlow.oqmlComma
      (assign "s" (plus (variable "s") (variable "i"))) (assign "i" (plus (variable "i") (oqmlInt 1)))) s)
      (fun _ s => Some (Success, Some [], s))).
    rewrite (comma_step _ _ _ _ _ _ E1), E2. done.
  - by apply (O2 "s"%string).
Qed.

Lemma sum_condition_step n k (s : OqlFlow.state (C := symbols)) :
  reads (ctx s) "i" (int k) ->
  run_list 1 (sum_condition n) s = Some (Success, Some [Scalar (oqmlAtom_bool (k <? n))], s).
Proof.
  intros Ri. destruct (reads_scalar _ _ _ Ri) as [Ei Bi]. apply Is_true_true in Bi.
  assert (eval_scalar (oqmlComp Inf (variable "i") (oqmlInt n) UNKNOWN_TYPE None) (ctx s)
    = Some (inl [Scalar (oqmlAtom_bool (k <? n))], ctx s)) as E.
  { unfold eval_scalar. cbn [idents forallb app variable]. rewrite Bi. cbn. unfold eval_ident. rewrite Ei. cbn.
    by destruct (k <? n). }
  unfold run_list, sum_condition. cbn [OqlFlow.eval eval_expr program_expressions evaluate]. rewrite E. by destruct s.
Qed.

Lemma sum_loop n (s : OqlFlow.state (C := symbols)) :
  sum_state n (incr_loop s 1) -> n * (n - 1) / 2 < 2 ^ 63 ->
  exists fuel s', run_list fuel (oqmlWhile (sum_condition n) (Some sum_body)) s = Some (Success, Some [], s')
    /\ oqmlLoopLevel s' = 0 /\ oqmlCallLevel s' = 0 /\ reads (ctx s') "s" (int (n * (n - 1) / 2)).
Proof.
  intros HI Hn. pose (value_of (s : OqlFlow.state (C := symbols)) := match scalar (ctx s) "i" with Some (_, Some (oqmlAtom_int k)) => k | _ => 0 end).
  destruct (while_ends type_of functions (sum_state n)
    (fun s => oqmlLoopLevel s = 1 /\ oqmlCallLevel s = 0 /\ reads (ctx s) "s" (int (n * (n - 1) / 2)))
    (fun s => Z.to_nat (n - value_of s)) 3 (sum_condition n) sum_body s) as (fuel & s' & E & Hl & Hc & Hr); [|done|].
  - clear s HI. intros s (Ht & Hs & Hi & Hl & Hc & k & Hk & Ri & Rs).
    assert (value_of s = k) as Hv by (unfold value_of; by rewrite (proj1 (reads_scalar _ _ _ Ri))).
    exists (Some [Scalar (oqmlAtom_bool (k <? n))]), (k <? n), s. split; [|split; [done|]].
    { apply (eval_below type_of functions 1 3 ltac:(lia)), (sum_condition_step n k s Ri). }
    destruct (Z.ltb_spec k n) as [Hlt|Hge].
    + destruct (sum_turn n k s) as (e' & E & Ht' & Hs' & Hi' & Ri' & Rs'); [done..|lia|done|done|done|].
      eexists _, _. split; [exact E|]. split.
      * split_and!; try done. exists (k + 1). split; [lia|]. split; [done|]. by replace (k + 1 - 1) with k by lia.
      * assert (value_of (set_ctx s e') = k + 1) as -> by (unfold value_of; cbn [ctx set_ctx]; by rewrite (proj1 (reads_scalar _ _ _ Ri'))).
        lia.
    + replace k with n in Rs by lia. done.
  - exists fuel, (incr_loop s' (-1)). split; [done|]. cbn. split; [lia|done].
Qed.

(** C28: a counting loop ends, and its variable is the sum of the integers below the
    bound, in any session where the two variables are not system symbols and the sum
    is an int64. *)
Theorem sum_program_computes n c e :
  repr c e -> top_level e -> user_variable e "s" -> user_variable e "i" ->
  0 <= n -> n * (n - 1) / 2 < 2 ^ 63 ->
  exists fuel st g, run_session fuel (sum_program n) (at_start c) = Some (Success, Some [], st)
    /\ oqmlLoopLevel st = 0 /\ oqmlCallLevel st = 0
    /\ getSymbol (ctx st) "s" = Some (Some (Scalar_type INT, Some (int (n * (n - 1) / 2)), g)).
Proof.
  intros Hr Ht Hs Hi Hn Hb.
  destruct (assign_step 0 (at_start e) "s" (oqmlInt 0) (oqmlAtom_int 0)) as (e1 & E1 & T1 & R1 & U1 & _); [done..|].
  destruct (assign_step 0 (at_start e1) "i" (oqmlInt 0) (oqmlAtom_int 0)) as (e2 & E2 & T2 & R2 & U2 & O2); [by auto..|].
  destruct (sum_loop n (at_start e2)) as (fuel & s' & E3 & Hl & Hc & [g Hg]); [|done|].
  { split_and!; auto. exists 0. split; [lia|]. split; [done|]. by apply (O2 "s"%string). }
  assert (run_list (S (S (S fuel))) (sum_program n) (at_start e) = Some (Success, Some [], s')) as E.
  { unfold sum_program.
    rewrite (comma_step _ _ _ _ _ [int 0] (eval_below type_of functions 1 (S (S fuel)) ltac:(lia) _ _ _ E1)).
    rewrite (comma_step _ _ _ _ _ [int 0] (eval_below type_of functions 1 (S fuel) ltac:(lia) _ _ _ E2)).
    pose proof (eval_below type_of functions fuel (S fuel) ltac:(lia) _ _ _ E3) as E3'.
    unfold run_list. change (set_ctx (at_start e1) e2) with (at_start e2). rewrite E3'. done. }
  pose proof (run_same (S (S (S fuel))) (sum_program n) (at_start c) (at_start e) ltac:(by split_and!)) as H.
  rewrite E in H. inversion H as [[[st al] s1] ? [Heq Hsame] Ec Ee|]. subst. cbn in Heq, Hsame.
  injection Heq as -> ->. exists (S (S (S fuel))), s1, g. split; [done|].
  destruct Hsame as (H1 & _ & H2 & H3). rewrite H1, H2. split; [done|]. split; [done|].
  by rewrite (get_refines _ _ _ H3).
Qed.

End Program.

(** ** The properties at concrete programs *)
Module Example.

Definition no_message (_ : value_error) : string := "error".
Abbreviation node := (OqlFlow.oqmlNode (X := expression)).
Abbreviation session := (oqmlContext value_type value).
#[local] Open Scope string_scope.

(** function f(x) { for (y in list(1, 2, x)) if (y > 1) return y; } *)
Definition f : oqmlFunction (X := expression) :=
  mk_function [("x", None)]
    (Some (oqmlForEach "y" (oqmlExpr (oqmlListColl [oqmlScalar (oqmlInt 1); oqmlScalar (oqmlInt 2); oqmlScalar (variable "x")]))
       (Some (oqmlIf (oqmlExpr (oqmlScalar (oqmlComp Sup (variable "y") (oqmlInt 1) UNKNOWN_TYPE None)))
          (Some (oqmlReturn (Some (oqmlExpr (oqmlScalar (variable "y")))))) None false)))).
Definition functions (name : string) : option (oqmlFunction (X := expression)) :=
  if String.eqb name "f" then Some f else None.
Abbreviation run := (run_session no_message functions).

Definition result_of (r : option (OqlFlow.status (A := value) * option (list value) * OqlFlow.state (C := session))) :
    option (OqlFlow.status (A := value) * option (list value)) := fst <$> r.

Example return_from_foreach :
  result_of (run 10 (oqmlCall "f" [oqmlExpr (oqmlScalar (oqmlInt 7))]) (at_start new_context))
  = Some (Success, Some [int 2]).
Proof. vm_compute. reflexivity. Qed.

(** The loop variable of a foreach that is left by a return is popped. *)
Example nothing_left :
  (fun r => table (ctx (snd r))) <$> run 10 (oqmlCall "f" [oqmlExpr (oqmlScalar (oqmlInt 7))]) (at_start new_context)
  = Some [].
Proof. vm_compute. reflexivity. Qed.

(** x := 1 / 0 leaves x without a value. *)
Example division_by_zero :
  result_of (run 3 (assign "x" (oqmlBinop Div (oqmlInt 1) (oqmlInt 0) UNKNOWN_TYPE None)) (at_start new_context))
  = Some (error "error", None).
Proof. vm_compute. reflexivity. Qed.

(** A list keeps the assignments that its elements have done before the one that fails. *)
Example list_fails :
  (fun r => (fst r, getSymbol (ctx (snd r)) "x")) <$>
    run 3 (oqmlExpr (oqmlListColl [oqmlAssign "x" (oqmlScalar (oqmlInt 1)); oqmlScalar (variable "z")])) (at_start new_context)
  = Some (error "error", None, Some (Some (Scalar_type INT, Some (int 1), true))).
Proof. vm_compute. reflexivity. Qed.

Lemma functions_nested name g : functions name = Some g -> nested_function g.
Proof. unfold functions. destruct (String.eqb name "f"); [|done]. by intros [= <-]. Qed.

Lemma program_on_table_witness :
  both_or_none (and_ (same repr)) (run 20 (sum_program 3) (at_start new_context))
    (run_list no_message functions 20 (sum_program 3) (at_start new_env)).
Proof. apply (program_on_table no_message functions 20 (sum_program 3) new_context new_env). apply new_context_repr. Defined.

(** while (true) { x := 1; break } *)
Definition assign_and_break : node :=
  oqmlWhile (oqmlExpr (oqmlScalar oqmlTrue))
    (Some (oqmlCompoundStatement (Some (OqlFlow.oqmlComma (assign "x" (oqmlInt 1)) (oqmlBreak None))))).

Lemma structured_programs_witness :
  exists s, run 6 assign_and_break (at_start new_context) = Some (Success, Some [], s) /\ oqmlLoopLevel s = 0.
Proof.
  destruct (structured_programs no_message functions 6 assign_and_break new_context new_env (Normal (Some []))
    (snd (env_push default_type (snd (env_push default_type new_env "::x" (Some (type_of (int 1))) (Some (int 1)) true false))
            "x" (Some (type_of (int 1))) (Some (int 1)) true false))
    functions_nested I (new_context_repr (A := value) (T := value_type)) eq_refl)
    as (st & al & s & Es & _ & Hst & Hal & Hl & _).
  subst st al. exists s. split; [exact Es|exact Hl].
Defined.

Lemma sum_program_computes_witness :
  exists fuel st g, run fuel (sum_program 100000) (at_start new_context) = Some (Success, Some [], st)
    /\ getSymbol (ctx st) "s" = Some (Some (Scalar_type INT, Some (int 4999950000), g)).
Proof.
  destruct (sum_program_computes no_message functions 100000 new_context new_env) as (fuel & st & g & E & _ & _ & H).
  - apply new_context_repr.
  - split; [|done]. split; [done| |]; constructor.
  - by split; constructor.
  - by split; constructor.
  - lia.
  - reflexivity.
  - exists fuel, st, g. split; [exact E|]. exact H.
Defined.

End Example.
