(* ===== verification/OqlList.v ===== *)
(** * OQL: lists of atoms

    The collections of OQL are chains of atoms, each with a pointer to the next one:
    class oqmlAtomList (src/eyedb/oqlbase.cc, oqlinline.h). An atom is in one chain at
    a time, whatever lists point to it, and the copies of an atom that holds a
    collection share its list, so what an operation does to the atoms of a list is
    modelled on a store. Atoms are the scalars of [OqlExpr] and the collections;
    structures, objects and identifiers are left out, as are the counts of references,
    the reclaiming of lists and the text that an atom keeps once it is asked for.
    [None] is a null pointer that is followed, a buffer that overflows or a chain
    without end. *)

From Stdlib Require Import Ascii String SpecFloat.
From S2P Require Import Prelude CString Value OqlExpr.

#[local] Set Warnings "-register-all,-clear-no-such-hyp".

Abbreviation loc := positive.

Inductive coll_type := TList | TBag | TSet | TArray.
#[export] Instance coll_type_eq : EqDecision coll_type.
Proof. solve_decision. Defined.

Inductive content := Scalar (a : oqmlAtom) | Coll (t : coll_type) (l : loc).
Record atom := mk_atom { what : content; next : option loc }.
Record oqmlAtomList := mk_oqmlAtomList { cnt : Z; first : option loc; last : option loc }.
Record store := mk_store { atoms : gmap loc atom; lists : gmap loc oqmlAtomList }.

(** ** The store *)

Definition ST (A : Type) : Type := store -> option (A * store).
#[export] Instance ST_ret : MRet ST := fun A x s => Some (x, s).
#[export] Instance ST_bind : MBind ST := fun A B f m s => '(x, s) ← m s; f x s.
Definition undefined {A} : ST A := fun _ => None.
Definition get : ST store := fun s => Some (s, s).
Definition lift {A} (o : option A) : ST A := fun s => x ← o; Some (x, s).

Definition atom_at (a : loc) : ST atom := fun s => x ← atoms s !! a; Some (x, s).
Definition list_at (l : loc) : ST oqmlAtomList := fun s => x ← lists s !! l; Some (x, s).
Definition put_atom (a : loc) (x : atom) : ST unit := fun s => Some (tt, mk_store (<[a := x]> (atoms s)) (lists s)).
Definition put_list (l : loc) (x : oqmlAtomList) : ST unit := fun s => Some (tt, mk_store (atoms s) (<[l := x]> (lists s))).
Definition set_next (a : loc) (n : option loc) : ST unit := x ← atom_at a; put_atom a (mk_atom (what x) n).
(** A pointer that is followed. *)
Definition deref {A} (p : option A) : ST A := lift p.
Definition new_atom (c : content) : ST loc :=
  s ← get; let a : loc := base.fresh (dom (atoms s)) in put_atom a (mk_atom c None);; mret a.
Definition new_list : ST loc :=
  s ← get; let l : loc := base.fresh (dom (lists s)) in put_list l (mk_oqmlAtomList 0 None None);; mret l.

(** The atoms from [p]; the fuel is more than the number of atoms. *)
Fixpoint walk (fuel : nat) (p : option loc) : ST (list loc) :=
  match p, fuel with
  | None, _ => mret []
  | Some a, S fuel => x ← atom_at a; l ← walk fuel (next x); mret (a :: l)
  | Some _, O => undefined
  end.
(** [f] for each atom; the next one is read before, or after. *)
Fixpoint for_next_first (fuel : nat) (p : option loc) (f : loc -> ST unit) : ST unit :=
  match p, fuel with
  | None, _ => mret tt
  | Some a, S fuel => x ← atom_at a; f a;; for_next_first fuel (next x) f
  | Some _, O => undefined
  end.
Fixpoint for_next_last (fuel : nat) (p : option loc) (f : loc -> ST unit) : ST unit :=
  match p, fuel with
  | None, _ => mret tt
  | Some a, S fuel => f a;; x ← atom_at a; for_next_last fuel (next x) f
  | Some _, O => undefined
  end.
(** The first atom that satisfies [f]. *)
Fixpoint find_atom (fuel : nat) (p : option loc) (f : loc -> ST bool) : ST (option loc) :=
  match p, fuel with
  | None, _ => mret None
  | Some a, S fuel => b ← f a; if b : bool then mret (Some a) else x ← atom_at a; find_atom fuel (next x) f
  | Some _, O => undefined
  end.
Definition enough : ST nat := s ← get; mret (S (size (atoms s))).

(** ** Adding atoms

    The count of a list is an unsigned int. *)

(** append of an atom without a detection of cycles. *)
Definition append (l a : loc) : ST unit :=
  set_next a None;;
  x ← list_at l;
  match last x with
  | Some t => set_next t (Some a);; put_list l (mk_oqmlAtomList (u32 (cnt x + 1)) (first x) (Some a))
  | None => put_list l (mk_oqmlAtomList (u32 (cnt x + 1)) (Some a) (Some a))
  end.

(** append of a list: the atoms are those of the other list. *)
Definition append_list (l al : loc) : ST unit :=
  x ← list_at l; y ← list_at al;
  match first y with
  | None => mret tt
  | Some a =>
      match last x with Some t => set_next t (Some a) | None => mret tt end;;
      put_list l (mk_oqmlAtomList (u32 (cnt x + cnt y)) (match last x with Some _ => first x | None => Some a end) (last y))
  end.

(** oqmlAtom::copy: the copy of a collection has the same list. *)
Definition copy_atom (a : loc) : ST loc := x ← atom_at a; new_atom (what x).

(** The constructor of oqmlAtomList from a list. *)
Definition new_copy (al : loc) : ST loc :=
  l ← new_list; y ← list_at al; fuel ← enough;
  for_next_first fuel (first y) (fun a => a' ← copy_atom a; append l a');;
  mret l.

(** oqmlAtomList::copy; the fuel is the nesting of the collections. *)
Fixpoint copy (nesting : nat) (al : loc) : ST loc :=
  match nesting with
  | O => undefined
  | S nesting =>
      l ← new_list; y ← list_at al; fuel ← enough;
      for_next_last fuel (first y) (fun a =>
        x ← atom_at a;
        match what x with
        | Coll _ al' => l' ← copy nesting al'; append_list l l'
        | Scalar _ => a' ← copy_atom a; append l a'
        end);;
      mret l
  end.

(** ** Access by index *)

Fixpoint skip (n : nat) (p : option loc) : ST (option loc) :=
  match n, p with
  | S n, Some a => x ← atom_at a; skip n (next x)
  | _, _ => mret p
  end.
Definition getAtom (l : loc) (idx : nat) : ST (option loc) := x ← list_at l; skip idx (first x).
(** The same loop without the test of the pointer. *)
Fixpoint skip_blindly (n : nat) (p : option loc) : ST (option loc) :=
  match n with
  | O => mret p
  | S n => a ← deref p; x ← atom_at a; skip_blindly n (next x)
  end.

(** checkRecursion: true when [list] is [this] or has it in one of its lists. *)
Fixpoint checkRecursion (nesting : nat) (list this : loc) : ST bool :=
  match nesting with
  | O => undefined
  | S nesting =>
      if decide (list = this) then mret true
      else
        y ← list_at list; fuel ← enough;
        r ← find_atom fuel (first y) (fun a =>
          x ← atom_at a; match what x with Coll TList l => checkRecursion nesting l this | _ => mret false end);
        mret (match r with Some _ => true | None => false end)
  end.

(** oqmlAtomList::setAtom; false is the error of a recursive assignment. The index is
    an int: the loop does nothing when it is negative. *)
Definition setAtom (nesting : nat) (this : loc) (ia : option loc) (idx : Z) : ST bool :=
  recursive ← match ia with
              | Some ia => x ← atom_at ia; match what x with Coll TList l => checkRecursion nesting l this | _ => mret false end
              | None => mret false
              end;
  if recursive : bool then mret false
  else
    t ← list_at this;
    if idx =? 0 then
      match ia with
      | None =>
          f ← deref (first t); x ← atom_at f;
          put_list this (mk_oqmlAtomList (u32 (cnt t - 1)) (next x) (if decide (last t = first t) then next x else last t));;
          mret true
      | Some ia =>
          if decide (first t = Some ia) then mret true
          else
            f ← deref (first t); x ← atom_at f;
            put_list this (mk_oqmlAtomList (cnt t) (Some ia) (if decide (last t = first t) then Some ia else last t));;
            set_next ia (next x);; mret true
      end
    else
      p ← skip_blindly (Z.to_nat (idx - 1)) (first t); a ← deref p; x ← atom_at a;
      match ia with
      | None =>
          (if decide (last t = next x) then set_next a None;; put_list this (mk_oqmlAtomList (u32 (cnt t - 1)) (first t) (Some a))
           else n ← deref (next x); y ← atom_at n; set_next a (next y);; put_list this (mk_oqmlAtomList (u32 (cnt t - 1)) (first t) (last t)));;
          mret true
      | Some ia =>
          if decide (next x = Some ia) then mret true
          else
            set_next a (Some ia);;
            (if decide (last t = next x) then set_next ia None;; put_list this (mk_oqmlAtomList (cnt t) (first t) (Some ia))
             else n ← deref (next x); y ← atom_at n; set_next ia (next y));;
            mret true
      end.

(** ** Text *)

Definition chars (s : cstr) : list Z := ord <$> s.
Definition quoted (q : Z) (s : list Z) : list Z := q :: s ++ [q].

(** sprintf of a double by %f: six digits of the nearest multiple of 10^-6, the even
    one of two. *)
Definition round_div (n d : Z) : Z :=
  let q := n / d in let r := n mod d in
  if (2 * r <? d) || ((2 * r =? d) && Z.even q) then q else q + 1.
Definition fmt_f (d : spec_float) : list Z :=
  let neg (s : bool) := if s then [45] else [] in
  match d with
  | S754_zero s => neg s ++ bytes "0.000000"
  | S754_infinity s => neg s ++ bytes "inf"
  | S754_nan => bytes "nan"
  | S754_finite s m e =>
      let n := Z.pos m * 10 ^ 6 in
      let n := if 0 <=? e then n * 2 ^ e else round_div n (2 ^ (- e)) in
      neg s ++ chars (fmt_d 0 (n / 10 ^ 6)) ++ [46] ++ chars (fmt_d 6 (n mod 10 ^ 6))
  end.

(** sprintf of a char by %03o: at least three octal digits of the 32 bits. *)
Fixpoint octal (fuel : nat) (n : Z) : list Z :=
  match fuel with O => [] | S fuel => (if n / 8 =? 0 then [] else octal fuel (n / 8)) ++ [48 + n mod 8] end.
Definition fmt_03o (n : Z) : list Z := let ds := octal 11 (u32 n) in replicate (3 - length ds) 48 ++ ds.
(** iswprint in the C locale. *)
Definition isprint (c : Z) : bool := (32 <=? c) && (c <=? 126).

(** sprintf in a buffer of [n] bytes. *)
Definition in_buffer (n : nat) (s : list Z) : option (list Z) := if (length s <? n)%nat then Some s else None.

(** makeString of the atoms that are no collection. *)
Definition text (a : oqmlAtom) : option (list Z) :=
  match a with
  | oqmlAtom_nil => Some (bytes "nil")
  | oqmlAtom_null => Some (bytes "NULL")
  | oqmlAtom_bool b => Some (bytes (if b then "true" else "false"))
  | oqmlAtom_int i => in_buffer 32 (chars (fmt_d 0 i))
  | oqmlAtom_char c => in_buffer 8 (if isprint c then quoted 39 [c] else quoted 39 (92 :: fmt_03o c))
  | oqmlAtom_double d => in_buffer 16 (fmt_f d)
  | oqmlAtom_string s => Some (quoted 34 s)
  end.
Definition getTypeName (t : coll_type) : list Z :=
  bytes match t with TList => "list" | TBag => "bag" | TSet => "set" | TArray => "array" end.

Fixpoint joined (l : list (list Z)) : list Z :=
  match l with [] => [] | [s] => s | s :: l => s ++ bytes ", " ++ joined l end.
Fixpoint for_list {A B} (f : A -> ST B) (l : list A) : ST (list B) :=
  match l with [] => mret [] | x :: l => y ← f x; ys ← for_list f l; mret (y :: ys) end.

(** oqmlAtom::getString, oqmlAtomList::getString *)
Fixpoint getString (nesting : nat) (a : loc) : ST (list Z) :=
  match nesting with
  | O => undefined
  | S nesting =>
      x ← atom_at a;
      match what x with
      | Scalar v => lift (text v)
      | Coll t l =>
          y ← list_at l; fuel ← enough; xs ← walk fuel (first y);
          ss ← for_list (getString nesting) xs;
          mret (getTypeName t ++ bytes "(" ++ joined ss ++ bytes ")")
      end
  end.

(** ** Equality *)

Definition scalar_equal (a b : oqmlAtom) : bool :=
  match a, b with
  | oqmlAtom_nil, oqmlAtom_nil | oqmlAtom_null, oqmlAtom_null => true
  | oqmlAtom_bool x, oqmlAtom_bool y => Bool.eqb x y
  | oqmlAtom_int x, oqmlAtom_int y | oqmlAtom_char x, oqmlAtom_char y => x =? y
  | oqmlAtom_double x, oqmlAtom_double y => SFeqb x y
  | oqmlAtom_string x, oqmlAtom_string y => match strcmp x y with Eq => true | _ => false end
  | _, _ => false
  end.
(** isEqualTo of two atoms and of the lists of two collections. *)
Fixpoint all_equal (eq : loc -> loc -> ST bool) (l : list loc) (x : option loc) : ST bool :=
  match l with
  | [] => mret true
  | a :: l => x ← deref x; b ← eq a x; if b : bool then y ← atom_at x; all_equal eq l (next y) else mret false
  end.
Fixpoint isEqualTo (nesting : nat) (a b : loc) : ST bool :=
  match nesting with
  | O => undefined
  | S nesting =>
      x ← atom_at a; y ← atom_at b;
      match what x, what y with
      | Scalar v, Scalar w => mret (scalar_equal v w)
      | Coll t l, Coll t' l' =>
          if decide (t' = t) then
            this ← list_at l; list ← list_at l';
            if cnt list =? cnt this then
              fuel ← enough; xs ← walk fuel (first list); all_equal (isEqualTo nesting) xs (first this)
            else mret false
          else mret false
      | _, _ => mret false
      end
  end.

Definition isIn (nesting : nat) (l x : loc) : ST bool :=
  t ← list_at l; fuel ← enough;
  r ← find_atom fuel (first t) (fun a => isEqualTo nesting a x);
  mret (match r with Some _ => true | None => false end).

(** ** Taking atoms out *)

(** The first atom with the text [sx], and the one before it. *)
Fixpoint find_prev (fuel : nat) (nesting : nat) (sx : list Z) (prev p : option loc) : ST (option (option loc * loc)) :=
  match p, fuel with
  | None, _ => mret None
  | Some a, S fuel =>
      s ← getString nesting a;
      if decide (s = sx) then mret (Some (prev, a)) else x ← atom_at a; find_prev fuel nesting sx (Some a) (next x)
  | Some _, O => undefined
  end.
(** oqmlAtomList::suppress; false is the error. The count does not change. *)
Definition suppress (nesting : nat) (l x : loc) : ST bool :=
  sx ← getString nesting x; t ← list_at l; fuel ← enough;
  r ← find_prev fuel nesting sx None (first t);
  match r with
  | None => mret false
  | Some (prev, a) =>
      y ← atom_at a;
      match prev with Some p => set_next p (next y) | None => mret tt end;;
      put_list l (mk_oqmlAtomList (cnt t) (match prev with Some _ => first t | None => next y end) (if decide (Some a = last t) then prev else last t));;
      mret true
  end.
Definition empty (l : loc) : ST unit := t ← list_at l; put_list l (mk_oqmlAtomList 0 None None).

(** std::set<oqmlAtom_x, less_atom>: the first atom of each text, in the order of the
    texts. *)
Fixpoint set_insert (x : list Z * loc) (l : list (list Z * loc)) : list (list Z * loc) :=
  match l with
  | [] => [x]
  | y :: l' => match strcmp (fst x) (fst y) with Lt => x :: l | Eq => l | Gt => y :: set_insert x l' end
  end.
Definition suppressDoubles (nesting : nat) (l : loc) : ST unit :=
  t ← list_at l; fuel ← enough; xs ← walk fuel (first t);
  ss ← for_list (getString nesting) xs;
  let set := foldl (fun set x => set_insert x set) [] (zip ss xs) in
  if Z.of_nat (length set) =? cnt t then mret tt
  else put_list l (mk_oqmlAtomList 0 None None);; for_list (append l) (snd <$> set);; mret tt.

(** ** Cycles *)

(** detect_cycle: the inner loop leaves [a2] null for all the atoms but the first. *)
Fixpoint detect_cycle (fuel : nat) (a1 a2 : option loc) : ST bool :=
  match fuel with
  | O => undefined
  | S fuel =>
      match a1 with
      | None => mret false
      | Some x1 =>
          y1 ← atom_at x1;
          r ← (fix inner (k : nat) (a2 : option loc) : ST bool :=
                 match k, a2 with
                 | _, None => mret false
                 | O, Some _ => undefined
                 | S k, Some x2 =>
                     y2 ← atom_at x2;
                     r ← (if decide (x1 = x2) then mret true
                          else match what y1, what y2 with
                               | Coll _ l1, Coll _ l2 => t1 ← list_at l1; t2 ← list_at l2; detect_cycle fuel (first t1) (first t2)
                               | Coll _ l1, _ => t1 ← list_at l1; detect_cycle fuel (first t1) (Some x2)
                               | _, Coll _ l2 => t2 ← list_at l2; detect_cycle fuel (Some x1) (first t2)
                               | _, _ => mret false
                               end);
                     if r : bool then mret true else inner k (next y2)
                 end) fuel a2;
          if r : bool then mret true else detect_cycle fuel (next y1) None
      end
  end.

(** ** Chains *)

Implicit Types (s : store) (a b l : loc) (p : option loc) (xs : list loc) (v : oqmlAtom).

(** The atoms [xs] follow one another from [p] to [q]. *)
Fixpoint seg s p xs (q : option loc) : Prop :=
  match xs with
  | [] => p = q
  | a :: xs => p = Some a /\ exists x, atoms s !! a = Some x /\ seg s (next x) xs q
  end.
Abbreviation chain s p xs := (seg s p xs None).
Record is_list s l xs (n : Z) : Prop := {
  l_list : lists s !! l = Some (mk_oqmlAtomList n (head xs) (list.last xs));
  l_chain : chain s (head xs) xs;
  l_nodup : NoDup xs }.

Lemma run_st {A B} (m : ST A) (f : A -> ST B) s x s' : m s = Some (x, s') -> (m ≫= f) s = f x s'.
Proof. intros E. unfold mbind, ST_bind. by rewrite E. Qed.
Lemma run_get {B} (f : store -> ST B) s : (get ≫= f) s = f s s.
Proof. done. Qed.
Lemma run_atom {B} a x (f : atom -> ST B) s : atoms s !! a = Some x -> (atom_at a ≫= f) s = f x s.
Proof. intros E. apply run_st. unfold atom_at. by rewrite E. Qed.
Lemma run_list {B} l x (f : oqmlAtomList -> ST B) s : lists s !! l = Some x -> (list_at l ≫= f) s = f x s.
Proof. intros E. apply run_st. unfold list_at. by rewrite E. Qed.
Lemma run_enough {B} (f : nat -> ST B) s : (enough ≫= f) s = f (S (size (atoms s))) s.
Proof. done. Qed.

Lemma segment_frame s s' p xs q : (forall a, a ∈ xs -> atoms s' !! a = atoms s !! a) -> seg s p xs q -> seg s' p xs q.
Proof.
  revert p. induction xs as [|a xs IH]; intros p Hs; [done|]. intros [-> (x & Ex & Hc)]. split; [done|]. exists x.
  rewrite Hs by set_solver. split; [done|]. apply IH; [set_solver|done].
Qed.
Lemma segment_app s p xs ys q : seg s p (xs ++ ys) q <-> exists r, seg s p xs r /\ seg s r ys q.
Proof.
  revert p. induction xs as [|a xs IH]; intros p; cbn; [split; [intros H; by exists p|by intros (r & -> & H)]|]. split.
  - intros [-> (x & Ex & Hc)]. apply IH in Hc as (r & H1 & H2). exists r. split; [|done]. split; [done|]. by exists x.
  - intros (r & [-> (x & Ex & H1)] & H2). split; [done|]. exists x. split; [done|]. apply IH. by exists r.
Qed.
Lemma chain_in s p xs a : chain s p xs -> a ∈ xs -> is_Some (atoms s !! a).
Proof.
  revert p. induction xs as [|b xs IH]; intros p Hc Ha; [by apply not_elem_of_nil in Ha|]. destruct Hc as [_ (x & Ex & Hc)].
  apply elem_of_cons in Ha as [->|Ha]; [by eexists|]. by eapply IH.
Qed.
Lemma chain_head s p xs : chain s p xs -> p = head xs.
Proof. destruct xs; [done|]. by intros [-> _]. Qed.
Lemma chain_cut s p xs a ys : chain s p (xs ++ a :: ys) -> exists x, atoms s !! a = Some x /\ next x = head ys /\ chain s (next x) ys.
Proof. intros Hc. apply segment_app in Hc as (q & _ & [_ (x & Ex & Hc)]). exists x. split; [done|]. split; [by eapply chain_head|done]. Qed.
Lemma chain_size s p xs : chain s p xs -> NoDup xs -> (length xs <= size (atoms s))%nat.
Proof.
  intros Hc Hnd. rewrite <- (size_list_to_set (C := gset loc) xs) by done. rewrite <- size_dom. apply subseteq_size. intros a Ha%elem_of_list_to_set.
  apply elem_of_dom. by eapply chain_in.
Qed.
Lemma is_list_size s l xs n : is_list s l xs n -> (length xs < S (size (atoms s)))%nat.
Proof. intros [_ Hc Hnd]. pose proof (chain_size _ _ _ Hc Hnd). lia. Qed.
Lemma walk_chain fuel s p xs : chain s p xs -> (length xs < fuel)%nat -> walk fuel p s = Some (xs, s).
Proof.
  revert fuel p. induction xs as [|a xs IH]; intros fuel p Hc Hf; [by rewrite Hc; destruct fuel|].
  destruct Hc as [-> (x & Ex & Hc)], fuel; [cbn in Hf; lia|]. cbn [walk]. rewrite (run_atom _ _ _ _ Ex).
  by rewrite (run_st _ _ _ _ _ (IH fuel _ Hc ltac:(cbn in Hf; lia))).
Qed.

(** ** Adding an atom *)

(** The atoms keep what they hold. *)
Definition same_what s s' : Prop := forall a, what <$> atoms s' !! a = what <$> atoms s !! a.
Lemma same_what_refl s : same_what s s.
Proof. done. Qed.
Lemma same_what_trans s1 s2 s3 : same_what s1 s2 -> same_what s2 s3 -> same_what s1 s3.
Proof. intros H1 H2 a. by rewrite H2, H1. Qed.

Lemma set_next_ok a x n s : atoms s !! a = Some x -> set_next a n s = Some (tt, mk_store (<[a := mk_atom (what x) n]> (atoms s)) (lists s)).
Proof. intros E. unfold set_next. by rewrite (run_atom _ _ _ _ E). Qed.
Lemma same_what_next a x n s ls : atoms s !! a = Some x -> same_what s (mk_store (<[a := mk_atom (what x) n]> (atoms s)) ls).
Proof. intros E b. cbn. destruct (decide (b = a)) as [->|]; [by rewrite lookup_insert_eq, E|by rewrite lookup_insert_ne]. Qed.

Lemma run_put_list {B} l x (f : unit -> ST B) s : (put_list l x ≫= f) s = f tt (mk_store (atoms s) (<[l := x]> (lists s))).
Proof. done. Qed.
Lemma run_next {B} a x n (f : unit -> ST B) s : atoms s !! a = Some x -> (set_next a n ≫= f) s = f tt (mk_store (<[a := mk_atom (what x) n]> (atoms s)) (lists s)).
Proof. intros E. by rewrite (run_st _ _ _ _ _ (set_next_ok _ _ _ _ E)). Qed.
Lemma run_deref {A B} (x : A) (f : A -> ST B) s : (deref (Some x) ≫= f) s = f x s.
Proof. done. Qed.

(** A chain after the pointer of its last atom has been set to a new end. *)
Lemma chain_snoc s p xs a x : chain s p xs -> NoDup (xs ++ [a]) -> atoms s !! a = Some x -> next x = None ->
  forall s', (forall b, list.last xs <> Some b -> atoms s' !! b = atoms s !! b) ->
  (forall b y, list.last xs = Some b -> atoms s !! b = Some y -> atoms s' !! b = Some (mk_atom (what y) (Some a))) ->
  chain s' (head (xs ++ [a])) (xs ++ [a]).
Proof.
  revert p. induction xs as [|b xs IH]; intros p Hc Hnd Ea Ena s' Hs Hl.
  - cbn. split; [done|]. exists x. rewrite Hs by done. by split.
  - destruct Hc as [_ (y & Ey & Hc)]. cbn in Hnd. apply NoDup_cons in Hnd as [Hb Hnd]. cbn. split; [done|].
    destruct xs as [|b' xs].
    + exists (mk_atom (what y) (Some a)). rewrite (Hl b y) by done. split; [done|]. cbn. split; [done|]. exists x. rewrite Hs; [by split|].
      cbn. intros [= ->]. set_solver.
    + exists y. rewrite Hs. 2: { change (list.last (b :: b' :: xs)) with (list.last (b' :: xs)). intros E%last_Some_elem_of. set_solver. }
      split; [done|]. pose proof (chain_head _ _ _ Hc) as Eh. rewrite Eh. apply (IH (next y)); try done.
Qed.

Lemma append_ok l a x s xs n : is_list s l xs n -> (a ∉ xs) -> atoms s !! a = Some x ->
  exists s', append l a s = Some (tt, s') /\ is_list s' l (xs ++ [a]) (u32 (n + 1)) /\ same_what s s'
    /\ (forall b, b <> a -> list.last xs <> Some b -> atoms s' !! b = atoms s !! b)
    /\ (forall l', l' <> l -> lists s' !! l' = lists s !! l').
Proof.
  intros [El Hc Hnd] Ha Ea. unfold append. rewrite (run_st _ _ _ _ _ (set_next_ok a x None s Ea)).
  set (s1 := mk_store (<[a:=mk_atom (what x) None]> (atoms s)) (lists s)).
  assert (atoms s1 !! a = Some (mk_atom (what x) None)) as Ea1 by (cbn; by rewrite lookup_insert_eq).
  assert (chain s1 (head xs) xs) as Hc1.
  { eapply segment_frame; [|exact Hc]. intros b Hb. cbn. rewrite lookup_insert_ne; [done|]. by intros ->. }
  assert (NoDup (xs ++ [a])) as Hnd1 by (apply NoDup_app; split_and!; [done|set_solver|apply NoDup_singleton]).
  rewrite (run_list l (mk_oqmlAtomList n (head xs) (list.last xs))) by done. cbn [last cnt first].
  destruct (list.last xs) as [t|] eqn:Et.
  - apply last_Some_elem_of in Et as Ht. destruct (chain_in _ _ _ _ Hc1 Ht) as [y Ey].
    rewrite (run_st _ _ _ _ _ (set_next_ok t y (Some a) s1 Ey)). eexists. split; [reflexivity|].
    assert (t <> a) as Hta by (intros ->; done). split_and!.
    + split; [cbn; rewrite lookup_insert_eq, last_snoc; f_equal; f_equal; by destruct xs| |done].
      apply (chain_snoc s1 (head xs) xs a (mk_atom (what x) None)); try done; intros b.
      * rewrite Et. intros Hb. cbn. rewrite lookup_insert_ne; [done|]. by intros ->.
      * rewrite Et. intros y' [= <-] Ey'. assert (y' = y) as -> by congruence. cbn. by rewrite lookup_insert_eq.
    + eapply same_what_trans; [exact (same_what_next a x None s (lists s) Ea)|]. exact (same_what_next t y (Some a) s1 _ Ey).
    + intros b Hb Hbt. cbn. rewrite !lookup_insert_ne by congruence. done.
    + intros l' Hl. cbn. by rewrite lookup_insert_ne.
  - apply last_None in Et as ->. eexists. split; [reflexivity|]. split_and!.
    + split; [cbn; by rewrite lookup_insert_eq| |done]. cbn. split; [done|]. exists (mk_atom (what x) None). by rewrite lookup_insert_eq.
    + exact (same_what_next a x None s _ Ea).
    + intros b Hb _. cbn. by rewrite lookup_insert_ne.
    + intros l' Hl. cbn. by rewrite lookup_insert_ne.
Qed.

(** ** Changing and removing an atom *)

Lemma skip_blindly_seg p pre q s : seg s p pre q -> skip_blindly (length pre) p s = Some (q, s).
Proof.
  revert p. induction pre as [|a pre IH]; intros p Hc; [by rewrite Hc|]. destruct Hc as [-> (x & Ex & Hc)]. cbn [length skip_blindly].
  rewrite (run_st (deref (Some a)) _ s a s) by done. rewrite (run_atom _ _ _ _ Ex). by apply IH.
Qed.
Lemma skip_blindly_short p xs n s : chain s p xs -> (length xs < n)%nat -> skip_blindly n p s = None.
Proof.
  revert p n. induction xs as [|a xs IH]; intros p n Hc Hn; (destruct n as [|n]; [cbn in Hn; lia|]); cbn [skip_blindly].
  - by rewrite Hc.
  - destruct Hc as [-> (x & Ex & Hc)]. rewrite (run_st (deref (Some a)) _ s a s) by done. rewrite (run_atom _ _ _ _ Ex).
    apply (IH (next x)); [done|cbn in Hn; lia].
Qed.
Lemma skip_seg p pre q s : seg s p pre q -> skip (length pre) p s = Some (q, s).
Proof.
  revert p. induction pre as [|a pre IH]; intros p Hc; [rewrite Hc; by destruct q|]. destruct Hc as [-> (x & Ex & Hc)]. cbn [length skip].
  rewrite (run_atom _ _ _ _ Ex). by apply IH.
Qed.
Lemma skip_none n s : skip n None s = Some (None, s).
Proof. by destruct n. Qed.
Lemma skip_chain p xs n s : chain s p xs -> skip n p s = Some (xs !! n, s).
Proof.
  revert p n. induction xs as [|a xs IH]; intros p n Hc; [rewrite Hc; by rewrite skip_none|]. destruct Hc as [-> (x & Ex & Hc)].
  destruct n as [|n]; [done|]. cbn [skip]. rewrite (run_atom _ _ _ _ Ex). by apply IH.
Qed.

Lemma last_middle pre b post : NoDup (pre ++ b :: post) -> list.last (pre ++ b :: post) = Some b <-> post = [].
Proof.
  intros Hnd. split; [|intros ->; by rewrite last_snoc]. destruct post as [|c post]; [done|]. intros E. exfalso.
  rewrite last_app_cons in E. change (list.last (b :: c :: post)) with (list.last (c :: post)) in E.
  apply last_Some_elem_of in E. apply NoDup_app in Hnd as (_ & _ & Hnd). apply NoDup_cons in Hnd as [Hb _]. by apply Hb.
Qed.

Lemma index_after n : (Z.of_nat (S n) =? 0) = false /\ Z.to_nat (Z.of_nat (S n) - 1) = n.
Proof. split; [apply Z.eqb_neq|]; lia. Qed.
(** The atom that an index of setAtom is that of. *)
Definition place (idx : Z) : nat := if idx <? 0 then 1 else Z.to_nat idx.
Lemma setAtom_place nesting l ia idx : setAtom nesting l ia idx = setAtom nesting l ia (Z.of_nat (place idx)).
Proof.
  unfold place. destruct (Z.ltb_spec idx 0) as [Hn|Hn]; [|by rewrite Z2Nat.id].
  unfold setAtom. rewrite (proj2 (Z.eqb_neq idx 0)) by lia. change (Z.of_nat 1 =? 0) with false.
  replace (Z.to_nat (idx - 1)) with (Z.to_nat (Z.of_nat 1 - 1)) by lia. done.
Qed.

(** What an operation on a list leaves of the others. *)
Definition others l s s' : Prop := same_what s s' /\ forall l', l' <> l -> lists s' !! l' = lists s !! l'.

Lemma set_ok nesting l pre b post ia v nx n s : is_list s l (pre ++ b :: post) n -> atoms s !! ia = Some (mk_atom (Scalar v) nx) ->
  (ia ∉ pre ++ b :: post) ->
  exists s', setAtom nesting l (Some ia) (Z.of_nat (length pre)) s = Some (true, s') /\ is_list s' l (pre ++ ia :: post) n /\ others l s s'.
Proof.
  intros [El Hc Hnd] Eia Hia. unfold setAtom. rewrite (run_st (A := bool) _ _ s false s) by (by rewrite (run_atom _ _ _ _ Eia)).
  rewrite (run_list _ _ _ _ El). cbn [cnt first last].
  assert (NoDup (pre ++ ia :: post)) as Hnd' by (apply NoDup_app in Hnd as (? & ? & [? ?]%NoDup_cons); apply NoDup_app; split_and!; [done|set_solver|apply NoDup_cons; set_solver]).
  assert (forall m, (if decide (list.last (pre ++ b :: post) = Some b) then Some ia else list.last (pre ++ b :: post)) = m -> m = list.last (pre ++ ia :: post)) as Hlast.
  { intros m <-. case_decide as Hd; [apply last_middle in Hd as ->; [by rewrite last_snoc|done]|].
    destruct post as [|c post]; [by rewrite last_snoc in Hd|]. by rewrite !last_app_cons. }
  destruct pre as [|a pre _] using rev_ind.
  - change (Z.of_nat (length (@nil loc)) =? 0) with true. cbn [app head] in *. rewrite decide_False by (intros [= ->]; set_solver). destruct Hc as [_ (y & Ey & Hc)].
    rewrite run_deref, (run_atom _ _ _ _ Ey), run_put_list, (run_next ia (mk_atom (Scalar v) nx)) by done.
    eexists. split; [reflexivity|]. split; [split; [| |done]|split].
    + cbn. rewrite lookup_insert_eq. do 2 f_equal. by apply Hlast.
    + cbn. split; [done|]. eexists. rewrite lookup_insert_eq. split; [done|]. cbn. eapply segment_frame; [|exact Hc].
      intros c Hcp. cbn. rewrite lookup_insert_ne; [done|set_solver].
    + exact (same_what_next ia _ (next y) s _ Eia).
    + intros l' Hl. cbn. by rewrite lookup_insert_ne.
  - rewrite length_app, Nat.add_1_r. cbn [length]. destruct (index_after (length pre)) as [-> ->]. rewrite <- !(app_assoc pre [a]) in *. cbn [app] in *.
    apply segment_app in Hc as (r & Hpre & [-> (x & Ex & [Enx (y & Ey & Hc)])]).
    assert (a <> ia) as Hai by (intros ->; set_solver).
    assert ((a ∉ pre) /\ a <> b /\ (b ∉ pre) /\ (a ∉ post)) as (Ha1 & Hab & Hb & Ha2).
    { apply NoDup_app in Hnd as (_ & Hd & [Ha ?]%NoDup_cons). split_and!; try set_solver; intros Hx; apply (Hd _ Hx); set_solver. }
    rewrite (run_st _ _ _ _ _ (skip_blindly_seg _ _ _ _ Hpre)), run_deref, (run_atom _ _ _ _ Ex).
    rewrite Enx. rewrite decide_False by (intros [= ->]; set_solver). rewrite (run_next a x) by done.
    set (s1 := mk_store _ _).
    assert (exists ls, (if decide (list.last (pre ++ a :: b :: post) = Some b)
       then set_next ia None;; put_list l (mk_oqmlAtomList n (head (pre ++ a :: b :: post)) (Some ia))
       else n0 ← deref (Some b); y0 ← atom_at n0; set_next ia (next y0)) s1
      = Some (tt, mk_store (<[ia := mk_atom (Scalar v) (next y)]> (atoms s1)) ls)
      /\ ls !! l = Some (mk_oqmlAtomList n (head (pre ++ a :: ia :: post)) (list.last (pre ++ a :: ia :: post)))
      /\ forall l', l' <> l -> ls !! l' = lists s !! l') as (ls & Ew & Els & Hls).
    { assert (head (pre ++ a :: b :: post) = head (pre ++ a :: ia :: post)) as Eh by (by destruct pre).
      case_decide as Hd.
      - assert (post = []) as -> by (apply (last_middle (pre ++ [a]) b); [by rewrite <- app_assoc|by rewrite <- app_assoc]).
        cbn in Hc. rewrite Hc. rewrite (run_next ia (mk_atom (Scalar v) nx)) by (cbn; by rewrite lookup_insert_ne).
        eexists. split; [reflexivity|]. cbn. rewrite lookup_insert_eq. rewrite Eh. split; [|intros l' Hl; by rewrite lookup_insert_ne].
        do 2 f_equal. replace (pre ++ [a; ia]) with ((pre ++ [a]) ++ [ia]) by (by rewrite <- app_assoc). by rewrite last_snoc.
      - rewrite run_deref, (run_atom b y) by (cbn; by rewrite lookup_insert_ne).
        rewrite (set_next_ok ia (mk_atom (Scalar v) nx)) by (cbn; by rewrite lookup_insert_ne).
        eexists. split; [reflexivity|]. cbn. split; [|done]. rewrite El, Eh. do 2 f_equal. by apply Hlast. }
    rewrite (run_st _ _ _ _ _ Ew). eexists. split; [reflexivity|]. split; [split; [exact Els| |done]|split; [|exact Hls]].
    + apply (segment_app _ _ pre). exists (Some a). split.
      * destruct pre as [|c pre]; [done|]. eapply segment_frame; [|exact Hpre]. intros d Hdp. cbn. rewrite !lookup_insert_ne; [done| |]; set_solver.
      * split; [done|]. eexists. cbn. rewrite lookup_insert_ne, lookup_insert_eq by done. split; [done|]. cbn. split; [done|].
        eexists. rewrite lookup_insert_eq. split; [done|]. cbn. eapply segment_frame; [|exact Hc]. intros d Hdp. cbn. rewrite !lookup_insert_ne; [done| |]; set_solver.
    + eapply same_what_trans; [exact (same_what_next a x (Some ia) s (lists s) Ex)|].
      apply (same_what_next ia (mk_atom (Scalar v) nx)). cbn. by rewrite lookup_insert_ne.
Qed.

(** Past the end, the null pointer is followed. *)
Lemma set_out nesting l xs ia idx x n s : is_list s l xs n -> (match ia with Some a => atoms s !! a = Some x /\ (a ∉ xs) | None => True end) ->
  (match what x with Scalar _ => True | _ => False end) ->
  (length xs <= idx)%nat -> setAtom nesting l ia (Z.of_nat idx) s = None.
Proof.
  intros [El Hc Hnd] Hia Hx Hidx. unfold setAtom. rewrite (run_st (A := bool) _ _ s false s).
  2: { destruct ia as [ia|]; [|done]. destruct Hia as [Eia _]. rewrite (run_atom _ _ _ _ Eia). by destruct (what x). }
  rewrite (run_list _ _ _ _ El). cbn [first last cnt]. destruct idx as [|idx]; [change (Z.of_nat 0 =? 0) with true; cbn iota|destruct (index_after idx) as [-> ->]].
  - destruct xs; [|cbn in Hidx; lia]. destruct ia as [ia|]; [|done]. by rewrite decide_False.
  - destruct (decide (length xs < idx)%nat) as [Hlt|Hge].
    { unfold mbind at 1, ST_bind at 1. by rewrite (skip_blindly_short _ _ _ _ Hc). }
    destruct (decide (length xs = idx)) as [<-|Hne].
    { by rewrite (run_st _ _ _ _ _ (skip_blindly_seg _ _ _ _ Hc)). }
    destruct xs as [|a xs _] using rev_ind; [cbn in *; lia|]. rewrite length_app in *. cbn in Hidx, Hge, Hne.
    assert (length xs = idx) as <- by lia. apply segment_app in Hc as (r & Hpre & [-> (y & Ey & Hc)]). cbn in Hc.
    rewrite (run_st _ _ _ _ _ (skip_blindly_seg _ _ _ _ Hpre)), run_deref, (run_atom _ _ _ _ Ey), Hc, last_snoc.
    destruct ia as [ia|]; [rewrite decide_False by done; rewrite (run_next _ _ _ _ _ Ey)|]; by rewrite decide_False.
Qed.

Lemma nodup_middle pre b post : NoDup (pre ++ b :: post) -> NoDup (pre ++ post) /\ (b ∉ pre) /\ (b ∉ post).
Proof.
  intros Hnd. apply NoDup_app in Hnd as (H1 & Hd & [Hb H2]%NoDup_cons). split_and!; [|intros Hx; apply (Hd _ Hx); set_solver|done].
  apply NoDup_app. split_and!; [done| |done]. intros x Hx Hp. apply (Hd _ Hx). set_solver.
Qed.
(** The list without the atom [b]: the pointer to it is given the one that it has. *)
Lemma unlink_ok l pre b post y n s : is_list s l (pre ++ b :: post) n -> atoms s !! b = Some y ->
  exists ats, match list.last pre with Some a => exists x, atoms s !! a = Some x /\ ats = <[a := mk_atom (what x) (next y)]> (atoms s) | None => ats = atoms s end
    /\ forall ls m, ls !! l = Some (mk_oqmlAtomList m (head (pre ++ post)) (list.last (pre ++ post))) -> (forall l', l' <> l -> ls !! l' = lists s !! l') ->
      is_list (mk_store ats ls) l (pre ++ post) m /\ others l s (mk_store ats ls).
Proof.
  intros [El Hc Hnd] Ey. destruct (nodup_middle _ _ _ Hnd) as (Hnd' & Hb1 & Hb2). destruct pre as [|a pre _] using rev_ind.
  - exists (atoms s). split; [done|]. intros ls m Els Hls. destruct Hc as [_ (y' & Ey' & Hc)]. assert (y' = y) as -> by congruence.
    split; [split; [done| |done]|by split]. cbn. rewrite <- (chain_head _ _ _ Hc). eapply segment_frame; [|exact Hc]. done.
  - rewrite <- !(app_assoc pre [a]) in *. cbn [app] in *. apply segment_app in Hc as (r & Hpre & [-> (x & Ex & [Enx (y' & Ey' & Hc)])]).
    assert (y' = y) as -> by congruence. assert (a <> b) as Hab by (intros ->; set_solver).
    destruct (nodup_middle pre a post Hnd') as (_ & Ha1 & Ha2). exists (<[a := mk_atom (what x) (next y)]> (atoms s)).
    rewrite last_snoc. split; [by exists x|]. intros ls m Els Hls. split; [split; [done| |done]|split; [|done]].
    + apply (segment_app _ _ pre). exists (Some a). split.
      * destruct pre as [|c pre]; [done|]. eapply segment_frame; [|exact Hpre]. intros d Hd. cbn. rewrite lookup_insert_ne; [done|set_solver].
      * split; [done|]. eexists. cbn. rewrite lookup_insert_eq. split; [done|]. cbn. eapply segment_frame; [|exact Hc].
        intros d Hd. cbn. rewrite lookup_insert_ne; [done|set_solver].
    + exact (same_what_next a x (next y) s ls Ex).
Qed.
Lemma last_without pre b post : NoDup (pre ++ b :: post) ->
  list.last (pre ++ post) = if decide (list.last (pre ++ b :: post) = Some b) then list.last pre else list.last (pre ++ b :: post).
Proof.
  intros Hnd. case_decide as Hd; [apply last_middle in Hd as ->; [by rewrite app_nil_r|done]|].
  destruct post as [|c post]; [by rewrite last_snoc in Hd|]. by rewrite !last_app_cons.
Qed.

Lemma unset_ok nesting l pre b post n s : is_list s l (pre ++ b :: post) n ->
  exists s', setAtom nesting l None (Z.of_nat (length pre)) s = Some (true, s') /\ is_list s' l (pre ++ post) (u32 (n - 1)) /\ others l s s'.
Proof.
  intros HL. pose proof HL as [El Hc Hnd]. destruct (chain_in _ _ _ b Hc) as [y Ey]; [set_solver|].
  destruct (unlink_ok l pre b post y n s HL Ey) as (ats & Hats & Hres). pose proof (last_without pre b post Hnd) as Hlast.
  unfold setAtom. rewrite (run_st (A := bool) _ _ s false s) by done. rewrite (run_list _ _ _ _ El). cbn [first last cnt].
  destruct pre as [|a pre _] using rev_ind.
  - change (Z.of_nat (length (@nil loc)) =? 0) with true. cbn [app head] in *. rewrite run_deref, (run_atom _ _ _ _ Ey), run_put_list. cbn in Hats. subst ats.
    eexists. split; [reflexivity|]. apply Hres; [|intros l' Hl; by rewrite lookup_insert_ne]. rewrite lookup_insert_eq.
    destruct Hc as [_ (y' & Ey' & Hc)]. assert (y' = y) as -> by congruence. pose proof (chain_head _ _ _ Hc) as Eh. rewrite Hlast. do 2 f_equal; [done|].
    case_decide as Hd; [|done]. apply (last_middle []) in Hd as ->; done.
  - rewrite length_app, Nat.add_1_r. cbn [length]. destruct (index_after (length pre)) as [-> ->]. rewrite last_snoc in Hats, Hlast. destruct Hats as (x & Ex & ->).
    rewrite <- !(app_assoc pre [a]) in *. cbn [app] in *. apply segment_app in Hc as (r & Hpre & [-> (x' & Ex' & [Enx (y' & Ey' & Hc)])]).
    assert (x' = x) as -> by congruence. assert (y' = y) as -> by congruence.
    rewrite (run_st _ _ _ _ _ (skip_blindly_seg _ _ _ _ Hpre)), run_deref, (run_atom _ _ _ _ Ex), Enx.
    assert (head (pre ++ a :: post) = head (pre ++ a :: b :: post)) as Eh by (by destruct pre).
    case_decide as Hd.
    + assert (post = []) as -> by (apply (last_middle (pre ++ [a]) b); by rewrite <- app_assoc). cbn in Hc. rewrite (run_st (A := unit) _ _ s tt (mk_store (<[a:=mk_atom (what x) None]> (atoms s)) (<[l := mk_oqmlAtomList (u32 (n - 1)) (head (pre ++ [a; b])) (Some a)]> (lists s))))
        by (by rewrite (run_next _ _ _ _ _ Ex)).
      eexists. split; [reflexivity|]. rewrite <- Hc. apply Hres; [|intros l' Hl; by rewrite lookup_insert_ne]. rewrite lookup_insert_eq, Hlast, Eh. done.
    + rewrite (run_st (A := unit) _ _ s tt (mk_store (<[a:=mk_atom (what x) (next y)]> (atoms s)) (<[l := mk_oqmlAtomList (u32 (n - 1)) (head (pre ++ a :: b :: post)) (list.last (pre ++ a :: b :: post))]> (lists s))))
        by (by rewrite run_deref, (run_atom _ _ _ _ Ey), (run_next _ _ _ _ _ Ex)).
      eexists. split; [reflexivity|]. apply Hres; [|intros l' Hl; by rewrite lookup_insert_ne]. rewrite lookup_insert_eq, Hlast, Eh. done.
Qed.

(** ** Searching *)

(** The scalars that the atoms hold, and their texts. *)
Definition holds s a v : Prop := exists nx, atoms s !! a = Some (mk_atom (Scalar v) nx).
Lemma holds_same s s' a v : same_what s s' -> holds s a v -> holds s' a v.
Proof.
  intros H [nx E]. specialize (H a). rewrite E in H. destruct (atoms s' !! a) as [[w nx']|] eqn:E'; [|done]. cbn in H.
  exists nx'. congruence.
Qed.
Lemma getString_ok nesting s a v t : holds s a v -> text v = Some t -> getString (S nesting) a s = Some (t, s).
Proof. intros [nx E] Ht. cbn [getString]. rewrite (run_atom _ _ _ _ E). cbn [what]. unfold lift. by rewrite Ht. Qed.
Lemma isEqualTo_ok nesting s a b v w : holds s a v -> holds s b w -> isEqualTo (S nesting) a b s = Some (scalar_equal v w, s).
Proof. intros [n1 E1] [n2 E2]. cbn [isEqualTo]. by rewrite (run_atom _ _ _ _ E1), (run_atom _ _ _ _ E2). Qed.

Lemma find_atom_ok fuel s p xs f (g : loc -> bool) : chain s p xs -> (length xs < fuel)%nat -> (forall a, a ∈ xs -> f a s = Some (g a, s)) ->
  find_atom fuel p f s = Some (snd <$> list_find (fun a => g a = true) xs, s).
Proof.
  revert fuel p. induction xs as [|a xs IH]; intros fuel p Hc Hf Hg; [rewrite Hc; by destruct fuel|].
  destruct Hc as [-> (x & Ex & Hc)], fuel as [|fuel]; [cbn in Hf; lia|]. cbn [find_atom].
  rewrite (run_st _ _ _ _ _ (Hg a ltac:(set_solver))). destruct (g a) eqn:Eg.
  - cbn [list_find]. by rewrite decide_True.
  - rewrite (run_atom _ _ _ _ Ex), (IH fuel _ Hc) by (cbn in Hf; first [lia|set_solver]). cbn [list_find]. rewrite decide_False by congruence.
    by destruct (list_find _ xs) as [[]|].
Qed.

Definition all_hold s xs (vs : list oqmlAtom) : Prop := Forall2 (holds s) xs vs.
Lemma all_hold_same s s' xs vs : same_what s s' -> all_hold s xs vs -> all_hold s' xs vs.
Proof. intros H Hv. eapply Forall2_impl; [exact Hv|]. intros a v. by apply holds_same. Qed.

Lemma isIn_ok nesting l x s xs n vs v : is_list s l xs n -> all_hold s xs vs -> holds s x v ->
  isIn (S nesting) l x s = Some (existsb (fun w => scalar_equal w v) vs, s).
Proof.
  intros HL Hvs Hx. pose proof HL as [El Hc Hnd]. unfold isIn. rewrite (run_list _ _ _ _ El), run_enough. cbn [first].
  set (g := fun a => match atoms s !! a with Some (mk_atom (Scalar w) _) => scalar_equal w v | _ => false end).
  assert (forall a, a ∈ xs -> isEqualTo (S nesting) a x s = Some (g a, s)) as Hg.
  { intros a Ha. apply list_elem_of_lookup in Ha as [i Hi]. destruct (Forall2_lookup_l _ _ _ _ _ Hvs Hi) as (w & _ & Hw).
    rewrite (isEqualTo_ok _ _ _ _ _ _ Hw Hx). unfold g. destruct Hw as [nx ->]. done. }
  rewrite (run_st _ _ _ _ _ (find_atom_ok _ s _ xs (fun a => isEqualTo (S nesting) a x) g Hc (is_list_size _ _ _ _ HL) Hg)).
  unfold mret, ST_ret. do 2 f_equal. clear HL El Hc Hnd Hg. induction Hvs as [|a w xs vs Hw _ IH]; [done|]. cbn [list_find existsb].
  assert (g a = scalar_equal w v) as Eg by (unfold g; by destruct Hw as [nx ->]). rewrite Eg. destruct (scalar_equal w v); [done|].
  rewrite decide_False by done. cbn [orb]. rewrite <- IH. by destruct (list_find _ xs) as [[]|].
Qed.

(** Every scalar has a text. *)
Definition printable v : Prop := is_Some (text v).
Lemma find_prev_ok nesting s xs vs sx : all_hold s xs vs -> Forall printable vs -> forall fuel prev p, chain s p xs -> (length xs < fuel)%nat ->
  find_prev fuel (S nesting) sx prev p s
  = Some (match list_find (fun v => text v = Some sx) vs with
          | Some (i, _) => a ← xs !! i; Some (match i with O => prev | S i => xs !! i end, a)
          | None => None
          end, s).
Proof.
  intros Hvs. induction Hvs as [|a v xs vs Ha _ IH]; intros Hp fuel prev p Hc Hf; [rewrite Hc; by destruct fuel|].
  apply Forall_cons in Hp as [[t Et] Hp']. destruct Hc as [-> (x & Ex & Hc)], fuel as [|fuel]; [cbn in Hf; lia|]. cbn [find_prev].
  rewrite (run_st _ _ _ _ _ (getString_ok nesting s a v t Ha Et)). cbn [list_find]. destruct (decide (t = sx)) as [->|Hne].
  - by rewrite decide_True.
  - rewrite decide_False by congruence. rewrite (run_atom _ _ _ _ Ex), (IH Hp' fuel (Some a) _ Hc) by (cbn in Hf; lia).
    destruct (list_find _ vs) as [[[|i] w]|]; cbn; [by destruct xs|done|done].
Qed.
Lemma suppress_ok nesting l x s xs n vs v : is_list s l xs n -> all_hold s xs vs -> Forall printable vs -> holds s x v -> printable v ->
  match list_find (fun w => text w = text v) vs with
  | Some (i, _) => exists s' a, xs !! i = Some a /\ suppress (S nesting) l x s = Some (true, s') /\ is_list s' l (delete i xs) n /\ others l s s'
  | None => suppress (S nesting) l x s = Some (false, s)
  end.
Proof.
  intros HL Hvs Hp Hx [t Et]. pose proof HL as [El Hc Hnd]. rewrite Et. unfold suppress.
  rewrite (run_st _ _ _ _ _ (getString_ok nesting s x v t Hx Et)), (run_list _ _ _ _ El), run_enough. cbn [first last cnt].
  pose proof (find_prev_ok nesting s xs vs t Hvs Hp _ None _ Hc (is_list_size _ _ _ _ HL)) as Ef. rewrite (run_st _ _ _ _ _ Ef).
  destruct (list_find _ vs) as [[i w]|] eqn:El'; [|done]. apply list_find_Some in El' as (Hw & _).
  destruct (Forall2_lookup_r _ _ _ _ _ Hvs Hw) as (b & Hb & [nx Eb]). rewrite Hb. cbn [mbind option_bind].
  pose proof (take_drop_middle _ _ _ Hb) as Exs. assert (length (take i xs) = i) as Hlen by (apply length_take_le; apply lookup_lt_Some in Hb; lia).
  rewrite <- Exs in HL, Hnd. destruct (unlink_ok l _ b _ _ n s HL Eb) as (ats & Hats & Hres). pose proof (last_without _ b _ Hnd) as Hlast.
  rewrite (run_atom _ _ _ _ Eb). cbn [next] in *. rewrite delete_take_drop. rewrite Exs in Hlast.
  assert (match match i with O => None | S i => xs !! i end with Some p => set_next p nx | None => mret tt end s = Some (tt, mk_store ats (lists s))
    /\ match i with O => None | S i => xs !! i end = list.last (take i xs)) as [Ew El1].
  { destruct i as [|i]; [change (ats = atoms s) in Hats; subst ats; by destruct s|]. destruct (lookup_lt_is_Some_2 xs i) as [a Ea]; [apply lookup_lt_Some in Hb; lia|].
    rewrite Ea. rewrite (take_S_r _ _ _ Ea), last_snoc in Hats |- *. destruct Hats as (y & Ey & ->). by rewrite (set_next_ok _ _ _ _ Ey). }
  rewrite (run_st _ _ _ _ _ Ew), run_put_list. eexists _, b. split; [done|]. split; [reflexivity|]. apply Hres; [|intros l' Hl; by rewrite lookup_insert_ne].
  rewrite lookup_insert_eq. rewrite Hlast, El1. do 2 f_equal.
  - destruct i as [|i].
    + cbn. destruct xs as [|c xs]; [done|]. cbn in Hb. injection Hb as ->. destruct Hc as [_ (y & Ey & Hc)]. assert (y = mk_atom (Scalar w) nx) as -> by congruence.
      cbn. by apply (chain_head _ _ _ Hc).
    + destruct (lookup_lt_is_Some_2 xs i) as [a Ea]; [apply lookup_lt_Some in Hb; lia|]. assert (list.last (take (S i) xs) = Some a) as -> by (by rewrite (take_S_r _ _ _ Ea), last_snoc). by destruct xs.
  - apply decide_ext. split; congruence.
Qed.

(** ** Programs of operations *)

Inductive cmd := CAppend v | CSet (idx : Z) v | CUnset (idx : Z) | CSuppress v | CEmpty | CGet (idx : nat) | CIsIn v | CCount.
Inductive answer := ADone (b : bool) | ACount (n : Z) | AAtom (c : option content).

Definition do_cmd l (c : cmd) : ST answer :=
  match c with
  | CAppend v => a ← new_atom (Scalar v); append l a;; mret (ADone true)
  | CSet idx v => a ← new_atom (Scalar v); b ← setAtom 1 l (Some a) idx; mret (ADone b)
  | CUnset idx => b ← setAtom 1 l None idx; mret (ADone b)
  | CSuppress v => a ← new_atom (Scalar v); b ← suppress 1 l a; mret (ADone b)
  | CEmpty => empty l;; mret (ADone true)
  | CGet idx => p ← getAtom l idx; match p with Some a => x ← atom_at a; mret (AAtom (Some (what x))) | None => mret (AAtom None) end
  | CIsIn v => a ← new_atom (Scalar v); b ← isIn 1 l a; mret (ADone b)
  | CCount => t ← list_at l; mret (ACount (cnt t))
  end.
Definition run l (cs : list cmd) : ST (list answer) := for_list (do_cmd l) cs.

(** The same on a sequence and its count. *)
Definition do_spec (c : cmd) (vs : list oqmlAtom) (n : Z) : option (answer * (list oqmlAtom * Z)) :=
  match c with
  | CAppend v => Some (ADone true, (vs ++ [v], u32 (n + 1)))
  | CSet idx v => if (place idx <? length vs)%nat then Some (ADone true, (<[place idx := v]> vs, n)) else None
  | CUnset idx => if (place idx <? length vs)%nat then Some (ADone true, (delete (place idx) vs, u32 (n - 1))) else None
  | CSuppress v =>
      match list_find (fun w => text w = text v) vs with
      | Some (i, _) => Some (ADone true, (delete i vs, n))
      | None => Some (ADone false, (vs, n))
      end
  | CEmpty => Some (ADone true, ([], 0))
  | CGet idx => Some (AAtom (Scalar <$> vs !! idx), (vs, n))
  | CIsIn v => Some (ADone (existsb (fun w => scalar_equal w v) vs), (vs, n))
  | CCount => Some (ACount n, (vs, n))
  end.
Fixpoint spec (cs : list cmd) (vs : list oqmlAtom) (n : Z) : option (list answer * (list oqmlAtom * Z)) :=
  match cs with
  | [] => Some ([], (vs, n))
  | c :: cs => '(r, (vs, n)) ← do_spec c vs n; '(rs, st) ← spec cs vs n; Some (r :: rs, st)
  end.

(** A list of the store, its scalars and its count. *)
Definition represents s l vs (n : Z) : Prop := exists xs, is_list s l xs n /\ all_hold s xs vs /\ 0 <= n < 2 ^ 32.
Lemma is_list_frame s s' l xs n : is_list s l xs n -> lists s' !! l = lists s !! l -> (forall a, a ∈ xs -> atoms s' !! a = atoms s !! a) -> is_list s' l xs n.
Proof. intros [El Hc Hnd] Hl Ha. split; [by rewrite Hl|by eapply segment_frame|done]. Qed.
Lemma new_atom_ok c s : let a := base.fresh (dom (atoms s)) in let s' := mk_store (<[a := mk_atom c None]> (atoms s)) (lists s) in
  new_atom c s = Some (a, s') /\ (forall b, is_Some (atoms s !! b) -> b <> a /\ atoms s' !! b = atoms s !! b).
Proof.
  intros a s'. split; [done|]. intros b Hb. assert (b <> a) as Hne.
  { intros ->. apply (is_fresh (dom (atoms s))). by apply elem_of_dom. }
  split; [done|]. cbn. by rewrite lookup_insert_ne.
Qed.
Lemma new_atom_list v s l xs n vs : is_list s l xs n -> all_hold s xs vs ->
  exists a s', new_atom (Scalar v) s = Some (a, s') /\ is_list s' l xs n /\ all_hold s' xs vs /\ atoms s' !! a = Some (mk_atom (Scalar v) None) /\ (a ∉ xs).
Proof.
  intros HL Hvs. destruct (new_atom_ok (Scalar v) s) as [E Hf]. eexists _, _. split; [exact E|].
  assert (forall a, a ∈ xs -> is_Some (atoms s !! a)) as Hin by (intros a; apply (chain_in _ _ _ _ (l_chain _ _ _ _ HL))).
  split_and!.
  - eapply is_list_frame; [exact HL|done|]. intros a Ha. by apply Hf, Hin.
  - eapply Forall2_impl; [exact Hvs|]. intros a w [nx Ea]. exists nx. rewrite (proj2 (Hf a (mk_is_Some _ _ Ea))). exact Ea.
  - cbn. by rewrite lookup_insert_eq.
  - intros Ha. by destruct (Hf _ (Hin _ Ha)).
Qed.
Lemma all_hold_length s xs vs : all_hold s xs vs -> length xs = length vs.
Proof. apply Forall2_length. Qed.

Definition cmd_ok (c : cmd) : Prop := match c with CAppend v | CSet _ v | CSuppress v | CIsIn v => printable v | _ => True end.

Lemma do_cmd_ok l c s vs n : represents s l vs n -> Forall printable vs -> cmd_ok c ->
  match do_spec c vs n with
  | Some (r, (vs', n')) => exists s', do_cmd l c s = Some (r, s') /\ represents s' l vs' n' /\ Forall printable vs'
  | None => do_cmd l c s = None
  end.
Proof.
  intros (xs & HL & Hvs & Hn) Hp Hc. pose proof (all_hold_length _ _ _ Hvs) as Hlen. destruct c as [v|idx v|idx|v| |idx|v|]; cbn [do_spec do_cmd cmd_ok] in *.
  - destruct (new_atom_list v s l xs n vs HL Hvs) as (a & s1 & E1 & HL1 & Hvs1 & Ea & Ha). rewrite (run_st _ _ _ _ _ E1).
    destruct (append_ok l a _ s1 xs n HL1 Ha Ea) as (s2 & E2 & HL2 & Hw & _). exists s2. rewrite (run_st _ _ _ _ _ E2). split; [done|].
    split; [|apply Forall_app; by split; [|constructor]]. exists (xs ++ [a]). split; [done|]. split; [|apply u32_range]. apply Forall2_app; [by eapply all_hold_same|].
    constructor; [|done]. eapply holds_same; [done|by eexists].
  - destruct (new_atom_list v s l xs n vs HL Hvs) as (a & s1 & E1 & HL1 & Hvs1 & Ea & Ha). rewrite (run_st _ _ _ _ _ E1).
    rewrite setAtom_place. generalize (place idx). clear idx. intros idx. destruct (idx <? length vs)%nat eqn:Hi; [apply Nat.ltb_lt in Hi|apply Nat.ltb_ge in Hi].
    + destruct (lookup_lt_is_Some_2 xs idx) as [b Hb]; [lia|]. pose proof (take_drop_middle _ _ _ Hb) as Exs.
      assert (length (take idx xs) = idx) as Hlt by (apply length_take_le; lia). rewrite <- Exs in HL1, Ha.
      destruct (set_ok 1 l _ b _ a v None n s1 HL1 Ea Ha) as (s2 & E2 & HL2 & Hw & _). rewrite Hlt in E2. exists s2.
      rewrite (run_st _ _ _ _ _ E2). split; [done|]. split; [|by apply Forall_insert]. exists (<[idx := a]> xs).
      split; [by rewrite insert_take_drop by lia|]. split; [|done]. apply Forall2_insert; [by eapply all_hold_same|]. eapply holds_same; [done|by eexists].
    + unfold mbind, ST_bind. by rewrite (set_out 1 l xs (Some a) idx (mk_atom (Scalar v) None) n s1 HL1 (conj Ea Ha) I) by lia.
  - rewrite setAtom_place. generalize (place idx). clear idx. intros idx. destruct (idx <? length vs)%nat eqn:Hi; [apply Nat.ltb_lt in Hi|apply Nat.ltb_ge in Hi].
    + destruct (lookup_lt_is_Some_2 xs idx) as [b Hb]; [lia|]. pose proof (take_drop_middle _ _ _ Hb) as Exs.
      assert (length (take idx xs) = idx) as Hlt by (apply length_take_le; lia). rewrite <- Exs in HL.
      destruct (unset_ok 1 l _ b _ n s HL) as (s2 & E2 & HL2 & Hw & _). rewrite Hlt in E2. exists s2. rewrite (run_st _ _ _ _ _ E2).
      split; [done|]. split; [|by apply Forall_delete]. exists (delete idx xs). split; [by rewrite delete_take_drop|]. split; [|apply u32_range]. apply Forall2_delete. by eapply all_hold_same.
    + unfold mbind, ST_bind. by rewrite (set_out 1 l xs None idx (mk_atom (Scalar oqmlAtom_nil) None) n s HL I I) by lia.
  - destruct (new_atom_list v s l xs n vs HL Hvs) as (a & s1 & E1 & HL1 & Hvs1 & Ea & Ha). rewrite (run_st _ _ _ _ _ E1).
    pose proof (suppress_ok 0 l a s1 xs n vs v HL1 Hvs1 Hp (ex_intro _ _ Ea) Hc) as Hs. destruct (list_find _ vs) as [[i w]|] eqn:Ef.
    + destruct Hs as (s2 & b & Hb & E2 & HL2 & Hw & _). exists s2. rewrite (run_st _ _ _ _ _ E2). split; [done|].
      split; [|by apply Forall_delete]. exists (delete i xs). split; [done|]. split; [|done]. apply Forall2_delete. by eapply all_hold_same.
    + exists s1. rewrite (run_st _ _ _ _ _ Hs). split; [done|]. split; [by exists xs|done].
  - pose proof HL as [El _ _]. unfold empty. eexists. split; [unfold mbind, ST_bind, list_at; rewrite El; reflexivity|]. split; [|done].
    exists []. split; [|split; [constructor|done]]. split; [cbn; by rewrite lookup_insert_eq|done|constructor].
  - pose proof HL as [El Hch _]. exists s. unfold getAtom. split; [|by split; [exists xs|]].
    rewrite (run_st (A := option loc) _ _ s (xs !! idx) s) by (rewrite (run_list _ _ _ _ El); by apply skip_chain).
    destruct (xs !! idx) as [a|] eqn:Ei.
    + destruct (Forall2_lookup_l _ _ _ _ _ Hvs Ei) as (w & -> & [nx Ea]). by rewrite (run_atom _ _ _ _ Ea).
    + rewrite (lookup_ge_None_2 vs); [done|]. apply lookup_ge_None in Ei. lia.
  - destruct (new_atom_list v s l xs n vs HL Hvs) as (a & s1 & E1 & HL1 & Hvs1 & Ea & Ha). rewrite (run_st _ _ _ _ _ E1).
    exists s1. rewrite (run_st _ _ _ _ _ (isIn_ok 0 l a s1 xs n vs v HL1 Hvs1 (ex_intro _ _ Ea))). split; [done|]. by split; [exists xs|].
  - pose proof HL as [El _ _]. exists s. rewrite (run_list _ _ _ _ El). split; [done|]. by split; [exists xs|].
Qed.


(** ** Examples *)

Module Example.

Definition int (i : Z) := oqmlAtom_int i.
(** The list 1 of no atom. *)
Definition start : store := mk_store ∅ {[1%positive := mk_oqmlAtomList 0 None None]}.
Lemma start_ok : represents start 1 [] 0.
Proof. exists []. split; [split; [done|done|constructor]|split; [constructor|done]]. Qed.

Definition program := [CAppend (int 3); CAppend (int 4); CAppend (int 5); CSet 1 (int 6); CUnset 0; CIsIn (int 6); CGet 1; CCount].

(** The count of a list is not that of its atoms once one is suppressed, and what is
    checked against the count, an index, then follows a null pointer. *)
Example count_after_suppress : (fst <$> run 1 [CAppend (int 3); CAppend (int 4); CSuppress (int 3); CCount; CGet 1] start)
  = Some [ADone true; ADone true; ADone true; ACount 2; AAtom None].
Proof. by vm_compute. Qed.
Example set_after_suppress : run 1 [CAppend (int 3); CAppend (int 4); CSuppress (int 3); CSet 1 (int 5)] start = None.
Proof. by vm_compute. Qed.

(** A negative index is 1 once the loop has not run. *)
Example negative_index : fst <$> run 1 [CAppend (int 3); CAppend (int 4); CSet (-7) (int 5); CGet 1] start
  = Some [ADone true; ADone true; ADone true; AAtom (Some (Scalar (int 5)))].
Proof. by vm_compute. Qed.

(** The text of 1 and of the next double; a double of eight digits has no room for the
    end of its text. *)
Example close_doubles : text (oqmlAtom_double (S754_finite false 4503599627370496 (-52))) = text (oqmlAtom_double (S754_finite false 4503599627370497 (-52)))
  /\ text (oqmlAtom_double (S754_finite false 4503599627370496 (-52))) = Some (bytes "1.000000").
Proof. by vm_compute. Qed.
Example long_double : text (oqmlAtom_double (double_of 10000000)) = Some (bytes "10000000.000000") /\ text (oqmlAtom_double (double_of 100000000)) = None.
Proof. by vm_compute. Qed.
Example char_text : text (oqmlAtom_char 65) = Some (bytes "'A'") /\ text (oqmlAtom_char 10) = Some (bytes "'\012'") /\ text (oqmlAtom_char (-1)) = None.
Proof. by vm_compute. Qed.

(** The list 1 holds the empty list 2, and the list 3 holds the list 1: the cycle of
    appending a copy of the list 3 to the list 1 is not found; without the empty list
    it is. *)
Definition nested (c : content) : store := mk_store
  {[1 := mk_atom c None; 2 := mk_atom (Coll TList 1) None; 3 := mk_atom (Coll TList 3) None]}%positive
  {[1 := mk_oqmlAtomList 1 (Some 1) (Some 1); 2 := mk_oqmlAtomList 0 None None; 3 := mk_oqmlAtomList 1 (Some 2) (Some 2)]}%positive.
Example cycle_found : fst <$> detect_cycle 9 (Some 1%positive) (Some 3%positive) (nested (Scalar (int 7))) = Some true.
Proof. by vm_compute. Qed.
Example cycle_missed : fst <$> detect_cycle 9 (Some 1%positive) (Some 3%positive) (nested (Coll TList 2)) = Some false.
Proof. by vm_compute. Qed.
(** The text of the list then has no end. *)
Example endless_text : (append 1 3 ≫= fun _ => getString 50 3%positive) (nested (Coll TList 2)) = None.
Proof. by vm_compute. Qed.
End Example.
