(* ===== verification/OqlSet.v ===== *)
(** * OQL: sets and bags

    Union, intersection, difference and comparisons of the sets and bags of OQL
    (src/eyedb/oqlset.cc), on the chains of atoms of [OqlList]. Two elements are the
    same when they have the same text. The operations put the atoms of their operands
    in the result, so that the operands, which may be those of a variable, lose their
    elements. *)

From Stdlib Require Import String Sorting.Sorted.
From S2P Require Import Prelude CString Value OqlExpr OqlList.

#[local] Set Warnings "-register-all,-clear-no-such-hyp".

Implicit Types (s : store) (a b l : loc) (p : option loc) (xs ys : list loc) (v w : oqmlAtom) (vs ws : list oqmlAtom).

Section Operations.
Variable nesting : nat.

(** check_bag_set of an atom: the type and the list of a set or a bag. *)
Definition check_bag_set (a : loc) : ST (option (coll_type * loc)) :=
  x ← atom_at a;
  mret (match what x with Coll TSet l => Some (TSet, l) | Coll TBag l => Some (TBag, l) | _ => None end).

Definition is_in (x list : loc) : ST bool :=
  sx ← getString nesting x; t ← list_at list; fuel ← enough;
  r ← find_atom fuel (first t) (fun a => sa ← getString nesting a; mret (bool_decide (sa = sx)));
  mret (match r with Some _ => true | None => false end).

Definition set_make (tl tr : coll_type) (list : loc) : ST loc :=
  if decide (tl = TBag \/ tr = TBag) then new_atom (Coll TBag list)
  else suppressDoubles nesting list;; new_atom (Coll TSet list).

Definition eval (op : loc -> loc -> ST loc) (aleft aright : loc) : ST (option loc) :=
  lleft ← check_bag_set aleft; lright ← check_bag_set aright;
  match lleft, lright with
  | Some (tl, lleft), Some (tr, lright) => list ← op lleft lright; r ← set_make tl tr list; mret (Some r)
  | _, _ => mret None
  end.

Definition union_list (lleft lright : loc) : ST loc := list ← new_copy lleft; append_list list lright;; mret list.

Definition select_list (keep : bool) (lleft lright : loc) : ST loc :=
  list ← new_list; t ← list_at lleft; fuel ← enough;
  for_next_first fuel (first t) (fun leftx => b ← is_in leftx lright; if Bool.eqb b keep then append list leftx else mret tt);;
  mret list.

(** oqmlUnion::eval, oqmlIntersect::eval, oqmlExcept::eval *)
Definition union : loc -> loc -> ST (option loc) := eval union_list.
Definition intersect : loc -> loc -> ST (option loc) := eval (select_list true).
Definition except : loc -> loc -> ST (option loc) := eval (select_list false).

(** ** Comparisons *)

(** Each atom of [lleft] is in [lright]. *)
Definition all_in (lleft lright : loc) : ST bool :=
  t ← list_at lleft; fuel ← enough;
  r ← find_atom fuel (first t) (fun x => b ← is_in x lright; mret (negb b));
  mret (match r with Some _ => false | None => true end).

Definition oqml_set_inf (lleft lright : loc) : ST bool :=
  x ← list_at lleft; y ← list_at lright;
  if cnt x >=? cnt y then mret false else all_in lleft lright.

Definition oqml_set_infeq (lleft lright : loc) : ST bool := all_in lleft lright.
Definition oqml_set_sup (lleft lright : loc) : ST bool :=
  x ← list_at lleft; y ← list_at lright;
  if cnt y >=? cnt x then mret false else all_in lright lleft.
Definition oqml_set_supeq (lleft lright : loc) : ST bool := all_in lright lleft.
Definition oqml_set_equal (tl tr : coll_type) (lleft lright : loc) : ST bool :=
  x ← list_at lleft; y ← list_at lright;
  if bool_decide (tl <> tr) || negb (cnt y =? cnt x) then mret false else all_in lright lleft.
Definition oqml_set_diff (tl tr : coll_type) (lleft lright : loc) : ST bool :=
  x ← list_at lleft; y ← list_at lright;
  if bool_decide (tl <> tr) || negb (cnt y =? cnt x) then mret true else b ← all_in lright lleft; mret (negb b).

Definition oqml_set_compare (op : compop) (aleft aright : loc) : ST (option bool) :=
  lleft ← check_bag_set aleft; lright ← check_bag_set aright;
  match lleft, lright with
  | Some (tl, lleft), Some (tr, lright) =>
      b ← match op with
          | Inf => oqml_set_inf lleft lright | InfEq => oqml_set_infeq lleft lright
          | Sup => oqml_set_sup lleft lright | SupEq => oqml_set_supeq lleft lright
          | Equal => oqml_set_equal tl tr lleft lright | Diff => oqml_set_diff tl tr lleft lright
          end;
      mret (Some b)
  | _, _ => mret None
  end.
End Operations.

(** ** Membership *)

Definition in_texts (ws : list oqmlAtom) v : bool := existsb (fun w => bool_decide (text w = text v)) ws.
Lemma in_texts_spec ws v : in_texts ws v = true <-> text v ∈ text <$> ws.
Proof.
  unfold in_texts. rewrite existsb_exists, list_elem_of_fmap. setoid_rewrite bool_decide_eq_true. setoid_rewrite list_elem_of_In. naive_solver.
Qed.

Lemma find_text nesting s p ys ws (t : list Z) : chain s p ys -> all_hold s ys ws -> Forall printable ws -> forall fuel, (length ys < fuel)%nat ->
  exists r, find_atom fuel p (fun a => sa ← getString (S nesting) a; mret (bool_decide (sa = t))) s = Some (r, s)
    /\ (match r with Some _ => true | None => false end) = existsb (fun w => bool_decide (text w = Some t)) ws.
Proof.
  intros Hc Hws. revert p Hc. induction Hws as [|a w ys ws Ha _ IH]; intros p Hc Hp fuel Hf; [rewrite Hc; exists None; by destruct fuel|].
  apply Forall_cons in Hp as [[u Eu] Hp]. destruct Hc as [-> (x & Ex & Hc)], fuel as [|fuel]; [cbn in Hf; lia|]. cbn [find_atom existsb].
  assert ((sa ← getString (S nesting) a; mret (bool_decide (sa = t))) s = Some (bool_decide (u = t), s)) as E
    by (by rewrite (run_st _ _ _ _ _ (getString_ok nesting s a w u Ha Eu))).
  rewrite (run_st _ _ _ _ _ E), Eu. case_bool_decide as Hd.
  - exists (Some a). split; [done|]. by rewrite bool_decide_eq_true_2 by congruence.
  - rewrite bool_decide_eq_false_2 by congruence. rewrite (run_atom _ _ _ _ Ex). apply (IH (next x)); [done|done|cbn in Hf; lia].
Qed.
Lemma is_in_ok nesting s x v l ys n ws : is_list s l ys n -> all_hold s ys ws -> Forall printable ws -> holds s x v -> printable v ->
  is_in (S nesting) x l s = Some (in_texts ws v, s).
Proof.
  intros HL Hws Hp Hx [t Et]. pose proof HL as [El Hc _]. unfold is_in. rewrite (run_st _ _ _ _ _ (getString_ok nesting s x v t Hx Et)).
  rewrite (run_list _ _ _ _ El), run_enough. cbn [first].
  destruct (find_text nesting s _ ys ws t Hc Hws Hp _ (is_list_size _ _ _ _ HL)) as (r & E & Hr). rewrite (run_st _ _ _ _ _ E), Hr.
  unfold in_texts. by rewrite Et.
Qed.

(** ** Comparisons of sets *)

(** A set or a bag: its list, its scalars, which are as many as it counts. *)
Definition is_coll s a (t : coll_type) l vs : Prop :=
  (exists nx, atoms s !! a = Some (mk_atom (Coll t l) nx)) /\ (t = TSet \/ t = TBag) /\ Forall printable vs /\ represents s l vs (Z.of_nat (length vs)).
Lemma bag_set_ok s a t l vs : is_coll s a t l vs -> check_bag_set a s = Some (Some (t, l), s).
Proof. intros ([nx E] & Ht & _). unfold check_bag_set. rewrite (run_atom _ _ _ _ E). by destruct Ht as [-> | ->]. Qed.

Lemma all_in_ok nesting s l l' vs ws : represents s l vs (Z.of_nat (length vs)) -> Forall printable vs -> represents s l' ws (Z.of_nat (length ws)) -> Forall printable ws ->
  all_in (S nesting) l l' s = Some (forallb (in_texts ws) vs, s).
Proof.
  intros (xs & HL & Hvs & _) Hp (ys & HL' & Hws & _) Hp'. pose proof HL as [El Hc _]. unfold all_in. rewrite (run_list _ _ _ _ El), run_enough. cbn [first].
  assert (forall fuel p xs vs, chain s p xs -> all_hold s xs vs -> Forall printable vs -> (length xs < fuel)%nat ->
    exists r, find_atom fuel p (fun x => b ← is_in (S nesting) x l'; mret (negb b)) s = Some (r, s)
      /\ (match r with Some _ => false | None => true end) = forallb (in_texts ws) vs) as Hf.
  { clear - HL' Hws Hp'. intros fuel p xs vs Hc Hvs. revert fuel p Hc. induction Hvs as [|a v xs vs Ha _ IH]; intros fuel p Hc Hp Hf.
    - rewrite Hc. exists None. by destruct fuel.
    - apply Forall_cons in Hp as [Hv Hp]. destruct Hc as [-> (x & Ex & Hc)], fuel as [|fuel]; [cbn in Hf; lia|]. cbn [find_atom forallb].
      assert ((b ← is_in (S nesting) a l'; mret (negb b)) s = Some (negb (in_texts ws v), s)) as E
        by (by rewrite (run_st _ _ _ _ _ (is_in_ok nesting s a v l' ys _ ws HL' Hws Hp' Ha Hv))).
      rewrite (run_st _ _ _ _ _ E). destruct (in_texts ws v); cbn [negb andb]; [|by exists (Some a)].
      rewrite (run_atom _ _ _ _ Ex). apply IH; [done|done|cbn in Hf; lia]. }
  destruct (Hf _ _ xs vs Hc Hvs Hp (is_list_size _ _ _ _ HL)) as (r & E & Hr). by rewrite (run_st _ _ _ _ _ E), Hr.
Qed.
Lemma all_in_spec ws vs : forallb (in_texts ws) vs = true <-> (text <$> vs) ⊆ (text <$> ws).
Proof.
  rewrite forallb_forall. split.
  - intros H t (v & -> & Hv)%list_elem_of_fmap. apply in_texts_spec, H. by apply list_elem_of_In.
  - intros H v Hv. apply in_texts_spec, H, list_elem_of_fmap_2. by apply list_elem_of_In.
Qed.

(** The comparisons as those of sets of texts. *)
Definition compare_spec (op : compop) (tl tr : coll_type) vs ws : Prop :=
  let L := text <$> vs in let R := text <$> ws in
  match op with
  | Inf => L ⊆ R /\ ~ R ⊆ L
  | InfEq => L ⊆ R
  | Sup => R ⊆ L /\ ~ L ⊆ R
  | SupEq => R ⊆ L
  | Equal => tl = tr /\ L ≡ₚ R
  | Diff => ~ (tl = tr /\ L ≡ₚ R)
  end.
Lemma subset_length {A} (L R : list A) : NoDup L -> NoDup R -> L ⊆ R -> (length L < length R)%nat <-> ~ R ⊆ L.
Proof.
  intros HL HR Hs. split.
  - intros Hlt Hs'. pose proof (submseteq_length _ _ (NoDup_submseteq _ _ HR Hs')). lia.
  - intros Hn. pose proof (NoDup_submseteq _ _ HL Hs) as Hm. destruct (decide (length L < length R)%nat) as [|Hge]; [done|]. exfalso. apply Hn.
    intros x Hx. rewrite (submseteq_length_Permutation _ _ Hm); [done|lia].
Qed.
Lemma subset_same_length {A} (L R : list A) : NoDup L -> NoDup R -> length L = length R -> R ⊆ L <-> L ≡ₚ R.
Proof.
  intros HL HR Hl. split; [|intros E x; by rewrite E]. intros Hs. symmetry. apply submseteq_length_Permutation; [by apply NoDup_submseteq|lia].
Qed.

Section Comparisons.
Context (nesting : nat) s (l r : loc) vs ws.
Hypothesis (Hv : represents s l vs (Z.of_nat (length vs))) (Pv : Forall printable vs).
Hypothesis (Hw : represents s r ws (Z.of_nat (length ws))) (Pw : Forall printable ws).

Lemma counts_ok {B} (f : oqmlAtomList -> oqmlAtomList -> ST B) :
  exists x y, cnt x = Z.of_nat (length vs) /\ cnt y = Z.of_nat (length ws) /\ (x ← list_at l; y ← list_at r; f x y) s = f x y s.
Proof using Hv Hw.
  destruct Hv as (xs & [El _ _] & _), Hw as (ys & [Er _ _] & _). eexists (mk_oqmlAtomList _ _ _), (mk_oqmlAtomList _ _ _).
  split; [reflexivity|]. split; [reflexivity|]. rewrite (run_list _ _ _ _ El), (run_list _ _ _ _ Er). reflexivity.
Qed.
Lemma inf_ok : oqml_set_inf (S nesting) l r s = Some (bool_decide (length vs < length ws)%nat && forallb (in_texts ws) vs, s).
Proof using All.
  unfold oqml_set_inf. destruct (counts_ok (fun x y => if cnt x >=? cnt y then mret false else all_in (S nesting) l r)) as (x & y & Ex & Ey & ->).
  rewrite Ex, Ey. pose proof (all_in_ok nesting s l r vs ws Hv Pv Hw Pw) as Ei.
  case_bool_decide; cbn [andb]; destruct (_ >=? _) eqn:E; first [exact Ei|done|lia].
Qed.
Lemma sup_ok : oqml_set_sup (S nesting) l r s = Some (bool_decide (length ws < length vs)%nat && forallb (in_texts vs) ws, s).
Proof using All.
  unfold oqml_set_sup. destruct (counts_ok (fun x y => if cnt y >=? cnt x then mret false else all_in (S nesting) r l)) as (x & y & Ex & Ey & ->).
  rewrite Ex, Ey. pose proof (all_in_ok nesting s r l ws vs Hw Pw Hv Pv) as Ei.
  case_bool_decide; cbn [andb]; destruct (_ >=? _) eqn:E; first [exact Ei|done|lia].
Qed.
Lemma same_ok (tl tr : coll_type) : oqml_set_equal (S nesting) tl tr l r s = Some (bool_decide (tl = tr /\ length vs = length ws) && forallb (in_texts vs) ws, s)
  /\ oqml_set_diff (S nesting) tl tr l r s = Some (negb (bool_decide (tl = tr /\ length vs = length ws) && forallb (in_texts vs) ws), s).
Proof using All.
  unfold oqml_set_equal, oqml_set_diff.
  destruct (counts_ok (fun x y => if bool_decide (tl <> tr) || negb (cnt y =? cnt x) then mret false else all_in (S nesting) r l)) as (x & y & Ex & Ey & ->).
  destruct (counts_ok (fun x y => if bool_decide (tl <> tr) || negb (cnt y =? cnt x) then mret true else b ← all_in (S nesting) r l; mret (negb b))) as (x' & y' & Ex' & Ey' & ->).
  rewrite Ex, Ey, Ex', Ey'. pose proof (all_in_ok nesting s r l ws vs Hw Pw Hv Pv) as E.
  destruct (decide (tl = tr /\ length vs = length ws)) as [[-> Hl]|Hn].
  - rewrite (bool_decide_eq_false_2 (tr <> tr)) by (by intros []). rewrite (bool_decide_eq_true_2 (tr = tr /\ _)) by done.
    rewrite Hl, Z.eqb_refl. cbn [orb negb andb]. by rewrite (run_st _ _ _ _ _ E).
  - rewrite (bool_decide_eq_false_2 (tl = tr /\ _)) by done. assert (bool_decide (tl <> tr) || negb (Z.of_nat (length ws) =? Z.of_nat (length vs)) = true) as ->; [|done].
    destruct (decide (tl = tr)) as [->|Ht]; [|by rewrite bool_decide_eq_true_2].
    rewrite orb_true_iff. right. apply negb_true_iff, Z.eqb_neq. intros Hl. apply Hn. split; [done|lia].
Qed.
End Comparisons.


(** ** Suppressing the doubles *)

Lemma append_all l s xs n : is_list s l xs n -> forall zs, (forall a, a ∈ zs -> is_Some (atoms s !! a)) -> NoDup (xs ++ zs) ->
  0 <= n -> n + Z.of_nat (length zs) < 2 ^ 32 ->
  exists s' us, for_list (append l) zs s = Some (us, s') /\ is_list s' l (xs ++ zs) (n + Z.of_nat (length zs)) /\ others l s s'.
Proof.
  intros HL zs. revert s xs n HL. induction zs as [|a zs IH]; intros s xs n HL Hz Hnd Hn0 Hn1; cbn [length] in Hn1.
  - exists s, []. rewrite app_nil_r, Z.add_0_r. split; [done|]. split; [done|]. by split.
  - destruct (Hz a) as [x Ex]; [set_solver|]. assert (a ∉ xs) as Ha by (intros Hx; apply NoDup_app in Hnd as (_ & Hd & _); apply (Hd _ Hx); set_solver).
    destruct (append_ok l a x s xs n HL Ha Ex) as (s1 & E1 & HL1 & Hw1 & _ & Hl1).
    rewrite u32_id in HL1 by lia. destruct (IH s1 (xs ++ [a]) (n + 1) HL1) as (s2 & us & E2 & HL2 & Hw2 & Hl2); [| |lia|lia|].
    + intros b Hb. specialize (Hw1 b). destruct (Hz b) as [y Ey]; [set_solver|]. rewrite Ey in Hw1. destruct (atoms s1 !! b); [by eexists|done].
    + by rewrite <- app_assoc.
    + exists s2, (tt :: us). cbn [for_list]. rewrite (run_st _ _ _ _ _ E1), (run_st _ _ _ _ _ E2). split; [done|]. rewrite <- app_assoc in HL2.
      split; [by replace (n + Z.of_nat (length (a :: zs))) with (n + 1 + Z.of_nat (length zs)) by (cbn [length]; lia)|].
      split; [by eapply same_what_trans|]. intros l' Hl. by rewrite Hl2, Hl1.
Qed.

(** The set of texts and atoms, in the order of the texts. *)
Definition ordered : list (list Z * loc) -> Prop := StronglySorted (fun x y => strcmp (fst x) (fst y) = Lt).
Lemma set_insert_in (x : list Z * loc) set y : y ∈ set_insert x set -> y = x \/ y ∈ set.
Proof.
  induction set as [|z set IH]; cbn [set_insert]; [set_solver|]. destruct (strcmp (fst x) (fst z)); [set_solver|set_solver|].
  intros [->|H]%elem_of_cons; [set_solver|]. destruct (IH H); set_solver.
Qed.
Lemma set_insert_keys (x : list Z * loc) set t : t ∈ fst <$> set_insert x set <-> t = fst x \/ t ∈ fst <$> set.
Proof.
  induction set as [|z set IH]; cbn [set_insert]; [set_solver|]. destruct (strcmp (fst x) (fst z)) eqn:E.
  - apply strcmp_eq in E. rewrite fmap_cons, elem_of_cons, E. naive_solver.
  - by rewrite !fmap_cons, !elem_of_cons.
  - rewrite !fmap_cons, !elem_of_cons, IH. naive_solver.
Qed.
Lemma set_insert_ordered (x : list Z * loc) set : ordered set -> ordered (set_insert x set).
Proof.
  unfold ordered. induction set as [|z set IH]; cbn [set_insert]; intros H; [by repeat constructor|]. apply StronglySorted_inv in H as [Hs Hz].
  destruct (strcmp (fst x) (fst z)) eqn:E.
  - by constructor.
  - constructor; [by constructor|]. constructor; [done|]. eapply Forall_impl; [exact Hz|]. intros y. by apply strcmp_trans.
  - constructor; [by apply IH|]. apply Forall_forall. intros y [->|Hy]%set_insert_in; [by rewrite strcmp_antisym, E|]. by eapply Forall_forall in Hz.
Qed.
Lemma ordered_nodup set : ordered set -> NoDup (fst <$> set).
Proof.
  induction set as [|x set IH]; intros H; [constructor|]. apply StronglySorted_inv in H as [Hs Hx]. rewrite fmap_cons. apply NoDup_cons. split; [|by apply IH].
  intros (y & Ey & Hy)%list_elem_of_fmap. eapply Forall_forall in Hx; [|exact Hy]. rewrite <- Ey, (proj2 (strcmp_eq _ _) eq_refl) in Hx. done.
Qed.
Lemma texts_ok s xs vs nesting : all_hold s xs vs -> Forall printable vs ->
  exists ss, for_list (getString (S nesting)) xs s = Some (ss, s) /\ (text <$> vs) = Some <$> ss.
Proof.
  induction 1 as [|a v xs vs Ha _ IH]; intros Hp; [by exists []|]. apply Forall_cons in Hp as [[t Et] Hp]. destruct (IH Hp) as (ss & E & Ess).
  exists (t :: ss). cbn [for_list]. rewrite (run_st _ _ _ _ _ (getString_ok nesting s a v t Ha Et)), (run_st _ _ _ _ _ E).
  by rewrite fmap_cons, Et, Ess.
Qed.

Definition doubles_out (x : list (list Z * loc)) : list (list Z * loc) := foldl (fun set x => set_insert x set) [] x.
Lemma doubles_out_ok ps : ordered (doubles_out ps) /\ (forall x, x ∈ doubles_out ps -> x ∈ ps) /\ (forall t, t ∈ fst <$> doubles_out ps <-> t ∈ fst <$> ps).
Proof.
  unfold doubles_out. induction ps as [|x ps (H1 & H2 & H3)] using rev_ind; [split_and!; [constructor|done|done]|]. rewrite foldl_snoc. split_and!.
  - by apply set_insert_ordered.
  - intros y [->|Hy]%set_insert_in; [set_solver|]. apply elem_of_app. left. by apply H2.
  - intros t. rewrite set_insert_keys, fmap_app, elem_of_app, H3. cbn. rewrite list_elem_of_singleton. naive_solver.
Qed.
Lemma nodup_snd {A B} (ps : list (A * B)) : NoDup (fst <$> ps) -> (forall x y, x ∈ ps -> y ∈ ps -> snd x = snd y -> fst x = fst y) -> NoDup (snd <$> ps).
Proof.
  induction ps as [|x ps IH]; intros Hn Hi; [constructor|]. rewrite !fmap_cons in *. apply NoDup_cons in Hn as [Hx Hn]. apply NoDup_cons. split.
  - intros (y & E & Hy)%list_elem_of_fmap. apply Hx, list_elem_of_fmap. exists y. split; [|done]. apply Hi; set_solver.
  - apply IH; [done|]. intros y z Hy Hz. apply Hi; set_solver.
Qed.

(** The lists of [xs] and of the values [vs], once the atoms are those of [set]. *)
Lemma taken_ok s vs (set : list (list Z * loc)) : Forall (fun x => exists v, holds s (snd x) v /\ text v = Some (fst x) /\ v ∈ vs) set ->
  exists ws, all_hold s (snd <$> set) ws /\ text <$> ws = Some <$> (fst <$> set) /\ Forall (fun w => w ∈ vs) ws.
Proof.
  induction 1 as [|x set (v & Hv & Ev & Hin) _ (ws & H1 & H2 & H3)]; [by exists []; repeat constructor|]. exists (v :: ws). rewrite !fmap_cons, Ev, H2.
  split; [by constructor|]. split; [done|by constructor].
Qed.
Lemma zip_taken s xs vs ss : all_hold s xs vs -> text <$> vs = Some <$> ss -> Forall (fun x => exists v, holds s (snd x) v /\ text v = Some (fst x) /\ v ∈ vs) (zip ss xs).
Proof.
  intros H. revert ss. induction H as [|a v xs vs Ha _ IH]; intros ss E; [destruct ss; constructor|]. destruct ss as [|t ss]; [done|]. rewrite !fmap_cons in E.
  injection E as Et E. cbn [zip zip_with]. constructor; [exists v; set_solver|]. eapply Forall_impl; [exact (IH ss E)|]. intros y (w & ? & ? & ?). exists w. set_solver.
Qed.

Lemma suppressDoubles_ok nesting s l vs : represents s l vs (Z.of_nat (length vs)) -> Forall printable vs ->
  exists s' ws, suppressDoubles (S nesting) l s = Some (tt, s') /\ represents s' l ws (Z.of_nat (length ws)) /\ others l s s' /\ NoDup (text <$> ws)
    /\ (forall t, t ∈ text <$> ws <-> t ∈ text <$> vs) /\ Forall (fun w => w ∈ vs) ws /\ (NoDup (text <$> vs) -> s' = s /\ ws = vs).
Proof.
  intros (xs & HL & Hvs & Hn) Hp. pose proof HL as [El Hc Hnd]. unfold suppressDoubles. rewrite (run_list _ _ _ _ El), run_enough. cbn [first cnt].
  rewrite (run_st _ _ _ _ _ (walk_chain _ _ _ _ Hc (is_list_size _ _ _ _ HL))). destruct (texts_ok s xs vs nesting Hvs Hp) as (ss & E & Ess).
  rewrite (run_st _ _ _ _ _ E). change (foldl _ [] (zip ss xs)) with (doubles_out (zip ss xs)).
  destruct (doubles_out_ok (zip ss xs)) as (Ho & Hin & Hk). apply ordered_nodup in Ho. set (set := doubles_out (zip ss xs)) in *.
  assert (length ss = length vs) as Hlen by (rewrite <- (length_fmap Some ss), <- Ess; by rewrite length_fmap).
  rewrite fst_zip in Hk by (rewrite Hlen, <- (all_hold_length _ _ _ Hvs); done).
  assert (length set <= length vs)%nat as Hle.
  { rewrite <- Hlen, <- (length_fmap fst set). apply submseteq_length, NoDup_submseteq; [done|]. intros t. by apply Hk. }
  assert (NoDup (text <$> vs) <-> length set = length vs) as Hd.
  { rewrite Ess, NoDup_fmap by (intros ? ?; congruence). rewrite <- Hlen, <- (length_fmap fst set). split.
    - intros Hs. apply Permutation_length, NoDup_Permutation; done.
    - intros Hl. rewrite <- (submseteq_length_Permutation (fst <$> set) ss); [done| |lia]. apply NoDup_submseteq; [done|]. intros t. by apply Hk. }
  destruct (Z.of_nat (length set) =? Z.of_nat (length vs)) eqn:Ec.
  - assert (NoDup (text <$> vs)) by (apply Hd; lia). exists s, vs. split; [done|]. split; [by exists xs|]. split; [by split|]. split_and!; try done.
    by apply Forall_forall.
  - pose proof (zip_taken s xs vs ss Hvs Ess) as Hz. assert (Forall (fun x => exists v, holds s (snd x) v /\ text v = Some (fst x) /\ v ∈ vs) set) as Hset
      by (apply Forall_forall; intros x Hx; by eapply Forall_forall in Hz; [|apply Hin]).
    destruct (taken_ok s vs set Hset) as (ws & Hws & Ews & Hsub). rewrite run_put_list.
    destruct (append_all l (mk_store (atoms s) (<[l := mk_oqmlAtomList 0 None None]> (lists s))) [] 0) with (zs := snd <$> set) as (s' & us & Ea & HL' & Hw & Hl); [| | |lia| |].
    + split; [cbn; by rewrite lookup_insert_eq|done|constructor].
    + intros a (x & -> & Hx)%list_elem_of_fmap. eapply Forall_forall in Hset as (v & [nx Ev] & _); [|exact Hx]. by eexists.
    + apply nodup_snd; [done|]. intros x y Hx Hy Exy. eapply Forall_forall in Hset as Hx'; [|exact Hx]. eapply Forall_forall in Hset as Hy'; [|exact Hy].
      destruct Hx' as (v & [n1 Ev] & Tv & _), Hy' as (w & [n2 Ew] & Tw & _). congruence.
    + rewrite length_fmap. lia.
    + exists s', ws. rewrite (run_st _ _ _ _ _ Ea). pose proof (all_hold_length _ _ _ Hws) as Hl'. rewrite length_fmap in Hl'. split; [done|]. split_and!.
      * exists (snd <$> set). rewrite length_fmap, Hl' in HL'. split; [exact HL'|]. split; [by eapply all_hold_same|lia].
      * split; [exact Hw|]. intros l' Hne. rewrite (Hl l' Hne). cbn. by rewrite lookup_insert_ne.
      * rewrite Ews. by apply NoDup_fmap; [intros ? ?; congruence|].
      * intros t. rewrite Ews, Ess. rewrite !list_elem_of_fmap. setoid_rewrite Hk. done.
      * done.
      * intros Hx%Hd. lia.
Qed.

(** A chain from a pointer is unique. *)
Lemma is_list_fun s l xs ys n m : is_list s l xs n -> is_list s l ys m -> xs = ys.
Proof.
  intros [E1 H1 _] [E2 H2 _]. assert (head ys = head xs) as E by congruence. rewrite E in H2. clear E1 E2 E. revert H1 H2. generalize (head xs).
  revert ys. induction xs as [|a xs IH]; intros [|b ys] p; [done|by intros -> [? _]|by intros [-> _]|].
  intros [-> (x & Ex & H1)] [[= <-] (y & Ey & H2)]. assert (y = x) as -> by congruence. f_equal. by eapply IH.
Qed.

(** ** The operations *)

Inductive set_op := Union | Intersect | Except.
Definition list_op (nesting : nat) (op : set_op) : loc -> loc -> ST loc :=
  match op with Union => union_list | Intersect => select_list nesting true | Except => select_list nesting false end.
Definition apply_op (nesting : nat) (op : set_op) : loc -> loc -> ST (option loc) := eval nesting (list_op nesting op).

(** The values that are kept, and their atoms. *)
Definition kept (keep : bool) ws v : bool := Bool.eqb (in_texts ws v) keep.
Definition combine (op : set_op) vs ws : list oqmlAtom :=
  match op with Union => vs ++ ws | Intersect => List.filter (kept true ws) vs | Except => List.filter (kept false ws) vs end.
Fixpoint chosen (f : oqmlAtom -> bool) xs vs : list loc :=
  match xs, vs with a :: xs, v :: vs => if f v then a :: chosen f xs vs else chosen f xs vs | _, _ => [] end.
Lemma chosen_sub f xs vs : chosen f xs vs ⊆ xs.
Proof. revert vs. induction xs as [|a xs IH]; intros [|v vs]; cbn; [done|done|set_solver|]. specialize (IH vs). destruct (f v); set_solver. Qed.
Lemma chosen_nodup f xs vs : NoDup xs -> NoDup (chosen f xs vs).
Proof.
  revert vs. induction xs as [|a xs IH]; intros [|v vs] H; cbn; [constructor|constructor|constructor|]. apply NoDup_cons in H as [Ha H].
  destruct (f v); [|by apply IH]. apply NoDup_cons. split; [|by apply IH]. intros Hx%chosen_sub. done.
Qed.
Lemma chosen_hold f s xs vs : all_hold s xs vs -> all_hold s (chosen f xs vs) (List.filter f vs).
Proof. induction 1 as [|a v xs vs Ha _ IH]; cbn; [constructor|]. destruct (f v); [by constructor|done]. Qed.

Lemma fresh_list s : let l : loc := base.fresh (dom (lists s)) in lists s !! l = None.
Proof. apply not_elem_of_dom, is_fresh. Qed.
Lemma new_list_ok s : exists l s', new_list s = Some (l, s') /\ is_list s' l [] 0 /\ atoms s' = atoms s /\ lists s !! l = None /\ (forall l', l' <> l -> lists s' !! l' = lists s !! l').
Proof.
  exists (base.fresh (dom (lists s))), (mk_store (atoms s) (<[base.fresh (dom (lists s)) := mk_oqmlAtomList 0 None None]> (lists s))).
  split; [done|]. split; [split; [cbn; by rewrite lookup_insert_eq|done|constructor]|]. split; [done|]. split; [apply fresh_list|].
  intros l' Hl. cbn. by rewrite lookup_insert_ne.
Qed.

(** The atoms that the loop takes are moved to the list [list]. *)
Lemma select_loop nesting keep list right ys ws m : list <> right -> Forall printable ws -> forall zs vz fuel p s sel,
  chain s p zs -> all_hold s zs vz -> Forall printable vz -> is_list s list sel (Z.of_nat (length sel)) -> NoDup (sel ++ zs) -> (sel ++ zs) ## ys ->
  is_list s right ys m -> all_hold s ys ws -> (length zs < fuel)%nat -> Z.of_nat (length sel + length zs) < 2 ^ 32 ->
  exists s', for_next_first fuel p (fun x => b ← is_in (S nesting) x right; if Bool.eqb b keep then append list x else mret tt) s = Some (tt, s')
    /\ is_list s' list (sel ++ chosen (kept keep ws) zs vz) (Z.of_nat (length (sel ++ chosen (kept keep ws) zs vz))) /\ others list s s'
    /\ (forall a, a ∉ sel ++ chosen (kept keep ws) zs vz -> atoms s' !! a = atoms s !! a).
Proof.
  intros Hlr Pw. induction zs as [|a zs IH]; intros vz fuel p s sel Hc Hz Pz HL Hnd Hdj HR Hys Hf Hlt; cbn [length] in Hlt; inversion Hz as [|? v ? vz' Ha Hz']; subst vz.
  - exists s. rewrite Hc, app_nil_r. destruct fuel; (split; [done|]; split; [done|]; split; [by split|done]).
  - subst. apply Forall_cons in Pz as [Pv Pz]. destruct Hc as [-> (x & Ex & Hc)], fuel as [|fuel]; [cbn in Hf; lia|]. cbn [for_next_first chosen].
    rewrite (run_atom _ _ _ _ Ex). change (kept keep ws v) with (Bool.eqb (in_texts ws v) keep). pose proof (is_in_ok nesting s a v right ys m ws HR Hys Pw Ha Pv) as Ein.
    destruct (nodup_middle _ _ _ Hnd) as (Hnd' & Ha1 & Ha2). destruct (Bool.eqb (in_texts ws v) keep) eqn:Ek.
    + destruct (append_ok list a x s sel _ HL Ha1 Ex) as (s1 & E1 & HL1 & Hw1 & Hf1 & Hl1).
      rewrite (run_st (A := unit) _ _ s tt s1) by (rewrite (run_st _ _ _ _ _ Ein), Ek; exact E1).
      rewrite u32_id in HL1 by lia. assert (forall b, (b ∉ sel) -> b <> a -> atoms s1 !! b = atoms s !! b) as Hf1' by (intros b Hb Hba; apply Hf1; [done|]; by intros E%last_Some_elem_of).
      assert (forall us q, seg s q us None -> (sel ++ [a]) ## us -> seg s1 q us None) as Hseg by
        (intros us q Hs Hd; eapply segment_frame; [|exact Hs]; intros b Hb; apply Hf1'; [|intros ->]; set_solver).
      destruct (IH vz' fuel (next x) s1 (sel ++ [a])) as (s' & E & HL' & Ho & Hfr).
      * apply Hseg; [done|]. intros b Hb1 Hb2. apply elem_of_app in Hb1 as [Hb1|Hb1%list_elem_of_singleton]; [|by subst].
        apply NoDup_app in Hnd' as (_ & Hd & _). by apply (Hd b).
      * by eapply all_hold_same.
      * done.
      * by rewrite length_app, Nat2Z.inj_add.
      * by rewrite <- app_assoc.
      * set_solver.
      * destruct HR as [Er Hcr Hndr]. split; [rewrite Hl1 by done; exact Er| |done]. apply Hseg; [done|]. set_solver.
      * by eapply all_hold_same.
      * cbn in Hf; lia.
      * rewrite length_app. cbn [length]. lia.
      * exists s'. rewrite <- !app_assoc in HL', Hfr. split; [exact E|]. split; [exact HL'|]. split.
        -- destruct Ho as [Hw2 Hl2]. split; [by eapply same_what_trans|]. intros l' Hl. by rewrite Hl2, Hl1.
        -- intros b Hb. rewrite Hfr by done. apply Hf1'; set_solver.
    + rewrite (run_st (A := unit) _ _ s tt s) by (by rewrite (run_st _ _ _ _ _ Ein), Ek).
      destruct (IH vz' fuel (next x) s sel) as (s' & Hres); try done; [set_solver|cbn in Hf; lia|lia|]. by exists s'.
Qed.

Lemma all_hold_frame s s' xs vs : all_hold s xs vs -> (forall a, a ∈ xs -> atoms s' !! a = atoms s !! a) -> all_hold s' xs vs.
Proof.
  induction 1 as [|a v xs vs [nx Ea] _ IH]; intros Hs; [constructor|]. constructor; [exists nx; rewrite Hs by set_solver; done|]. apply IH. set_solver.
Qed.
(** What the chain of a list gives, the count and the last atom being those of before. *)
Definition reads s l vs (n : Z) : Prop := exists xs p, lists s !! l = Some (mk_oqmlAtomList n (head xs) p) /\ chain s (head xs) xs /\ all_hold s xs vs.
Lemma frame_coll s s' l vs n : represents s l vs n -> lists s' !! l = lists s !! l -> (forall a, is_Some (atoms s !! a) -> atoms s' !! a = atoms s !! a) -> represents s' l vs n.
Proof.
  intros (xs & HL & Hvs & Hn) Hl Hs. exists xs. split; [|split; [|done]].
  - eapply is_list_frame; [exact HL|done|]. intros a Ha. apply Hs. by eapply (chain_in _ _ _ _ (l_chain _ _ _ _ HL)).
  - eapply all_hold_frame; [exact Hvs|]. intros a Ha. apply Hs. by eapply (chain_in _ _ _ _ (l_chain _ _ _ _ HL)).
Qed.

(** The loop of the constructor from a list. *)
Lemma copy_loop list : forall zs vz fuel p s cs ws, chain s p zs -> all_hold s zs vz -> is_list s list cs (Z.of_nat (length cs)) -> all_hold s cs ws ->
  cs ## zs -> (length zs < fuel)%nat -> Z.of_nat (length cs + length zs) < 2 ^ 32 ->
  exists s' ds, for_next_first fuel p (fun a => a' ← copy_atom a; append list a') s = Some (tt, s')
    /\ is_list s' list (cs ++ ds) (Z.of_nat (length (cs ++ ds))) /\ all_hold s' (cs ++ ds) (ws ++ vz) /\ (forall l', l' <> list -> lists s' !! l' = lists s !! l')
    /\ (forall b, is_Some (atoms s !! b) -> (b ∉ cs) -> atoms s' !! b = atoms s !! b) /\ (forall d, d ∈ ds -> atoms s !! d = None).
Proof.
  induction zs as [|a zs IH]; intros vz fuel p s cs ws Hc Hz HL Hcs Hd Hf Hlt; cbn [length] in Hlt; inversion Hz as [|? v ? vz' Ha Hz']; subst vz.
  - exists s, []. rewrite Hc, !app_nil_r. destruct fuel; (split; [done|]; split; [done|]; split; [done|]; split; [done|]; split; [done|set_solver]).
  - subst. destruct Hc as [-> (x & Ex & Hc)], fuel as [|fuel]; [cbn in Hf; lia|]. cbn [for_next_first].
    rewrite (run_atom _ _ _ _ Ex). destruct Ha as [nx Ea]. assert (what x = Scalar v) as Ewx by (rewrite Ex in Ea; by injection Ea as ->).
    destruct (new_atom_list v s list cs _ ws HL Hcs) as (d & s1 & E1 & HL1 & Hcs1 & Ed & Hdc).
    destruct (new_atom_ok (Scalar v) s) as [E1' Hf1]. rewrite E1' in E1. injection E1 as Ed1 Es1. rewrite Ed1, Es1 in *.
    destruct (append_ok list d _ s1 cs _ HL1 Hdc Ed) as (s2 & E2 & HL2 & Hw2 & Hf2 & Hl2).
    rewrite u32_id in HL2 by lia.
    assert (forall b, is_Some (atoms s !! b) -> (b ∉ cs) -> atoms s2 !! b = atoms s !! b) as Hfr.
    { intros b Hb Hbc. destruct (Hf1 b Hb) as [Hbd Eb]. rewrite Hf2, Eb; [done|done|]. by intros E%last_Some_elem_of. }
    assert (copy_atom a s = Some (d, s1)) as Ecp by (unfold copy_atom; rewrite (run_atom _ _ _ _ Ex), Ewx; exact E1').
    rewrite (run_st (A := unit) _ _ s tt s2) by (by rewrite (run_st _ _ _ _ _ Ecp)).
    assert (forall b, b ∈ zs -> is_Some (atoms s !! b) /\ (b ∉ cs)) as Hzs by (intros b Hb; split; [by eapply chain_in|set_solver]).
    destruct (IH vz' fuel (next x) s2 (cs ++ [d]) (ws ++ [v])) as (s' & ds & E & HL' & Hall & Hl' & Hfr' & Hds).
    + eapply segment_frame; [|exact Hc]. intros b Hb. by apply Hfr; apply Hzs.
    + eapply all_hold_frame; [exact Hz'|]. intros b Hb. by apply Hfr; apply Hzs.
    + by rewrite length_app, Nat2Z.inj_add.
    + apply Forall2_app; [by eapply all_hold_same|]. constructor; [|done]. eapply holds_same; [exact Hw2|by eexists].
    + intros b Hb1 Hb2. apply elem_of_app in Hb1 as [Hb1|Hb1%list_elem_of_singleton]; [set_solver|subst b]. destruct (Hzs d Hb2) as [Hsd _]. by destruct (Hf1 d Hsd).
    + cbn in Hf; lia.
    + rewrite length_app. cbn [length]. lia.
    + rewrite <- !app_assoc in HL'. rewrite <- !app_assoc in Hall. exists s', (d :: ds). split; [exact E|]. split; [exact HL'|]. split; [exact Hall|].
      assert (atoms s !! d = None) as Hnd by (destruct (atoms s !! d) eqn:Edn; [|done]; by destruct (Hf1 d (mk_is_Some _ _ Edn))).
      split_and!.
      * intros l' Hl. rewrite Hl', Hl2 by done. by subst s1.
      * intros b Hb Hbc. rewrite Hfr'; [by apply Hfr|by rewrite (Hfr _ Hb Hbc)|]. intros Hx. apply elem_of_app in Hx as [?|Hx%list_elem_of_singleton]; [done|]. subst b. rewrite Hnd in Hb. by destruct Hb.
      * intros e [->|He]%elem_of_cons; [done|]. destruct (atoms s !! e) as [y|] eqn:Ee; [|done]. exfalso. specialize (Hds e He).
        destruct (decide (e ∈ cs)) as [Hc'|Hc']; [|rewrite (Hfr e (mk_is_Some _ _ Ee) Hc') in Hds; congruence].
        destruct (chain_in _ _ _ e (l_chain _ _ _ _ HL2)) as [y' Ey']; [set_solver|]. congruence.
Qed.

Lemma append_list_ok l r s cs ys n : is_list s l cs n -> is_list s r ys (Z.of_nat (length ys)) -> cs ## ys ->
  0 <= n -> n + Z.of_nat (length ys) < 2 ^ 32 ->
  exists s', append_list l r s = Some (tt, s') /\ is_list s' l (cs ++ ys) (n + Z.of_nat (length ys)) /\ others l s s'.
Proof.
  intros [El Hc Hnd] [Er Hcr Hndr] Hd Hn0 Hn1. unfold append_list. rewrite (run_list _ _ _ _ El), (run_list _ _ _ _ Er). cbn [first last cnt]. rewrite u32_id by lia.
  destruct ys as [|b ys]; [exists s; cbn; rewrite app_nil_r, Z.add_0_r; split; [done|split; [by split|by split]]|]. cbn [head].
  assert (NoDup (cs ++ b :: ys)) as Hnd' by (apply NoDup_app; split_and!; [done|intros x Hx Hx'; by apply (Hd x)|done]).
  destruct cs as [|c cs _] using rev_ind.
  - eexists. split; [reflexivity|]. split; [split; [cbn; by rewrite lookup_insert_eq|by eapply segment_frame; [|exact Hcr]|done]|]. split; [done|]. intros l' Hl. cbn. by rewrite lookup_insert_ne.
  - rewrite last_snoc. apply segment_app in Hc as (q & Hpre & [-> (x & Ex & Hcx)]). rewrite (run_next _ _ _ _ _ Ex). eexists. split; [reflexivity|].
    rewrite <- app_assoc in Hnd' |- *. cbn [app] in *. destruct (nodup_middle _ _ _ Hnd') as (_ & Hc1 & Hc2). split; [split; [|  |done]|split].
    + cbn. rewrite lookup_insert_eq, last_app_cons. do 2 f_equal. by destruct cs.
    + apply (segment_app _ _ cs). exists (Some c). split.
      * replace (head (cs ++ c :: b :: ys)) with (head (cs ++ [c])) by (by destruct cs).
        eapply segment_frame; [|exact Hpre]. intros d Hdc. cbn. rewrite lookup_insert_ne; [done|set_solver].
      * split; [done|]. exists (mk_atom (what x) (Some b)). split; [cbn; by rewrite lookup_insert_eq|]. refine (segment_frame s _ (Some b) (b :: ys) None _ Hcr).
        intros d Hdc. cbn. rewrite lookup_insert_ne; [done|set_solver].
    + exact (same_what_next c x (Some b) s _ Ex).
    + intros l' Hl. cbn. by rewrite lookup_insert_ne.
Qed.

(** What is selected is counted as well. *)
Lemma selected_count (f : oqmlAtom -> bool) vs n : 0 <= Z.of_nat (length vs) < n -> 0 <= Z.of_nat (length (List.filter f vs)) < n.
Proof. pose proof (List.filter_length_le f vs). lia. Qed.

(** The operands of a collection operation: their chains share no atom. *)
Definition apart s l r : Prop := forall xs ys n m, is_list s l xs n -> is_list s r ys m -> xs ## ys.

Lemma select_list_ok nesting keep s l r vs ws : represents s l vs (Z.of_nat (length vs)) -> Forall printable vs -> represents s r ws (Z.of_nat (length ws)) -> Forall printable ws ->
  apart s l r -> exists list s' xs, select_list (S nesting) keep l r s = Some (list, s') /\ lists s !! list = None /\ is_list s l xs (Z.of_nat (length vs)) /\ all_hold s xs vs
    /\ is_list s' list (chosen (kept keep ws) xs vs) (Z.of_nat (length (List.filter (kept keep ws) vs))) /\ others list s s'
    /\ (forall a, (a ∉ chosen (kept keep ws) xs vs) -> atoms s' !! a = atoms s !! a).
Proof.
  intros (xs & HL & Hvs & Hn) Pv (ys & HR & Hws & _) Pw Hap. specialize (Hap xs ys _ _ HL HR).
  destruct (new_list_ok s) as (list & s1 & E1 & HL1 & Ea1 & Hfresh & Hl1). unfold select_list. rewrite (run_st _ _ _ _ _ E1).
  assert (l <> list) as Hne by (intros ->; destruct HL; congruence). assert (r <> list) as Hne' by (intros ->; destruct HR; congruence).
  assert (is_list s1 l xs (Z.of_nat (length vs))) as HLs by (eapply is_list_frame; [exact HL|by apply Hl1|by rewrite Ea1]).
  assert (is_list s1 r ys (Z.of_nat (length ws))) as HRs by (eapply is_list_frame; [exact HR|by apply Hl1|by rewrite Ea1]).
  pose proof HLs as [El Hc Hnd]. rewrite (run_list _ _ _ _ El), run_enough. cbn [first].
  destruct (select_loop nesting keep list r ys ws (Z.of_nat (length ws)) (not_eq_sym Hne') Pw xs vs (S (size (atoms s1))) (head xs) s1 []) as (s' & E & HL' & [Hw Hl] & Hfr); try done.
  - eapply all_hold_frame; [exact Hvs|by rewrite Ea1].
  - eapply all_hold_frame; [exact Hws|by rewrite Ea1].
  - by eapply is_list_size.
  - cbn [length]. rewrite (all_hold_length _ _ _ Hvs). lia.
  - exists list, s', xs. rewrite (run_st _ _ _ _ _ E). split; [done|]. split; [done|]. split; [done|]. split; [done|].
    cbn [app] in HL', Hfr. rewrite (all_hold_length _ _ _ (chosen_hold (kept keep ws) s xs vs Hvs)) in HL'. split; [exact HL'|]. rewrite Ea1 in Hfr. split; [|exact Hfr].
    split; [intros a; by rewrite Hw, Ea1|]. intros l' Hl'. by rewrite Hl, Hl1.
Qed.
Lemma union_list_ok s l r vs ws : represents s l vs (Z.of_nat (length vs)) -> represents s r ws (Z.of_nat (length ws)) -> Z.of_nat (length vs + length ws) < 2 ^ 32 ->
  exists list s', union_list l r s = Some (list, s') /\ lists s !! list = None /\ represents s' list (vs ++ ws) (Z.of_nat (length (vs ++ ws))).
Proof.
  intros (xs & HL & Hvs & _) (ys & HR & Hws & _) Hlt. destruct (new_list_ok s) as (list & s1 & E1 & HL1 & Ea1 & Hfresh & Hl1). unfold union_list, new_copy.
  assert (l <> list) as Hne by (intros ->; destruct HL; congruence). assert (r <> list) as Hne' by (intros ->; destruct HR; congruence).
  assert (is_list s1 l xs (Z.of_nat (length vs))) as HLs by (eapply is_list_frame; [exact HL|by apply Hl1|by rewrite Ea1]).
  pose proof HLs as [El Hc Hnd].
  destruct (copy_loop list xs vs (S (size (atoms s1))) (head xs) s1 [] []) as (s2 & ds & E & HL2 & Hall & Hl2 & Hfr & Hds); try done.
  - eapply all_hold_frame; [exact Hvs|by rewrite Ea1].
  - constructor.
  - intros a Ha. by apply not_elem_of_nil in Ha.
  - by eapply is_list_size.
  - cbn [length]. rewrite (all_hold_length _ _ _ Hvs). lia.
  - cbn [app] in *. assert (forall a, a ∈ ys -> is_Some (atoms s !! a) /\ atoms s2 !! a = atoms s !! a) as Hys.
    { intros a Ha. pose proof (chain_in _ _ _ _ (l_chain _ _ _ _ HR) Ha) as Hs. split; [done|]. rewrite Hfr, Ea1; [done|by rewrite Ea1|set_solver]. }
    assert (is_list s2 r ys (Z.of_nat (length ws))) as HR2 by (eapply is_list_frame; [exact HR|by rewrite Hl2, Hl1|intros a Ha; by apply Hys]).
    rewrite <- (all_hold_length _ _ _ Hws) in HR2.
    assert (length ds = length vs) as Eds by exact (all_hold_length _ _ _ Hall). pose proof (all_hold_length _ _ _ Hws) as Eys.
    destruct (append_list_ok list r s2 ds ys _ HL2 HR2) as (s3 & E3 & HL3 & Ho); [|lia|lia|].
    { intros a Ha Ha'. specialize (Hds a Ha). rewrite Ea1 in Hds. destruct (Hys a Ha') as [[? ?] _]. congruence. }
    exists list, s3. split; [|split; [done|]].
    + rewrite (run_st _ _ s list s2). 2: { rewrite (run_st _ _ _ _ _ E1), (run_list _ _ _ _ El), run_enough. cbn [first]. by rewrite (run_st _ _ _ _ _ E). }
      by rewrite (run_st _ _ _ _ _ E3).
    + exists (ds ++ ys). rewrite <- Nat2Z.inj_add, <- length_app, (length_app ds), (all_hold_length _ _ _ Hall), (all_hold_length _ _ _ Hws), <- length_app in HL3.
      split; [exact HL3|]. split; [|rewrite length_app; lia]. apply Forall2_app; eapply all_hold_same; try apply Ho; [done|]. eapply all_hold_frame; [exact Hws|]. intros a Ha. by apply Hys.
Qed.

(** The type of the result. *)
Definition result_type (tl tr : coll_type) : coll_type := if decide (tl = TBag \/ tr = TBag) then TBag else TSet.
Lemma new_coll s t l us : (t = TSet \/ t = TBag) -> Forall printable us -> represents s l us (Z.of_nat (length us)) ->
  exists c s', new_atom (Coll t l) s = Some (c, s') /\ is_coll s' c t l us /\ lists s' = lists s /\ (forall a, is_Some (atoms s !! a) -> atoms s' !! a = atoms s !! a).
Proof.
  intros Ht Hp HR. destruct (new_atom_ok (Coll t l) s) as [E Hf]. eexists _, _. split; [exact E|]. split; [|split; [done|intros a Ha; by apply Hf]].
  split; [exists None; cbn; by rewrite lookup_insert_eq|]. split; [done|]. split; [done|]. eapply frame_coll; [exact HR|done|]. intros a Ha. by apply Hf.
Qed.
Lemma set_make_ok nesting s tl tr l us : Forall printable us -> represents s l us (Z.of_nat (length us)) ->
  exists c s' us', set_make (S nesting) tl tr l s = Some (c, s') /\ is_coll s' c (result_type tl tr) l us' /\ (forall t, t ∈ text <$> us' <-> t ∈ text <$> us)
    /\ (result_type tl tr = TBag -> us' = us) /\ (result_type tl tr = TSet -> NoDup (text <$> us'))
    /\ (result_type tl tr = TBag \/ NoDup (text <$> us) -> lists s' = lists s /\ forall a, is_Some (atoms s !! a) -> atoms s' !! a = atoms s !! a).
Proof.
  intros Hp HR. unfold set_make, result_type. case_decide as Hd.
  - destruct (new_coll s TBag l us) as (c & s' & E & Hc & Hl & Hf); [by right|done|done|]. by exists c, s', us.
  - destruct (suppressDoubles_ok nesting s l us HR Hp) as (s1 & us' & E1 & HR1 & Ho & Hn & Hin & Hsub & Hsame).
    assert (Forall printable us') as Hp' by (eapply Forall_impl; [exact Hsub|]; intros v Hv; by eapply Forall_forall in Hp).
    destruct (new_coll s1 TSet l us') as (c & s' & E & Hc & Hl & Hf); [by left|done|done|]. exists c, s', us'. rewrite (run_st _ _ _ _ _ E1).
    split; [done|]. split; [done|]. split; [done|]. split; [done|]. split; [done|]. intros [?|Hnd]; [done|]. by destruct (Hsame Hnd) as [-> ->].
Qed.

Definition member (op : set_op) (inl inr : Prop) : Prop :=
  match op with Union => inl \/ inr | Intersect => inl /\ inr | Except => inl /\ ~ inr end.
Lemma in_filter keep vs ws (t : option (list Z)) : t ∈ text <$> List.filter (kept keep ws) vs <-> t ∈ text <$> vs /\ (if keep : bool then t ∈ text <$> ws else ~ t ∈ text <$> ws).
Proof.
  assert (forall v, kept keep ws v = true <-> if keep : bool then text v ∈ text <$> ws else ~ text v ∈ text <$> ws) as Hk.
  { intros v. unfold kept. rewrite eqb_true_iff. pose proof (in_texts_spec ws v) as H. destruct keep; [done|]. rewrite <- H. by destruct (in_texts ws v). }
  assert (forall v, v ∈ List.filter (kept keep ws) vs <-> v ∈ vs /\ kept keep ws v = true) as Hf by (intros v; by rewrite !list_elem_of_In, filter_In).
  split.
  - intros (v & -> & [Hv Hx]%Hf)%list_elem_of_fmap. split; [by apply list_elem_of_fmap_2|by apply Hk].
  - intros [(v & -> & Hv)%list_elem_of_fmap Hx]. apply list_elem_of_fmap_2, Hf. split; [done|by apply Hk].
Qed.
Lemma combine_in op vs ws t : t ∈ text <$> combine op vs ws <-> member op (t ∈ text <$> vs) (t ∈ text <$> ws).
Proof. destruct op; cbn [combine member]; [by rewrite fmap_app, elem_of_app|apply in_filter|apply in_filter]. Qed.


(** The atoms that follow the first one of a chain once those that [f] keeps are moved. *)
Fixpoint remaining (f : oqmlAtom -> bool) xs vs : list loc :=
  match xs, vs with a :: xs, v :: vs => a :: (if f v then chosen f xs vs else remaining f xs vs) | _, _ => [] end.
Lemma remaining_ok f s s' : forall xs vs p, chain s p xs -> NoDup xs -> length xs = length vs -> chain s' (head (chosen f xs vs)) (chosen f xs vs) ->
  (forall a, a ∈ xs -> (a ∉ chosen f xs vs) -> atoms s' !! a = atoms s !! a) -> chain s' p (remaining f xs vs).
Proof.
  induction xs as [|a xs IH]; intros [|v vs] p Hc Hnd Hl Hs Hf; try done. destruct Hc as [-> (x & Ex & Hc)]. cbn [remaining chosen] in *. apply NoDup_cons in Hnd as [Ha Hnd].
  destruct (f v); [exact Hs|]. split; [done|]. exists x. rewrite Hf; [|set_solver|by intros Hx%chosen_sub]. split; [done|].
  apply IH; [done|done|by injection Hl|done|]. intros b Hb. apply Hf. set_solver.
Qed.
Fixpoint left_over (f : oqmlAtom -> bool) vs : list oqmlAtom :=
  match vs with [] => [] | v :: vs => v :: (if f v then List.filter f vs else left_over f vs) end.
Lemma remaining_hold f s xs vs : all_hold s xs vs -> all_hold s (remaining f xs vs) (left_over f vs).
Proof.
  induction 1 as [|a v xs vs Ha Hvs IH]; cbn; [constructor|]. constructor; [done|]. destruct (f v); [by apply chosen_hold|done].
Qed.
Lemma filter_nodup f vs : NoDup (text <$> vs) -> NoDup (text <$> List.filter f vs).
Proof.
  induction vs as [|v vs IH]; intros H; [constructor|]. rewrite fmap_cons in H. apply NoDup_cons in H as [Hv H]. cbn. destruct (f v); [|by apply IH].
  rewrite fmap_cons. apply NoDup_cons. split; [|by apply IH]. intros (w & E & Hw)%list_elem_of_fmap. apply Hv, list_elem_of_fmap. exists w. split; [done|].
  apply list_elem_of_In in Hw. apply filter_In in Hw as [Hw _]. by apply list_elem_of_In.
Qed.


(** ** Examples *)

Module Example.

Import OqlList.Example.

(** The set 1 has the atoms 11, 12 and 13, the set 2 the atom 21. *)
Definition sets (u v w x : Z) (t t' : coll_type) : store := mk_store
  {[1 := mk_atom (Coll t 1) None; 2 := mk_atom (Coll t' 2) None;
    11 := mk_atom (Scalar (int u)) (Some 12); 12 := mk_atom (Scalar (int v)) (Some 13); 13 := mk_atom (Scalar (int w)) None; 21 := mk_atom (Scalar (int x)) None]}%positive
  {[1 := mk_oqmlAtomList 3 (Some 11) (Some 13); 2 := mk_oqmlAtomList 1 (Some 21) (Some 21)]}%positive.
Definition ints (l : list Z) : list oqmlAtom := int <$> l.
Lemma sets_ok (t t' : coll_type) : t = TSet \/ t = TBag -> t' = TSet \/ t' = TBag ->
  is_coll (sets 1 2 3 2 t t') 1 t 1 (ints [1; 2; 3]) /\ is_coll (sets 1 2 3 2 t t') 2 t' 2 (ints [2]) /\ apart (sets 1 2 3 2 t t') 1 2.
Proof.
  intros Ht Ht'. assert (is_list (sets 1 2 3 2 t t') 1 [11; 12; 13]%positive 3 /\ is_list (sets 1 2 3 2 t t') 2 [21]%positive 1) as [H1 H2].
  { split; (split; [by destruct t, t'| |by apply (bool_decide_unpack _); vm_compute]); destruct t, t'; cbn; by repeat first [split; [done|]|eexists]. }
  assert (Forall printable (ints [1; 2; 3]) /\ Forall printable (ints [2])) as [P1 P2] by (split; repeat constructor; by eexists).
  split_and!.
  - split; [by eexists|]. split; [done|]. split; [done|]. exists [11; 12; 13]%positive. split; [exact H1|]. split; [|done]. by repeat constructor; eexists.
  - split; [by eexists|]. split; [done|]. split; [done|]. exists [21]%positive. split; [exact H2|]. split; [|done]. by repeat constructor; eexists.
  - intros xs ys n m HL HR. rewrite (is_list_fun _ _ _ _ _ _ HL H1), (is_list_fun _ _ _ _ _ _ HR H2). intros a Ha Hb%list_elem_of_singleton. subst a. by set_solver.
Qed.
Lemma ints_nodup : NoDup (text <$> ints [1; 2; 3]) /\ NoDup (text <$> ints [2]).
Proof. split; by apply (bool_decide_unpack _); vm_compute. Qed.

Definition two : store := sets 1 2 3 2 TSet TSet.
Lemma two_ok : is_coll two 1 TSet 1 (ints [1; 2; 3]) /\ is_coll two 2 TSet 2 (ints [2]) /\ apart two 1 2.
Proof. apply sets_ok; by left. Qed.


(** The texts of the elements of the list [l] after an operation. *)
Definition after {A} (m : ST A) l (s : store) : option (list (list Z)) :=
  fst <$> (m;; t ← list_at l; xs ← walk 9 (first t); for_list (getString 1) xs) s.
(** The intersection of a set with itself has one element, and so has the set then. *)
Example self_intersect : (r ← fst <$> apply_op 1 Intersect 1 1 two; r) = Some 22%positive
  /\ after (apply_op 1 Intersect 1 1) 1 two = Some [bytes "1"].
Proof. by vm_compute. Qed.
(** The union with a set that has a double of the left one takes its elements. *)
Example right_operand_cut : after (mret tt) 1 (sets 3 1 2 2 TSet TSet) = Some [bytes "3"; bytes "1"; bytes "2"]
  /\ after (apply_op 1 Union 2 1) 1 (sets 3 1 2 2 TSet TSet) = Some [bytes "3"].
Proof. by vm_compute. Qed.
(** A set and a bag of the same two elements are included in one another, though neither
    strictly, and they are not equal. The examples of doc/manual/oql/OQL.tex have false
    for both inclusions. *)
Definition set_and_bag : store := mk_store
  {[1 := mk_atom (Coll TSet 1) None; 2 := mk_atom (Coll TBag 2) None;
    11 := mk_atom (Scalar (int 1)) (Some 12); 12 := mk_atom (Scalar (int 2)) None; 21 := mk_atom (Scalar (int 2)) (Some 22); 22 := mk_atom (Scalar (int 1)) None]}%positive
  {[1 := mk_oqmlAtomList 2 (Some 11) (Some 12); 2 := mk_oqmlAtomList 2 (Some 21) (Some 22)]}%positive.
Example included_in_bag :
  (fun op => b ← fst <$> oqml_set_compare 1 op 1 2 set_and_bag; b) <$> [Inf; InfEq; Sup; SupEq; Equal; Diff]
  = [Some false; Some true; Some false; Some true; Some false; Some true].
Proof. by vm_compute. Qed.
(** Two bags of as many elements are equal when the left one has those of the right one. *)
Definition bags : store := mk_store
  {[1 := mk_atom (Coll TBag 1) None; 2 := mk_atom (Coll TBag 2) None;
    11 := mk_atom (Scalar (int 1)) (Some 12); 12 := mk_atom (Scalar (int 2)) None; 21 := mk_atom (Scalar (int 1)) (Some 22); 22 := mk_atom (Scalar (int 1)) None]}%positive
  {[1 := mk_oqmlAtomList 2 (Some 11) (Some 12); 2 := mk_oqmlAtomList 2 (Some 21) (Some 22)]}%positive.
Example equal_bags : (fst <$> oqml_set_compare 1 Equal 1 2 bags) = Some (Some true) /\ (fst <$> oqml_set_compare 1 Equal 2 1 bags) = Some (Some false).
Proof. by vm_compute. Qed.
End Example.
