(* ===== verification/OqlSort.v ===== *)
(** * OQL: sorting

    The sorts of the collections of OQL (src/eyedb/oqlsort.cc), by the values of their
    atoms or by those at an index of their lists, on the chains of atoms of [OqlList].
    [qsort] is that of the C library, of which the order of equal elements is not
    known, and so is a parameter with its contract. *)

From Stdlib Require Import String SpecFloat Sorting.Sorted.
From S2P Require Import Prelude CString Value OqlExpr OqlList OqlSet.

#[local] Set Warnings "-register-all,-clear-no-such-hyp".

Implicit Types (s : store) (a b l : loc) (p : option loc) (xs ys : list loc) (v w : oqmlAtom) (vs ws : list oqmlAtom).

(** ** Types *)

Definition atom_type : Type := oqmlATOMTYPE + coll_type.
Definition content_type (c : content) : atom_type := match c with Scalar v => inl (type v) | Coll t _ => inr t end.
Definition check_sort_type (t : atom_type) : bool :=
  bool_decide (t ∈ ([inl INT; inl STRING; inl DOUBLE; inl CHAR; inl NULL_] : list atom_type)).

(** checkTypes: the loop from the type [t], [UNKNOWN_TYPE] being 0; [None] is an error. *)
Fixpoint same_types (t : atom_type) (ts : list atom_type) : option atom_type :=
  match ts with
  | [] => Some t
  | x :: ts =>
      if decide (t = inl UNKNOWN_TYPE) then same_types (if decide (x = inl NULL_) then t else x) ts
      else if decide (x <> inl NULL_ /\ t <> x) then None
      else same_types t ts
  end.
Definition check_last (t : atom_type) : option atom_type :=
  if decide (t = inl UNKNOWN_TYPE) then Some t else if check_sort_type t then Some t else None.
(** The type of no atom is not set. *)
Inductive checked := Rejected | NotSet | Type_is (t : atom_type).
#[export] Instance checked_eq : EqDecision checked.
Proof. solve_decision. Defined.
Definition checked_of (o : option atom_type) : checked := match o with Some t => Type_is t | None => Rejected end.
Definition checkTypes (l : loc) : ST checked :=
  x ← list_at l; fuel ← enough; xs ← walk fuel (first x);
  ts ← for_list (fun a => y ← atom_at a; mret (content_type (what y))) xs;
  mret (match ts with [] => NotSet | _ => checked_of (t ← same_types (inl UNKNOWN_TYPE) ts; check_last t) end).

(** checkTypes at an index of the lists; an atom that is NULL gives its type here. *)
Fixpoint check_lists (idx : nat) (t : atom_type) (xs : list loc) : ST (option atom_type) :=
  match xs with
  | [] => mret (Some t)
  | a :: xs =>
      y ← atom_at a;
      match what y with
      | Coll TList l | Coll TArray l =>
          z ← list_at l;
          if cnt z <=? Z.of_nat idx then mret None
          else
            p ← skip idx (first z);
            match p with
            | None => check_lists idx t xs
            | Some x =>
                y ← atom_at x;
                if decide (t = inl UNKNOWN_TYPE) then check_lists idx (content_type (what y)) xs
                else if decide (t <> content_type (what y)) then mret None
                else check_lists idx t xs
            end
      | _ => mret None
      end
  end.
Definition checkTypes_at (l : loc) (idx : nat) : ST checked :=
  x ← list_at l; fuel ← enough; xs ← walk fuel (first x);
  match xs with
  | [] => mret NotSet
  | _ => r ← check_lists idx (inl UNKNOWN_TYPE) xs; mret (checked_of (t ← r; check_last t))
  end.

Section Sorting.
(** The int of a double that an int does not hold, which C++ does not define. *)
Variable out_of_int : spec_float -> Z.
Variable qsort : forall A : Type, (A -> A -> Z) -> list A -> list A.

(** ** Comparison *)

Definition int_of_double (d : spec_float) : Z :=
  match d with
  | S754_zero _ => 0
  | S754_finite s m e =>
      let n := if 0 <=? e then Z.pos m * 2 ^ e else Z.pos m / 2 ^ (- e) in
      let n := if s then - n else n in
      if (-2 ^ 31 <=? n) && (n <? 2 ^ 31) then n else out_of_int d
  | _ => out_of_int d
  end.
(** oqml_sort_int, oqml_sort_string, oqml_sort_double, oqml_sort_char of two atoms of
    that type or NULL: the difference of the integers is of 64 bits. *)
Definition compare_values v w : Z :=
  match v, w with
  | oqmlAtom_null, oqmlAtom_null => 0
  | oqmlAtom_null, _ => -1
  | _, oqmlAtom_null => 1
  | oqmlAtom_int i, oqmlAtom_int j => s32 (i - j)
  | oqmlAtom_string s, oqmlAtom_string s' => strcmp_sign s s'
  | oqmlAtom_double d, oqmlAtom_double d' => int_of_double (double_sub d d')
  | oqmlAtom_char c, oqmlAtom_char d => c - d
  | _, _ => 0
  end.

Definition value_at s a : oqmlAtom := match atoms s !! a with Some (mk_atom (Scalar v) _) => v | _ => oqmlAtom_nil end.
Definition comparator (t : checked) : option (oqmlAtom -> oqmlAtom -> Z) :=
  match t with
  | Type_is (inl INT) | Type_is (inl STRING) | Type_is (inl DOUBLE) | Type_is (inl CHAR) => Some compare_values
  | _ => None
  end.

(** ** The sorts *)

Definition sort_realize (array : list loc) (reverse : bool) : ST loc :=
  alist ← new_list; for_list (append alist) (if reverse then rev array else array);; mret alist.
(** oqml_sort_simple; all is NULL, or there is no atom, where there is no comparator. *)
Definition sort_simple (ilist : loc) (reverse : bool) (t : checked) : ST loc :=
  x ← list_at ilist; fuel ← enough; array ← walk fuel (first x); s ← get;
  sort_realize (match comparator t with Some f => qsort loc (fun a b => f (value_at s a) (value_at s b)) array | None => array end) reverse.

(** oqmlSort::eval of the atom of its argument; [None] is an error. *)
Definition sort (reverse : bool) (a : loc) : ST (option loc) :=
  x ← atom_at a;
  match what x with
  | Coll _ l =>
      t ← checkTypes l;
      match t with Rejected => mret None | _ => ylist ← sort_simple l reverse t; r ← new_atom (Coll TList ylist); mret (Some r) end
  | Scalar _ => mret None
  end.

(** oqml_make_array of the collections and their atoms at the index. *)
Fixpoint make_pairs (idx : nat) (xs : list loc) : ST (list (loc * option loc)) :=
  match xs with
  | [] => mret []
  | a :: xs =>
      x ← atom_at a;
      match what x with
      | Coll _ l => p ← getAtom l idx; ps ← make_pairs idx xs; mret ((a, p) :: ps)
      | Scalar _ => mret []
      end
  end.
(** oqml_sort_list aborts for any other type, and the comparison follows the pointer to
    an atom that is not there. *)
Definition sort_list (ilist : loc) (reverse : bool) (idx : nat) (t : checked) : ST loc :=
  x ← list_at ilist; fuel ← enough; xs ← walk fuel (first x); array ← make_pairs idx xs; s ← get;
  match comparator t with
  | Some f =>
      if decide (2 <= length array /\ None ∈ (snd <$> array))%nat then undefined
      else sort_realize (fst <$> qsort _ (fun x y => f (match snd x with Some a => value_at s a | None => oqmlAtom_nil end)
                                                       (match snd y with Some a => value_at s a | None => oqmlAtom_nil end)) array) reverse
  | None => undefined
  end.
(** oqmlISort::eval of its two atoms. *)
Definition isort (reverse : bool) (a i : loc) : ST (option loc) :=
  x ← atom_at a; y ← atom_at i;
  match what x, what y with
  | Coll _ l, Scalar (oqmlAtom_int idx) =>
      if s32 idx <? 0 then mret None
      else
        t ← checkTypes_at l (Z.to_nat (s32 idx));
        match t with
        | Rejected => mret None
        | _ => ylist ← sort_list l reverse (Z.to_nat (s32 idx)) t; r ← new_atom (Coll TList ylist); mret (Some r)
        end
  | _, _ => mret None
  end.
End Sorting.

(** ** The order of values *)

Definition value_le v w : bool :=
  match v, w with
  | oqmlAtom_null, _ => true
  | _, oqmlAtom_null => false
  | oqmlAtom_int i, oqmlAtom_int j | oqmlAtom_char i, oqmlAtom_char j => i <=? j
  | oqmlAtom_string s, oqmlAtom_string s' => match strcmp s s' with Gt => false | _ => true end
  | _, _ => false
  end.
Definition of_type (t : oqmlATOMTYPE) v : Prop := v = oqmlAtom_null \/ type v = t.
(** The integers are close enough for their difference to be an int. *)
Definition close vs : Prop := forall i j, oqmlAtom_int i ∈ vs -> oqmlAtom_int j ∈ vs -> i - j < 2 ^ 31.
Definition ordered_type (t : oqmlATOMTYPE) : Prop := t = INT \/ t = STRING \/ t = CHAR.

Lemma compare_le out vs t v w : ordered_type t -> of_type t v -> of_type t w -> v ∈ vs -> w ∈ vs -> close vs ->
  (compare_values out v w <= 0 <-> value_le v w = true) /\ Z.sgn (compare_values out w v) = - Z.sgn (compare_values out v w).
Proof.
  intros Ht [->|Hv] [->|Hw] Iv Iw Hc; [done|by destruct w|by destruct v|].
  destruct v, w; cbn in Hv, Hw; try (exfalso; unfold ordered_type in Ht; naive_solver congruence); cbn [compare_values value_le].
  - pose proof (Hc _ _ Iv Iw). pose proof (Hc _ _ Iw Iv). rewrite !s32_id by lia. lia.
  - lia.
  - unfold strcmp_sign. rewrite (strcmp_antisym _ _). destruct (strcmp _ _); cbn; lia.
Qed.
Lemma value_le_trans t u v w : ordered_type t -> of_type t u -> of_type t v -> of_type t w -> value_le u v = true -> value_le v w = true -> value_le u w = true.
Proof.
  intros Ht Hu Hv Hw. destruct u, v, w; cbn [value_le]; try done; try lia.
  intros H1 H2. destruct (strcmp s s0) eqn:E1, (strcmp s0 s1) eqn:E2; try done.
  - apply strcmp_eq in E1 as ->. by rewrite E2.
  - apply strcmp_eq in E1 as ->. by rewrite E2.
  - apply strcmp_eq in E2 as ->. by rewrite E1.
  - by rewrite (strcmp_trans _ _ _ E1 E2).
Qed.

(** ** The contract of qsort *)

(** The comparison is that of a total order of the elements. *)
Record consistent {A} (cmp : A -> A -> Z) (l : list A) : Prop := {
  c_sign : forall x y, x ∈ l -> y ∈ l -> Z.sgn (cmp y x) = - Z.sgn (cmp x y);
  c_trans : forall x y z, x ∈ l -> y ∈ l -> z ∈ l -> cmp x y <= 0 -> cmp y z <= 0 -> cmp x z <= 0 }.
Record qsort_contract (qsort : forall A : Type, (A -> A -> Z) -> list A -> list A) : Prop := {
  q_permutation : forall A (cmp : A -> A -> Z) (us : list A), qsort A cmp us ≡ₚ us;
  q_sorted : forall A (cmp : A -> A -> Z) (us : list A), consistent cmp us -> StronglySorted (fun x y => cmp x y <= 0) (qsort A cmp us) }.

Lemma values_consistent {A} (out : spec_float -> Z) vs t (f : A -> oqmlAtom) (us : list A) : ordered_type t -> Forall (of_type t) vs -> close vs -> (forall x, x ∈ us -> f x ∈ vs) ->
  consistent (fun x y => compare_values out (f x) (f y)) us.
Proof.
  intros Ht Hvs Hc Hf. assert (forall x, x ∈ us -> of_type t (f x)) as Hty by (intros x Hx; eapply Forall_forall in Hvs; [exact Hvs|by apply Hf]).
  assert (forall x y, x ∈ us -> y ∈ us -> (compare_values out (f x) (f y) <= 0 <-> value_le (f x) (f y) = true)
    /\ Z.sgn (compare_values out (f y) (f x)) = - Z.sgn (compare_values out (f x) (f y))) as Hle
    by (intros x y Hx Hy; apply (compare_le out vs t); auto).
  split; intros x y.
  - intros Hx Hy. by apply Hle.
  - intros z Hx Hy Hz H1 H2. apply (Hle x y) in H1; [|done|done]. apply (Hle y z) in H2; [|done|done]. apply (Hle x z); [done|done|].
    apply (value_le_trans t (f x) (f y) (f z)); auto.
Qed.
Lemma sorted_values {A} (out : spec_float -> Z) vs t (f : A -> oqmlAtom) (us : list A) : ordered_type t -> Forall (of_type t) vs -> close vs -> (forall x, x ∈ us -> f x ∈ vs) ->
  StronglySorted (fun x y => compare_values out (f x) (f y) <= 0) us -> StronglySorted value_le (f <$> us).
Proof.
  intros Ht Hvs Hc Hf. assert (forall x, x ∈ us -> of_type t (f x)) as Hty by (intros x Hx; eapply Forall_forall in Hvs; [exact Hvs|by apply Hf]).
  induction us as [|x us IH]; intros Hs; [constructor|]. apply StronglySorted_inv in Hs as [Hs Hx]. rewrite fmap_cons. constructor.
  - apply IH; [| |done]; intros y Hy; [apply Hf|apply Hty]; set_solver.
  - apply Forall_fmap. eapply Forall_forall. intros y Hy. eapply Forall_forall in Hx; [|exact Hy]. cbn.
    apply Is_true_true. apply (compare_le out vs t); auto; first [apply Hty|apply Hf]; set_solver.
Qed.

(** ** The types of a collection *)

Lemma types_ok s xs vs : all_hold s xs vs -> for_list (fun a => y ← atom_at a; mret (content_type (what y))) xs s = Some ((fun v => inl (type v)) <$> vs, s).
Proof.
  induction 1 as [|a v xs vs [nx Ea] _ IH]; [done|]. cbn [for_list].
  rewrite (run_st (A := atom_type) _ _ s (inl (type v)) s) by (by rewrite (run_atom _ _ _ _ Ea)). by rewrite (run_st _ _ _ _ _ IH).
Qed.
Definition types vs : list atom_type := (fun v => inl (type v)) <$> vs.
Lemma checkTypes_ok s l vs n : represents s l vs n ->
  checkTypes l s = Some (match vs with [] => NotSet | _ => checked_of (t ← same_types (inl UNKNOWN_TYPE) (types vs); check_last t) end, s).
Proof.
  intros (xs & HL & Hvs & _). pose proof HL as [El Hc _]. unfold checkTypes. rewrite (run_list _ _ _ _ El), run_enough. cbn [first].
  rewrite (run_st _ _ _ _ _ (walk_chain _ _ _ _ Hc (is_list_size _ _ _ _ HL))), (run_st _ _ _ _ _ (types_ok _ _ _ Hvs)). by destruct vs.
Qed.

Lemma known v : type v <> UNKNOWN_TYPE.
Proof. by destruct v. Qed.
Lemma of_type_spec t v : of_type t v <-> type v = NULL_ \/ type v = t.
Proof. unfold of_type. by destruct v; naive_solver. Qed.
#[export] Instance of_type_dec t v : Decision (of_type t v).
Proof. refine (cast_if (decide (type v = NULL_ \/ type v = t))); by rewrite of_type_spec. Defined.
Lemma same_types_set t vs : t <> UNKNOWN_TYPE -> same_types (inl t) (types vs) = if decide (Forall (of_type t) vs) then Some (inl t) else None.
Proof.
  intros Ht. induction vs as [|v vs IH]; [by rewrite decide_True|]. unfold types. rewrite fmap_cons. cbn [same_types].
  rewrite decide_False by congruence. destruct (decide (_ /\ _)) as [Hd|Hd].
  - rewrite decide_False; [done|]. intros [Hv _]%Forall_cons. apply of_type_spec in Hv as [Hv|Hv]; destruct Hd as [H1 H2]; congruence.
  - fold (types vs). rewrite IH. apply decide_ext. rewrite Forall_cons. split; [|by intros [_ ?]]. intros H. split; [|done].
    apply of_type_spec. destruct (decide (type v = NULL_)) as [|Hn]; [by left|]. right. apply dec_stable. intros Hne. apply Hd. split; congruence.
Qed.
Lemma same_types_ok vs : match same_types (inl UNKNOWN_TYPE) (types vs) with
  | Some t => t = inl UNKNOWN_TYPE /\ Forall (fun v => v = oqmlAtom_null) vs \/ exists u, t = inl u /\ Forall (of_type u) vs /\ (exists v, v ∈ vs /\ type v = u /\ u <> NULL_)
  | None => exists v w, v ∈ vs /\ w ∈ vs /\ type v <> NULL_ /\ type w <> NULL_ /\ type v <> type w
  end.
Proof.
  induction vs as [|v vs IH]; [by left|]. unfold types. rewrite fmap_cons. cbn [same_types]. rewrite decide_True by done. fold (types vs). case_decide as Hd.
  - assert (v = oqmlAtom_null) as -> by (destruct v; cbn in Hd; congruence). destruct (same_types _ _) as [t|].
    + destruct IH as [[-> H]|(u & -> & H & w & Hw & Eu)]; [left; split; [done|by constructor]|]. right. exists u. split; [done|]. split; [constructor; [by left|done]|].
      exists w. set_solver.
    + destruct IH as (w & w' & ? & ? & ?). exists w, w'. set_solver.
  - rewrite same_types_set by apply known. assert (type v <> NULL_) as Hv by congruence. case_decide as Hf.
    + right. exists (type v). split; [done|]. split; [constructor; [by right|done]|]. exists v. set_solver.
    + apply not_Forall_Exists in Hf; [|apply _]. apply Exists_exists in Hf as (w & Hw & Hne). exists v, w.
      assert (~ (type w = NULL_ \/ type w = type v)) by (by rewrite <- of_type_spec). set_solver.
Qed.

(** ** The sorts *)

Lemma rev_fmap {A B} (f : A -> B) (us : list A) : f <$> rev us = rev (f <$> us).
Proof. induction us as [|u us IH]; [done|]. cbn [rev]. rewrite fmap_app, IH. done. Qed.
Lemma values_of s xs vs : all_hold s xs vs -> value_at s <$> xs = vs.
Proof. induction 1 as [|a v xs vs [nx Ea] _ IH]; [done|]. by rewrite fmap_cons, IH; unfold value_at; rewrite Ea. Qed.
Lemma permuted_hold s xs ys vs : all_hold s xs vs -> ys ≡ₚ xs -> all_hold s ys (value_at s <$> ys).
Proof.
  intros Hvs Hp. assert (forall a, a ∈ ys -> holds s a (value_at s a)) as H.
  { intros a Ha. rewrite Hp in Ha. apply list_elem_of_lookup in Ha as [i Hi]. destruct (Forall2_lookup_l _ _ _ _ _ Hvs Hi) as (v & _ & nx & Ea).
    exists nx. unfold value_at. by rewrite Ea. }
  clear Hp. induction ys as [|a ys IH]; [constructor|]. rewrite fmap_cons. constructor; [apply H; set_solver|apply IH; intros b Hb; apply H; set_solver].
Qed.

(** What is left of a list of which all the atoms are moved. *)
Lemma sort_realize_ok s l xs vs ys (reverse : bool) : is_list s l xs (Z.of_nat (length vs)) -> all_hold s xs vs -> 0 <= Z.of_nat (length vs) < 2 ^ 32 -> ys ≡ₚ xs ->
  let zs := if reverse then rev ys else ys in
  exists list s', sort_realize ys reverse s = Some (list, s') /\ represents s' list (value_at s <$> zs) (Z.of_nat (length (value_at s <$> zs)))
    /\ exists pre post, value_at s <$> zs = pre ++ post /\ head post = head vs /\ reads s' l post (Z.of_nat (length vs)).
Proof.
  intros HL Hvs Hn Hp zs. pose proof HL as [El Hc Hnd]. destruct (new_list_ok s) as (list & s1 & E1 & HL1 & Ea1 & Hfresh & Hl1).
  assert (zs ≡ₚ xs) as Hz by (unfold zs; destruct reverse; [rewrite <- Permutation_rev|]; done).
  destruct (append_all list s1 [] 0 HL1 zs) as (s2 & us & E2 & HL2 & [Hw Hl2]).
  { intros a Ha. rewrite Ea1. eapply chain_in; [exact Hc|]. by rewrite <- Hz. }
  { cbn. by rewrite Hz. }
  { lia. }
  { rewrite Hz, (all_hold_length _ _ _ Hvs). lia. }
  assert (same_what s s2) as Hs by (intros a; by rewrite Hw, Ea1). pose proof (permuted_hold s xs zs vs Hvs Hz) as Hzs. cbn [app] in HL2.
  exists list, s2. unfold sort_realize. rewrite (run_st _ _ _ _ _ E1), (run_st _ _ _ _ _ E2). split; [done|]. split.
  - exists zs. split; [by rewrite length_fmap|]. split; [by eapply all_hold_same|]. rewrite length_fmap, Hz, (all_hold_length _ _ _ Hvs). lia.
  - assert (l <> list) as Hne by congruence. destruct xs as [|h xs].
    + apply Permutation_nil_r in Hz. rewrite Hz. exists [], []. split; [done|]. split; [by inversion Hvs|]. exists [], None. rewrite Hl2, Hl1, El by done.
      split; [done|]. split; [done|constructor].
    + assert (h ∈ zs) as (z1 & z2 & Ez)%list_elem_of_split by (rewrite Hz; set_solver). exists (value_at s <$> z1), (value_at s <$> h :: z2).
      split; [by rewrite Ez, fmap_app|]. split; [by rewrite <- (values_of _ _ _ Hvs)|]. exists (h :: z2), (list.last (h :: xs)). rewrite Hl2, Hl1, El by done. split; [done|]. rewrite Ez in HL2, Hzs.
      split; [|rewrite fmap_app in Hzs; apply (all_hold_same _ _ _ _ Hs) in Hzs; by apply Forall2_app_inv in Hzs as [_ ?]; [|by rewrite length_fmap]].
      destruct HL2 as [_ Hc2 _]. apply segment_app in Hc2 as (q & _ & Hq). cbn [head]. pose proof (chain_head _ _ _ Hq) as Eq. cbn in Eq. by rewrite Eq in Hq.
Qed.

(** The type that is found. *)
Definition found vs : checked := match vs with [] => NotSet | _ => checked_of (t ← same_types (inl UNKNOWN_TYPE) (types vs); check_last t) end.
Definition sortable (t : oqmlATOMTYPE) : Prop := t = INT \/ t = STRING \/ t = DOUBLE \/ t = CHAR.
Lemma sortable_check t : t <> NULL_ -> check_sort_type (inl t) = true <-> sortable t.
Proof. intros Ht. unfold check_sort_type. rewrite bool_decide_eq_true, !elem_of_cons, elem_of_nil. unfold sortable. naive_solver. Qed.
Lemma found_ok vs : match found vs with
  | Rejected => ~ exists t, sortable t /\ Forall (of_type t) vs
  | Type_is (inl t) => sortable t /\ Forall (of_type t) vs /\ (exists v, v ∈ vs /\ type v = t) \/ t = UNKNOWN_TYPE /\ Forall (fun v => v = oqmlAtom_null) vs
  | NotSet => vs = []
  | Type_is (inr _) => False
  end.
Proof.
  unfold found. destruct vs as [|v vs]; [done|]. set (us := v :: vs). pose proof (same_types_ok us) as H. destruct (same_types _ _) as [t|]; cbn [mbind option_bind checked_of].
  - destruct H as [[-> H]|(u & -> & H & w & Hw & Eu & Hu)]; [by right|]. unfold check_last. rewrite decide_False by (rewrite <- Eu; pose proof (known w); congruence).
    destruct (check_sort_type (inl u)) eqn:Ec; cbn [checked_of].
    + apply sortable_check in Ec; [|done]. left. split; [done|]. split; [done|]. by exists w.
    + intros (t & Ht & Hall). eapply Forall_forall in Hall; [|exact Hw]. apply of_type_spec in Hall as [Hall|Hall]; [congruence|].
      assert (u = t) as -> by congruence. apply (sortable_check t) in Ht; congruence.
  - destruct H as (w & w' & Hw & Hw' & N1 & N2 & Hne). intros (t & _ & Hall). pose proof (proj1 (Forall_forall _ _) Hall) as Hall'.
    pose proof (proj1 (of_type_spec t w) (Hall' w Hw)). pose proof (proj1 (of_type_spec t w') (Hall' w' Hw')). intuition congruence.
Qed.

Section Correctness.
Context (out : spec_float -> Z) (qsort : forall A : Type, (A -> A -> Z) -> list A -> list A) (contract : qsort_contract qsort).

(** The array in the order of qsort. *)
Definition arranged s xs vs : list loc :=
  match comparator out (found vs) with Some f => qsort loc (fun a b => f (value_at s a) (value_at s b)) xs | None => xs end.
Lemma arranged_permutation s xs vs : arranged s xs vs ≡ₚ xs.
Proof using contract. unfold arranged. destruct (comparator _ _); [by apply q_permutation|done]. Qed.

Lemma sort_ok s (reverse : bool) a ta l nx xs vs : atoms s !! a = Some (mk_atom (Coll ta l) nx) -> is_list s l xs (Z.of_nat (length vs)) -> all_hold s xs vs ->
  0 <= Z.of_nat (length vs) < 2 ^ 32 ->
  let zs := if reverse then rev (arranged s xs vs) else arranged s xs vs in
  if decide (found vs = Rejected) then sort out qsort reverse a s = Some (None, s)
  else exists r s' list, sort out qsort reverse a s = Some (Some r, s') /\ atoms s' !! r = Some (mk_atom (Coll TList list) None)
    /\ represents s' list (value_at s <$> zs) (Z.of_nat (length (value_at s <$> zs)))
    /\ exists pre post, value_at s <$> zs = pre ++ post /\ head post = head vs /\ reads s' l post (Z.of_nat (length vs)).
Proof using contract.
  intros Ea HL Hvs Hn zs. unfold sort. rewrite (run_atom _ _ _ _ Ea). cbn [what].
  rewrite (run_st _ _ _ _ _ (checkTypes_ok s l vs _ (ex_intro _ xs (conj HL (conj Hvs Hn))))). fold (found vs). pose proof HL as [El Hch _].
  destruct (sort_realize_ok s l xs vs _ reverse HL Hvs Hn (arranged_permutation s xs vs)) as (list & s1 & E & HR & pre & post & Epp & Hh & Hpost). fold zs in HR, Epp.
  assert (sort_simple out qsort l reverse (found vs) s = Some (list, s1)) as Es.
  { unfold sort_simple. rewrite (run_list _ _ _ _ El), run_enough. cbn [first].
    rewrite (run_st _ _ _ _ _ (walk_chain _ _ _ _ Hch (is_list_size _ _ _ _ HL))), run_get. exact E. }
  destruct (new_atom_ok (Coll TList list) s1) as [En Hf]. case_decide as Hr; [by rewrite Hr|].
  exists (base.fresh (dom (atoms s1))). eexists _, list. split; [|split; [|split]].
  - destruct (found vs); [done| |]; by rewrite (run_st _ _ _ _ _ Es), (run_st _ _ _ _ _ En).
  - cbn. by rewrite lookup_insert_eq.
  - eapply frame_coll; [exact HR|done|]. intros b Hb. by apply Hf.
  - exists pre, post. split; [done|]. split; [done|]. destruct Hpost as (us & p & Eu & Hcu & Hu). exists us, p. split; [done|].
    assert (forall b, b ∈ us -> is_Some (atoms s1 !! b)) as Hin by (intros b; by apply (chain_in _ _ _ _ Hcu)).
    split; [eapply segment_frame; [|exact Hcu]|eapply all_hold_frame; [exact Hu|]]; intros b Hb; by apply Hf, Hin.
Qed.

(** C19: the sort of a collection of integers, strings or characters, or NULL, is a list
    of its elements in order, NULL first, or in the reverse order, when the differences
    of the integers are ints. *)
Theorem sort_sorts s (reverse : bool) a ta l nx vs t : atoms s !! a = Some (mk_atom (Coll ta l) nx) -> represents s l vs (Z.of_nat (length vs)) ->
  ordered_type t -> Forall (of_type t) vs -> close vs ->
  exists r s' list vs', sort out qsort reverse a s = Some (Some r, s') /\ atoms s' !! r = Some (mk_atom (Coll TList list) None)
    /\ represents s' list vs' (Z.of_nat (length vs')) /\ vs' ≡ₚ vs /\ StronglySorted value_le (if reverse then rev vs' else vs').
Proof using contract.
  intros Ea (xs & HL & Hvs & Hn) Ht Hty Hc. pose proof (sort_ok s reverse a ta l nx xs vs Ea HL Hvs Hn) as H. cbn in H.
  pose proof (arranged_permutation s xs vs) as Hp. pose proof (values_of _ _ _ Hvs) as Hvals.
  assert (found vs <> Rejected /\ StronglySorted value_le (value_at s <$> arranged s xs vs)) as [Hf Hs].
  { assert (sortable t) as Hst by (unfold ordered_type, sortable in *; naive_solver). pose proof (found_ok vs) as Hfo. unfold arranged.
    destruct (found vs) as [| |[u|u]]; [exfalso; apply Hfo; by exists t| |split; [done|]|done].
    - split; [done|]. cbn [comparator]. rewrite Hvals, Hfo. constructor.
    - destruct Hfo as [(Hu & Hall & _)|[-> Hall]].
      + assert (comparator out (Type_is (inl u)) = Some (compare_values out)) as -> by (unfold sortable in Hu; destruct Hu as [-> | [-> | [-> | ->]]]; done).
        pose proof (fun b Hb => eq_ind _ (fun vs => value_at s b ∈ vs) (list_elem_of_fmap_2 (value_at s) xs b Hb) _ Hvals) as Hin.
        eapply sorted_values; [exact Ht|exact Hty|exact Hc| |apply (q_sorted _ contract); by eapply values_consistent].
        intros b Hb. apply Hin. by rewrite <- (q_permutation _ contract).
      + cbn [comparator]. rewrite Hvals. clear - Hall. induction Hall as [|v vs -> Hall IH]; [constructor|]. constructor; [done|]. by apply Forall_forall. }
  rewrite decide_False in H by done. destruct H as (r & s' & list & E & Er & HR & _). eexists r, s', list, _. split; [exact E|]. split; [exact Er|]. split; [exact HR|].
  assert (value_at s <$> arranged s xs vs ≡ₚ vs) as Hpv by (eapply Permutation_trans; [by apply fmap_Permutation, Hp|by rewrite Hvals]).
  destruct reverse; (split; [|rewrite ?rev_fmap, ?rev_involutive; exact Hs]); [|exact Hpv].
  rewrite rev_fmap. eapply Permutation_trans; [symmetry; apply Permutation_rev|exact Hpv].
Qed.

(** Any other collection is an error: those with elements of two types, and those
    of another type. *)
Theorem sort_rejects s (reverse : bool) a ta l nx vs : atoms s !! a = Some (mk_atom (Coll ta l) nx) -> represents s l vs (Z.of_nat (length vs)) ->
  (exists r s', sort out qsort reverse a s = Some (Some r, s')) <-> exists t, sortable t /\ Forall (of_type t) vs.
Proof using contract.
  intros Ea (xs & HL & Hvs & Hn). pose proof (sort_ok s reverse a ta l nx xs vs Ea HL Hvs Hn) as H. cbn in H. pose proof (found_ok vs) as Hf. case_decide as Hr.
  - rewrite Hr in Hf. rewrite H. split; [by intros (r & s' & ?)|done].
  - split; [intros _|intros _; destruct H as (r & s' & list & E & _); by exists r, s']. destruct (found vs) as [| |[t|t]]; [done| | |done].
    + subst vs. exists INT. split; [by left|constructor].
    + destruct Hf as [(Ht & Hall & _)|[_ Hall]]; [by exists t|]. exists INT. split; [by left|]. eapply Forall_impl; [exact Hall|]. intros v ->. by left.
Qed.

(** The sort takes the atoms of its operand, which is left with the end of the result
    that begins at its first element. *)
Theorem sorted_operand_cut s (reverse : bool) a ta l nx vs r s' : atoms s !! a = Some (mk_atom (Coll ta l) nx) -> represents s l vs (Z.of_nat (length vs)) ->
  sort out qsort reverse a s = Some (Some r, s') ->
  exists list pre post, atoms s' !! r = Some (mk_atom (Coll TList list) None) /\ represents s' list (pre ++ post) (Z.of_nat (length vs))
    /\ pre ++ post ≡ₚ vs /\ head post = head vs /\ reads s' l post (Z.of_nat (length vs)).
Proof using contract.
  intros Ea (xs & HL & Hvs & Hn) Er. pose proof (sort_ok s reverse a ta l nx xs vs Ea HL Hvs Hn) as H. cbn in H. case_decide as Hr; [congruence|].
  destruct H as (r' & s'' & list & E & Hr' & HR & pre & post & Epp & Hh & Hpost). assert (r' = r /\ s'' = s') as [-> ->] by (split; congruence).
  assert (pre ++ post ≡ₚ vs) as Hp.
  { rewrite <- Epp. transitivity (value_at s <$> xs); [|by rewrite (values_of _ _ _ Hvs)]. apply fmap_Permutation. pose proof (arranged_permutation s xs vs) as Ha.
    destruct reverse; [|exact Ha]. eapply Permutation_trans; [symmetry; apply Permutation_rev|exact Ha]. }
  exists list, pre, post. rewrite Epp, (Permutation_length Hp) in HR. done.
Qed.
End Correctness.

(** ** Examples *)

Module Example.

Import OqlList.Example OqlSet.Example.

(** A qsort that inserts the elements one by one. *)
Fixpoint insert {A} (cmp : A -> A -> Z) (x : A) (us : list A) : list A :=
  match us with [] => [x] | y :: us' => if cmp x y <=? 0 then x :: us else y :: insert cmp x us' end.
Definition insertion_sort (A : Type) (cmp : A -> A -> Z) (us : list A) : list A := foldr (insert cmp) [] us.
Lemma insert_permutation {A} (cmp : A -> A -> Z) x us : insert cmp x us ≡ₚ x :: us.
Proof. induction us as [|y us IH]; cbn; [done|]. destruct (_ <=? _); [done|]. rewrite IH. apply Permutation_swap. Qed.
Lemma insert_sorted {A} (cmp : A -> A -> Z) (all : list A) x us : consistent cmp all -> x ∈ all -> us ⊆ all ->
  StronglySorted (fun x y => cmp x y <= 0) us -> StronglySorted (fun x y => cmp x y <= 0) (insert cmp x us).
Proof.
  intros Hc Hx. induction us as [|y us IH]; intros Hs H; cbn; [by repeat constructor|]. apply StronglySorted_inv in H as [H Hy].
  destruct (cmp x y <=? 0) eqn:E; constructor.
  - by constructor.
  - constructor; [lia|]. apply Forall_forall. intros z Hz. pose proof (proj1 (Forall_forall _ _) Hy z Hz) as Hyz. apply (c_trans _ _ Hc x y z); [done| | |lia|exact Hyz]; apply Hs; set_solver.
  - apply IH; [|done]. intros z Hz. apply Hs. set_solver.
  - rewrite insert_permutation. constructor; [|done]. pose proof (c_sign _ _ Hc x y Hx (Hs y ltac:(set_solver))). lia.
Qed.
Lemma insertion_contract : qsort_contract insertion_sort.
Proof.
  split.
  - intros A cmp us. induction us as [|x us IH]; [done|]. cbn. rewrite insert_permutation. by constructor.
  - intros A cmp us Hc. assert (forall ts : list A, ts ⊆ us -> StronglySorted (fun x y => cmp x y <= 0) (foldr (insert cmp) [] ts) /\ foldr (insert cmp) [] ts ⊆ us) as H.
    { induction ts as [|x ts IH]; intros Hs; [split; [constructor|set_solver]|]. destruct IH as [IH1 IH2]; [set_solver|]. split.
      - apply (insert_sorted cmp us); [done|set_solver|done|done].
      - intros y. cbn [foldr]. rewrite insert_permutation. set_solver. }
    by apply H.
Qed.

(** The bag 1 of 3, 1 and 2. *)
Definition bag : store := sets 3 1 2 0 TBag TBag.
Lemma bag_ok : atoms bag !! 1%positive = Some (mk_atom (Coll TBag 1) None) /\ represents bag 1 (ints [3; 1; 2]) 3.
Proof.
  split; [done|]. exists [11; 12; 13]%positive. split; [|by split; [repeat constructor; eexists|]].
  split; [done| |by apply (bool_decide_unpack _); vm_compute]. cbn. by repeat first [split; [done|]|eexists].
Qed.
Lemma bag_close : Forall (of_type INT) (ints [3; 1; 2]) /\ close (ints [3; 1; 2]).
Proof.
  split; [repeat constructor; by right|]. intros i j Hi Hj. assert (forall k, oqmlAtom_int k ∈ ints [3; 1; 2] -> 1 <= k <= 3) as H; [|apply H in Hi, Hj; lia].
  intros k (z & [= ->] & Hz)%list_elem_of_fmap. set_unfold. lia.
Qed.
Definition no_int (d : spec_float) : Z := 0.
Lemma sort_sorts_witness : exists r s' list vs', sort no_int insertion_sort false 1 bag = Some (Some r, s') /\ atoms s' !! r = Some (mk_atom (Coll TList list) None)
    /\ represents s' list vs' (Z.of_nat (length vs')) /\ vs' ≡ₚ ints [3; 1; 2] /\ StronglySorted value_le vs'.
Proof.
  destruct bag_ok as [H1 H2], bag_close as [H3 H4].
  exact (sort_sorts no_int insertion_sort insertion_contract bag false 1 TBag 1 None (ints [3; 1; 2]) INT H1 H2 (or_introl eq_refl) H3 H4).
Defined.
Lemma sort_rejects_witness : (exists r s', sort no_int insertion_sort false 1 bag = Some (Some r, s')) <-> exists t, sortable t /\ Forall (of_type t) (ints [3; 1; 2]).
Proof. destruct bag_ok as [H1 H2]. exact (sort_rejects no_int insertion_sort insertion_contract bag false 1 TBag 1 None (ints [3; 1; 2]) H1 H2). Defined.

(** The elements of the list of the atom [r]. *)
Definition sorted (reverse : bool) (s : store) : option (list (list Z) * list (list Z)) :=
  fst <$> (r ← sort no_int insertion_sort reverse 1; r ← deref r; x ← atom_at r;
           match what x with
           | Coll _ l => t ← list_at l; xs ← walk 9 (first t); ss ← for_list (getString 1) xs;
                         t ← list_at 1; ys ← walk 9 (first t); ts ← for_list (getString 1) ys; mret (ss, ts)
           | Scalar _ => undefined
           end) s.
(** The list and what is left of the operand. *)
Example sort_and_operand : sorted false bag = Some ([bytes "1"; bytes "2"; bytes "3"], [bytes "3"])
  /\ sorted true bag = Some ([bytes "3"; bytes "2"; bytes "1"], [bytes "3"; bytes "2"; bytes "1"]).
Proof. by vm_compute. Qed.
Lemma sorted_operand_cut_witness : exists r s' list pre post, sort no_int insertion_sort false 1 bag = Some (Some r, s')
  /\ atoms s' !! r = Some (mk_atom (Coll TList list) None) /\ represents s' list (pre ++ post) 3
  /\ pre ++ post ≡ₚ ints [3; 1; 2] /\ head post = Some (int 3) /\ reads s' 1 post 3.
Proof.
  destruct bag_ok as [H1 H2].
  destruct (sort no_int insertion_sort false 1 bag) as [[[r|] s']|] eqn:E; [|exfalso; revert E; by vm_compute|exfalso; revert E; by vm_compute].
  exists r, s'. destruct (sorted_operand_cut no_int insertion_sort insertion_contract bag false 1 TBag 1 None (ints [3; 1; 2]) r s' H1 H2 E) as (list & pre & post & H).
  exists list, pre, post. split; [reflexivity|exact H].
Defined.

(** The integers 2^32 and 0 are the same, and 2^31 and 0 are less than one another. *)
Example far_integers : sorted false (sets 4294967296 0 1 0 TBag TBag) = Some ([bytes "4294967296"; bytes "0"; bytes "1"], [bytes "4294967296"; bytes "0"; bytes "1"])
  /\ fst <$> sorted false (sets 2147483648 0 1 0 TBag TBag) = Some [bytes "2147483648"; bytes "0"; bytes "1"].
Proof. by vm_compute. Qed.
(** The doubles 0.5, 0 and -0.75: the comparison does not tell the first from the second
    nor the second from the third, but it tells the first from the third. *)
Example near_doubles : let half := S754_finite false 4503599627370496 (-53) in let d := S754_finite true 6755399441055744 (-53) in let zero := S754_zero false in
  compare_values no_int (oqmlAtom_double half) (oqmlAtom_double zero) = 0 /\ compare_values no_int (oqmlAtom_double zero) (oqmlAtom_double d) = 0
  /\ compare_values no_int (oqmlAtom_double half) (oqmlAtom_double d) = 1.
Proof. by vm_compute. Qed.

(** The sort by index of no list, and that of a list of NULL, abort. *)
Definition rows (c : content) (n : Z) : store := mk_store
  {[1 := mk_atom (Coll TList 1) None; 2 := mk_atom (Scalar (int 0%Z)) None; 11 := mk_atom (Coll TList 2) None; 21 := mk_atom c None]}%positive
  {[1 := mk_oqmlAtomList n (if decide (n = 0%Z) then None else Some 11) (if decide (n = 0%Z) then None else Some 11); 2 := mk_oqmlAtomList 1 (Some 21) (Some 21)]}%positive.
Example isort_aborts : isort no_int insertion_sort false 1 2 (rows (Scalar (int 5)) 0) = None
  /\ isort no_int insertion_sort false 1 2 (rows (Scalar oqmlAtom_null) 1) = None
  /\ fst <$> isort no_int insertion_sort false 1 2 (rows (Scalar (int 5)) 1) = Some (Some 22%positive).
Proof. by vm_compute. Qed.
End Example.
